(* ===== verification/_CoqProject ===== *)
-Q . S2P
Prelude.v
Constants.v
Errors.v
Clock.v
Cid.v
Frame.v
Packet.v
Version.v
AckTracker.v
FlowControl.v
Mtud.v
PacketManager.v
AckExchange.v
Stream.v
StreamWait.v
Float64.v
Pacing.v
Congestion.v
Connection.v
Recovery.v
ConnReach.v
Tiling.v
Dispatch.v
Lifecycle.v
Wire.v
History.v
Ledger.v
Bookkeeping.v
EndToEnd.v
Delivery.v
Progress.v
Transfer.v
Multiplexer.v
Batch.v
ReadLoop.v
System.v
Interop.v
Entry.v
