(* ===== verification/Prelude.v ===== *)
(** * go-udx: a verification development

    go-udx carries reliable, multiplexed byte streams over UDP, in the manner of
    QUIC (RFC 9000, RFC 9002). A multiplexer owns a socket and routes datagrams
    to connections by connection ID. A connection numbers and tracks the packets
    it sends, acknowledges those it receives, detects loss, controls congestion
    and finds the path's datagram size. Streams reassemble their bytes by offset
    and limit their peer by flow control. This library translates that code to
    executable definitions, under the source's names, and proves what it
    promises.

    ** The files and the code they model

    - [Prelude]: Go's integers ([u8] ... [u64], [i64] and the wrapping operators
      [+i], [-i], [*i], [/i]), the result of code that can fail or panic
      ([outcome]), byte slices, and shared lemmas, tactics and hints.
    - [Constants] (constants.go), [Cid] (cid.go), [Frame] (frame.go), [Packet]
      (packet.go), [Version] (version.go): the wire format, encoders and decoders.
      [Errors] (errors.go): error values. [Clock] (clock.go, options of udx.go).
    - [AckTracker] (ack_tracker.go): the bitmap of arrivals and the ACK frames
      built from it. [PacketManager] (packet_manager.go): tracking, ACK
      processing, loss detection, re-sending. [AckExchange] puts both ends
      together.
    - [FlowControl] (flow_control.go) and [Mtud] (pmtud.go).
    - [Stream] (stream.go): reassembly, [Read], [Write], FIN and reset.
      [StreamWait]: when calls that wait are woken.
    - [Float64]: IEEE 754 binary64 and the functions of package math that
      [Pacing] (pacing.go) and [Congestion] (congestion.go) use.
    - [Connection] (connection.go): the state of a connection, a record per
      mutex, and every method. [Recovery] and [ConnReach] prove the invariant of
      loss recovery through every operation, [Dispatch] what received packets
      and calls do, [Lifecycle] the idle timeout, [Wire] what is sent, [History] that
      it stays sent, [EndToEnd] that two connections carry the bytes of their
      applications, [Delivery] that what is acknowledged has been delivered,
      [Progress] that what is outstanding can still be delivered, [Transfer] that
      all of a batch gets across ([Tiling]: data cut into chunks). [Ledger] is
      the abstract machine of what a sender keeps of its packets, with seven
      steps, and [Bookkeeping] proves that every operation of an open connection
      is a sequence of them.
    - [Multiplexer] (multiplexer.go): routing, early packets, accepting,
      dialling, closing. [Batch] (batchconn.go): batched socket calls.
      [ReadLoop]: the loop that reads the socket. [System]: any number of
      multiplexers and a network between them.
      [Interop] (cmd/interop-server): the echo server, its loop over a socket and
      what it answers. [Entry] (udx.go): the package's [Listen] and [Dial].

    ** What is proved

    - Wire format: decoding never reads outside a datagram, and inverts encoding
      ([packet_roundtrip], [UnmarshalPacket_safe]); everything a connection sends
      decodes, and fits MaxDatagramSize but for a close with a long reason
      ([wire_decodes]).
    - Acknowledgement: the bitmap implements the set of arrivals, the ACK frame
      says exactly what arrived as far down as its format reaches, and the sender
      reads exactly that ([tracker_refines_set], [ack_frame_exact],
      [ack_end_to_end]); when a packet
      is acknowledged ([ack_policy]).
    - Loss recovery: what is declared lost is what RFC 9002 says
      ([detectLost_exact]); in every run of a connection no data is forgotten,
      the bytes in flight are those of the tracked packets, a timer stands as
      long as something is outstanding, and the resend loop ends
      ([no_data_forgotten], [inflight_accounted], [recovery_never_stalls],
      [flushLost_terminates]). The exact count of bytes in flight and the
      standing timer need that no probe timeout had to split a packet;
      [rechunk_disarms_recovery] is a run in which one does and recovery stops.
    - Streams: what is read is a prefix of what was written, complete at EOF,
      whatever the order of arrival; writers tile the stream; the receiver's
      buffer is bounded although WINDOW_UPDATE frames are lost and reordered
      ([stream_reads_prefix], [stream_eof_complete], [reassembly_complete],
      [writes_tile_stream], [link_back_pressure]). Reassembly loses nothing of
      data cut as this library cuts it, but a longer chunk at an offset that is
      held already is discarded ([reassembly_complete] shows both).
    - End to end: with two connections and a network that reorders, duplicates
      and loses datagrams between them, what one application reads is a
      beginning of what the other wrote, and all of it at the end of file
      ([end_to_end_integrity]); once nothing of a stream is left to be
      acknowledged or sent again, everything written on it has been read or waits
      in the reader's buffer ([acknowledged_is_delivered]); whatever has happened,
      as long as both are open, timers and arriving datagrams can still bring all
      that is outstanding across and its acknowledgement back
      ([outstanding_data_drains]); in every run that goes on from a probe timeout,
      the arrival of what it sent delivers the oldest data and is acknowledged
      within MaxAckDelay ([probe_timeout_delivers]); a batch whose
      datagrams all arrive can be read in full ([transfer_delivers]). The end of
      a stream can be lost: [overtaking_fin_is_lost] is a run in which it is.
    - Processes: an accepted connection of one of many multiplexers and the
      connection that was dialled are such a pair of connections, whatever the
      network does to datagrams and through routing, early packets and queues, as
      long as no third connection uses their IDs ([accepted_is_paired],
      [network_integrity]). A late repetition of a SYN can make one:
      [late_syn_reopens] is a run in which bytes are delivered twice that way.
    - Congestion control and path MTU: bounds of the window and the estimates, as
      long as the CUBIC target stays below 2^52 ([window_floor], which also shows
      that the window becomes negative when it does not), one contraction per recovery epoch, the probe backoff; the search finds
      the path's size and ends.
    - Connections and multiplexer: the stream table is well formed and frames
      reach their stream; only an answered challenge, drawn for that address, moves a
      connection ([address_moves_on_answer]); a close
      is complete; a silent connection is closed; datagrams reach the connection
      they name, and packets that overtake their SYN are kept; every connection
      of a multiplexer is in a state the connection theorems speak of
      ([multiplexer_ok]); the read loop handles every datagram once and in order,
      however the socket batches them ([readLoop_handles_in_order]).
    - Waiting: no call on a stream sleeps past its deadline, and a writer without
      credit asks again ([reader_wakes_at_deadline], [blocked_writer_asks_again]).

    ** How the code is modelled

    - An operation is a function from state to state. What the code does under a
      mutex, or in one call, is one step; [conn_step], [mux_step], [node_step],
      [stream_op] and their closures are all sequences of them, which is how goroutines and
      timers interleave. Calls that wait ([Read], [Write], [awaitSendCredit],
      [InitiatePathMigration], [Accept]) are their sections between waits.
    - An operation reads the clock once, as its argument [now], in nanoseconds;
      a timer is the deadline it is armed for, and its callback is a step.
    - [SentPacket]s and [Connection]s, which the code shares through pointers,
      live in stores and are referred to by key. A loop over a Go map takes the
      order it visits as a parameter ([RangeOrder]).
    - crypto/rand and the socket calls are parameters. A connection's ghost field
      [wire] logs what it handed to the socket and [issued] counts the sequence
      numbers it took; nothing computes with them. [migrations] holds, for every
      call of [InitiatePathMigration] that waits, the challenge and the address
      that are local variables of the call.
    - Loops that are not structural take fuel that is proved to be enough: the
      frame loop of the decoder and the chunking of data the number of bytes,
      the release of held chunks their number, the scan for gaps the 512 numbers
      of the history, the MTU search 819 probes, a batch write the number of
      datagrams, the resend loop one round per queued packet and byte of it
      ([flush_fuel]).
    - Sequence numbers are 32 bits. Theorems about runs of the packet manager
      hold up to the wrap-around, and say so; those about stream tables hold up
      to 2^30 streams.
    - Floating point follows amd64, where the compiler fuses no multiplications
      with additions.

    ** What is not modelled

    What is logged; what the system does to open a socket; interfaces and structs no code uses (MetricsObserver,
    ConnectionCIDs); and memory: the code's slices are values here, which is the
    same thing where it copies or never writes again. Deadlines of streams are
    compared with the system's time and everything else with the clock of the
    options; an operation here has one reading of the time for both. *)

From Stdlib Require Export ZArith Lia.
From Stdlib Require Export Strings.Byte.
From stdpp Require Export base tactics numbers sorting option list gmap sets.

#[global] Open Scope Z_scope.

(** ** Machine integers

    Go's fixed-width unsigned conversions keep the low bits; [int64] (and
    [int], 64 bits wide on every supported platform) keep them in two's
    complement. *)

Definition u8 (z : Z) : Z := z mod 2 ^ 8.
Definition u16 (z : Z) : Z := z mod 2 ^ 16.
Definition u32 (z : Z) : Z := z mod 2 ^ 32.
Definition u64 (z : Z) : Z := z mod 2 ^ 64.
Definition i64 (z : Z) : Z := (z + 2 ^ 63) mod 2 ^ 64 - 2 ^ 63.

Declare Scope go_scope.
Delimit Scope go_scope with go.
Notation "x +i y" := (i64 (x + y)) (at level 50, left associativity) : go_scope.
Notation "x -i y" := (i64 (x - y)) (at level 50, left associativity) : go_scope.
Notation "x *i y" := (i64 (x * y)) (at level 40, left associativity) : go_scope.
Notation "x /i y" := (i64 (Z.quot x y)) (at level 40, left associativity) : go_scope.
#[global] Open Scope go_scope.

(** The values a field of each width can hold. *)
Definition is_u8 (z : Z) : Prop := 0 <= z < 2 ^ 8.
Definition is_u16 (z : Z) : Prop := 0 <= z < 2 ^ 16.
Definition is_u32 (z : Z) : Prop := 0 <= z < 2 ^ 32.
Definition is_u64 (z : Z) : Prop := 0 <= z < 2 ^ 64.
Definition is_i64 (z : Z) : Prop := - 2 ^ 63 <= z < 2 ^ 63.

Lemma u8_small z : is_u8 z -> u8 z = z.
Proof. apply Z.mod_small. Qed.
Lemma u16_small z : is_u16 z -> u16 z = z.
Proof. apply Z.mod_small. Qed.
Lemma u32_small z : is_u32 z -> u32 z = z.
Proof. apply Z.mod_small. Qed.
Lemma u64_small z : is_u64 z -> u64 z = z.
Proof. apply Z.mod_small. Qed.
Lemma i64_small z : is_i64 z -> i64 z = z.
Proof. unfold is_i64, i64; intros H. rewrite Z.mod_small by lia. lia. Qed.

Lemma u8_range z : is_u8 (u8 z).
Proof. apply Z.mod_pos_bound; lia. Qed.
Lemma u16_range z : is_u16 (u16 z).
Proof. apply Z.mod_pos_bound; lia. Qed.
Lemma u32_range z : is_u32 (u32 z).
Proof. apply Z.mod_pos_bound; lia. Qed.
Lemma u64_range z : is_u64 (u64 z).
Proof. apply Z.mod_pos_bound; lia. Qed.
Lemma i64_range z : is_i64 (i64 z).
Proof.
  unfold is_i64, i64. pose proof (Z.mod_pos_bound (z + 2 ^ 63) (2 ^ 64)). lia.
Qed.

#[export] Instance is_u8_dec z : Decision (is_u8 z).
Proof. unfold is_u8. apply _. Defined.
#[export] Instance is_u16_dec z : Decision (is_u16 z).
Proof. unfold is_u16. apply _. Defined.
#[export] Instance is_u32_dec z : Decision (is_u32 z).
Proof. unfold is_u32. apply _. Defined.
#[export] Instance is_u64_dec z : Decision (is_u64 z).
Proof. unfold is_u64. apply _. Defined.

Create HintDb udx.
#[export] Hint Resolve u8_range u16_range u32_range u64_range i64_range : udx.

(** [width] discharges linear goals about fields of a known width. *)
Ltac width := unfold is_u8, is_u16, is_u32, is_u64, is_i64 in *; lia.

(** Removes every wrap-around whose argument is provably in range. *)
Ltac nowrap :=
  repeat match goal with
  | |- context [i64 ?e] => rewrite (i64_small e) by width
  | |- context [u32 ?e] => rewrite (u32_small e) by width
  | |- context [u64 ?e] => rewrite (u64_small e) by width
  | |- context [u16 ?e] => rewrite (u16_small e) by width
  | |- context [u8 ?e] => rewrite (u8_small e) by width
  | H : context [i64 ?e] |- _ => rewrite (i64_small e) in H by width
  | H : context [u32 ?e] |- _ => rewrite (u32_small e) in H by width
  | H : context [u64 ?e] |- _ => rewrite (u64_small e) in H by width
  end.

(** Splits every boolean integer comparison in sight into its two cases. *)
Ltac zcases :=
  repeat match goal with
  | |- context [Z.ltb ?a ?b] => destruct (Z.ltb_spec a b)
  | |- context [Z.leb ?a ?b] => destruct (Z.leb_spec a b)
  | |- context [Z.eqb ?a ?b] => destruct (Z.eqb_spec a b)
  | H : context [Z.ltb ?a ?b] |- _ => destruct (Z.ltb_spec a b)
  | H : context [Z.leb ?a ?b] |- _ => destruct (Z.leb_spec a b)
  | H : context [Z.eqb ?a ?b] |- _ => destruct (Z.eqb_spec a b)
  end.

Lemma elem_of_perm {A} (l l' : list A) : l ≡ₚ l' -> forall x, x ∈ l <-> x ∈ l'.
Proof. intros Hp x. by rewrite Hp. Qed.

(** [time.Time.Sub] saturates at the ends of [time.Duration]. *)
Definition timeSub (a b : Z) : Z := Z.max (- 2 ^ 63) (Z.min (2 ^ 63 - 1) (a - b)).

Lemma timeSub_exact a b : - 2 ^ 63 <= a - b < 2 ^ 63 -> timeSub a b = a - b.
Proof. unfold timeSub. lia. Qed.

(** ** Results

    A Go call here returns a value, returns an error, or panics (an index or
    slice expression out of range). Loops that are not structural run on fuel;
    [OutOfFuel] marks a run that was cut short, and every such loop has a
    theorem that its fuel suffices. *)

Inductive go_error :=
  | ErrPacketTooShort
  | ErrInvalidCIDLength
  | ErrUnknownFrameType (ft : Z)
  | ErrNotVersionNegotiation
  | ErrRandom.

#[export] Instance go_error_eq_dec : EqDecision go_error.
Proof. solve_decision. Defined.

Inductive outcome (A : Type) :=
  | Ok (a : A)
  | Err (e : go_error)
  | Panic
  | OutOfFuel.
Arguments Ok {A} a.
Arguments Err {A} e.
Arguments Panic {A}.
Arguments OutOfFuel {A}.

#[export] Instance outcome_ret : MRet outcome := fun A a => Ok a.
#[export] Instance outcome_bind : MBind outcome := fun A B f m =>
  match m with
  | Ok a => f a
  | Err e => Err e
  | Panic => Panic
  | OutOfFuel => OutOfFuel
  end.

(** [returns m]: the call comes back with a value or an error. *)
Definition returns {A} (m : outcome A) : Prop :=
  match m with Ok _ | Err _ => True | Panic | OutOfFuel => False end.

(** ** Bytes and slices *)

#[export] Instance byte_eq_dec : EqDecision byte := Byte.byte_eq_dec.

(** [byte(z)]: the conversion keeps the low eight bits. *)
Definition to_byte (z : Z) : byte :=
  match Byte.of_N (Z.to_N (u8 z)) with Some b => b | None => x00 end.
Definition of_byte (b : byte) : Z := Z.of_N (Byte.to_N b).

Lemma of_byte_range b : is_u8 (of_byte b).
Proof.
  unfold of_byte, is_u8. pose proof (Byte.to_N_bounded b). lia.
Qed.
#[export] Hint Resolve of_byte_range : udx.

Lemma of_to_byte z : of_byte (to_byte z) = u8 z.
Proof.
  unfold of_byte, to_byte. pose proof (u8_range z) as Hr. unfold is_u8 in Hr.
  destruct (Byte.of_N (Z.to_N (u8 z))) as [b|] eqn:E.
  - apply Byte.to_of_N in E. rewrite E. lia.
  - apply Byte.of_N_None_iff in E. lia.
Qed.

Lemma to_of_byte b : to_byte (of_byte b) = b.
Proof.
  unfold to_byte. rewrite u8_small by apply of_byte_range.
  unfold of_byte. rewrite N2Z.id, Byte.of_to_N. done.
Qed.

#[export] Instance of_byte_inj : Inj (=) (=) of_byte.
Proof. intros x y E. rewrite <- (to_of_byte x), E. apply to_of_byte. Qed.

(** Big-endian integers of [n] bytes ([encoding/binary].BigEndian). *)
Fixpoint be_encode (n : nat) (z : Z) : list byte :=
  match n with
  | O => []
  | S n' => to_byte (z / 2 ^ (8 * Z.of_nat n')) :: be_encode n' z
  end.

Fixpoint be_decode (bs : list byte) : Z :=
  match bs with
  | [] => 0
  | b :: bs' => of_byte b * 2 ^ (8 * Z.of_nat (length bs')) + be_decode bs'
  end.

Lemma length_be_encode n z : length (be_encode n z) = n.
Proof. induction n; simpl; auto. Qed.

Lemma be_decode_range bs : 0 <= be_decode bs < 2 ^ (8 * Z.of_nat (length bs)).
Proof.
  induction bs as [|b bs IH]; simpl length; simpl be_decode; [lia|].
  pose proof (of_byte_range b) as Hb. unfold is_u8 in Hb.
  replace (8 * Z.of_nat (S (length bs))) with (8 + 8 * Z.of_nat (length bs)) by lia.
  rewrite Z.pow_add_r by lia. nia.
Qed.

Lemma be_decode_encode n z : be_decode (be_encode n z) = z mod 2 ^ (8 * Z.of_nat n).
Proof.
  induction n as [|n IH]; simpl be_encode; simpl be_decode.
  { rewrite Z.mod_1_r. done. }
  rewrite length_be_encode, of_to_byte, IH. unfold u8.
  replace (8 * Z.of_nat (S n)) with (8 * Z.of_nat n + 8) by lia.
  rewrite Z.pow_add_r by lia.
  assert (0 < 2 ^ (8 * Z.of_nat n)) by (apply Z.pow_pos_nonneg; lia).
  rewrite (Z.rem_mul_r z) by lia. change (2 ^ 8) with 256. lia.
Qed.

Lemma be_encode_mod n z : be_encode n (z mod 2 ^ (8 * Z.of_nat n)) = be_encode n z.
Proof.
  enough (forall k, (n <= k)%nat ->
            be_encode n (z mod 2 ^ (8 * Z.of_nat k)) = be_encode n z) by auto.
  induction n as [|n IH]; simpl; intros k Hk; [done|].
  f_equal; [|apply IH; lia].
  apply (inj of_byte). rewrite !of_to_byte. unfold u8.
  replace (8 * Z.of_nat k) with (8 * Z.of_nat n + 8 * Z.of_nat (k - n)) by lia.
  rewrite Z.pow_add_r by lia.
  assert (0 < 2 ^ (8 * Z.of_nat n)) by (apply Z.pow_pos_nonneg; lia).
  assert (0 < 2 ^ (8 * Z.of_nat (k - n))) by (apply Z.pow_pos_nonneg; lia).
  rewrite Z.rem_mul_r by lia.
  rewrite (Z.mul_comm (2 ^ (8 * Z.of_nat n)) (_ mod _)), Z.div_add by lia.
  rewrite Z.div_small by (apply Z.mod_pos_bound; lia). rewrite Z.add_0_l.
  replace (8 * Z.of_nat (k - n)) with (8 + 8 * Z.of_nat (k - n - 1)) by lia.
  rewrite Z.pow_add_r by lia.
  assert (0 < 2 ^ (8 * Z.of_nat (k - n - 1))) by (apply Z.pow_pos_nonneg; lia).
  rewrite Z.rem_mul_r by lia. change (2 ^ 8) with 256.
  rewrite (Z.mul_comm 256), Z.mod_add by lia. apply Z.mod_mod. lia.
Qed.

(** [data[i]], [data[lo:hi]] and the big-endian reads at an offset: a read
    outside the slice panics. *)
Definition index (data : list byte) (i : nat) : outcome byte :=
  match data !! i with Some b => Ok b | None => Panic end.
Definition slice (data : list byte) (lo hi : nat) : outcome (list byte) :=
  if (lo <=? hi)%nat && (hi <=? length data)%nat
  then Ok (take (hi - lo) (drop lo data)) else Panic.
Definition read_be (n : nat) (data : list byte) (off : nat) : outcome Z :=
  bs ← slice data off (off + n); mret (be_decode bs).
Abbreviation Uint16 := (read_be 2).
Abbreviation Uint32 := (read_be 4).
Abbreviation Uint64 := (read_be 8).

(** [buf := make([]byte, n)] filled from its start with [bs]: what does not
    fit is cut off, what is not written stays zero. *)
Definition fill (n : nat) (bs : list byte) : list byte :=
  take n (bs ++ replicate n x00).

Lemma fill_exact n bs : length bs = n -> fill n bs = bs.
Proof. intros <-. unfold fill. apply take_app_length. Qed.

Lemma length_fill n bs : length (fill n bs) = n.
Proof. unfold fill. rewrite length_take, length_app, length_replicate. lia. Qed.

(** ** Reading inside the slice *)

Lemma index_lt data i : (i < length data)%nat -> exists b, index data i = Ok b.
Proof.
  intros H. unfold index. apply lookup_lt_is_Some_2 in H as [b ->]. eauto.
Qed.

Lemma slice_ok data lo hi : (lo <= hi)%nat -> (hi <= length data)%nat ->
  exists bs, slice data lo hi = Ok bs /\ length bs = (hi - lo)%nat.
Proof.
  intros H1 H2. unfold slice.
  apply Nat.leb_le in H1 as ->. apply Nat.leb_le in H2 as E. rewrite E. simpl.
  eexists; split; [done|]. rewrite length_take, length_drop. lia.
Qed.

Lemma read_be_ok n data off : (off + n <= length data)%nat ->
  exists v, read_be n data off = Ok v /\ 0 <= v < 2 ^ (8 * Z.of_nat n).
Proof.
  intros H. unfold read_be.
  destruct (slice_ok data off (off + n)) as (bs & -> & Hl); [lia..|].
  eexists; split; [done|]. pose proof (be_decode_range bs) as Hr.
  rewrite Hl in Hr. replace (off + n - off)%nat with n in Hr by lia. done.
Qed.

(** A slice that starts with [pre] read from [length pre] on is the rest. *)
Lemma index_shift pre d k : index (pre ++ d) (length pre + k) = index d k.
Proof.
  unfold index. rewrite lookup_app_r by lia.
  by replace (length pre + k - length pre)%nat with k by lia.
Qed.

Lemma slice_shift pre d lo hi :
  slice (pre ++ d) (length pre + lo) (length pre + hi) = slice d lo hi.
Proof.
  unfold slice. rewrite length_app, drop_app_ge by lia.
  replace (length pre + lo - length pre)%nat with lo by lia.
  replace (length pre + hi - (length pre + lo))%nat with (hi - lo)%nat by lia.
  destruct (Nat.leb_spec lo hi), (Nat.leb_spec hi (length d)),
    (Nat.leb_spec (length pre + lo) (length pre + hi)),
    (Nat.leb_spec (length pre + hi) (length pre + length d)); simpl; done || lia.
Qed.

Lemma read_be_shift n pre d k : read_be n (pre ++ d) (length pre + k) = read_be n d k.
Proof.
  unfold read_be.
  replace (length pre + k + n)%nat with (length pre + (k + n))%nat by lia.
  by rewrite slice_shift.
Qed.

(** Reading back an encoded integer from explicit bytes. *)
Lemma be_decode_small n z : 0 <= z < 2 ^ (8 * Z.of_nat n) -> be_decode (be_encode n z) = z.
Proof. intros H. rewrite be_decode_encode. by apply Z.mod_small. Qed.

#[global] Arguments be_decode : simpl never.
#[global] Arguments be_encode : simpl never.
#[global] Arguments to_byte : simpl never.
#[global] Arguments of_byte : simpl never.

Lemma be2_explicit z : is_u16 z ->
  exists a b, be_encode 2 z = [a; b] /\ be_decode [a; b] = z.
Proof. intros H. do 2 eexists. split; [done|]. by apply (be_decode_small 2). Qed.

Lemma be4_explicit z : is_u32 z ->
  exists a b c d, be_encode 4 z = [a; b; c; d] /\ be_decode [a; b; c; d] = z.
Proof. intros H. do 4 eexists. split; [done|]. by apply (be_decode_small 4). Qed.

Lemma be8_explicit z : is_u64 z ->
  exists a b c d e f g h, be_encode 8 z = [a; b; c; d; e; f; g; h]
    /\ be_decode [a; b; c; d; e; f; g; h] = z.
Proof. intros H. do 8 eexists. split; [done|]. by apply (be_decode_small 8). Qed.

(** Replaces every encoded integer of the goal by named bytes, remembering
    what they decode to. *)
Ltac explicit_bytes :=
  repeat match goal with
  | |- context [be_encode 2 ?z] =>
      let E := fresh "E" in let D := fresh "D" in
      destruct (be2_explicit z) as (? & ? & E & D); [solve [eauto with udx | width]|];
      rewrite E; clear E
  | |- context [be_encode 4 ?z] =>
      let E := fresh "E" in let D := fresh "D" in
      destruct (be4_explicit z) as (? & ? & ? & ? & E & D); [solve [eauto with udx | width]|];
      rewrite E; clear E
  | |- context [be_encode 8 ?z] =>
      let E := fresh "E" in let D := fresh "D" in
      destruct (be8_explicit z) as (? & ? & ? & ? & ? & ? & ? & ? & E & D);
      [solve [eauto with udx | width]|]; rewrite E; clear E
  end.
