(* ===== verification/Constants.v ===== *)
(** * Protocol parameters (src/constants.go)

    The constants the modelled code reads, under the source's names.
    Durations are in nanoseconds, as [time.Duration] is. *)

From S2P Require Import Prelude.

Definition Millisecond : Z := 1000000.
Definition Second : Z := 1000 * Millisecond.
Definition Minute : Z := 60 * Second.

(** ** Transport parameters *)
Definition InitialMaxData : Z := 1024 * 1024.
Definition InitialMaxStreamData : Z := 65536.
Definition MaxStreamRecvWindow : Z := Z.shiftl 4 20.
Definition maxStreamRecvOOO : Z := 2 * MaxStreamRecvWindow.
Definition StreamBlockedRetryInterval : Z := 500 * Millisecond.
Definition sendCreditPollInterval : Z := 5 * Millisecond.
Definition InitialMaxStreams : Z := 100.
Definition AckElicitingThreshold : Z := 2.
Definition MinAckDelay : Z := 1 * Millisecond.
Definition MaxAckDelay : Z := 25 * Millisecond.
Definition ackHistory : Z := 512.
Definition sendBatchMax : Z := 16.
Definition inboundQueue : nat := 512.

(** ** Error codes *)
Definition ErrorNoError : Z := 0.
Definition ErrorInternalError : Z := 1.
Definition ErrorStreamLimitError : Z := 2.
Definition ErrorFlowControlError : Z := 3.
Definition ErrorProtocolViolation : Z := 4.
Definition ErrorInvalidMigration : Z := 5.
Definition ErrorConnectionTimeout : Z := 6.

(** ** Timeouts *)
Definition InitialRTT : Z := 333 * Millisecond.
Definition InitialRTTVar : Z := InitialRTT / 2.
Definition MaxIdleTimeout : Z := 30 * Second.

(** ** Datagram sizes and congestion control *)
Definition SafeDatagramSize : Z := 1200.
Definition MaxDatagramSize : Z := 1472.
Definition MinCongestionWindow : Z := 2 * MaxDatagramSize.
Definition InitialCongestionWindow : Z := 10 * MaxDatagramSize.
Definition InitialCwnd : Z := InitialCongestionWindow.
Definition MinCwnd : Z := MinCongestionWindow.
Definition PersistentCongestionThreshold : Z := 3.
Definition PacingBurstPackets : Z := 10.
Definition MinPacingDelay : Z := Millisecond.

(** ** Path MTU discovery *)
Definition MTUProbeTries : Z := 3.
Definition MTUSearchStep : Z := 16.
Definition BlackholePackets : Z := 3.
Definition BlackholePTOs : Z := 3.
Definition BlackholeRetry : Z := Minute.

Definition AmplificationFactor : Z := 3.

(** ** Connection IDs *)
Definition MinCIDLength : nat := 0.
Definition MaxCIDLength : nat := 20.
Definition DefaultCIDLength : nat := 8.
Definition StatelessResetTokenLength : nat := 16.

(** ** Protocol versions *)
Definition VersionV1 : Z := 1.
Definition VersionV2 : Z := 2.
Definition VersionV3 : Z := 3.
Definition VersionCurrent : Z := VersionV3.

(** ** Retransmission and loss detection *)
Definition ptoProbes : nat := 2.
Definition LossReorderThreshold : Z := 3.
Definition LossTimeThresholdNumerator : Z := 9.
Definition LossTimeThresholdDenominator : Z := 8.
Definition LossTimerGranularity : Z := Millisecond.

#[global] Arguments MaxCIDLength : simpl never.
#[global] Arguments StatelessResetTokenLength : simpl never.
#[global] Arguments ptoProbes : simpl never.
#[global] Arguments inboundQueue : simpl never.
