(* ===== verification/Errors.v ===== *)
(** * Error values (src/errors.go) *)

From Stdlib Require Import Ascii.
From stdpp Require Import strings pretty.
From S2P Require Import Prelude Constants.

Record UDXError := MkUDXError { Code : Z; Reason : string }.

(** [fmt.Sprintf "udx error %d: %s"] of a [uint32] and a string. *)
Definition Error (e : UDXError) : string :=
  ("udx error " +:+ pretty (Z.to_N (Code e)) +:+ ": " +:+ Reason e)%string.

Definition ErrConnectionClosed : UDXError := MkUDXError ErrorNoError "connection closed".
Definition ErrInternalError : UDXError := MkUDXError ErrorInternalError "internal error".
Definition ErrStreamLimit : UDXError := MkUDXError ErrorStreamLimitError "stream limit exceeded".
Definition ErrFlowControl : UDXError := MkUDXError ErrorFlowControlError "flow control error".
Definition ErrProtocolViolation : UDXError := MkUDXError ErrorProtocolViolation "protocol violation".
Definition ErrInvalidMigration : UDXError := MkUDXError ErrorInvalidMigration "invalid migration".
Definition ErrTimeout : UDXError := MkUDXError ErrorConnectionTimeout "connection timeout".

(** ** The text tells the error *)

(** The first [:] of a string ends its digits. *)
Fixpoint before_colon (s : string) : string :=
  match s with
  | EmptyString => EmptyString
  | String a s => if decide (a = ":"%char) then EmptyString else String a (before_colon s)
  end.

Fixpoint colon_free (s : string) : Prop :=
  match s with EmptyString => True | String a s => a <> ":"%char /\ colon_free s end.

Lemma before_colon_app s r : colon_free s -> before_colon (s +:+ String ":" r) = s.
Proof.
  induction s as [|a s IH]; intros H; [done|]. destruct H as [H1 H2].
  change (String a s +:+ String ":" r) with (String a (s +:+ String ":" r)). cbn [before_colon].
  rewrite decide_False by done. f_equal. by apply IH.
Qed.

Lemma pretty_go_colon_free n s : colon_free s -> colon_free (pretty_N_go n s).
Proof.
  revert s. induction (N.lt_wf_0 n) as [n _ IH]. intros s Hs. destruct (decide (0 < n)%N) as [Hn|Hn].
  - rewrite pretty_N_go_step by done. apply IH; [apply N.div_lt; lia|]. split; [|done].
    assert (n `mod` 10 < 10)%N as Hm by (by apply N.mod_lt). generalize dependent (n `mod` 10)%N. intros m Hm.
    unfold pretty_N_char. repeat case_match; done.
  - assert (n = 0%N) as -> by lia. by rewrite pretty_N_go_0.
Qed.

Lemma pretty_colon_free (n : N) : colon_free (pretty n).
Proof.
  unfold pretty, pretty_N. case_decide; [by split; [done|]|]. by apply pretty_go_colon_free.
Qed.

(** Two errors of 32-bit codes with the same text are the same. *)
Theorem Error_inj (e e' : UDXError) : is_u32 (Code e) -> is_u32 (Code e') -> Error e = Error e' -> e = e'.
Proof.
  intros H1 H2 E. destruct e as [c r], e' as [c' r']. unfold Error in E. cbn [Code Reason] in *. apply (inj _) in E.
  assert (Ec : pretty (Z.to_N c) = pretty (Z.to_N c')).
  { rewrite <- (before_colon_app (pretty (Z.to_N c)) (" " +:+ r)) by apply pretty_colon_free.
    rewrite <- (before_colon_app (pretty (Z.to_N c')) (" " +:+ r')) by apply pretty_colon_free. f_equal. exact E. }
  rewrite Ec in E. do 2 apply (inj _) in E. subst r'. apply (inj pretty) in Ec. f_equal. width.
Qed.
