(* ===== verification/Clock.v ===== *)
(** * Clocks and options (src/clock.go, src/udx.go)

    The rest of the library takes the reading of the clock as an argument of each
    operation. Here is where readings come from: the system's time, or a mock
    clock, which is shared by pointer, moves when it is told to, and whose timers
    never fire. *)

From stdpp Require Import gmap.
From S2P Require Import Prelude Constants.

Definition clock_ptr : Type := positive.

(** The system's time and the mock clocks. *)
Record World := MkWorld { real_time : Z; mocks : gmap clock_ptr Z }.

Inductive Clock := RealClock | MockClock (p : clock_ptr).

(** A timer that is armed for a time, or stopped. *)
Definition Timer : Type := option Z.

Definition NewMockClock (t : Z) (w : World) : World * Clock :=
  let p := fresh (dom (mocks w)) in (MkWorld (real_time w) (<[p := t]> (mocks w)), MockClock p).

Definition Now (w : World) (c : Clock) : Z :=
  match c with RealClock => real_time w | MockClock p => default 0 (mocks w !! p) end.

Definition AfterFunc (w : World) (c : Clock) (d : Z) : Timer :=
  match c with RealClock => Some (real_time w + d) | MockClock _ => None end.

Definition NewTimer (w : World) (c : Clock) (d : Z) : Timer :=
  match c with RealClock => Some (real_time w + d) | MockClock _ => None end.

(** A method of [*MockClock] only. *)
Definition Advance (p : clock_ptr) (d : Z) (w : World) : World :=
  MkWorld (real_time w) (alter (fun t => t + d) p (mocks w)).

(** ** Options *)

Record options := MkOptions { clock : Clock }.

Definition Option : Type := options -> options.

Definition WithClock (c : Clock) : Option := fun _ => MkOptions c.

Definition applyOptions (opts : list Option) : options := fold_left (fun o opt => opt o) opts (MkOptions RealClock).

(** The clock is the system's unless options say otherwise, of which the last
    counts. *)
Theorem options_last (opts : list Clock) :
  clock (applyOptions (WithClock <$> opts)) = default RealClock (last opts).
Proof.
  induction opts as [|c opts _] using rev_ind; [done|]. unfold applyOptions.
  by rewrite fmap_app, fold_left_app, last_snoc.
Qed.

(** A mock clock reads its start plus what it was advanced by, whoever holds it,
    and moves no other clock. *)
Theorem mock_reads_advances (w : World) (t : Z) (ds : list Z) (c : Clock) :
  let '(w1, m) := NewMockClock t w in
  match m with
  | RealClock => False
  | MockClock p => let w' := fold_left (fun w d => Advance p d w) ds w1 in
      Now w' m = t + foldr Z.add 0 ds /\ (c <> m -> Now w' c = Now w1 c) /\ forall d, AfterFunc w' m d = None
  end.
Proof.
  cbn -[fresh]. set (p := fresh (dom (mocks w))). set (w1 := MkWorld _ _).
  assert (H1 : mocks w1 !! p = Some t) by (cbn; apply lookup_insert_eq). clearbody w1. revert w1 t H1.
  induction ds as [|d ds IH]; intros w1 t H1; cbn [fold_left].
  - cbn. rewrite H1. split_and!; [cbn; lia | done | done].
  - destruct (IH (Advance p d w1) (t + d)) as (E1 & E2 & E3); [cbn; by rewrite lookup_alter_eq, H1|].
    split_and!; [rewrite E1; cbn; lia | | done]. intros Hc. rewrite (E2 Hc). destruct c as [|q]; [done|].
    cbn. rewrite lookup_alter_ne; [done|]. intros ->. done.
Qed.
