(* ===== verification/Cid.v ===== *)
(** * Connection identifiers (src/cid.go)

    A [ConnectionID] is a Go value type: an array of [MaxCIDLength] bytes and
    the number of them in use. Two CIDs are routed to the same connection when
    their hexadecimal [String]s agree; the theorems here tie the three notions
    of sameness ([Equal], equal [String]s, equal structs) together. *)

From stdpp Require Import strings.
From S2P Require Import Prelude Constants.

Record ConnectionID := MkCID { cid_data : list byte; cid_len : nat }.

#[export] Instance ConnectionID_eq_dec : EqDecision ConnectionID.
Proof. solve_decision. Defined.

(** The Go zero value, returned beside an error. *)
Definition zeroCID : ConnectionID := MkCID (replicate MaxCIDLength x00) 0.

Definition NewConnectionID (b : list byte) : outcome ConnectionID :=
  if (length b <? MinCIDLength)%nat || (MaxCIDLength <? length b)%nat
  then Err ErrInvalidCIDLength
  else Ok (MkCID (fill MaxCIDLength b) (length b)).

(** [RandomConnectionID]: [random n] is what [crypto/rand.Read] delivers for
    [n] bytes, [None] when it fails. *)
Definition RandomConnectionID (random : nat -> option (list byte)) (len : Z)
    : outcome ConnectionID :=
  if (len <? Z.of_nat MinCIDLength) || (Z.of_nat MaxCIDLength <? len)
  then Err ErrInvalidCIDLength
  else if 0 <? len then
    match random (Z.to_nat len) with
    | None => Err ErrRandom
    | Some bs => Ok (MkCID (fill MaxCIDLength bs) (Z.to_nat len))
    end
  else Ok zeroCID.

Definition Len (c : ConnectionID) : nat := cid_len c.

Definition Bytes (c : ConnectionID) : list byte :=
  fill (cid_len c) (take (cid_len c) (cid_data c)).

Definition IsZero (c : ConnectionID) : bool := (cid_len c =? 0)%nat.

(** The comparison loop over the first [n] bytes. *)
Fixpoint equal_upto (n : nat) (a b : list byte) : bool :=
  match n, a, b with
  | O, _, _ => true
  | S n', x :: a', y :: b' => if decide (x = y) then equal_upto n' a' b' else false
  | S _, _, _ => false
  end.

Definition Equal (c other : ConnectionID) : bool :=
  if (cid_len c =? cid_len other)%nat
  then equal_upto (cid_len c) (cid_data c) (cid_data other)
  else false.

(** [encoding/hex]. *)
Definition hex_digit (n : Z) : Ascii.ascii :=
  default Ascii.zero (String.get (Z.to_nat n) "0123456789abcdef").
Fixpoint EncodeToString (bs : list byte) : string :=
  match bs with
  | [] => EmptyString
  | b :: bs' =>
      String (hex_digit (of_byte b / 16))
        (String (hex_digit (of_byte b mod 16)) (EncodeToString bs'))
  end.

Definition CIDString (c : ConnectionID) : string :=
  ("CID(" ++ EncodeToString (take (cid_len c) (cid_data c)) ++ ")")%string.

(** ** Well-formedness: every CID the package can build. *)

Record CID_ok (c : ConnectionID) : Prop := {
  cid_array : length (cid_data c) = MaxCIDLength;
  cid_bound : (cid_len c <= MaxCIDLength)%nat;
  cid_zeros : drop (cid_len c) (cid_data c) = replicate (MaxCIDLength - cid_len c) x00
}.

#[export] Instance CID_ok_dec c : Decision (CID_ok c).
Proof.
  destruct (decide (length (cid_data c) = MaxCIDLength)); [|by right; intros []].
  destruct (decide ((cid_len c <= MaxCIDLength)%nat)); [|by right; intros []].
  destruct (decide (drop (cid_len c) (cid_data c)
    = replicate (MaxCIDLength - cid_len c) x00)); [by left|by right; intros []].
Defined.

Lemma zeroCID_ok : CID_ok zeroCID.
Proof. split; [done|simpl; lia|done]. Qed.

Lemma fill_cid_ok bs : (length bs <= MaxCIDLength)%nat ->
  CID_ok (MkCID (fill MaxCIDLength bs) (length bs)).
Proof.
  intros H. split; simpl; [apply length_fill|done|].
  unfold fill. rewrite take_app_ge, drop_app_length, take_replicate by done.
  f_equal. lia.
Qed.

Lemma NewConnectionID_fits b : (length b <= MaxCIDLength)%nat ->
  NewConnectionID b = Ok (MkCID (fill MaxCIDLength b) (length b)).
Proof.
  intros H. unfold NewConnectionID. apply Nat.ltb_ge in H as ->.
  by replace (length b <? MinCIDLength)%nat with false
    by (symmetry; apply Nat.ltb_ge; unfold MinCIDLength; lia).
Qed.

Lemma RandomConnectionID_ok random n c :
  (forall k bs, random k = Some bs -> length bs = k) ->
  RandomConnectionID random n = Ok c -> CID_ok c.
Proof.
  intros Hr. unfold RandomConnectionID. zcases; simpl; try done.
  - destruct (random _) as [bs|] eqn:E; [|done]. intros [= <-].
    apply Hr in E. rewrite <- E. apply fill_cid_ok. rewrite E. lia.
  - intros [= <-]. apply zeroCID_ok.
Qed.

Lemma Bytes_take c : CID_ok c -> Bytes c = take (cid_len c) (cid_data c).
Proof. intros [H1 H2 _]. apply fill_exact. rewrite length_take. lia. Qed.

Lemma length_Bytes c : length (Bytes c) = cid_len c.
Proof. apply length_fill. Qed.

Lemma NewConnectionID_Bytes c : CID_ok c -> NewConnectionID (Bytes c) = Ok c.
Proof.
  intros H. pose proof (cid_bound c H) as Hb.
  rewrite NewConnectionID_fits; rewrite length_Bytes; [|done]. destruct H as [Ha _ Hz]. destruct c as [d n]; simpl in *. do 2 f_equal.
  rewrite Bytes_take by by split. unfold fill; cbn [cid_len cid_data].
  rewrite take_app_ge by (rewrite length_take; lia).
  rewrite length_take, Nat.min_l, take_replicate by lia.
  rewrite Nat.min_l, <- Hz by lia. apply take_drop.
Qed.

Lemma CID_ext c d : CID_ok c -> CID_ok d -> Bytes c = Bytes d -> c = d.
Proof.
  intros Hc Hd E. apply NewConnectionID_Bytes in Hc, Hd. congruence.
Qed.

(** ** Sameness *)

Lemma equal_upto_take n a b : length a = length b -> (n <= length a)%nat ->
  equal_upto n a b = true <-> take n a = take n b.
Proof.
  revert a b. induction n as [|n IH]; intros [|x a] [|y b] Hl Hn; simpl in *; try done; try lia.
  case_decide as E.
  - subst y. rewrite IH by lia. split; [congruence|by intros [= ?]].
  - split; [done|by intros [= ??]].
Qed.

Lemma Equal_Bytes c d : CID_ok c -> CID_ok d -> Equal c d = true <-> Bytes c = Bytes d.
Proof.
  intros Hc Hd. rewrite !Bytes_take by done. unfold Equal.
  destruct Hc as [Hc1 Hc2 _], Hd as [Hd1 Hd2 _].
  destruct (Nat.eqb_spec (cid_len c) (cid_len d)) as [E|E].
  - rewrite <- E. apply equal_upto_take; congruence || lia.
  - split; [done|]. intros H%(f_equal length). rewrite !length_take in H. lia.
Qed.

Lemma hex_digit_inj m n : 0 <= m < 16 -> 0 <= n < 16 -> hex_digit m = hex_digit n -> m = n.
Proof.
  intros Hm Hn.
  assert (Hcase : forall k, 0 <= k < 16 -> k = 0 \/ k = 1 \/ k = 2 \/ k = 3 \/ k = 4 \/ k = 5
    \/ k = 6 \/ k = 7 \/ k = 8 \/ k = 9 \/ k = 10 \/ k = 11 \/ k = 12 \/ k = 13 \/ k = 14
    \/ k = 15) by lia.
  apply Hcase in Hm, Hn. repeat destruct Hm as [->|Hm]; subst;
    repeat destruct Hn as [->|Hn]; subst; vm_compute; congruence.
Qed.

Lemma string_length_app (a b : string) :
  String.length (a +:+ b) = (String.length a + String.length b)%nat.
Proof. induction a; simpl; [done|]. by f_equal. Qed.

Lemma string_app_cancel_r (s a b : string) : a +:+ s = b +:+ s -> a = b.
Proof.
  revert b. induction a as [|x a IH]; intros [|y b] E; try done.
  - apply (f_equal String.length) in E. rewrite !string_length_app in E. simpl in E. lia.
  - apply (f_equal String.length) in E. rewrite !string_length_app in E. simpl in E. lia.
  - simpl in E. injection E as -> E. f_equal. auto.
Qed.

Lemma EncodeToString_app_inj a b s :
  (EncodeToString a ++ s = EncodeToString b ++ s)%string -> a = b.
Proof.
  intros E%string_app_cancel_r. revert b E.
  induction a as [|x a IH]; intros [|y b]; simpl; intros E; try done.
  injection E as E1 E2 E3. f_equal; [|auto].
  pose proof (of_byte_range x). pose proof (of_byte_range y). unfold is_u8 in *.
  apply hex_digit_inj in E1, E2; try (apply Z.mod_pos_bound; lia);
    try (split; [apply Z.div_pos; lia|apply Z.div_lt_upper_bound; lia]).
  apply (inj of_byte). rewrite (Z.div_mod (of_byte x) 16), (Z.div_mod (of_byte y) 16); lia.
Qed.

Lemma CIDString_inj c d : CID_ok c -> CID_ok d -> CIDString c = CIDString d -> c = d.
Proof.
  intros Hc Hd E. unfold CIDString in E. injection E as E.
  apply EncodeToString_app_inj in E.
  apply CID_ext; try done. by rewrite !Bytes_take.
Qed.

(** The routing key [String] separates exactly the connection IDs that
    [Equal] separates, and [Equal] is equality of the structs: the multiplexer's
    map by key finds the right connection and no other. *)
Theorem CID_same (c d : ConnectionID) : CID_ok c -> CID_ok d ->
  (Equal c d = true <-> c = d) /\ (CIDString c = CIDString d <-> c = d).
Proof.
  intros Hc Hd. split; split; try congruence.
  - intros E. by apply CID_ext, Equal_Bytes.
  - intros <-. by apply Equal_Bytes.
  - by apply CIDString_inj.
Qed.

Lemma CID_same_witness :
  exists c d, NewConnectionID [x01; x02] = Ok c /\ NewConnectionID [x01] = Ok d /\
    CIDString c <> CIDString d.
Proof.
  eexists _, _. split; [reflexivity|]. split; [reflexivity|]. intros E.
  apply (proj2 (CID_same _ _ ltac:(by vm_compute) ltac:(by vm_compute))) in E. discriminate E.
Defined.
