(* ===== verification/Frame.v ===== *)
(** * Frames (src/frame.go)

    The seventeen frame types of the wire format, their encoders ([Marshal]),
    declared lengths ([Len]) and decoders. Decoders read a byte slice at an
    offset and return the frame with the number of bytes it took; a read
    outside the slice would be a run-time panic, and is one here. *)

From S2P Require Import Prelude Constants Cid.

(** ** Frame types *)

Definition FramePadding : Z := 0x00.
Definition FramePing : Z := 0x01.
Definition FrameAck : Z := 0x02.
Definition FrameStream : Z := 0x03.
Definition FrameWindowUpdate : Z := 0x04.
Definition FrameMaxData : Z := 0x05.
Definition FrameResetStream : Z := 0x06.
Definition FrameMaxStreams : Z := 0x07.
Definition FrameMTUProbe : Z := 0x08.
Definition FramePathChallenge : Z := 0x09.
Definition FramePathResponse : Z := 0x0a.
Definition FrameConnectionClose : Z := 0x0b.
Definition FrameStopSending : Z := 0x0d.
Definition FrameDataBlocked : Z := 0x0e.
Definition FrameStreamDataBlocked : Z := 0x0f.
Definition FrameNewConnectionID : Z := 0x10.
Definition FrameRetireConnectionID : Z := 0x11.

(** ** Data *)

Record AckRange := MkAckRange { Gap : Z; AckRangeLength : Z }.

Record AckFrame := MkAckFrame {
  LargestAcked : Z;
  AckDelay : Z;
  FirstAckRangeLength : Z;
  AckRanges : list AckRange
}.

Record StreamFrame := MkStreamFrame {
  IsFin : bool;
  IsSyn : bool;
  Offset : Z;
  Data : list byte
}.

Inductive Frame :=
  | PaddingFrame
  | PingFrame
  | AckF (f : AckFrame)
  | StreamF (f : StreamFrame)
  | WindowUpdateFrame (WindowSize : Z)
  | MaxDataFrame (MaxData : Z)
  | ResetStreamFrame (ErrorCode : Z)
  | MaxStreamsFrame (MaxStreamCount : Z)
  | MTUProbeFrame (ProbeSize : Z)
  | PathChallengeFrame (Data : list byte)
  | PathResponseFrame (Data : list byte)
  | ConnectionCloseFrame (ErrorCode FrameTypeVal : Z) (ReasonPhrase : list byte)
  | StopSendingFrame (StreamID ErrorCode : Z)
  | DataBlockedFrame (MaxData : Z)
  | StreamDataBlockedFrame (StreamID MaxStreamData : Z)
  | NewConnectionIDFrame (SequenceNumber RetirePriorTo : Z) (CID : ConnectionID)
      (ResetToken : list byte)
  | RetireConnectionIDFrame (SequenceNumber : Z).

#[export] Instance AckRange_eq_dec : EqDecision AckRange.
Proof. solve_decision. Defined.
#[export] Instance AckFrame_eq_dec : EqDecision AckFrame.
Proof. solve_decision. Defined.
#[export] Instance StreamFrame_eq_dec : EqDecision StreamFrame.
Proof. solve_decision. Defined.
#[export] Instance Frame_eq_dec : EqDecision Frame.
Proof. solve_decision. Defined.

(** ** Encoding *)

Definition StreamFlagFIN : Z := 0x01.
Definition StreamFlagSYN : Z := 0x02.
Definition streamFrameHeaderLen : nat := 12.

Definition ftype (f : Frame) : Z :=
  match f with
  | PaddingFrame => FramePadding
  | PingFrame => FramePing
  | AckF _ => FrameAck
  | StreamF _ => FrameStream
  | WindowUpdateFrame _ => FrameWindowUpdate
  | MaxDataFrame _ => FrameMaxData
  | ResetStreamFrame _ => FrameResetStream
  | MaxStreamsFrame _ => FrameMaxStreams
  | MTUProbeFrame _ => FrameMTUProbe
  | PathChallengeFrame _ => FramePathChallenge
  | PathResponseFrame _ => FramePathResponse
  | ConnectionCloseFrame _ _ _ => FrameConnectionClose
  | StopSendingFrame _ _ => FrameStopSending
  | DataBlockedFrame _ => FrameDataBlocked
  | StreamDataBlockedFrame _ _ => FrameStreamDataBlocked
  | NewConnectionIDFrame _ _ _ _ => FrameNewConnectionID
  | RetireConnectionIDFrame _ => FrameRetireConnectionID
  end.

Definition AckFrame_Len (f : AckFrame) : nat :=
  (1 + 4 + 2 + 1 + 4 + length (AckRanges f) * 5)%nat.
Definition StreamFrame_Len (f : StreamFrame) : nat :=
  (streamFrameHeaderLen + length (Data f))%nat.
Definition MTUProbeFrame_Len (ProbeSize : Z) : nat :=
  if ProbeSize <? 1 then 1 else Z.to_nat ProbeSize.
Definition ConnectionCloseFrame_Len (ReasonPhrase : list byte) : nat :=
  (1 + 4 + 4 + 2 + length ReasonPhrase)%nat.
Definition NewConnectionIDFrame_Len (c : ConnectionID) : nat :=
  (1 + 8 + 8 + 1 + Len c + StatelessResetTokenLength)%nat.

Definition FrameLen (f : Frame) : nat :=
  match f with
  | PaddingFrame | PingFrame => 1
  | AckF f => AckFrame_Len f
  | StreamF f => StreamFrame_Len f
  | WindowUpdateFrame _ | ResetStreamFrame _ | MaxStreamsFrame _ => 5
  | MTUProbeFrame n => MTUProbeFrame_Len n
  | MaxDataFrame _ | PathChallengeFrame _ | PathResponseFrame _ => 9
  | ConnectionCloseFrame _ _ r => ConnectionCloseFrame_Len r
  | StopSendingFrame _ _ | DataBlockedFrame _ | RetireConnectionIDFrame _ => 9
  | StreamDataBlockedFrame _ _ => 13
  | NewConnectionIDFrame _ _ c _ => NewConnectionIDFrame_Len c
  end.

(** The loop that writes the ACK ranges. *)
Fixpoint encode_ranges (rs : list AckRange) : list byte :=
  match rs with
  | [] => []
  | r :: rs' => [to_byte (Gap r)] ++ be_encode 4 (AckRangeLength r) ++ encode_ranges rs'
  end.

Definition AckFrame_Marshal (f : AckFrame) : list byte :=
  fill (AckFrame_Len f)
    ([to_byte FrameAck] ++ be_encode 4 (LargestAcked f) ++ be_encode 2 (AckDelay f)
     ++ [to_byte (Z.of_nat (length (AckRanges f)))] ++ be_encode 4 (FirstAckRangeLength f)
     ++ encode_ranges (AckRanges f)).

Definition StreamFrame_Marshal (f : StreamFrame) : list byte :=
  let flags := if IsFin f then Z.lor 0 StreamFlagFIN else 0 in
  let flags := if IsSyn f then Z.lor flags StreamFlagSYN else flags in
  fill (StreamFrame_Len f)
    ([to_byte FrameStream; to_byte flags] ++ be_encode 8 (Offset f)
     ++ be_encode 2 (Z.of_nat (length (Data f))) ++ Data f).

Definition WindowUpdateFrame_Marshal (WindowSize : Z) : list byte :=
  fill 5 ([to_byte FrameWindowUpdate] ++ be_encode 4 WindowSize).
Definition MaxDataFrame_Marshal (MaxData : Z) : list byte :=
  fill 9 ([to_byte FrameMaxData] ++ be_encode 8 MaxData).
Definition ResetStreamFrame_Marshal (ErrorCode : Z) : list byte :=
  fill 5 ([to_byte FrameResetStream] ++ be_encode 4 ErrorCode).
Definition MaxStreamsFrame_Marshal (MaxStreamCount : Z) : list byte :=
  fill 5 ([to_byte FrameMaxStreams] ++ be_encode 4 MaxStreamCount).
Definition MTUProbeFrame_Marshal (ProbeSize : Z) : list byte :=
  fill (MTUProbeFrame_Len ProbeSize) [to_byte FrameMTUProbe].
Definition PathChallengeFrame_Marshal (Data : list byte) : list byte :=
  fill 9 ([to_byte FramePathChallenge] ++ Data).
Definition PathResponseFrame_Marshal (Data : list byte) : list byte :=
  fill 9 ([to_byte FramePathResponse] ++ Data).
Definition ConnectionCloseFrame_Marshal (ErrorCode FrameTypeVal : Z)
    (ReasonPhrase : list byte) : list byte :=
  fill (ConnectionCloseFrame_Len ReasonPhrase)
    ([to_byte FrameConnectionClose] ++ be_encode 4 ErrorCode ++ be_encode 4 FrameTypeVal
     ++ be_encode 2 (Z.of_nat (length ReasonPhrase)) ++ ReasonPhrase).
Definition StopSendingFrame_Marshal (StreamID ErrorCode : Z) : list byte :=
  fill 9 ([to_byte FrameStopSending] ++ be_encode 4 StreamID ++ be_encode 4 ErrorCode).
Definition DataBlockedFrame_Marshal (MaxData : Z) : list byte :=
  fill 9 ([to_byte FrameDataBlocked] ++ be_encode 8 MaxData).
Definition StreamDataBlockedFrame_Marshal (StreamID MaxStreamData : Z) : list byte :=
  fill 13 ([to_byte FrameStreamDataBlocked] ++ be_encode 4 StreamID
           ++ be_encode 8 MaxStreamData).
Definition NewConnectionIDFrame_Marshal (SequenceNumber RetirePriorTo : Z)
    (c : ConnectionID) (ResetToken : list byte) : list byte :=
  fill (NewConnectionIDFrame_Len c)
    ([to_byte FrameNewConnectionID] ++ be_encode 8 SequenceNumber
     ++ be_encode 8 RetirePriorTo ++ [to_byte (Z.of_nat (Len c))] ++ Bytes c ++ ResetToken).
Definition RetireConnectionIDFrame_Marshal (SequenceNumber : Z) : list byte :=
  fill 9 ([to_byte FrameRetireConnectionID] ++ be_encode 8 SequenceNumber).

Definition Marshal (f : Frame) : list byte :=
  match f with
  | PaddingFrame => [to_byte FramePadding]
  | PingFrame => [to_byte FramePing]
  | AckF f => AckFrame_Marshal f
  | StreamF f => StreamFrame_Marshal f
  | WindowUpdateFrame w => WindowUpdateFrame_Marshal w
  | MaxDataFrame m => MaxDataFrame_Marshal m
  | ResetStreamFrame e => ResetStreamFrame_Marshal e
  | MaxStreamsFrame n => MaxStreamsFrame_Marshal n
  | MTUProbeFrame n => MTUProbeFrame_Marshal n
  | PathChallengeFrame d => PathChallengeFrame_Marshal d
  | PathResponseFrame d => PathResponseFrame_Marshal d
  | ConnectionCloseFrame e t r => ConnectionCloseFrame_Marshal e t r
  | StopSendingFrame s e => StopSendingFrame_Marshal s e
  | DataBlockedFrame m => DataBlockedFrame_Marshal m
  | StreamDataBlockedFrame s m => StreamDataBlockedFrame_Marshal s m
  | NewConnectionIDFrame s r c t => NewConnectionIDFrame_Marshal s r c t
  | RetireConnectionIDFrame s => RetireConnectionIDFrame_Marshal s
  end.

(** ** Decoding *)

(** The loop that reads [n] ACK ranges of five bytes each. *)
Fixpoint read_ranges (n : nat) (data : list byte) (offset : nat)
    : outcome (list AckRange * nat) :=
  match n with
  | O => Ok ([], offset)
  | S n' =>
      gap ← index data offset;
      len ← Uint32 data (offset + 1);
      '(rs, off) ← read_ranges n' data (offset + 5);
      Ok (MkAckRange (of_byte gap) len :: rs, off)
  end.

Definition unmarshalAckFrame (data : list byte) (offset : nat) : outcome (Frame * nat) :=
  let start := offset in
  if (length data <? offset + 12)%nat then Err ErrPacketTooShort else
  let offset := (offset + 1)%nat in
  largest ← Uint32 data offset;
  let offset := (offset + 4)%nat in
  delay ← Uint16 data offset;
  let offset := (offset + 2)%nat in
  count ← index data offset;
  let rangeCount := Z.to_nat (of_byte count) in
  let offset := (offset + 1)%nat in
  firstRange ← Uint32 data offset;
  let offset := (offset + 4)%nat in
  if (length data <? offset + rangeCount * 5)%nat then Err ErrPacketTooShort else
  '(ranges, offset) ← read_ranges rangeCount data offset;
  Ok (AckF (MkAckFrame largest delay firstRange ranges), (offset - start)%nat).

Definition unmarshalStreamFrame (data : list byte) (offset : nat) : outcome (Frame * nat) :=
  if (length data <? offset + streamFrameHeaderLen)%nat then Err ErrPacketTooShort else
  flags ← index data (offset + 1);
  streamOffset ← Uint64 data (offset + 2);
  len16 ← Uint16 data (offset + 10);
  let dataLen := Z.to_nat len16 in
  if (length data <? offset + streamFrameHeaderLen + dataLen)%nat
  then Err ErrPacketTooShort else
  chunk ← slice data (offset + streamFrameHeaderLen)
                     (offset + streamFrameHeaderLen + dataLen);
  let payload := fill dataLen chunk in
  Ok (StreamF (MkStreamFrame
        (negb (Z.land (of_byte flags) StreamFlagFIN =? 0))
        (negb (Z.land (of_byte flags) StreamFlagSYN =? 0))
        streamOffset payload), (streamFrameHeaderLen + dataLen)%nat).

Definition unmarshalWindowUpdateFrame (data : list byte) (offset : nat)
    : outcome (Frame * nat) :=
  if (length data <? offset + 5)%nat then Err ErrPacketTooShort else
  v ← Uint32 data (offset + 1); Ok (WindowUpdateFrame v, 5%nat).

Definition unmarshalMaxDataFrame (data : list byte) (offset : nat) : outcome (Frame * nat) :=
  if (length data <? offset + 9)%nat then Err ErrPacketTooShort else
  v ← Uint64 data (offset + 1); Ok (MaxDataFrame v, 9%nat).

Definition unmarshalResetStreamFrame (data : list byte) (offset : nat)
    : outcome (Frame * nat) :=
  if (length data <? offset + 5)%nat then Err ErrPacketTooShort else
  v ← Uint32 data (offset + 1); Ok (ResetStreamFrame v, 5%nat).

Definition unmarshalMaxStreamsFrame (data : list byte) (offset : nat)
    : outcome (Frame * nat) :=
  if (length data <? offset + 5)%nat then Err ErrPacketTooShort else
  v ← Uint32 data (offset + 1); Ok (MaxStreamsFrame v, 5%nat).

(** An MTU probe takes the rest of the packet. *)
Definition unmarshalMTUProbeFrame (data : list byte) (offset : nat) : outcome (Frame * nat) :=
  let remaining := Z.of_nat (length data) - Z.of_nat offset in
  if remaining <? 1 then Err ErrPacketTooShort
  else Ok (MTUProbeFrame remaining, Z.to_nat remaining).

Definition unmarshalPathChallengeFrame (data : list byte) (offset : nat)
    : outcome (Frame * nat) :=
  if (length data <? offset + 9)%nat then Err ErrPacketTooShort else
  d ← slice data (offset + 1) (offset + 9); Ok (PathChallengeFrame (fill 8 d), 9%nat).

Definition unmarshalPathResponseFrame (data : list byte) (offset : nat)
    : outcome (Frame * nat) :=
  if (length data <? offset + 9)%nat then Err ErrPacketTooShort else
  d ← slice data (offset + 1) (offset + 9); Ok (PathResponseFrame (fill 8 d), 9%nat).

Definition unmarshalConnectionCloseFrame (data : list byte) (offset : nat)
    : outcome (Frame * nat) :=
  if (length data <? offset + 11)%nat then Err ErrPacketTooShort else
  errCode ← Uint32 data (offset + 1);
  frameType ← Uint32 data (offset + 5);
  len16 ← Uint16 data (offset + 9);
  let reasonLen := Z.to_nat len16 in
  let total := (11 + reasonLen)%nat in
  if (length data <? offset + total)%nat then Err ErrPacketTooShort else
  reason ← slice data (offset + 11) (offset + 11 + reasonLen);
  Ok (ConnectionCloseFrame errCode frameType reason, total).

Definition unmarshalStopSendingFrame (data : list byte) (offset : nat)
    : outcome (Frame * nat) :=
  if (length data <? offset + 9)%nat then Err ErrPacketTooShort else
  s ← Uint32 data (offset + 1);
  e ← Uint32 data (offset + 5);
  Ok (StopSendingFrame s e, 9%nat).

Definition unmarshalDataBlockedFrame (data : list byte) (offset : nat)
    : outcome (Frame * nat) :=
  if (length data <? offset + 9)%nat then Err ErrPacketTooShort else
  v ← Uint64 data (offset + 1); Ok (DataBlockedFrame v, 9%nat).

Definition unmarshalStreamDataBlockedFrame (data : list byte) (offset : nat)
    : outcome (Frame * nat) :=
  if (length data <? offset + 13)%nat then Err ErrPacketTooShort else
  s ← Uint32 data (offset + 1);
  m ← Uint64 data (offset + 5);
  Ok (StreamDataBlockedFrame s m, 13%nat).

Definition unmarshalNewConnectionIDFrame (data : list byte) (offset : nat)
    : outcome (Frame * nat) :=
  let start := offset in
  if (length data <? offset + 18)%nat then Err ErrPacketTooShort else
  let offset := (offset + 1)%nat in
  seq ← Uint64 data offset;
  let offset := (offset + 8)%nat in
  retire ← Uint64 data offset;
  let offset := (offset + 8)%nat in
  len8 ← index data offset;
  let cidLen := Z.to_nat (of_byte len8) in
  let offset := (offset + 1)%nat in
  if (MaxCIDLength <? cidLen)%nat
     || (length data <? offset + cidLen + StatelessResetTokenLength)%nat
  then Err ErrPacketTooShort else
  cidBytes ← slice data offset (offset + cidLen);
  cid ← NewConnectionID cidBytes;
  let offset := (offset + cidLen)%nat in
  tok ← slice data offset (offset + StatelessResetTokenLength);
  let token := fill StatelessResetTokenLength tok in
  let offset := (offset + StatelessResetTokenLength)%nat in
  Ok (NewConnectionIDFrame seq retire cid token, (offset - start)%nat).

Definition unmarshalRetireConnectionIDFrame (data : list byte) (offset : nat)
    : outcome (Frame * nat) :=
  if (length data <? offset + 9)%nat then Err ErrPacketTooShort else
  v ← Uint64 data (offset + 1); Ok (RetireConnectionIDFrame v, 9%nat).

Definition UnmarshalFrame (data : list byte) (offset : nat) : outcome (Frame * nat) :=
  if (length data <=? offset)%nat then Err ErrPacketTooShort else
  b ← index data offset;
  let ft := of_byte b in
  if ft =? FramePadding then Ok (PaddingFrame, 1%nat)
  else if ft =? FramePing then Ok (PingFrame, 1%nat)
  else if ft =? FrameAck then unmarshalAckFrame data offset
  else if ft =? FrameStream then unmarshalStreamFrame data offset
  else if ft =? FrameWindowUpdate then unmarshalWindowUpdateFrame data offset
  else if ft =? FrameMaxData then unmarshalMaxDataFrame data offset
  else if ft =? FrameResetStream then unmarshalResetStreamFrame data offset
  else if ft =? FrameMaxStreams then unmarshalMaxStreamsFrame data offset
  else if ft =? FrameMTUProbe then unmarshalMTUProbeFrame data offset
  else if ft =? FramePathChallenge then unmarshalPathChallengeFrame data offset
  else if ft =? FramePathResponse then unmarshalPathResponseFrame data offset
  else if ft =? FrameConnectionClose then unmarshalConnectionCloseFrame data offset
  else if ft =? FrameStopSending then unmarshalStopSendingFrame data offset
  else if ft =? FrameDataBlocked then unmarshalDataBlockedFrame data offset
  else if ft =? FrameStreamDataBlocked then unmarshalStreamDataBlockedFrame data offset
  else if ft =? FrameNewConnectionID then unmarshalNewConnectionIDFrame data offset
  else if ft =? FrameRetireConnectionID then unmarshalRetireConnectionIDFrame data offset
  else Err (ErrUnknownFrameType ft).

(** ** Well-formed frames: what the field types of the Go structs admit, and
    the lengths the length fields can carry. *)

Definition AckRange_ok (r : AckRange) : Prop := is_u8 (Gap r) /\ is_u32 (AckRangeLength r).

Definition Frame_ok (f : Frame) : Prop :=
  match f with
  | PaddingFrame | PingFrame => True
  | AckF f => is_u32 (LargestAcked f) /\ is_u16 (AckDelay f)
              /\ is_u32 (FirstAckRangeLength f) /\ Forall AckRange_ok (AckRanges f)
              /\ Z.of_nat (length (AckRanges f)) < 2 ^ 8
  | StreamF f => is_u64 (Offset f) /\ Z.of_nat (length (Data f)) < 2 ^ 16
  | WindowUpdateFrame v | ResetStreamFrame v | MaxStreamsFrame v => is_u32 v
  | MaxDataFrame v | DataBlockedFrame v | RetireConnectionIDFrame v => is_u64 v
  | MTUProbeFrame n => 1 <= n
  | PathChallengeFrame d | PathResponseFrame d => length d = 8%nat
  | ConnectionCloseFrame e t r => is_u32 e /\ is_u32 t /\ Z.of_nat (length r) < 2 ^ 16
  | StopSendingFrame s e => is_u32 s /\ is_u32 e
  | StreamDataBlockedFrame s m => is_u32 s /\ is_u64 m
  | NewConnectionIDFrame s r c t =>
      is_u64 s /\ is_u64 r /\ CID_ok c /\ length t = StatelessResetTokenLength
  end.

(** The frame that takes all the bytes after it. *)
Definition greedy (f : Frame) : bool :=
  match f with MTUProbeFrame _ => true | _ => false end.

(** ** Lengths *)

Lemma Marshal_length f : length (Marshal f) = FrameLen f.
Proof. destruct f; try done; apply length_fill. Qed.

Lemma FrameLen_pos f : (1 <= FrameLen f)%nat.
Proof.
  destruct f; unfold FrameLen, AckFrame_Len, StreamFrame_Len, streamFrameHeaderLen,
    MTUProbeFrame_Len, ConnectionCloseFrame_Len, NewConnectionIDFrame_Len; zcases; lia.
Qed.

(** ** Decoding is safe on every input *)

(** A decoder's result at [off]: an error, or a well-formed frame whose bytes
    lie inside the slice and number what its own [Len] says; a greedy one takes
    all of them. *)
Definition within (data : list byte) (off : nat) (m : outcome (Frame * nat)) : Prop :=
  match m with
  | Ok (f, n) => Frame_ok f /\ n = FrameLen f /\ (off + n <= length data)%nat
                 /\ (greedy f = true -> (off + n)%nat = length data)
  | Err _ => True
  | Panic | OutOfFuel => False
  end.

(** One step of running a decoder: a length check that fails ends it, one
    that passes justifies the read after it. *)
Ltac read_step :=
  match goal with
  | |- within _ _ (if (?a <? ?b)%nat then _ else _) =>
      destruct (Nat.ltb_spec a b); [exact I|]
  | |- context [index ?d ?i] =>
      let b := fresh "b" in let E := fresh "E" in
      destruct (index_lt d i) as (b & E); [lia|]; rewrite E; clear E;
      cbn [mbind outcome_bind]
  | |- context [read_be ?n ?d ?i] =>
      let v := fresh "v" in let E := fresh "E" in let R := fresh "R" in
      destruct (read_be_ok n d i) as (v & E & R); [lia|]; rewrite E; clear E;
      cbn [mbind outcome_bind]
  | |- context [slice ?d ?i ?j] =>
      let bs := fresh "bs" in let E := fresh "E" in let L := fresh "L" in
      destruct (slice_ok d i j) as (bs & E & L); [lia..|]; rewrite E; clear E;
      cbn [mbind outcome_bind]
  end.

Lemma read_ranges_ok n data off : (off + n * 5 <= length data)%nat ->
  exists rs, read_ranges n data off = Ok (rs, (off + n * 5)%nat)
    /\ length rs = n /\ Forall AckRange_ok rs.
Proof.
  revert off. induction n as [|n IH]; intros off H; simpl.
  { exists []. by rewrite Nat.add_0_r. }
  do 2 read_step. destruct (IH (off + 5)%nat) as (rs & -> & Hl & Hf); [lia|].
  cbn [mbind outcome_bind]. exists (MkAckRange (of_byte b) v :: rs).
  split; [do 2 f_equal; lia|]. split; [simpl; lia|].
  constructor; [|done]. split; [apply of_byte_range|done].
Qed.

Lemma unmarshalAckFrame_within data off : within data off (unmarshalAckFrame data off).
Proof.
  unfold unmarshalAckFrame. repeat read_step.
  pose proof (of_byte_range b) as Hb. unfold is_u8 in Hb.
  edestruct read_ranges_ok as (rs & -> & Hl & Hf); [done|]. cbn [mbind outcome_bind].
  simpl. unfold AckFrame_Len; simpl. rewrite Hl. split_and!; try done; lia.
Qed.

Lemma unmarshalStreamFrame_within data off : within data off (unmarshalStreamFrame data off).
Proof.
  unfold unmarshalStreamFrame, streamFrameHeaderLen. repeat read_step.
  cbn [within Frame_ok FrameLen]. unfold StreamFrame_Len, streamFrameHeaderLen; cbn [Data Offset].
  rewrite length_fill. split_and!; done || lia.
Qed.

Lemma unmarshalNewConnectionIDFrame_within data off :
  within data off (unmarshalNewConnectionIDFrame data off).
Proof.
  unfold unmarshalNewConnectionIDFrame. repeat read_step.
  destruct (Nat.ltb_spec MaxCIDLength (Z.to_nat (of_byte b))); [done|].
  cbn [orb]. repeat read_step.
  rewrite NewConnectionID_fits by lia. cbn [mbind outcome_bind within Frame_ok FrameLen].
  unfold NewConnectionIDFrame_Len, Len; cbn [cid_len].
  split_and!; try done; [apply fill_cid_ok; lia|apply length_fill|lia|lia].
Qed.

Lemma fixed_within data off : 
  within data off (unmarshalWindowUpdateFrame data off)
  /\ within data off (unmarshalMaxDataFrame data off)
  /\ within data off (unmarshalResetStreamFrame data off)
  /\ within data off (unmarshalMaxStreamsFrame data off)
  /\ within data off (unmarshalPathChallengeFrame data off)
  /\ within data off (unmarshalPathResponseFrame data off)
  /\ within data off (unmarshalStopSendingFrame data off)
  /\ within data off (unmarshalDataBlockedFrame data off)
  /\ within data off (unmarshalStreamDataBlockedFrame data off)
  /\ within data off (unmarshalRetireConnectionIDFrame data off).
Proof.
  unfold unmarshalWindowUpdateFrame, unmarshalMaxDataFrame, unmarshalResetStreamFrame,
    unmarshalMaxStreamsFrame, unmarshalPathChallengeFrame, unmarshalPathResponseFrame,
    unmarshalStopSendingFrame, unmarshalDataBlockedFrame, unmarshalStreamDataBlockedFrame,
    unmarshalRetireConnectionIDFrame.
  split_and!; repeat read_step; cbn [within Frame_ok FrameLen]; rewrite ?length_fill;
    split_and!; done || lia.
Qed.

Lemma unmarshalMTUProbeFrame_within data off : (off < length data)%nat ->
  within data off (unmarshalMTUProbeFrame data off).
Proof.
  intros H. unfold unmarshalMTUProbeFrame. zcases; [done|].
  cbn [within Frame_ok FrameLen]. unfold MTUProbeFrame_Len. zcases; lia.
Qed.

Lemma unmarshalConnectionCloseFrame_within data off :
  within data off (unmarshalConnectionCloseFrame data off).
Proof.
  unfold unmarshalConnectionCloseFrame. repeat read_step.
  cbn [within Frame_ok FrameLen]. unfold ConnectionCloseFrame_Len.
  split_and!; try done; lia.
Qed.

Lemma UnmarshalFrame_within data off : within data off (UnmarshalFrame data off).
Proof.
  unfold UnmarshalFrame. destruct (Nat.leb_spec (length data) off); [done|]. read_step.
  destruct (fixed_within data off) as (?&?&?&?&?&?&?&?&?&?).
  repeat (case_match; [first
    [ done | assumption
    | cbn; split_and!; done || lia
    | apply unmarshalAckFrame_within | apply unmarshalStreamFrame_within
    | apply unmarshalNewConnectionIDFrame_within | apply unmarshalConnectionCloseFrame_within
    | apply unmarshalMTUProbeFrame_within; done ]|]).
  done.
Qed.

(** ** Decoding depends only on the bytes from the offset on *)

Lemma ltb_shift (pre d : list byte) k :
  (length (pre ++ d) <? length pre + k)%nat = (length d <? k)%nat.
Proof.
  rewrite length_app. destruct (Nat.ltb_spec (length d) k),
    (Nat.ltb_spec (length pre + length d) (length pre + k)); done || lia.
Qed.

Ltac shift_step :=
  cbv zeta; rewrite <- ?Nat.add_assoc, ?ltb_shift, ?index_shift, ?read_be_shift,
    ?slice_shift; cbn [Nat.add];
  match goal with
  | |- (if ?c then _ else _) = (if ?c then _ else _) => destruct c; [reflexivity|]
  | |- ?m ≫= _ = ?m ≫= _ => destruct m; cbn [mbind outcome_bind]; try reflexivity
  | |- Ok _ = Ok _ => try reflexivity; do 2 f_equal; lia
  end.

Lemma read_ranges_shift n pre d k :
  read_ranges n (pre ++ d) (length pre + k)
  = ('(rs, o) ← read_ranges n d k; Ok (rs, (length pre + o)%nat)).
Proof.
  revert k. induction n as [|n IH]; intros k; simpl; [done|].
  rewrite index_shift. destruct (index d k); try done; cbn [mbind outcome_bind].
  rewrite <- !Nat.add_assoc, read_be_shift, IH.
  destruct (read_be 4 d (k + 1)); try done; cbn [mbind outcome_bind].
  by destruct (read_ranges n d (k + 5)) as [[]| | |].
Qed.

Lemma unmarshalAckFrame_shift pre d :
  unmarshalAckFrame (pre ++ d) (length pre) = unmarshalAckFrame d 0.
Proof.
  unfold unmarshalAckFrame. repeat shift_step. rewrite read_ranges_shift.
  match goal with |- context [read_ranges ?n d ?k] => destruct (read_ranges n d k) as [[]| | |] end;
    cbn [mbind outcome_bind]; try done. do 2 f_equal. lia.
Qed.

Lemma unmarshalNewConnectionIDFrame_shift pre d :
  unmarshalNewConnectionIDFrame (pre ++ d) (length pre) = unmarshalNewConnectionIDFrame d 0.
Proof. unfold unmarshalNewConnectionIDFrame. repeat shift_step. Qed.

Lemma fixed_shift pre d (n := length pre) :
  unmarshalStreamFrame (pre ++ d) n = unmarshalStreamFrame d 0
  /\ unmarshalWindowUpdateFrame (pre ++ d) n = unmarshalWindowUpdateFrame d 0
  /\ unmarshalMaxDataFrame (pre ++ d) n = unmarshalMaxDataFrame d 0
  /\ unmarshalResetStreamFrame (pre ++ d) n = unmarshalResetStreamFrame d 0
  /\ unmarshalMaxStreamsFrame (pre ++ d) n = unmarshalMaxStreamsFrame d 0
  /\ unmarshalPathChallengeFrame (pre ++ d) n = unmarshalPathChallengeFrame d 0
  /\ unmarshalPathResponseFrame (pre ++ d) n = unmarshalPathResponseFrame d 0
  /\ unmarshalConnectionCloseFrame (pre ++ d) n = unmarshalConnectionCloseFrame d 0
  /\ unmarshalStopSendingFrame (pre ++ d) n = unmarshalStopSendingFrame d 0
  /\ unmarshalDataBlockedFrame (pre ++ d) n = unmarshalDataBlockedFrame d 0
  /\ unmarshalStreamDataBlockedFrame (pre ++ d) n = unmarshalStreamDataBlockedFrame d 0
  /\ unmarshalRetireConnectionIDFrame (pre ++ d) n = unmarshalRetireConnectionIDFrame d 0.
Proof.
  subst n. unfold unmarshalStreamFrame, unmarshalWindowUpdateFrame, unmarshalMaxDataFrame,
    unmarshalResetStreamFrame, unmarshalMaxStreamsFrame, unmarshalPathChallengeFrame,
    unmarshalPathResponseFrame, unmarshalStopSendingFrame, unmarshalDataBlockedFrame,
    unmarshalStreamDataBlockedFrame, unmarshalRetireConnectionIDFrame,
    unmarshalConnectionCloseFrame.
  split_and!; repeat shift_step.
Qed.

Lemma unmarshalMTUProbeFrame_shift pre d :
  unmarshalMTUProbeFrame (pre ++ d) (length pre) = unmarshalMTUProbeFrame d 0.
Proof.
  unfold unmarshalMTUProbeFrame. rewrite length_app.
  by replace (Z.of_nat (length pre + length d) - Z.of_nat (length pre))
    with (Z.of_nat (length d) - Z.of_nat 0) by lia.
Qed.

Lemma leb_shift (pre d : list byte) :
  (length (pre ++ d) <=? length pre)%nat = (length d <=? 0)%nat.
Proof.
  rewrite length_app. destruct (Nat.leb_spec (length d) 0),
    (Nat.leb_spec (length pre + length d) (length pre)); done || lia.
Qed.

Lemma UnmarshalFrame_shift pre d :
  UnmarshalFrame (pre ++ d) (length pre) = UnmarshalFrame d 0.
Proof.
  unfold UnmarshalFrame. rewrite leb_shift. destruct (length d <=? 0)%nat; [reflexivity|].
  rewrite <- (index_shift pre d 0), Nat.add_0_r.
  destruct (index (pre ++ d) (length pre)) as [b| | |]; cbn [mbind outcome_bind];
    [|reflexivity..].
  destruct (fixed_shift pre d) as (-> & -> & -> & -> & -> & -> & -> & -> & -> & -> & -> & ->).
  rewrite unmarshalAckFrame_shift, unmarshalNewConnectionIDFrame_shift,
    unmarshalMTUProbeFrame_shift. reflexivity.
Qed.

(** ** Decoding reads back what encoding wrote *)

Lemma UnmarshalFrame_type t rest (data := to_byte t :: rest) : is_u8 t ->
  UnmarshalFrame data 0 =
    if t =? FramePadding then Ok (PaddingFrame, 1%nat)
    else if t =? FramePing then Ok (PingFrame, 1%nat)
    else if t =? FrameAck then unmarshalAckFrame data 0
    else if t =? FrameStream then unmarshalStreamFrame data 0
    else if t =? FrameWindowUpdate then unmarshalWindowUpdateFrame data 0
    else if t =? FrameMaxData then unmarshalMaxDataFrame data 0
    else if t =? FrameResetStream then unmarshalResetStreamFrame data 0
    else if t =? FrameMaxStreams then unmarshalMaxStreamsFrame data 0
    else if t =? FrameMTUProbe then unmarshalMTUProbeFrame data 0
    else if t =? FramePathChallenge then unmarshalPathChallengeFrame data 0
    else if t =? FramePathResponse then unmarshalPathResponseFrame data 0
    else if t =? FrameConnectionClose then unmarshalConnectionCloseFrame data 0
    else if t =? FrameStopSending then unmarshalStopSendingFrame data 0
    else if t =? FrameDataBlocked then unmarshalDataBlockedFrame data 0
    else if t =? FrameStreamDataBlocked then unmarshalStreamDataBlockedFrame data 0
    else if t =? FrameNewConnectionID then unmarshalNewConnectionIDFrame data 0
    else if t =? FrameRetireConnectionID then unmarshalRetireConnectionIDFrame data 0
    else Err (ErrUnknownFrameType t).
Proof.
  intros H. unfold UnmarshalFrame, data.
  change (length (to_byte t :: rest) <=? 0)%nat with false. cbv iota.
  change (index (to_byte t :: rest) 0) with (Ok (to_byte t)).
  cbn [mbind outcome_bind]. rewrite of_to_byte, u8_small by done. reflexivity.
Qed.

#[global] Arguments unmarshalAckFrame : simpl never.
#[global] Arguments unmarshalStreamFrame : simpl never.
#[global] Arguments unmarshalWindowUpdateFrame : simpl never.
#[global] Arguments unmarshalMaxDataFrame : simpl never.
#[global] Arguments unmarshalResetStreamFrame : simpl never.
#[global] Arguments unmarshalMaxStreamsFrame : simpl never.
#[global] Arguments unmarshalMTUProbeFrame : simpl never.
#[global] Arguments unmarshalPathChallengeFrame : simpl never.
#[global] Arguments unmarshalPathResponseFrame : simpl never.
#[global] Arguments unmarshalConnectionCloseFrame : simpl never.
#[global] Arguments unmarshalStopSendingFrame : simpl never.
#[global] Arguments unmarshalDataBlockedFrame : simpl never.
#[global] Arguments unmarshalStreamDataBlockedFrame : simpl never.
#[global] Arguments unmarshalNewConnectionIDFrame : simpl never.
#[global] Arguments unmarshalRetireConnectionIDFrame : simpl never.

Lemma length_encode_ranges rs : length (encode_ranges rs) = (length rs * 5)%nat.
Proof.
  induction rs as [|r rs IH]; [done|]. cbn [encode_ranges].
  rewrite !length_app, length_be_encode, IH. simpl. lia.
Qed.

Lemma read_encode_ranges rs pre post : Forall AckRange_ok rs ->
  read_ranges (length rs)
    (pre ++ encode_ranges rs ++ post)
    (length pre) = Ok (rs, (length pre + length rs * 5)%nat).
Proof.
  intros H. revert pre. induction H as [|[g l] rs [Hg Hl] _ IH]; intros pre.
  { simpl. by rewrite Nat.add_0_r. }
  cbn [encode_ranges length read_ranges Gap AckRangeLength] in *.
  destruct (be4_explicit l Hl) as (a & b & c & d & -> & Hd).
  rewrite <- !app_assoc. cbn [app].
  rewrite <- (Nat.add_0_r (length pre)) at 1. rewrite index_shift, read_be_shift.
  specialize (IH (pre ++ [to_byte g; a; b; c; d])).
  rewrite length_app in IH. cbn [length] in IH. rewrite <- !app_assoc in IH.
  cbn [app] in *. rewrite IH.
  change (index (to_byte g :: ?x) 0) with (Ok (to_byte g)).
  unfold read_be, slice.
  cbn [length Nat.add Nat.leb andb Nat.sub drop take mbind outcome_bind mret outcome_ret].
  rewrite take_0, Hd, of_to_byte, u8_small by done. do 2 f_equal. lia.
Qed.

(** Picks the decoder of a literal frame type. *)
Ltac dispatch :=
  cbn [app]; rewrite UnmarshalFrame_type by (cbv; split; [discriminate|reflexivity]);
  cbv beta iota zeta delta [FramePadding FramePing FrameAck FrameStream FrameWindowUpdate
    FrameMaxData FrameResetStream FrameMaxStreams FrameMTUProbe FramePathChallenge
    FramePathResponse FrameConnectionClose FrameStopSending FrameDataBlocked
    FrameStreamDataBlocked FrameNewConnectionID FrameRetireConnectionID Z.eqb Pos.eqb].

(** Runs a decoder on explicit bytes. *)
Ltac run_decoder :=
  unfold read_be, slice, index, streamFrameHeaderLen;
  cbn [app length Nat.add Nat.leb Nat.ltb andb Nat.sub drop take mbind outcome_bind
       mret outcome_ret lookup list_lookup];
  rewrite ?take_0;
  repeat match goal with D : be_decode ?l = _ |- context [be_decode ?l] => rewrite D end.

(** A second length check, against a length read from the bytes. *)
Ltac passes_check :=
  match goal with |- (if ?c then _ else _) = _ =>
    replace c with false;
    [|symmetry; match goal with |- match ?m with _ => _ end = false =>
        let E := fresh in destruct m eqn:E; [done|apply Nat.leb_gt; lia] end] end.

(** The variable-length tail of a frame. *)
Ltac slice_tail :=
  rewrite (proj2 (Nat.leb_le _ _)) by lia; cbn [mbind outcome_bind];
  rewrite ?Nat.sub_0_r, ?drop_0, ?take_app_length.

Lemma AckFrame_roundtrip f post : Frame_ok (AckF f) ->
  UnmarshalFrame (Marshal (AckF f) ++ post) 0 = Ok (AckF f, FrameLen (AckF f)).
Proof.
  intros (H1 & H2 & H3 & H4 & H5). destruct f as [la ad fr rs].
  cbn [Marshal FrameLen]. unfold AckFrame_Marshal, AckFrame_Len.
  cbn [LargestAcked AckDelay FirstAckRangeLength AckRanges] in *. rewrite fill_exact.
  2: { rewrite !length_app, !length_be_encode, length_encode_ranges. simpl. lia. }
  rewrite <- !app_assoc. explicit_bytes. dispatch.
  pose proof (fun pre => read_encode_ranges rs pre post H4) as Hrr.
  match goal with |- context [?a :: ?b :: ?c :: ?d :: ?e :: ?f :: ?g :: ?h :: ?i :: ?j :: ?k :: ?l
      :: encode_ranges _ ++ post] => specialize (Hrr [a;b;c;d;e;f;g;h;i;j;k;l]) end.
  cbn [app length Nat.add] in Hrr. unfold unmarshalAckFrame. run_decoder.
  rewrite of_to_byte, u8_small, Nat2Z.id by width.
  rewrite length_app, length_encode_ranges.
  passes_check. rewrite Hrr. cbn [mbind outcome_bind]. reflexivity.
Qed.

Lemma StreamFrame_roundtrip f post : Frame_ok (StreamF f) ->
  UnmarshalFrame (Marshal (StreamF f) ++ post) 0 = Ok (StreamF f, FrameLen (StreamF f)).
Proof.
  intros [H1 H2]. destruct f as [fin syn off d].
  cbn [Marshal FrameLen]. unfold StreamFrame_Marshal, StreamFrame_Len.
  cbn [IsFin IsSyn Offset Data] in *. rewrite fill_exact.
  2: { rewrite !length_app, !length_be_encode. unfold streamFrameHeaderLen. simpl. lia. }
  rewrite <- !app_assoc. explicit_bytes. dispatch. unfold unmarshalStreamFrame. run_decoder.
  rewrite Nat2Z.id, length_app. passes_check. slice_tail.
  rewrite fill_exact by done. destruct fin, syn; reflexivity.
Qed.

Lemma ConnectionCloseFrame_roundtrip e t r post (f := ConnectionCloseFrame e t r) :
  Frame_ok f -> UnmarshalFrame (Marshal f ++ post) 0 = Ok (f, FrameLen f).
Proof.
  intros (H1 & H2 & H3). subst f.
  cbn [Marshal FrameLen]. unfold ConnectionCloseFrame_Marshal, ConnectionCloseFrame_Len.
  rewrite fill_exact.
  2: { rewrite !length_app, !length_be_encode. simpl. lia. }
  rewrite <- !app_assoc. explicit_bytes. dispatch.
  unfold unmarshalConnectionCloseFrame. run_decoder.
  rewrite Nat2Z.id, length_app. passes_check. slice_tail. reflexivity.
Qed.

Lemma NewConnectionIDFrame_roundtrip s r c t post (f := NewConnectionIDFrame s r c t) :
  Frame_ok f -> UnmarshalFrame (Marshal f ++ post) 0 = Ok (f, FrameLen f).
Proof.
  intros (H1 & H2 & H3 & H4). subst f.
  pose proof (cid_bound c H3) as Hb. unfold MaxCIDLength in Hb.
  cbn [Marshal FrameLen]. unfold NewConnectionIDFrame_Marshal, NewConnectionIDFrame_Len.
  rewrite fill_exact.
  2: { rewrite !length_app, !length_be_encode, length_Bytes, H4. unfold Len. simpl. lia. }
  rewrite <- !app_assoc. explicit_bytes. dispatch.
  unfold unmarshalNewConnectionIDFrame, Len. run_decoder.
  rewrite of_to_byte, u8_small, Nat2Z.id, !length_app, length_Bytes, H4 by width.
  replace (match cid_len c with 0%nat => false | S m' => (MaxCIDLength <=? m')%nat end)
    with false by (symmetry; destruct (cid_len c); [done|]; apply Nat.leb_gt;
      unfold MaxCIDLength; lia).
  cbn [orb]. passes_check. rewrite !(proj2 (Nat.leb_le _ _)) by lia.
  cbn [andb mbind outcome_bind]. rewrite Nat.sub_0_r, drop_0.
  rewrite take_app_length' by by rewrite length_Bytes.
  rewrite NewConnectionID_Bytes by done. cbn [mbind outcome_bind].
  rewrite drop_app_length' by by rewrite length_Bytes.
  rewrite take_app_length' by lia. rewrite fill_exact by done. reflexivity.
Qed.


(** Encodes, then decodes, a frame of fixed layout. *)
Ltac fixed_frame enc dec :=
  cbn [Marshal FrameLen]; unfold enc;
  rewrite fill_exact by (rewrite ?length_app, ?length_be_encode; reflexivity);
  rewrite <- ?app_assoc; explicit_bytes; dispatch; unfold dec; run_decoder; reflexivity.

Lemma fixed_roundtrip f post : Frame_ok f ->
  match f with
  | AckF _ | StreamF _ | MTUProbeFrame _ | ConnectionCloseFrame _ _ _
  | NewConnectionIDFrame _ _ _ _ | PathChallengeFrame _ | PathResponseFrame _ => False
  | _ => True
  end ->
  UnmarshalFrame (Marshal f ++ post) 0 = Ok (f, FrameLen f).
Proof.
  intros Hok Hf. destruct f; try contradiction; cbn [Frame_ok] in Hok.
  - reflexivity.
  - reflexivity.
  - fixed_frame WindowUpdateFrame_Marshal unmarshalWindowUpdateFrame.
  - fixed_frame MaxDataFrame_Marshal unmarshalMaxDataFrame.
  - fixed_frame ResetStreamFrame_Marshal unmarshalResetStreamFrame.
  - fixed_frame MaxStreamsFrame_Marshal unmarshalMaxStreamsFrame.
  - destruct Hok. fixed_frame StopSendingFrame_Marshal unmarshalStopSendingFrame.
  - fixed_frame DataBlockedFrame_Marshal unmarshalDataBlockedFrame.
  - destruct Hok. fixed_frame StreamDataBlockedFrame_Marshal unmarshalStreamDataBlockedFrame.
  - fixed_frame RetireConnectionIDFrame_Marshal unmarshalRetireConnectionIDFrame.
Qed.

Lemma Path_roundtrip d post : length d = 8%nat ->
  UnmarshalFrame (Marshal (PathChallengeFrame d) ++ post) 0 = Ok (PathChallengeFrame d, 9%nat)
  /\ UnmarshalFrame (Marshal (PathResponseFrame d) ++ post) 0 = Ok (PathResponseFrame d, 9%nat).
Proof.
  intros H. do 8 (destruct d as [|? d]; [done|]). destruct d; [|done]. split; reflexivity.
Qed.

Lemma MTUProbeFrame_roundtrip n : 1 <= n ->
  UnmarshalFrame (Marshal (MTUProbeFrame n)) 0 = Ok (MTUProbeFrame n, Z.to_nat n).
Proof.
  intros H. cbn [Marshal]. unfold MTUProbeFrame_Marshal, MTUProbeFrame_Len.
  destruct (Z.ltb_spec n 1); [lia|]. destruct (Z.to_nat n) as [|k] eqn:E; [lia|].
  unfold fill. cbn [app take]. dispatch.
  unfold unmarshalMTUProbeFrame. cbn [length]. rewrite length_take, length_replicate.
  replace (Z.of_nat (S (k `min` S k)) - Z.of_nat 0) with n by lia.
  zcases; [lia|]. by rewrite E.
Qed.

(** [UnmarshalFrame] inverts [Marshal] at any offset of any packet. An MTU
    probe takes every byte that follows it, so it has to come last. *)
Lemma frame_roundtrip f pre post : Frame_ok f -> (greedy f = true -> post = []) ->
  UnmarshalFrame (pre ++ Marshal f ++ post) (length pre) = Ok (f, FrameLen f).
Proof.
  intros Hok Hg. rewrite UnmarshalFrame_shift. destruct f; try by apply fixed_roundtrip.
  - by apply AckFrame_roundtrip.
  - by apply StreamFrame_roundtrip.
  - rewrite Hg, app_nil_r by done. cbn [Frame_ok] in Hok.
    rewrite MTUProbeFrame_roundtrip by done. cbn [FrameLen]. unfold MTUProbeFrame_Len.
    zcases; [lia|done].
  - by apply Path_roundtrip.
  - by apply Path_roundtrip.
  - by apply ConnectionCloseFrame_roundtrip.
  - by apply NewConnectionIDFrame_roundtrip.
Qed.
