(* ===== verification/Packet.v ===== *)
(** * Packets (src/packet.go)

    A packet is a header (version, both connection IDs, sequence, both stream
    IDs) followed by frames up to the end of the datagram. *)

From S2P Require Import Prelude Constants Cid Frame.

Record Packet := MkPacket {
  Version : Z;
  DestinationCID : ConnectionID;
  SourceCID : ConnectionID;
  Sequence : Z;
  DestinationStreamID : Z;
  SourceStreamID : Z;
  Frames : list Frame;
  (* not serialized *)
  pkt_SentTime : Z;
  pkt_IsAcked : bool;
  wireLen : nat
}.

Definition minHeaderLen : nat := 18.

(** [copy] of each frame's bytes after the header. *)
Definition marshal_frames (fs : list Frame) : list byte := concat (Marshal <$> fs).

Definition MarshalPacket (p : Packet) : list byte :=
  let headerLen := (4 + 1 + Len (DestinationCID p) + 1 + Len (SourceCID p) + 4 + 4 + 4)%nat in
  let framesLen := sum_list (FrameLen <$> Frames p) in
  fill (headerLen + framesLen)
    (be_encode 4 (Version p)
     ++ [to_byte (Z.of_nat (Len (DestinationCID p)))] ++ Bytes (DestinationCID p)
     ++ [to_byte (Z.of_nat (Len (SourceCID p)))] ++ Bytes (SourceCID p)
     ++ be_encode 4 (Sequence p)
     ++ be_encode 4 (DestinationStreamID p)
     ++ be_encode 4 (SourceStreamID p)
     ++ marshal_frames (Frames p)).

(** The frame loop. Every frame takes at least one byte, so the length of the
    datagram is fuel enough. *)
Fixpoint parse_frames (fuel : nat) (data : list byte) (offset : nat) : outcome (list Frame) :=
  if (offset <? length data)%nat then
    match fuel with
    | O => OutOfFuel
    | S fuel' =>
        '(frame, consumed) ← UnmarshalFrame data offset;
        frames ← parse_frames fuel' data (offset + consumed);
        Ok (frame :: frames)
    end
  else Ok [].

(** A connection ID preceded by its length, as both header fields are read.
    The check that a length byte is there is the source ID's; for the
    destination ID the header minimum already implies it. *)
Definition parse_cid (data : list byte) (offset : nat) : outcome (ConnectionID * nat) :=
  if (length data <=? offset)%nat then Err ErrPacketTooShort else
  len8 ← index data offset;
  let cidLen := Z.to_nat (of_byte len8) in
  let offset := (offset + 1)%nat in
  if (cidLen <? MinCIDLength)%nat || (MaxCIDLength <? cidLen)%nat
  then Err ErrInvalidCIDLength
  else if (length data <? offset + cidLen)%nat then Err ErrPacketTooShort
  else
    bs ← slice data offset (offset + cidLen);
    cid ← NewConnectionID bs;
    Ok (cid, (offset + cidLen)%nat).

Definition UnmarshalPacket (data : list byte) : outcome Packet :=
  if (length data <? minHeaderLen)%nat then Err ErrPacketTooShort else
  version ← Uint32 data 0;
  '(dcid, offset) ← parse_cid data 4;
  '(scid, offset) ← parse_cid data offset;
  if (length data <? offset + 12)%nat then Err ErrPacketTooShort else
  seq ← Uint32 data offset;
  let offset := (offset + 4)%nat in
  dstStreamID ← Uint32 data offset;
  let offset := (offset + 4)%nat in
  srcStreamID ← Uint32 data offset;
  let offset := (offset + 4)%nat in
  frames ← parse_frames (length data) data offset;
  Ok (MkPacket version dcid scid seq dstStreamID srcStreamID frames 0 false (length data)).

(** ** Well-formed packets *)

(** An MTU probe takes the rest of the datagram, so only the last frame may
    be one. *)
Fixpoint probe_last (fs : list Frame) : Prop :=
  match fs with
  | [] => True
  | f :: fs' => (greedy f = true -> fs' = []) /\ probe_last fs'
  end.

Record Packet_ok (p : Packet) : Prop := {
  ok_version : is_u32 (Version p);
  ok_dcid : CID_ok (DestinationCID p);
  ok_scid : CID_ok (SourceCID p);
  ok_seq : is_u32 (Sequence p);
  ok_dst : is_u32 (DestinationStreamID p);
  ok_src : is_u32 (SourceStreamID p);
  ok_frames : Forall Frame_ok (Frames p);
  ok_probe : probe_last (Frames p)
}.

(** The fields that travel: what the receiver learns from [n] bytes. *)
Definition received (n : nat) (p : Packet) : Packet :=
  MkPacket (Version p) (DestinationCID p) (SourceCID p) (Sequence p)
    (DestinationStreamID p) (SourceStreamID p) (Frames p) 0 false n.

(** ** Lengths *)

Lemma frames_len_cons f fs :
  sum_list (FrameLen <$> f :: fs) = (FrameLen f + sum_list (FrameLen <$> fs))%nat.
Proof. done. Qed.

Lemma length_marshal_frames fs : length (marshal_frames fs) = sum_list (FrameLen <$> fs).
Proof.
  unfold marshal_frames. induction fs as [|f fs IH]; [done|].
  rewrite frames_len_cons, fmap_cons. cbn [concat].
  by rewrite length_app, Marshal_length, IH.
Qed.

(** ** The frame loop *)

Lemma parse_frames_spec fuel data off : (length data <= off + fuel)%nat ->
  (off <= length data)%nat ->
  match parse_frames fuel data off with
  | Ok fs => Forall Frame_ok fs /\ probe_last fs
             /\ (off + sum_list (FrameLen <$> fs) = length data)%nat
  | Err _ => True
  | Panic | OutOfFuel => False
  end.
Proof.
  revert off. induction fuel as [|fuel IH]; intros off H1 H2; cbn [parse_frames];
    destruct (Nat.ltb_spec off (length data)) as [Hlt|Hge]; try lia;
    try (simpl; split_and!; [constructor|done|lia]).
  pose proof (UnmarshalFrame_within data off) as Hw.
  destruct (UnmarshalFrame data off) as [[f n]| | |]; cbn [mbind outcome_bind]; try done.
  destruct Hw as (Hok & -> & Hle & Hg). pose proof (FrameLen_pos f).
  specialize (IH (off + FrameLen f)%nat ltac:(lia) ltac:(lia)).
  destruct (parse_frames fuel data (off + FrameLen f)) as [fs| | |];
    cbn [mbind outcome_bind]; try done.
  destruct IH as (IH1 & IH2 & IH3). rewrite frames_len_cons.
  split_and!; [by constructor| |lia]. split; [|done].
  intros Hgr%Hg. destruct fs as [|g fs]; [done|].
  rewrite frames_len_cons in IH3. pose proof (FrameLen_pos g). lia.
Qed.

Lemma parse_frames_marshal fs pre fuel : Forall Frame_ok fs -> probe_last fs ->
  (length (marshal_frames fs) <= fuel)%nat ->
  parse_frames fuel (pre ++ marshal_frames fs) (length pre) = Ok fs.
Proof.
  intros H. revert pre fuel. induction H as [|f fs Hf Hfs IH]; intros pre fuel Hp Hl.
  { unfold marshal_frames; simpl. rewrite app_nil_r.
    destruct fuel; cbn [parse_frames]; by rewrite Nat.ltb_irrefl. }
  destruct Hp as [Hg Hp]. pose proof (FrameLen_pos f).
  assert (Hm : marshal_frames (f :: fs) = Marshal f ++ marshal_frames fs) by done.
  rewrite Hm in Hl |- *. rewrite length_app, Marshal_length in Hl.
  destruct fuel as [|fuel]; [lia|]. cbn [parse_frames].
  rewrite (proj2 (Nat.ltb_lt _ _))
    by (rewrite !length_app, Marshal_length; lia).
  rewrite frame_roundtrip; [|done|intros Hgr; by rewrite (Hg Hgr)].
  cbn [mbind outcome_bind]. rewrite app_assoc.
  specialize (IH (pre ++ Marshal f) fuel Hp ltac:(lia)).
  rewrite length_app, Marshal_length in IH. by rewrite IH.
Qed.

(** ** The header *)

(** What reading a connection ID can do: fail, or hand over a well-formed
    one whose bytes lie inside the datagram. *)
Lemma parse_cid_spec data off :
  match parse_cid data off with
  | Ok (c, o) => CID_ok c /\ o = (off + 1 + Len c)%nat /\ (o <= length data)%nat
  | Err _ => True
  | Panic | OutOfFuel => False
  end.
Proof.
  unfold parse_cid. destruct (Nat.leb_spec (length data) off); [done|].
  destruct (index_lt data off) as [b ->]; [lia|]. cbn [mbind outcome_bind].
  destruct (Nat.ltb_spec (Z.to_nat (of_byte b)) MinCIDLength); [done|].
  destruct (Nat.ltb_spec MaxCIDLength (Z.to_nat (of_byte b))); [done|]. cbn [orb].
  destruct (Nat.ltb_spec (length data) (off + 1 + Z.to_nat (of_byte b))); [done|].
  destruct (slice_ok data (off + 1) (off + 1 + Z.to_nat (of_byte b))) as (bs & -> & Hl); [lia..|].
  cbn [mbind outcome_bind]. rewrite NewConnectionID_fits by lia. cbn [mbind outcome_bind].
  split_and!; [apply fill_cid_ok; lia|unfold Len; cbn [cid_len]; lia|done].
Qed.

Lemma parse_cid_bytes c pre post : CID_ok c ->
  parse_cid (pre ++ [to_byte (Z.of_nat (Len c))] ++ Bytes c ++ post) (length pre)
  = Ok (c, (length pre + 1 + Len c)%nat).
Proof.
  intros H. pose proof (cid_bound c H) as Hb. unfold parse_cid, Len.
  assert (of_byte (to_byte (Z.of_nat (cid_len c))) = Z.of_nat (cid_len c)) as Hlen.
  { rewrite of_to_byte. apply u8_small. unfold is_u8, MaxCIDLength in *. lia. }
  rewrite !length_app, length_Bytes. cbn [length].
  destruct (Nat.leb_spec (length pre + (1 + (cid_len c + length post))) (length pre)); [lia|].
  rewrite <- (Nat.add_0_r (length pre)) at 1. rewrite index_shift.
  change (index ([?b] ++ ?l) 0) with (Ok b). cbn [mbind outcome_bind].
  rewrite Hlen, Nat2Z.id.
  destruct (Nat.ltb_spec (cid_len c) MinCIDLength) as [Hlt|_];
    [unfold MinCIDLength in Hlt; lia|].
  destruct (Nat.ltb_spec MaxCIDLength (cid_len c)); [lia|]. cbn [orb].
  match goal with |- context [if (?a <? ?b)%nat then _ else _] =>
    destruct (Nat.ltb_spec a b); [lia|] end.
  rewrite app_assoc.
  replace (length pre + 1)%nat
    with (length (pre ++ [to_byte (Z.of_nat (cid_len c))]) + 0)%nat
    by (rewrite length_app; simpl; lia).
  rewrite <- Nat.add_assoc, slice_shift. unfold slice.
  rewrite (length_app (Bytes c)), length_Bytes.
  rewrite !(proj2 (Nat.leb_le _ _)) by lia. cbn [andb mbind outcome_bind].
  rewrite drop_0. replace (0 + cid_len c - 0)%nat with (cid_len c) by lia.
  rewrite take_app_length' by by rewrite length_Bytes.
  rewrite NewConnectionID_Bytes by done. reflexivity.
Qed.

Lemma MarshalPacket_length p :
  length (MarshalPacket p)
  = (18 + Len (DestinationCID p) + Len (SourceCID p) + sum_list (FrameLen <$> Frames p))%nat.
Proof. unfold MarshalPacket. rewrite length_fill. lia. Qed.

(** The encoder fills its buffer exactly. *)
Lemma MarshalPacket_layout p :
  MarshalPacket p =
    be_encode 4 (Version p)
    ++ ([to_byte (Z.of_nat (Len (DestinationCID p)))] ++ Bytes (DestinationCID p)
    ++ ([to_byte (Z.of_nat (Len (SourceCID p)))] ++ Bytes (SourceCID p)
    ++ (be_encode 4 (Sequence p)
    ++ be_encode 4 (DestinationStreamID p)
    ++ be_encode 4 (SourceStreamID p)
    ++ marshal_frames (Frames p)))).
Proof.
  unfold MarshalPacket. rewrite fill_exact; [done|].
  rewrite !length_app, !length_be_encode, !length_Bytes, length_marshal_frames.
  unfold Len. simpl. lia.
Qed.

Lemma read_be_here n z post : 0 <= z < 2 ^ (8 * Z.of_nat n) ->
  read_be n (be_encode n z ++ post) 0 = Ok z.
Proof.
  intros H. unfold read_be, slice. rewrite length_app, length_be_encode.
  rewrite !(proj2 (Nat.leb_le _ _)) by lia. cbn [andb mbind outcome_bind mret outcome_ret].
  rewrite drop_0, Nat.sub_0_r, Nat.add_0_l.
  rewrite take_app_length' by by rewrite length_be_encode. by rewrite be_decode_small.
Qed.

Lemma read_be_there n z pre post off : off = length pre -> 0 <= z < 2 ^ (8 * Z.of_nat n) ->
  read_be n (pre ++ be_encode n z ++ post) off = Ok z.
Proof.
  intros -> H. rewrite <- (Nat.add_0_r (length pre)). rewrite read_be_shift.
  by apply read_be_here.
Qed.

Lemma parse_cid_there c pre post off : off = length pre -> CID_ok c ->
  parse_cid (pre ++ [to_byte (Z.of_nat (Len c))] ++ Bytes c ++ post) off
  = Ok (c, (off + 1 + Len c)%nat).
Proof. intros ->. apply parse_cid_bytes. Qed.

Section Header.
Context (p : Packet) (Hok : Packet_ok p).
Let d := DestinationCID p.
Let s := SourceCID p.
Let bytes := MarshalPacket p.

(** The pieces of the encoding, each found at its offset. *)
Lemma header_version : Uint32 bytes 0 = Ok (Version p).
Proof using Hok.
  unfold bytes. rewrite MarshalPacket_layout. apply read_be_here. apply Hok.
Qed.

Lemma header_dcid : parse_cid bytes 4 = Ok (d, (4 + 1 + Len d)%nat).
Proof using Hok.
  unfold bytes. rewrite MarshalPacket_layout. fold d.
  rewrite parse_cid_there; [done|done|apply Hok].
Qed.

Lemma header_scid : parse_cid bytes (4 + 1 + Len d) = Ok (s, (4 + 1 + Len d + 1 + Len s)%nat).
Proof using Hok.
  unfold bytes. rewrite MarshalPacket_layout. fold d s.
  rewrite 2 (app_assoc _ _ ([to_byte (Z.of_nat (Len s))] ++ _)).
  rewrite parse_cid_there; [done| |apply Hok].
  rewrite !length_app, length_be_encode, length_Bytes. unfold Len. simpl. lia.
Qed.

Let off := (4 + 1 + Len d + 1 + Len s)%nat.
Let ids := be_encode 4 (Version p) ++ [to_byte (Z.of_nat (Len d))] ++ Bytes d
           ++ [to_byte (Z.of_nat (Len s))] ++ Bytes s.

Lemma length_ids : length ids = off.
Proof using.
  unfold ids, off. rewrite !length_app, length_be_encode, !length_Bytes. unfold Len.
  simpl. lia.
Qed.

Lemma bytes_ids : bytes = ids ++ be_encode 4 (Sequence p)
  ++ be_encode 4 (DestinationStreamID p) ++ be_encode 4 (SourceStreamID p)
  ++ marshal_frames (Frames p).
Proof using. unfold bytes, ids. rewrite MarshalPacket_layout. by rewrite <- !app_assoc. Qed.

Lemma header_tail :
  Uint32 bytes off = Ok (Sequence p)
  /\ Uint32 bytes (off + 4) = Ok (DestinationStreamID p)
  /\ Uint32 bytes (off + 4 + 4) = Ok (SourceStreamID p)
  /\ parse_frames (length bytes) bytes (off + 4 + 4 + 4) = Ok (Frames p).
Proof using Hok.
  rewrite bytes_ids. split_and!.
  - apply read_be_there; [by rewrite length_ids|apply Hok].
  - rewrite app_assoc. apply read_be_there; [|apply Hok].
    rewrite length_app, length_ids, length_be_encode. done.
  - rewrite !app_assoc, <- (app_assoc _ (be_encode 4 (SourceStreamID p))).
    apply read_be_there; [|apply Hok].
    rewrite !length_app, length_ids, !length_be_encode. lia.
  - rewrite !app_assoc.
    replace (off + 4 + 4 + 4)%nat with (length (((ids ++ be_encode 4 (Sequence p))
      ++ be_encode 4 (DestinationStreamID p)) ++ be_encode 4 (SourceStreamID p)))
      by (rewrite !length_app, length_ids, !length_be_encode; lia).
    apply parse_frames_marshal; [apply Hok..|]. rewrite length_app. lia.
Qed.
End Header.

(** ** Decoding is safe on every datagram *)

Lemma unmarshal_safe (data : list byte) :
  match UnmarshalPacket data with
  | Ok p => Packet_ok p /\ wireLen p = length data
            /\ length (MarshalPacket p) = length data
  | Err _ => True
  | Panic | OutOfFuel => False
  end.
Proof.
  unfold UnmarshalPacket, minHeaderLen. destruct (Nat.ltb_spec (length data) 18); [done|].
  destruct (read_be_ok 4 data 0) as (v & -> & Hv); [lia|]. cbn [mbind outcome_bind].
  pose proof (parse_cid_spec data 4) as Hd.
  destruct (parse_cid data 4) as [[d o1]| | |]; cbn [mbind outcome_bind]; try done.
  pose proof (parse_cid_spec data o1) as Hs.
  destruct (parse_cid data o1) as [[s o2]| | |]; cbn [mbind outcome_bind]; try done.
  destruct Hd as (Hd1 & Hd2 & Hd3), Hs as (Hs1 & Hs2 & Hs3).
  destruct (Nat.ltb_spec (length data) (o2 + 12)); [done|].
  destruct (read_be_ok 4 data o2) as (q & -> & Hq); [lia|]. cbn [mbind outcome_bind].
  destruct (read_be_ok 4 data (o2 + 4)) as (ds & -> & Hds); [lia|]. cbn [mbind outcome_bind].
  destruct (read_be_ok 4 data (o2 + 4 + 4)) as (ss & -> & Hss); [lia|]. cbn [mbind outcome_bind].
  pose proof (parse_frames_spec (length data) data (o2 + 4 + 4 + 4) ltac:(lia) ltac:(lia)) as Hf.
  destruct (parse_frames _ _ _) as [fs| | |]; cbn [mbind outcome_bind]; try done.
  destruct Hf as (Hf1 & Hf2 & Hf3). split_and!; [by split|done|].
  rewrite MarshalPacket_length. cbn [DestinationCID SourceCID Frames]. lia.
Qed.

(** C18. On any byte string [UnmarshalPacket] returns; it never reads outside
    the datagram and its loop ends. What it accepts is a well-formed packet
    that accounts for every byte: encoding it again takes exactly as many. *)
Theorem UnmarshalPacket_safe (data : list byte) :
  match UnmarshalPacket data with
  | Ok p => Packet_ok p /\ wireLen p = length data
            /\ length (MarshalPacket p) = length data
  | Err _ => True
  | Panic | OutOfFuel => False
  end.
Proof. apply unmarshal_safe. Qed.

Lemma unmarshal_marshal (p : Packet) : Packet_ok p ->
  UnmarshalPacket (MarshalPacket p) = Ok (received (length (MarshalPacket p)) p).
Proof.
  intros Hok. unfold UnmarshalPacket, minHeaderLen.
  pose proof (MarshalPacket_length p) as Hl.
  destruct (Nat.ltb_spec (length (MarshalPacket p)) 18); [lia|].
  rewrite (header_version p Hok). cbn [mbind outcome_bind].
  rewrite (header_dcid p Hok). cbn [mbind outcome_bind].
  rewrite (header_scid p Hok). cbn [mbind outcome_bind].
  match goal with |- context [if (?a <? ?b)%nat then _ else _] =>
    destruct (Nat.ltb_spec a b); [lia|] end.
  destruct (header_tail p Hok) as (-> & -> & -> & ->). reflexivity.
Qed.

(** C19. The wire format is lossless. Decoding an encoded packet gives the
    packet back: every field that travels, and every frame in order. *)
Theorem packet_roundtrip (p : Packet) : Packet_ok p ->
  UnmarshalPacket (MarshalPacket p) = Ok (received (length (MarshalPacket p)) p).
Proof. apply unmarshal_marshal. Qed.

(** Two streams' worth of frames in one datagram. *)
Definition sample_packet : Packet :=
  MkPacket VersionCurrent (MkCID (fill MaxCIDLength [x01; x02; xff]) 3) zeroCID 7 3 4
    [AckF (MkAckFrame 6 2 3 [MkAckRange 1 2]);
     StreamF (MkStreamFrame false true 1024 [x68; x69]);
     MTUProbeFrame 5] 0 false 0.

Lemma sample_packet_ok : Packet_ok sample_packet.
Proof.
  assert (CID_ok (DestinationCID sample_packet))
    by (apply (fill_cid_ok [x01; x02; xff]); unfold MaxCIDLength; simpl; lia).
  split; cbn [sample_packet Version Sequence DestinationStreamID SourceStreamID Frames];
    try done; try (unfold VersionCurrent, VersionV3; width).
  - apply zeroCID_ok.
  - repeat constructor; simpl; width.
Qed.

Lemma packet_roundtrip_witness :
  Packet_ok sample_packet
  /\ UnmarshalPacket (MarshalPacket sample_packet) = Ok (received 57 sample_packet).
Proof.
  split; [exact sample_packet_ok|]. exact (packet_roundtrip sample_packet sample_packet_ok).
Defined.
