(* ===== verification/Version.v ===== *)
(** * Version negotiation (src/version.go) *)

From S2P Require Import Prelude Constants Cid Frame Packet.

Definition SupportedVersions : list Z := [VersionV3; VersionV2; VersionV1].

Fixpoint version_in (version : Z) (vs : list Z) : bool :=
  match vs with
  | [] => false
  | v :: vs' => if v =? version then true else version_in version vs'
  end.

Definition IsVersionSupported (version : Z) : bool := version_in version SupportedVersions.

(** The two nested loops: over the supported versions in preference order,
    the first that the client lists. *)
Fixpoint negotiate (supported clientVersions : list Z) : Z :=
  match supported with
  | [] => 0
  | sv :: supported' =>
      if version_in sv clientVersions then sv else negotiate supported' clientVersions
  end.

Definition NegotiateVersion (clientVersions : list Z) : Z :=
  negotiate SupportedVersions clientVersions.

Record VersionNegotiationPacket := MkVN {
  vn_DestinationCID : ConnectionID;
  vn_SourceCID : ConnectionID;
  vn_SupportedVersions : list Z
}.

Definition MarshalVersionNegotiation (p : VersionNegotiationPacket) : list byte :=
  let size := (4 + 1 + Len (vn_DestinationCID p) + 1 + Len (vn_SourceCID p)
               + length (vn_SupportedVersions p) * 4)%nat in
  fill size
    (be_encode 4 0
     ++ [to_byte (Z.of_nat (Len (vn_DestinationCID p)))] ++ Bytes (vn_DestinationCID p)
     ++ [to_byte (Z.of_nat (Len (vn_SourceCID p)))] ++ Bytes (vn_SourceCID p)
     ++ concat (be_encode 4 <$> vn_SupportedVersions p)).

(** The version loop: four bytes at a time while four are left. *)
Fixpoint parse_versions (fuel : nat) (data : list byte) (offset : nat) : outcome (list Z) :=
  if (offset + 4 <=? length data)%nat then
    match fuel with
    | O => OutOfFuel
    | S fuel' =>
        v ← Uint32 data offset;
        vs ← parse_versions fuel' data (offset + 4);
        Ok (v :: vs)
    end
  else Ok [].

(** Either connection ID: its length has been read at [offset - 1]. *)
Definition vn_cid (data : list byte) (offset cidLen : nat) : outcome ConnectionID :=
  if (MaxCIDLength <? cidLen)%nat || (length data <? offset + cidLen)%nat
  then Err ErrInvalidCIDLength
  else bs ← slice data offset (offset + cidLen); NewConnectionID bs.

Definition UnmarshalVersionNegotiation (data : list byte) : outcome VersionNegotiationPacket :=
  if (length data <? 6)%nat then Err ErrPacketTooShort else
  version ← Uint32 data 0;
  if negb (version =? 0) then Err ErrNotVersionNegotiation else
  let offset := 4%nat in
  dl ← index data offset;
  let dcidLen := Z.to_nat (of_byte dl) in
  let offset := (offset + 1)%nat in
  dcid ← vn_cid data offset dcidLen;
  let offset := (offset + dcidLen)%nat in
  if (length data <=? offset)%nat then Err ErrPacketTooShort else
  sl ← index data offset;
  let scidLen := Z.to_nat (of_byte sl) in
  let offset := (offset + 1)%nat in
  scid ← vn_cid data offset scidLen;
  let offset := (offset + scidLen)%nat in
  versions ← parse_versions (length data) data offset;
  Ok (MkVN dcid scid versions).

(** ** Negotiation *)

Lemma version_in_spec v vs : version_in v vs = true <-> v ∈ vs.
Proof.
  induction vs as [|w vs IH]; simpl; [split; [done|by intros ?%elem_of_nil]|].
  rewrite elem_of_cons. destruct (Z.eqb_spec w v) as [->|Hne]; [tauto|].
  rewrite IH. split; [auto|]. intros [?|?]; congruence.
Qed.

Lemma negotiate_spec supported vs : 0 ∉ supported ->
  StronglySorted Z.gt supported ->
  (negotiate supported vs = 0 /\ forall v, v ∈ supported -> v ∉ vs)
  \/ (negotiate supported vs ∈ supported /\ negotiate supported vs ∈ vs
      /\ forall v, v ∈ supported -> v ∈ vs -> v <= negotiate supported vs).
Proof.
  induction supported as [|sv supported IH]; intros H0 Hs; simpl.
  { left. split; [done|]. by intros v ?%elem_of_nil. }
  apply StronglySorted_inv in Hs as [Hs Hf]. rewrite Forall_forall in Hf.
  destruct (version_in sv vs) eqn:E.
  - apply version_in_spec in E. right. split_and!; [constructor|done|].
    intros v [->|Hv]%elem_of_cons _; [lia|]. specialize (Hf v Hv). lia.
  - assert (sv ∉ vs) by (rewrite <- version_in_spec; congruence).
    destruct IH as [[IH1 IH2]|(IH1 & IH2 & IH3)]; [set_solver|done| |].
    + left. split; [done|]. intros v [->|Hv]%elem_of_cons; auto.
    + right. split_and!; [by constructor|done|].
      intros v [->|Hv]%elem_of_cons ?; [done|auto].
Qed.

(** [NegotiateVersion] picks the highest version both sides list, and returns
    zero exactly when there is none. *)
Theorem NegotiateVersion_highest (vs : list Z) :
  (NegotiateVersion vs = 0 /\ forall v, IsVersionSupported v = true -> v ∉ vs)
  \/ (IsVersionSupported (NegotiateVersion vs) = true /\ NegotiateVersion vs ∈ vs
      /\ forall v, IsVersionSupported v = true -> v ∈ vs -> v <= NegotiateVersion vs).
Proof.
  unfold NegotiateVersion, IsVersionSupported. setoid_rewrite version_in_spec.
  apply negotiate_spec.
  - intros H. repeat (apply elem_of_cons in H as [H|H]; [done|]). by apply elem_of_nil in H.
  - repeat constructor.
Qed.

(** ** The negotiation packet *)

Record VN_ok (p : VersionNegotiationPacket) : Prop := {
  vn_ok_dcid : CID_ok (vn_DestinationCID p);
  vn_ok_scid : CID_ok (vn_SourceCID p);
  vn_ok_versions : Forall is_u32 (vn_SupportedVersions p)
}.

Lemma length_concat_versions vs : length (concat (be_encode 4 <$> vs)) = (length vs * 4)%nat.
Proof.
  induction vs as [|v vs IH]; [done|]. rewrite fmap_cons. cbn [concat length].
  rewrite length_app, length_be_encode, IH. lia.
Qed.

Lemma parse_versions_concat vs pre fuel : Forall is_u32 vs -> (length vs <= fuel)%nat ->
  parse_versions fuel (pre ++ concat (be_encode 4 <$> vs)) (length pre) = Ok vs.
Proof.
  intros H. revert pre fuel. induction H as [|v vs Hv _ IH]; intros pre fuel Hl.
  { rewrite fmap_nil. cbn [concat]. rewrite app_nil_r.
    destruct fuel; cbn [parse_versions];
      by rewrite (proj2 (Nat.leb_gt _ _)) by lia. }
  destruct fuel as [|fuel]; [simpl in Hl; lia|]. cbn [parse_versions length] in *.
  rewrite fmap_cons. cbn [concat].
  rewrite (proj2 (Nat.leb_le _ _)) by (rewrite !length_app, length_be_encode; lia).
  rewrite read_be_there by done. cbn [mbind outcome_bind].
  specialize (IH (pre ++ be_encode 4 v) fuel ltac:(lia)).
  rewrite length_app, length_be_encode, <- app_assoc in IH. by rewrite IH.
Qed.

Lemma vn_cid_there c pre post off : off = length pre -> CID_ok c ->
  vn_cid (pre ++ Bytes c ++ post) off (Len c) = Ok c.
Proof.
  intros -> H. pose proof (cid_bound c H). unfold vn_cid, Len.
  destruct (Nat.ltb_spec MaxCIDLength (cid_len c)); [lia|]. cbn [orb].
  match goal with |- context [if (?a <? ?b)%nat then _ else _] =>
    destruct (Nat.ltb_spec a b) as [Hlt|_] end.
  { rewrite !length_app, length_Bytes in Hlt. lia. }
  rewrite <- (Nat.add_0_r (length pre)) at 1. rewrite slice_shift. unfold slice.
  rewrite length_app, length_Bytes, !(proj2 (Nat.leb_le _ _)) by lia.
  cbn [andb mbind outcome_bind]. rewrite drop_0, Nat.sub_0_r.
  rewrite take_app_length' by by rewrite length_Bytes. by apply NewConnectionID_Bytes.
Qed.

Lemma index_there b pre post off : off = length pre -> index (pre ++ [b] ++ post) off = Ok b.
Proof. intros ->. rewrite <- (Nat.add_0_r (length pre)). by rewrite index_shift. Qed.

(** Decoding an encoded version negotiation packet gives the packet back:
    both connection IDs and the versions in order. *)
Theorem version_negotiation_roundtrip (p : VersionNegotiationPacket) : VN_ok p ->
  UnmarshalVersionNegotiation (MarshalVersionNegotiation p) = Ok p.
Proof.
  intros [Hd Hs Hv]. destruct p as [d s vs]. unfold MarshalVersionNegotiation.
  cbn [vn_DestinationCID vn_SourceCID vn_SupportedVersions] in *.
  assert (forall c, CID_ok c -> Z.to_nat (of_byte (to_byte (Z.of_nat (Len c)))) = Len c) as Hlen.
  { intros c Hc. pose proof (cid_bound c Hc). rewrite of_to_byte, u8_small, Nat2Z.id; [done|].
    unfold is_u8, MaxCIDLength, Len in *. lia. }
  rewrite fill_exact.
  2: { rewrite !length_app, length_be_encode, !length_Bytes, length_concat_versions.
       unfold Len. simpl. lia. }
  set (ld := to_byte (Z.of_nat (Len d))). set (ls := to_byte (Z.of_nat (Len s))).
  assert (Hld : Z.to_nat (of_byte ld) = Len d) by by apply Hlen.
  assert (Hls : Z.to_nat (of_byte ls) = Len s) by by apply Hlen.
  set (V := concat (be_encode 4 <$> vs)).
  unfold UnmarshalVersionNegotiation.
  match goal with |- context [if (?a <? ?b)%nat then _ else _] =>
    destruct (Nat.ltb_spec a b) as [Hlt|_];
    [rewrite !length_app, length_be_encode in Hlt; simpl in Hlt; lia|] end.
  rewrite read_be_here by lia. cbn [mbind outcome_bind negb Z.eqb].
  rewrite index_there by by rewrite length_be_encode. cbn [mbind outcome_bind].
  rewrite Hld.
  rewrite (app_assoc (be_encode 4 0) [ld]).
  rewrite vn_cid_there by done. cbn [mbind outcome_bind].
  rewrite (app_assoc _ (Bytes d)).
  assert (Hp : length ((be_encode 4 0 ++ [ld]) ++ Bytes d) = (4 + 1 + Len d)%nat).
  { rewrite !length_app, length_be_encode, length_Bytes. done. }
  set (pre := (be_encode 4 0 ++ [ld]) ++ Bytes d) in *.
  match goal with |- context [if (?a <=? ?b)%nat then _ else _] =>
    destruct (Nat.leb_spec a b) as [Hle|_];
    [rewrite !length_app, Hp in Hle; simpl in Hle; lia|] end.
  rewrite index_there by done. cbn [mbind outcome_bind].
  rewrite Hls.
  rewrite (app_assoc pre [ls]).
  rewrite vn_cid_there; [|rewrite length_app, Hp; done|done]. cbn [mbind outcome_bind].
  rewrite (app_assoc _ (Bytes s)).
  replace (4 + 1 + Len d + 1 + Len s)%nat with (length ((pre ++ [ls]) ++ Bytes s))
    by (rewrite !length_app, Hp, length_Bytes; done).
  unfold V. rewrite parse_versions_concat; [done|done|].
  rewrite !length_app, length_concat_versions. lia.
Qed.

Lemma version_negotiation_roundtrip_witness :
  let p := MkVN (MkCID (x05 :: replicate 19 x00) 1) zeroCID [3; 2; 1] in
  UnmarshalVersionNegotiation (MarshalVersionNegotiation p) = Ok p.
Proof.
  apply version_negotiation_roundtrip. split; [split; [done | vm_compute; lia | done] | apply zeroCID_ok |].
  repeat constructor; by vm_compute.
Defined.
