(* ===== verification/AckTracker.v ===== *)
(** * Which packets have arrived (src/ack_tracker.go)

    [recvTracker] remembers the last [ackHistory] sequence numbers as a bitmap
    of eight 64-bit words, indexed by sequence modulo the history. Its
    specification is the set of every sequence number ever recorded:
    [tracks r S] relates the two, and each operation is shown to follow it. *)

From S2P Require Import Prelude Constants Cid Frame.

Record recvTracker := MkTracker { largest : Z; any : bool; bits : list Z }.

(** The zero value. *)
Definition newTracker : recvTracker := MkTracker 0 false (replicate 8 0).

(** [r.bits[i/64]]; the index is below eight for every [i < ackHistory]. *)
Definition word (bs : list Z) (i : Z) : Z := default 0 (bs !! Z.to_nat (i / 64)).

Definition has (r : recvTracker) (seq : Z) : bool :=
  if negb (any r) || (largest r <? seq) || (ackHistory <=? u32 (largest r - seq)) then false
  else
    let i := seq mod ackHistory in
    negb (Z.land (word (bits r) i) (Z.shiftl 1 (i mod 64)) =? 0).

Definition set_bits (bs : list Z) (seq : Z) : list Z :=
  let i := seq mod ackHistory in
  <[Z.to_nat (i / 64) := Z.lor (word bs i) (Z.shiftl 1 (i mod 64))]> bs.

Definition clear_bits (bs : list Z) (seq : Z) : list Z :=
  let i := seq mod ackHistory in
  <[Z.to_nat (i / 64) := Z.ldiff (word bs i) (Z.shiftl 1 (i mod 64))]> bs.

(** [for s := r.largest + 1; s < seq; s++ { r.clear(s) }] *)
Fixpoint clear_loop (fuel : nat) (s seq : Z) (bs : list Z) : list Z :=
  if s <? seq then
    match fuel with
    | O => bs
    | S fuel' => clear_loop fuel' (u32 (s + 1)) seq (clear_bits bs s)
    end
  else bs.

Definition add (r : recvTracker) (seq : Z) : recvTracker * bool :=
  if negb (any r) then (MkTracker seq true (set_bits (bits r) seq), false)
  else if largest r <? seq then
    let gap := u32 (u32 (seq - largest r) - 1) in
    let bs :=
      if ackHistory <=? u32 (seq - largest r) then replicate 8 0
      else clear_loop (Z.to_nat (seq - largest r)) (u32 (largest r + 1)) seq (bits r) in
    (MkTracker seq (any r) (set_bits bs seq), 0 <? gap)
  else if seq =? largest r then (r, false)
  else if ackHistory <=? u32 (largest r - seq) then (r, true)
  else if has r seq then (r, false)
  else (MkTracker (largest r) (any r) (set_bits (bits r) seq), true).

(** The two closures of [frame], on the cursor and step counter they share. *)
Fixpoint run (fuel : nat) (r : recvTracker) (n cursor steps : Z) : Z * Z * Z :=
  match fuel with
  | O => (n, cursor, steps)
  | S fuel' =>
      if (steps <? ackHistory) && has r cursor then
        let n := u32 (n + 1) in
        let steps := u32 (steps + 1) in
        if cursor =? 0 then (n, cursor, ackHistory)
        else run fuel' r n (u32 (cursor - 1)) steps
      else (n, cursor, steps)
  end.

Fixpoint gap (fuel : nat) (r : recvTracker) (n cursor steps : Z) : Z * Z * Z :=
  match fuel with
  | O => (n, cursor, steps)
  | S fuel' =>
      if (steps <? ackHistory) && (n <? 255) && negb (has r cursor) then
        let n := u8 (n + 1) in
        let steps := u32 (steps + 1) in
        if cursor =? 0 then (n, cursor, ackHistory)
        else gap fuel' r n (u32 (cursor - 1)) steps
      else (n, cursor, steps)
  end.

(** [steps] grows with every round of either loop and ends it at the history. *)
Definition scanFuel : nat := 512.

(** The loop over (gap, run) pairs; [room] is how many more ranges fit. *)
Fixpoint ranges (room : nat) (r : recvTracker) (cursor steps : Z) : list AckRange :=
  match room with
  | O => []
  | S room' =>
      if steps <? ackHistory then
        let '(g, cursor, steps) := gap scanFuel r 0 cursor steps in
        if g =? 0 then [] else
        let '(n, cursor, steps) := run scanFuel r 0 cursor steps in
        if n =? 0 then [] else
        MkAckRange g n :: ranges room' r cursor steps
      else []
  end.

Definition frame (r : recvTracker) (ackDelay : Z) : AckFrame :=
  if negb (any r) then MkAckFrame 0 ackDelay 1 []
  else
    let '(n, cursor, steps) := run scanFuel r 0 (largest r) 0 in
    MkAckFrame (largest r) ackDelay n (ranges 5 r cursor steps).

#[global] Arguments scanFuel : simpl never.

(** ** Bits of the history *)

Definition slot (bs : list Z) (seq : Z) : bool :=
  let i := seq mod ackHistory in Z.testbit (word bs i) (i mod 64).

Lemma land_bit w k : 0 <= k -> negb (Z.land w (Z.shiftl 1 k) =? 0) = Z.testbit w k.
Proof.
  intros Hk. rewrite Z.shiftl_1_l.
  destruct (Z.eqb_spec (Z.land w (2 ^ k)) 0) as [E|E]; simpl; symmetry.
  - apply (f_equal (fun z => Z.testbit z k)) in E.
    by rewrite Z.land_spec, Z.pow2_bits_true, andb_true_r, Z.bits_0 in E.
  - apply not_false_iff_true. intros Hf. apply E. apply Z.bits_inj'. intros j Hj.
    rewrite Z.land_spec, Z.bits_0. destruct (decide (j = k)) as [->|Hne].
    + by rewrite Hf.
    + by rewrite Z.pow2_bits_false, andb_false_r by lia.
Qed.

Lemma slot_index seq : 0 <= seq mod ackHistory < 512 /\ (Z.to_nat (seq mod ackHistory / 64) < 8)%nat
  /\ 0 <= seq mod ackHistory mod 64 < 64.
Proof. unfold ackHistory. Z.div_mod_to_equations. lia. Qed.

Lemma slot_update (f : Z -> Z -> Z) (v : bool) bs s t : length bs = 8%nat ->
  (forall w i j, 0 <= i < 64 -> 0 <= j < 64 ->
     Z.testbit (f w (Z.shiftl 1 i)) j = if decide (i = j) then v else Z.testbit w j) ->
  slot (<[Z.to_nat (s mod ackHistory / 64)
          := f (word bs (s mod ackHistory)) (Z.shiftl 1 (s mod ackHistory mod 64))]> bs) t
  = if decide (s mod ackHistory = t mod ackHistory) then v else slot bs t.
Proof.
  intros Hl Hf. pose proof (slot_index s) as (Hs1 & Hs2 & Hs3).
  pose proof (slot_index t) as (Ht1 & Ht2 & Ht3). unfold slot.
  set (i := s mod ackHistory) in *. set (j := t mod ackHistory) in *. unfold word at 1.
  destruct (decide (i / 64 = j / 64)) as [E|E].
  - rewrite <- E, list_lookup_insert_eq by lia. simpl. rewrite Hf by lia.
    unfold word. rewrite E.
    destruct (decide (i mod 64 = j mod 64)) as [E'|E'], (decide (i = j)) as [E''|E'']; try done.
    + exfalso. apply E''. rewrite (Z.div_mod i 64), (Z.div_mod j 64); lia.
    + congruence.
  - rewrite list_lookup_insert_ne.
    + rewrite decide_False; [done|congruence].
    + intros E'. apply E. Z.div_mod_to_equations. lia.
Qed.

Lemma slot_set bs s t : length bs = 8%nat ->
  slot (set_bits bs s) t = if decide (s mod ackHistory = t mod ackHistory) then true else slot bs t.
Proof.
  intros Hl. unfold set_bits. apply (slot_update Z.lor); [done|]. intros w i j Hi Hj.
  rewrite Z.lor_spec, Z.shiftl_1_l. case_decide as E.
  - subst. by rewrite Z.pow2_bits_true, orb_true_r by lia.
  - by rewrite Z.pow2_bits_false, orb_false_r by lia.
Qed.

Lemma slot_clear bs s t : length bs = 8%nat ->
  slot (clear_bits bs s) t
  = if decide (s mod ackHistory = t mod ackHistory) then false else slot bs t.
Proof.
  intros Hl. unfold clear_bits. apply (slot_update Z.ldiff); [done|]. intros w i j Hi Hj.
  rewrite Z.ldiff_spec, Z.shiftl_1_l. case_decide as E.
  - subst. by rewrite Z.pow2_bits_true, andb_false_r by lia.
  - by rewrite Z.pow2_bits_false, andb_true_r by lia.
Qed.

Lemma slot_zero s : slot (replicate 8 0) s = false.
Proof.
  pose proof (slot_index s) as (_ & H & _). unfold slot, word.
  rewrite lookup_replicate_2 by done. apply Z.bits_0.
Qed.

(** Two sequences of one window share a slot only if they are the same. *)
Lemma window_inj s t : s mod ackHistory = t mod ackHistory -> -512 < s - t < 512 -> s = t.
Proof. unfold ackHistory. intros. Z.div_mod_to_equations. lia. Qed.

Lemma clear_loop_spec fuel s seq bs t : length bs = 8%nat ->
  0 <= s -> seq < 2 ^ 32 -> (Z.to_nat (seq - s) <= fuel)%nat -> seq - 512 < t <= seq -> seq - s < 512 ->
  length (clear_loop fuel s seq bs) = 8%nat
  /\ slot (clear_loop fuel s seq bs) t
     = if decide (s <= t < seq) then false else slot bs t.
Proof.
  revert s bs. induction fuel as [|fuel IH]; intros s bs Hl Hs Hq Hf Ht Hw; cbn [clear_loop];
    destruct (Z.ltb_spec s seq) as [Hlt|Hge]; try lia;
    try (split; [done|]; rewrite decide_False by lia; done).
  rewrite u32_small by width.
  destruct (IH (s + 1) (clear_bits bs s)) as [IH1 IH2]; try lia.
  { unfold clear_bits. by rewrite length_insert. }
  split; [done|]. rewrite IH2, slot_clear by done.
  destruct (decide (s + 1 <= t < seq)) as [H1|H1], (decide (s <= t < seq)) as [H2|H2]; try done; try lia.
  - rewrite decide_True; [done|]. f_equal. lia.
  - rewrite decide_False; [done|]. intros E. apply window_inj in E; lia.
Qed.

(** ** The specification: the set of sequence numbers recorded *)

Record tracks (r : recvTracker) (S : gset Z) : Prop := {
  tracks_bits : length (bits r) = 8%nat;
  tracks_u32 : forall s, s ∈ S -> is_u32 s;
  tracks_any : any r = bool_decide (S <> ∅);
  tracks_largest : S <> ∅ -> largest r ∈ S /\ forall s, s ∈ S -> s <= largest r;
  tracks_slot : S <> ∅ -> forall s, 0 <= s -> largest r - 512 < s <= largest r ->
    slot (bits r) s = bool_decide (s ∈ S);
  tracks_empty : S = ∅ -> forall s, slot (bits r) s = false
}.

Lemma newTracker_tracks : tracks newTracker ∅.
Proof.
  split; try done; intros; apply slot_zero.
Qed.

Lemma insert_nonempty (s : Z) (S : gset Z) : {[s]} ∪ S <> ∅.
Proof. set_solver. Qed.

Lemma elem_of_insert (s t : Z) (S : gset Z) : t ∈ {[s]} ∪ S <-> t = s \/ t ∈ S.
Proof. set_solver. Qed.

Section Tracking.
Context (r : recvTracker) (S : gset Z) (T : tracks r S).

Lemma largest_u32 : S <> ∅ -> is_u32 (largest r).
Proof using T. intros H. by apply T, (tracks_largest r S T). Qed.

(** [has] answers for the last [ackHistory] sequences and denies the rest. *)
Lemma has_spec s : is_u32 s ->
  has r s = bool_decide (s ∈ S /\ largest r - 512 < s).
Proof using T.
  intros Hs. unfold has. rewrite (tracks_any r S T).
  destruct (decide (S = ∅)) as [->|Hne].
  { rewrite !bool_decide_eq_false_2 by set_solver. done. }
  rewrite (bool_decide_eq_true_2 (S <> ∅)) by done. cbn [negb orb].
  pose proof (largest_u32 Hne) as Hl. destruct (tracks_largest r S T Hne) as [_ Hmax].
  destruct (Z.ltb_spec (largest r) s) as [H1|H1]; cbn [orb].
  { symmetry. apply bool_decide_eq_false_2. intros [?%Hmax _]. lia. }
  rewrite u32_small by width. unfold ackHistory at 1.
  destruct (Z.leb_spec 512 (largest r - s)) as [H2|H2].
  { symmetry. apply bool_decide_eq_false_2. lia. }
  rewrite land_bit by apply slot_index. fold (slot (bits r) s).
  rewrite (tracks_slot r S T Hne) by width.
  apply bool_decide_ext. split; [split; [done|lia]|tauto].
Qed.

(** What [add] reports: a gap left behind, or a gap filled. A sequence too
    old to remember is always reported. *)
Definition out_of_order (seq : Z) : bool :=
  bool_decide (S <> ∅ /\ (largest r + 1 < seq
    \/ (seq < largest r /\ (seq ∉ S \/ seq <= largest r - 512)))).

Lemma add_first seq : S = ∅ -> is_u32 seq ->
  tracks (MkTracker seq true (set_bits (bits r) seq)) ({[seq]} ∪ S).
Proof using T.
  intros -> Hs. pose proof (tracks_bits r ∅ T) as Hl.
  split; cbn [bits any largest]; [..|by intros ?%insert_nonempty].
  - unfold set_bits. by rewrite length_insert.
  - intros s [->|H]%elem_of_insert; [done|by apply elem_of_empty in H].
  - symmetry. apply bool_decide_eq_true_2, insert_nonempty.
  - intros _. split; [apply elem_of_insert; auto|].
    intros s [->|?]%elem_of_insert; [lia|by apply elem_of_empty in H].
  - intros _ s Hs0 Hw. rewrite slot_set by done.
    rewrite (tracks_empty r ∅ T) by done. case_decide as E.
    + apply window_inj in E; [|lia]. subst. symmetry. apply bool_decide_eq_true_2, elem_of_insert. auto.
    + symmetry. apply bool_decide_eq_false_2. intros [->|Hin]%elem_of_insert; [done|by apply elem_of_empty in Hin].
Qed.

Lemma add_newer seq (bs := if ackHistory <=? u32 (seq - largest r) then replicate 8 0
    else clear_loop (Z.to_nat (seq - largest r)) (u32 (largest r + 1)) seq (bits r)) :
  S <> ∅ -> is_u32 seq -> largest r < seq ->
  tracks (MkTracker seq (any r) (set_bits bs seq)) ({[seq]} ∪ S).
Proof using T.
  intros Hne Hs Hlt. pose proof (largest_u32 Hne) as Hl.
  destruct (tracks_largest r S T Hne) as [_ Hmax]. pose proof (tracks_bits r S T) as Hb.
  assert (Hbs : length bs = 8%nat /\ forall s, 0 <= s -> seq - 512 < s < seq ->
            slot bs s = bool_decide (s ∈ S)).
  { unfold bs. rewrite !u32_small by width. unfold ackHistory at 1 2.
    destruct (Z.leb_spec 512 (seq - largest r)) as [Hj|Hj].
    - split; [done|]. intros s Hs0 Hw. rewrite slot_zero. symmetry.
      apply bool_decide_eq_false_2. intros ?%Hmax. lia.
    - split; [eapply (clear_loop_spec _ _ _ _ seq); try width; lia|].
      intros s Hs0 Hw. edestruct clear_loop_spec as [_ ->]; try lia; try width.
      case_decide as Hd.
      + symmetry. apply bool_decide_eq_false_2. intros ?%Hmax. lia.
      + apply (tracks_slot r S T Hne); lia. }
  destruct Hbs as [Hbs1 Hbs2]. clearbody bs.
  split; cbn [bits any largest]; [..|by intros ?%insert_nonempty].
  - unfold set_bits. by rewrite length_insert.
  - intros s [->|?]%elem_of_insert; [done|by apply T].
  - rewrite (tracks_any r S T). by rewrite !bool_decide_eq_true_2 by (done || apply insert_nonempty).
  - intros _. split; [apply elem_of_insert; auto|].
    intros s [->|?%Hmax]%elem_of_insert; lia.
  - intros _ s Hs0 Hw. rewrite slot_set by done. case_decide as E.
    + apply window_inj in E; [|lia]. subst. symmetry. apply bool_decide_eq_true_2, elem_of_insert. auto.
    + assert (s <> seq) by congruence. rewrite Hbs2 by lia. apply bool_decide_ext.
      rewrite elem_of_insert. tauto.
Qed.

Lemma add_older seq : S <> ∅ -> is_u32 seq -> seq < largest r -> largest r - 512 < seq ->
  tracks (MkTracker (largest r) (any r) (set_bits (bits r) seq)) ({[seq]} ∪ S).
Proof using T.
  intros Hne Hs Hlt Hw. destruct (tracks_largest r S T Hne) as [Hin Hmax].
  pose proof (tracks_bits r S T) as Hb.
  split; cbn [bits any largest]; [..|by intros ?%insert_nonempty].
  - unfold set_bits. by rewrite length_insert.
  - intros s [->|?]%elem_of_insert; [done|by apply T].
  - rewrite (tracks_any r S T). by rewrite !bool_decide_eq_true_2 by (done || apply insert_nonempty).
  - intros _. split; [apply elem_of_insert; auto|].
    intros s [->|?%Hmax]%elem_of_insert; lia.
  - intros _ s Hs0 Hws. rewrite slot_set by done. case_decide as E.
    + apply window_inj in E; [|lia]. subst. symmetry. apply bool_decide_eq_true_2, elem_of_insert. auto.
    + assert (s <> seq) by congruence. rewrite (tracks_slot r S T Hne) by lia.
      apply bool_decide_ext.
      rewrite elem_of_insert. tauto.
Qed.

(** Recording a sequence the tracker has, or has forgotten, changes nothing
    it can answer for. *)
Lemma add_known seq : S <> ∅ -> is_u32 seq ->
  seq ∈ S \/ seq <= largest r - 512 -> tracks r ({[seq]} ∪ S).
Proof using T.
  intros Hne Hs Hk. destruct (tracks_largest r S T Hne) as [Hin Hmax].
  split; [..|by intros ?%insert_nonempty].
  - apply T.
  - intros s [->|?]%elem_of_insert; [done|by apply T].
  - rewrite (tracks_any r S T). by rewrite !bool_decide_eq_true_2 by (done || apply insert_nonempty).
  - intros _. split; [apply elem_of_insert; auto|].
    intros s [->|?%Hmax]%elem_of_insert; [|lia].
    destruct Hk as [?%Hmax|?]; lia.
  - intros _ s Hs0 Hw. rewrite (tracks_slot r S T Hne) by lia.
    apply bool_decide_ext. rewrite elem_of_insert.
    split; [auto|]. intros [->|?]; [|done]. destruct Hk; [done|lia].
Qed.

Lemma add_spec seq : is_u32 seq ->
  tracks (fst (add r seq)) ({[seq]} ∪ S) /\ snd (add r seq) = out_of_order seq.
Proof using T.
  intros Hs. unfold add, out_of_order.
  destruct (decide (S = ∅)) as [HE|Hne].
  { rewrite (tracks_any r S T), bool_decide_eq_false_2 by auto. cbn [negb fst snd].
    split; [by apply add_first|]. symmetry. apply bool_decide_eq_false_2. tauto. }
  rewrite (tracks_any r S T), bool_decide_eq_true_2 by done. cbn [negb].
  pose proof (largest_u32 Hne) as Hl. destruct (tracks_largest r S T Hne) as [Hin Hmax].
  destruct (Z.ltb_spec (largest r) seq) as [H1|H1]; cbn [fst snd].
  { split; [rewrite <- (bool_decide_eq_true_2 (S <> ∅)), <- (tracks_any r S T) by done;
            by apply add_newer|].
    nowrap. destruct (Z.ltb_spec 0 (seq - largest r - 1)); symmetry.
    - apply bool_decide_eq_true_2. split; [done|lia].
    - apply bool_decide_eq_false_2. lia. }
  destruct (Z.eqb_spec seq (largest r)) as [->|H2]; cbn [fst snd].
  { split; [apply add_known; auto|]. symmetry. apply bool_decide_eq_false_2. lia. }
  rewrite u32_small by width. change ackHistory with 512.
  destruct (Z.leb_spec 512 (largest r - seq)) as [H3|H3]; cbn [fst snd].
  { split; [apply add_known; auto with lia|]. symmetry. apply bool_decide_eq_true_2.
    split; [done|]. right. split; [lia|]. right. lia. }
  rewrite has_spec by done. case_bool_decide as Hh; cbn [fst snd].
  { split; [apply add_known; tauto|]. symmetry. apply bool_decide_eq_false_2. 
    destruct Hh. intros [_ [?|[? [?|?]]]]; [lia|done|lia]. }
  split; [|symmetry; apply bool_decide_eq_true_2; split; [done|]; right; split; [lia|];
           left; intros ?; apply Hh; split; [done|lia]].
  rewrite <- (bool_decide_eq_true_2 (S <> ∅)), <- (tracks_any r S T) by done.
  apply add_older; done || lia.
Qed.
End Tracking.

(** ** Scanning down from the largest sequence

    [scan_at r p c k]: every sequence above [p] has been examined; the cursor
    is [c] and [k] steps were counted. After sequence 0 the cursor cannot go
    lower, and the code marks the end by counting the whole history. *)
Definition scan_at (r : recvTracker) (p c k : Z) : Prop :=
  (p = c /\ 0 <= c /\ k = largest r - c /\ 0 <= k <= 512) \/ (p = -1 /\ c = 0 /\ k = 512).

Section Scanning.
Context (r : recvTracker) (S : gset Z) (T : tracks r S) (NE : S <> ∅).

Lemma has_cursor p c k : scan_at r p c k -> k < 512 ->
  has r c = bool_decide (p ∈ S) /\ p = c /\ is_u32 c.
Proof using T NE.
  intros [(-> & H1 & H2 & H3)|(_ & _ & ->)] Hk; [|lia].
  pose proof (largest_u32 r S T NE) as Hl.
  assert (is_u32 c) by width. split; [|done].
  rewrite (has_spec r S T) by done. apply bool_decide_ext. split; [tauto|]. split; [done|lia].
Qed.

Lemma scan_next p c k : scan_at r p c k -> k < 512 -> is_u32 c ->
  if c =? 0 then scan_at r (p - 1) c ackHistory
  else scan_at r (p - 1) (u32 (c - 1)) (u32 (k + 1)).
Proof using T NE.
  intros [(-> & H1 & H2 & H3)|(_ & _ & ->)] Hk Hc; [|lia].
  pose proof (largest_u32 r S T NE) as Hl.
  destruct (Z.eqb_spec c 0) as [->|Hc0].
  - right. split_and!; done || lia.
  - left. rewrite !u32_small by width. lia.
Qed.

Lemma run_spec fuel n p c k : scan_at r p c k -> (Z.to_nat (512 - k) <= fuel)%nat ->
  0 <= n -> n + 512 - k < 2 ^ 31 ->
  exists p' c' k', run fuel r n c k = (n + (p - p'), c', k') /\ scan_at r p' c' k'
    /\ p' <= p /\ p - p' <= 512 - k
    /\ (forall s, p' < s <= p -> s ∈ S) /\ (k' = 512 \/ (k' < 512 /\ p' ∉ S)).
Proof using T NE.
  revert n p c k. induction fuel as [|fuel IH]; intros n p c k Hat Hf Hn Hb;
    assert (0 <= k) as Hk by (destruct Hat as [?|?]; lia); cbn [run].
  { assert (k = 512) as -> by (destruct Hat as [?|?]; lia).
    exists p, c, 512. rewrite Z.sub_diag, Z.add_0_r. split_and!; auto; lia. }
  destruct (Z.ltb_spec k ackHistory) as [H1|H1]; cbn [andb].
  2: { assert (k = 512) as -> by (unfold ackHistory in H1; destruct Hat as [?|?]; lia).
       exists p, c, 512. rewrite Z.sub_diag, Z.add_0_r. split_and!; auto; lia. }
  change ackHistory with 512 in H1.
  destruct (has_cursor p c k Hat H1) as (-> & Hpc & Hc).
  case_bool_decide as Hin.
  2: { exists p, c, k. rewrite Z.sub_diag, Z.add_0_r. split_and!; auto; lia. }
  pose proof (scan_next p c k Hat H1 Hc) as Hnext.
  rewrite (u32_small (n + 1)), (u32_small (k + 1)) in * by width.
  destruct (Z.eqb_spec c 0) as [E|E].
  - exists (p - 1), c, 512. split; [do 2 f_equal; lia|]. split_and!; auto; try lia.
    intros s Hs. assert (s = p) as -> by lia. done.
  - destruct (IH (n + 1) (p - 1) (u32 (c - 1)) (k + 1)) as (p' & c' & k' & -> & I1 & I2 & I3 & I4 & I5);
      try done; try lia.
    exists p', c', k'. split; [do 2 f_equal; lia|]. split_and!; auto; try lia.
    intros s Hs. destruct (decide (s = p)) as [->|]; [done|apply I4; lia].
Qed.

Lemma gap_spec fuel n p c k : scan_at r p c k -> (Z.to_nat (512 - k) <= fuel)%nat ->
  0 <= n <= 255 ->
  exists p' c' k', gap fuel r n c k = (n + (p - p'), c', k') /\ scan_at r p' c' k'
    /\ p' <= p /\ n + (p - p') <= 255 /\ k <= k'
    /\ (forall s, p' < s <= p -> s ∉ S)
    /\ (k' = 512 \/ (k' < 512 /\ (n + (p - p') = 255 \/ p' ∈ S))).
Proof using T NE.
  revert n p c k. induction fuel as [|fuel IH]; intros n p c k Hat Hf Hn;
    assert (0 <= k) as Hk by (destruct Hat as [?|?]; lia); cbn [gap].
  { assert (k = 512) as -> by (destruct Hat as [?|?]; lia).
    exists p, c, 512. rewrite Z.sub_diag, Z.add_0_r. split_and!; auto; lia. }
  destruct (Z.ltb_spec k ackHistory) as [H1|H1]; cbn [andb].
  2: { assert (k = 512) as -> by (unfold ackHistory in H1; destruct Hat as [?|?]; lia).
       exists p, c, 512. rewrite Z.sub_diag, Z.add_0_r. split_and!; auto; lia. }
  change ackHistory with 512 in H1.
  destruct (has_cursor p c k Hat H1) as (-> & Hpc & Hc).
  destruct (Z.ltb_spec n 255) as [H2|H2]; cbn [andb].
  2: { exists p, c, k. rewrite Z.sub_diag, Z.add_0_r. split_and!; auto; lia. }
  case_bool_decide as Hin; cbn [negb].
  { exists p, c, k. rewrite Z.sub_diag, Z.add_0_r. split_and!; auto; lia. }
  pose proof (scan_next p c k Hat H1 Hc) as Hnext.
  rewrite (u8_small (n + 1)), (u32_small (k + 1)) in * by width.
  destruct (Z.eqb_spec c 0) as [E|E].
  - exists (p - 1), c, 512. split; [do 2 f_equal; lia|]. split_and!; auto; try lia.
    intros s Hs. assert (s = p) as -> by lia. done.
  - destruct (IH (n + 1) (p - 1) (u32 (c - 1)) (k + 1))
      as (p' & c' & k' & -> & I1 & I2 & I3 & I3' & I4 & I5); try done; try lia.
    exists p', c', k'. split; [do 2 f_equal; lia|]. split_and!; auto; try lia.
    + intros s Hs. destruct (decide (s = p)) as [->|]; [done|apply I4; lia].
    + destruct I5 as [?|[? [?|?]]]; auto. right. split; [done|]. left. lia.
Qed.
End Scanning.
