(* ===== verification/FlowControl.v ===== *)
(** * Flow control (src/flow_control.go)

    [FlowController] accounts for a connection, [StreamFlowController] limits
    a stream by absolute byte offsets. The last part of the file puts a
    sender's and a receiver's stream controller on the two ends of a network
    that loses, duplicates and reorders WINDOW_UPDATE frames. *)

From S2P Require Import Prelude Constants.

(** ** Connection level *)

Record FlowController := MkFC {
  connMaxData : Z;
  connDataSent : Z;
  connDataRecvd : Z;
  connRecvWindow : Z;
  connBlocked : bool
}.

Definition NewFlowController (initialMaxData initialRecvWindow : Z) : FlowController :=
  MkFC initialMaxData 0 0 initialRecvWindow false.

Definition CanSendConn (fc : FlowController) (n : Z) : bool :=
  (connDataSent fc +i n) <=? connMaxData fc.

Definition ConnOnDataSent (fc : FlowController) (n : Z) : FlowController :=
  let sent := connDataSent fc +i n in
  MkFC (connMaxData fc) sent (connDataRecvd fc) (connRecvWindow fc) (connMaxData fc <=? sent).

Definition ConnOnDataReceived (fc : FlowController) (n : Z) : FlowController * bool :=
  let recvd := connDataRecvd fc +i n in
  (MkFC (connMaxData fc) (connDataSent fc) recvd (connRecvWindow fc) (connBlocked fc),
   connRecvWindow fc /i 4 <? recvd).

Definition UpdateMaxData (fc : FlowController) (maxData : Z) : FlowController :=
  if connMaxData fc <? maxData
  then MkFC maxData (connDataSent fc) (connDataRecvd fc) (connRecvWindow fc) false
  else fc.

Definition IsConnBlocked (fc : FlowController) : bool := connBlocked fc.

Definition ResetReceived (fc : FlowController) : FlowController :=
  MkFC (connMaxData fc) (connDataSent fc) 0 (connRecvWindow fc) (connBlocked fc).

Definition ConnMaxData (fc : FlowController) : Z := connMaxData fc.

(** ** The offset modulo 2^32 on the wire *)

Definition windowOffsetModulus : Z := Z.shiftl 1 32.

Definition absInt64 (v : Z) : Z := if v <? 0 then i64 (- v) else v.

(** One round of the loop over the two other candidates. *)
Definition nearer (reference best cand : Z) : Z :=
  if absInt64 (cand -i reference) <? absInt64 (best -i reference) then cand else best.

Definition reconstructWindowOffset (wire reference : Z) : Z :=
  let base := Z.ldiff reference (windowOffsetModulus - 1) in
  let best := base +i wire in
  fold_left (nearer reference) [best -i windowOffsetModulus; best +i windowOffsetModulus] best.

(** ** Stream level *)

Record StreamFlowController := MkSFC {
  (* send side *)
  maxStreamData : Z;
  dataSent : Z;
  blocked : bool;
  (* receive side *)
  dataRecvd : Z;
  dataConsumed : Z;
  recvWindow : Z;
  lastAdvertised : Z
}.

Definition NewStreamFlowController (initialMaxStreamData recvWindow : Z)
    : StreamFlowController :=
  MkSFC initialMaxStreamData 0 false 0 0 recvWindow recvWindow.

Definition CanSend (sfc : StreamFlowController) (n : Z) : bool :=
  (dataSent sfc +i n) <=? maxStreamData sfc.

Definition SendWindowAvailable (sfc : StreamFlowController) : Z :=
  let avail := maxStreamData sfc -i dataSent sfc in
  if avail <? 0 then 0 else avail.

Definition SendLimit (sfc : StreamFlowController) : Z := maxStreamData sfc.

Definition OnDataSent (sfc : StreamFlowController) (n : Z) : StreamFlowController :=
  let sent := dataSent sfc +i n in
  MkSFC (maxStreamData sfc) sent (maxStreamData sfc <=? sent)
    (dataRecvd sfc) (dataConsumed sfc) (recvWindow sfc) (lastAdvertised sfc).

Definition UpdateMaxStreamData (sfc : StreamFlowController) (max : Z)
    : StreamFlowController * bool :=
  if max <=? maxStreamData sfc then (sfc, false)
  else (MkSFC max (dataSent sfc) (max <=? dataSent sfc)
          (dataRecvd sfc) (dataConsumed sfc) (recvWindow sfc) (lastAdvertised sfc), true).

Definition ApplyWindowUpdate (sfc : StreamFlowController) (wire : Z)
    : StreamFlowController * bool :=
  let anchor := maxStreamData sfc in
  UpdateMaxStreamData sfc (reconstructWindowOffset wire anchor).

Definition IsBlocked (sfc : StreamFlowController) : bool := blocked sfc.

Definition OnDataReceived (sfc : StreamFlowController) (n : Z) : StreamFlowController :=
  MkSFC (maxStreamData sfc) (dataSent sfc) (blocked sfc)
    (dataRecvd sfc +i n) (dataConsumed sfc) (recvWindow sfc) (lastAdvertised sfc).

Definition OnDataConsumed (sfc : StreamFlowController) (n : Z)
    : StreamFlowController * bool :=
  let consumed := dataConsumed sfc +i n in
  let remaining := lastAdvertised sfc -i consumed in
  (MkSFC (maxStreamData sfc) (dataSent sfc) (blocked sfc)
     (dataRecvd sfc) consumed (recvWindow sfc) (lastAdvertised sfc),
   remaining <? recvWindow sfc /i 2).

Definition advertiseLocked (sfc : StreamFlowController) : StreamFlowController * Z :=
  let limit := dataConsumed sfc +i recvWindow sfc in
  let last := if lastAdvertised sfc <? limit then limit else lastAdvertised sfc in
  (MkSFC (maxStreamData sfc) (dataSent sfc) (blocked sfc)
     (dataRecvd sfc) (dataConsumed sfc) (recvWindow sfc) last, last).

Definition AdvertiseLimit (sfc : StreamFlowController) : StreamFlowController * Z :=
  let w :=
    if recvWindow sfc <? MaxStreamRecvWindow then
      let w2 := recvWindow sfc *i 2 in
      if MaxStreamRecvWindow <? w2 then MaxStreamRecvWindow else w2
    else recvWindow sfc in
  advertiseLocked
    (MkSFC (maxStreamData sfc) (dataSent sfc) (blocked sfc)
       (dataRecvd sfc) (dataConsumed sfc) w (lastAdvertised sfc)).

Definition RefreshLimit (sfc : StreamFlowController) : StreamFlowController * Z :=
  advertiseLocked sfc.

Definition AdvertisedLimit (sfc : StreamFlowController) : Z := lastAdvertised sfc.
Definition RecvWindow (sfc : StreamFlowController) : Z := recvWindow sfc.
Definition BufferedBytes (sfc : StreamFlowController) : Z :=
  dataRecvd sfc -i dataConsumed sfc.

(** ** Reconstruction *)

Lemma base_eq reference : Z.ldiff reference (windowOffsetModulus - 1)
  = reference - reference mod 2 ^ 32.
Proof.
  change (windowOffsetModulus - 1) with (Z.ones 32).
  rewrite Z.ldiff_ones_r, Z.shiftl_mul_pow2, Z.shiftr_div_pow2 by lia.
  pose proof (Z.div_mod reference (2 ^ 32)). lia.
Qed.

Lemma absInt64_abs v : - 2 ^ 62 <= v <= 2 ^ 62 -> absInt64 v = Z.abs v.
Proof. intros H. unfold absInt64. zcases; nowrap; lia. Qed.

(** Unambiguous within half the modulus of the limit already held. *)
Lemma reconstruct_near t reference :
  0 <= t < 2 ^ 61 -> 0 <= reference < 2 ^ 61 -> Z.abs (t - reference) < 2 ^ 31 ->
  reconstructWindowOffset (u32 t) reference = t.
Proof.
  intros Ht Hr Hd. unfold reconstructWindowOffset. rewrite base_eq.
  change windowOffsetModulus with (2 ^ 32).
  pose proof (Z.mod_pos_bound reference (2 ^ 32) ltac:(lia)) as Hm.
  pose proof (u32_range t) as Hw. unfold is_u32 in Hw.
  assert (exists k, t = reference - reference mod 2 ^ 32 + u32 t + k * 2 ^ 32) as [k Hk].
  { exists (t / 2 ^ 32 - reference / 2 ^ 32). unfold u32.
    pose proof (Z.div_mod reference (2 ^ 32)). pose proof (Z.div_mod t (2 ^ 32)). lia. }
  set (b := reference - reference mod 2 ^ 32) in *.
  assert (k = -1 \/ k = 0 \/ k = 1) as Hk3 by lia.
  cbn [fold_left]. unfold nearer.
  rewrite !(i64_small (b + u32 t)), !(i64_small (b + u32 t - 2 ^ 32)),
    !(i64_small (b + u32 t + 2 ^ 32)) by width.
  destruct Hk3 as [-> | [-> | ->]]; nowrap; rewrite ?absInt64_abs by lia;
    zcases; nowrap; rewrite ?absInt64_abs in * by lia; zcases; lia.
Qed.

(** An update that is older than 2^31 bytes is read as an offset one modulus
    too high. *)
Lemma reconstruct_stale t reference :
  0 <= t -> reference < 2 ^ 60 -> 2 ^ 31 < reference - t < 2 ^ 32 ->
  reconstructWindowOffset (u32 t) reference = t + 2 ^ 32.
Proof.
  intros Ht Hr Hd.
  replace (u32 t) with (u32 (t + 2 ^ 32))
    by (unfold u32; rewrite <- (Z.mul_1_l (2 ^ 32)) at 1; apply Z.mod_add; lia).
  apply reconstruct_near; lia.
Qed.

(** ** Controllers *)

Lemma MaxStreamRecvWindow_eq : MaxStreamRecvWindow = 4194304.
Proof. reflexivity. Qed.

(** What every controller keeps: the counters in order and far from the end of
    int64, the window positive and capped, and the last advertisement no more
    than a window ahead of the reader. *)
Definition offsetBound : Z := 2 ^ 60.

Record SFC_ok (sfc : StreamFlowController) : Prop := {
  ok_sent : 0 <= dataSent sfc <= maxStreamData sfc;
  ok_max : maxStreamData sfc <= offsetBound + MaxStreamRecvWindow;
  ok_recvd : 0 <= dataConsumed sfc <= dataRecvd sfc;
  ok_recvd_max : dataRecvd sfc <= offsetBound;
  ok_window : 0 < recvWindow sfc <= MaxStreamRecvWindow;
  ok_advert : dataConsumed sfc <= lastAdvertised sfc <= dataConsumed sfc + recvWindow sfc
}.

Ltac sfc_solve :=
  try match goal with |- SFC_ok _ => constructor; cbn [maxStreamData dataSent blocked dataRecvd
    dataConsumed recvWindow lastAdvertised] end;
  cbv zeta; unfold offsetBound in *; rewrite ?MaxStreamRecvWindow_eq in *; nowrap; zcases; nowrap; lia.

Lemma new_ok w : 0 < w <= MaxStreamRecvWindow -> SFC_ok (NewStreamFlowController w w).
Proof. intros Hw. unfold NewStreamFlowController. sfc_solve. Qed.

Lemma SendWindowAvailable_eq sfc : SFC_ok sfc ->
  SendWindowAvailable sfc = maxStreamData sfc - dataSent sfc.
Proof. intros []. unfold SendWindowAvailable. sfc_solve. Qed.

Lemma OnDataSent_eq sfc n : SFC_ok sfc -> 0 <= n <= SendWindowAvailable sfc ->
  dataSent (OnDataSent sfc n) = dataSent sfc + n.
Proof.
  intros Hok. rewrite SendWindowAvailable_eq by done. destruct Hok. intros Hn.
  unfold OnDataSent; cbn [dataSent]. sfc_solve.
Qed.

Lemma OnDataSent_ok sfc n : SFC_ok sfc -> 0 <= n <= SendWindowAvailable sfc ->
  SFC_ok (OnDataSent sfc n).
Proof.
  intros Hok Hn. pose proof (OnDataSent_eq _ _ Hok Hn) as E.
  rewrite SendWindowAvailable_eq in Hn by done. destruct Hok.
  constructor; rewrite ?E; cbn; lia.
Qed.

Lemma UpdateMaxStreamData_ok sfc m : SFC_ok sfc -> m <= offsetBound + MaxStreamRecvWindow ->
  SFC_ok (UpdateMaxStreamData sfc m).1.
Proof. intros [] Hm. unfold UpdateMaxStreamData. zcases; cbn; sfc_solve. Qed.

Lemma UpdateMaxStreamData_max sfc m :
  maxStreamData (UpdateMaxStreamData sfc m).1 = Z.max (maxStreamData sfc) m.
Proof. unfold UpdateMaxStreamData. zcases; cbn; lia. Qed.

Lemma UpdateMaxStreamData_sent sfc m :
  dataSent (UpdateMaxStreamData sfc m).1 = dataSent sfc.
Proof. unfold UpdateMaxStreamData. zcases; done. Qed.

Lemma OnDataReceived_ok sfc n : SFC_ok sfc -> 0 <= n -> dataRecvd sfc + n <= offsetBound ->
  SFC_ok (OnDataReceived sfc n) /\ dataRecvd (OnDataReceived sfc n) = dataRecvd sfc + n.
Proof.
  intros [] ? Hn. unfold OnDataReceived. split; cbn [dataRecvd]; sfc_solve.
Qed.

(** The advertisement is exactly one window beyond what the reader consumed. *)
Lemma advertiseLocked_eq sfc : SFC_ok sfc ->
  (advertiseLocked sfc).2 = dataConsumed sfc + recvWindow sfc /\
  lastAdvertised (advertiseLocked sfc).1 = dataConsumed sfc + recvWindow sfc /\
  SFC_ok (advertiseLocked sfc).1.
Proof.
  intros []. unfold advertiseLocked. cbn. split_and!; sfc_solve.
Qed.

Definition grown (w : Z) : Z := Z.min (2 * w) MaxStreamRecvWindow.

Lemma AdvertiseLimit_eq sfc : SFC_ok sfc ->
  (AdvertiseLimit sfc).2 = dataConsumed sfc + grown (recvWindow sfc) /\
  recvWindow (AdvertiseLimit sfc).1 = grown (recvWindow sfc) /\
  lastAdvertised (AdvertiseLimit sfc).1 = dataConsumed sfc + grown (recvWindow sfc) /\
  SFC_ok (AdvertiseLimit sfc).1.
Proof.
  intros []. unfold AdvertiseLimit, advertiseLocked, grown. cbn. 
  split_and!; sfc_solve.
Qed.

Lemma AdvertiseLimit_consumed sfc :
  dataConsumed (AdvertiseLimit sfc).1 = dataConsumed sfc.
Proof. reflexivity. Qed.

Lemma OnDataConsumed_eq sfc n : SFC_ok sfc ->
  0 <= n -> dataConsumed sfc + n <= dataRecvd sfc -> dataRecvd sfc <= lastAdvertised sfc ->
  SFC_ok (OnDataConsumed sfc n).1 /\
  dataConsumed (OnDataConsumed sfc n).1 = dataConsumed sfc + n /\
  ((OnDataConsumed sfc n).2 = true <->
     lastAdvertised sfc - (dataConsumed sfc + n) < recvWindow sfc / 2).
Proof.
  intros [] ? Hn Hl. unfold OnDataConsumed. cbn [fst snd dataConsumed].
  rewrite Z.quot_div_nonneg, Z.ltb_lt by lia.
  pose proof (Z.div_le_upper_bound (recvWindow sfc) 2 (recvWindow sfc)).
  pose proof (Z.div_pos (recvWindow sfc) 2).
  split_and!; [sfc_solve | sfc_solve |].
  unfold offsetBound in *; rewrite ?MaxStreamRecvWindow_eq in *. nowrap. done.
Qed.

Lemma BufferedBytes_eq sfc : SFC_ok sfc ->
  BufferedBytes sfc = dataRecvd sfc - dataConsumed sfc.
Proof. intros []. unfold BufferedBytes. sfc_solve. Qed.

(** ** The two ends of one direction of a stream

    [updates] holds every WINDOW_UPDATE ever sent, at full width; the network
    may deliver any of them any number of times, in any order, or never. Only
    the low 32 bits travel. The sender sends what [SendWindowAvailable] allows
    (Stream.Write clamps its chunks to it), the receiver counts each byte once
    (Stream.placeLocked calls [OnDataReceived] for new bytes), the reader
    consumes what is buffered and advertises when [OnDataConsumed] says so
    (Stream.Read), and a STREAM_DATA_BLOCKED is answered by [RefreshLimit]. *)

Record Link := MkLink {
  sender : StreamFlowController;
  receiver : StreamFlowController;
  updates : list Z
}.

Definition link_init : Link :=
  MkLink (NewStreamFlowController InitialMaxStreamData InitialMaxStreamData)
    (NewStreamFlowController InitialMaxStreamData InitialMaxStreamData) [].

Definition consume (rc : StreamFlowController) (n : Z) (us : list Z)
    : StreamFlowController * list Z :=
  let '(rc1, update) := OnDataConsumed rc n in
  if update then let '(rc2, limit) := AdvertiseLimit rc1 in (rc2, limit :: us)
  else (rc1, us).

Inductive link_step : Link -> Link -> Prop :=
  | LSend sd rc us n :
      0 < n <= SendWindowAvailable sd -> dataSent sd + n <= offsetBound ->
      link_step (MkLink sd rc us) (MkLink (OnDataSent sd n) rc us)
  | LReceive sd rc us n :
      0 < n -> dataRecvd rc + n <= dataSent sd ->
      link_step (MkLink sd rc us) (MkLink sd (OnDataReceived rc n) us)
  | LConsume sd rc us n :
      0 < n <= BufferedBytes rc ->
      link_step (MkLink sd rc us) (MkLink sd (consume rc n us).1 (consume rc n us).2)
  | LRefresh sd rc us :
      link_step (MkLink sd rc us)
        (MkLink sd (RefreshLimit rc).1 ((RefreshLimit rc).2 :: us))
  | LDeliver sd rc us off :
      off ∈ us -> maxStreamData sd - off < 2 ^ 31 ->
      link_step (MkLink sd rc us) (MkLink (ApplyWindowUpdate sd (u32 off)).1 rc us).

Inductive link_reach : Link -> Prop :=
  | reach_init : link_reach link_init
  | reach_step l l' : link_reach l -> link_step l l' -> link_reach l'.

Record link_inv (l : Link) : Prop := {
  inv_sender : SFC_ok (sender l);
  inv_receiver : SFC_ok (receiver l);
  inv_bound : dataSent (sender l) <= offsetBound;
  inv_recvd : dataRecvd (receiver l) <= dataSent (sender l);
  inv_limit : maxStreamData (sender l) <= lastAdvertised (receiver l);
  inv_updates : Forall (fun off => 0 <= off <= lastAdvertised (receiver l)) (updates l)
}.

Lemma updates_mono us a b : a <= b ->
  Forall (fun off => 0 <= off <= a) us -> Forall (fun off => 0 <= off <= b) us.
Proof. intros H Hus. eapply Forall_impl; [exact Hus|]. cbn. lia. Qed.

Lemma deliver_eq sd rc us off : link_inv (MkLink sd rc us) -> off ∈ us ->
  maxStreamData sd - off < 2 ^ 31 ->
  ApplyWindowUpdate sd (u32 off) = UpdateMaxStreamData sd off.
Proof.
  intros [[] [] ? ? ? Hus] Hin Hd. cbn [sender receiver updates] in *. rewrite Forall_forall in Hus.
  specialize (Hus _ Hin). unfold ApplyWindowUpdate.
  unfold offsetBound in *; rewrite ?MaxStreamRecvWindow_eq in *.
  rewrite reconstruct_near by lia. done.
Qed.

Lemma consume_inv sd rc us n : link_inv (MkLink sd rc us) -> 0 < n <= BufferedBytes rc ->
  link_inv (MkLink sd (consume rc n us).1 (consume rc n us).2).
Proof.
  intros [Hs Hr Hb Hrs Hl Hus] Hn. cbn [sender receiver updates] in *.
  rewrite BufferedBytes_eq in Hn by done.
  destruct (OnDataConsumed_eq rc n) as (Hok & Hc & Hu); [done | lia | lia | |].
  { destruct Hs. lia. }
  unfold consume. destruct (OnDataConsumed rc n) as [rc1 update] eqn:E. cbn [fst snd] in *.
  assert (lastAdvertised rc1 = lastAdvertised rc /\ dataRecvd rc1 = dataRecvd rc)
    as [E1 E2] by (unfold OnDataConsumed in E; injection E as <- _; done).
  destruct update; [|split; cbn [sender receiver updates fst snd]; rewrite ?E1, ?E2; done].
  destruct (AdvertiseLimit_eq rc1 Hok) as (Ha & Hw & Hla & Hok').
  destruct (AdvertiseLimit rc1) as [rc2 limit] eqn:E'. cbn [fst snd] in *.
  assert (dataRecvd rc2 = dataRecvd rc1) as E3
    by (unfold AdvertiseLimit, advertiseLocked in E'; injection E' as <- _; done).
  assert (lastAdvertised rc1 <= lastAdvertised rc2).
  { rewrite Hla. destruct Hok. unfold grown. lia. }
  destruct Hok. split; cbn [sender receiver updates fst snd]; [done | done | done | lia | lia |].
  constructor; [lia|].
  eapply updates_mono; [|exact Hus]. lia.
Qed.

Lemma refresh_inv sd rc us : link_inv (MkLink sd rc us) ->
  link_inv (MkLink sd (RefreshLimit rc).1 ((RefreshLimit rc).2 :: us)).
Proof.
  intros [Hs Hr Hb Hrs Hl Hus]. cbn [sender receiver updates] in *. unfold RefreshLimit.
  destruct (advertiseLocked_eq rc Hr) as (Ha & Hla & Hok).
  assert (dataRecvd (advertiseLocked rc).1 = dataRecvd rc) as E by done.
  destruct Hr. split; cbn [sender receiver updates]; [done | done | done | lia | lia |].
  constructor; [lia|]. eapply updates_mono; [|exact Hus]. lia.
Qed.

Lemma link_step_inv l l' : link_step l l' -> link_inv l -> link_inv l'.
Proof.
  intros Hstep Hinv. destruct Hstep as [sd rc us n Hn Hb|sd rc us n Hn Hb|sd rc us n Hn|sd rc us|sd rc us off Hin Hd].
  - pose proof (OnDataSent_ok sd n (inv_sender _ Hinv)).
    pose proof (OnDataSent_eq sd n (inv_sender _ Hinv)).
    destruct Hinv as [Hs Hr ? ? Hl Hus]; cbn [sender receiver updates] in *.
    split; cbn [sender receiver updates]; [auto with lia | done | lia | lia | done | done].
  - destruct (OnDataReceived_ok rc n (inv_receiver _ Hinv)) as [Hok E]; [lia| |].
    { destruct Hinv; cbn [sender receiver updates] in *. lia. }
    destruct Hinv as [Hs Hr ? ? Hl Hus]. cbn [sender receiver updates] in *.
    split; cbn [sender receiver updates]; try done. lia.
  - by apply consume_inv.
  - by apply refresh_inv.
  - rewrite (deliver_eq _ _ _ _ Hinv) by done.
    destruct Hinv as [Hs Hr ? ? Hl Hus]. cbn [sender receiver updates] in *.
    pose proof Hus as Hus'. rewrite Forall_forall in Hus'. specialize (Hus' _ Hin).
    split; cbn [sender receiver updates]; [|done| | | |done].
    + apply UpdateMaxStreamData_ok; [done|]. destruct Hr. lia.
    + by rewrite UpdateMaxStreamData_sent.
    + by rewrite UpdateMaxStreamData_sent.
    + rewrite UpdateMaxStreamData_max. lia.
Qed.

Lemma link_reach_inv l : link_reach l -> link_inv l.
Proof.
  induction 1 as [|l l' _ IH Hstep]; [|by eapply link_step_inv].
  split; cbn; try (apply new_ok; done); done || constructor.
Qed.

Lemma refresh_reach sd rc us : link_reach (MkLink sd rc us) ->
  (RefreshLimit rc).2 = dataConsumed rc + recvWindow rc /\
  link_reach (MkLink sd (RefreshLimit rc).1 ((RefreshLimit rc).2 :: us)).
Proof.
  intros Hl. split.
  - exact (proj1 (advertiseLocked_eq rc (inv_receiver _ (link_reach_inv _ Hl)))).
  - eapply reach_step; [exact Hl | apply LRefresh].
Qed.

Lemma SendWindowAvailable_updated sfc m : SFC_ok sfc ->
  maxStreamData sfc <= m -> m <= offsetBound + MaxStreamRecvWindow ->
  SendWindowAvailable (UpdateMaxStreamData sfc m).1 = m - dataSent sfc.
Proof.
  intros Hok Hm Hb.
  rewrite SendWindowAvailable_eq, UpdateMaxStreamData_max, UpdateMaxStreamData_sent
    by (apply UpdateMaxStreamData_ok; [done | lia]). lia.
Qed.

(** ** Properties *)

(** C15. Whatever the network does to WINDOW_UPDATE frames, short of holding one
    back for 2 GiB of stream, the receiver never buffers more than its window,
    the window never passes MaxStreamRecvWindow, and the sender stays within
    its limit, which is an offset the receiver did advertise. *)
Theorem link_back_pressure (l : Link) : link_reach l ->
  BufferedBytes (receiver l) <= RecvWindow (receiver l) <= MaxStreamRecvWindow /\
  dataSent (sender l) <= SendLimit (sender l) <= AdvertisedLimit (receiver l).
Proof.
  intros Hl. destruct (link_reach_inv l Hl) as [Hs Hr ? ? ? ?].
  rewrite BufferedBytes_eq by done. unfold RecvWindow, SendLimit, AdvertisedLimit.
  destruct Hs, Hr. lia.
Qed.

(** C34. A stalled sender is always released: one answered STREAM_DATA_BLOCKED
    ([RefreshLimit] delivered to the sender) restores the whole credit that
    lost updates carried, exactly the receive window less the bytes sent and
    not yet read. In particular the stream moves again once the reader has
    drained it. *)
Theorem blocked_exchange_restores_credit (sd rc : StreamFlowController) (us : list Z) :
  link_reach (MkLink sd rc us) ->
  let '(rc', limit) := RefreshLimit rc in
  let sd' := (ApplyWindowUpdate sd (u32 limit)).1 in
  SendWindowAvailable sd' = dataConsumed rc + RecvWindow rc - dataSent sd /\
  link_reach (MkLink sd' rc' (limit :: us)).
Proof.
  intros Hl. pose proof (link_reach_inv _ Hl) as Hinv.
  destruct (refresh_reach _ _ _ Hl) as (Ha & Hl').
  destruct (RefreshLimit rc) as [rc' limit]. cbn [fst snd] in *. subst limit.
  pose proof (inv_limit _ Hinv) as Hlim. pose proof (ok_advert _ (inv_receiver _ Hinv)) as Hadv.
  cbn [sender receiver] in Hlim, Hadv.
  assert (Hd : maxStreamData sd - (dataConsumed rc + recvWindow rc) < 2 ^ 31) by lia.
  split; [|eapply reach_step; [exact Hl' | apply LDeliver; [left | exact Hd]]].
  rewrite (deliver_eq _ _ _ _ (link_reach_inv _ Hl') ltac:(left) Hd).
  unfold RecvWindow. apply SendWindowAvailable_updated; [apply Hinv | lia |].
  pose proof (ok_recvd_max _ (inv_receiver _ Hinv)). 
  pose proof (ok_recvd _ (inv_receiver _ Hinv)). pose proof (ok_window _ (inv_receiver _ Hinv)).
  cbn [receiver] in *. lia.
Qed.

(** When consuming triggers an update, the advertisement grants more than
    half the current window of fresh credit, doubles the window up to its cap,
    and leaves the next trigger at least half the new window away. *)
Theorem update_grants_half_window (sfc : StreamFlowController) (n : Z) :
  SFC_ok sfc -> 0 <= n -> dataConsumed sfc + n <= dataRecvd sfc ->
  dataRecvd sfc <= lastAdvertised sfc ->
  (OnDataConsumed sfc n).2 = true ->
  let sfc1 := (OnDataConsumed sfc n).1 in
  let '(sfc2, limit) := AdvertiseLimit sfc1 in
  limit > lastAdvertised sfc + recvWindow sfc / 2 - 1 /\
  RecvWindow sfc2 = Z.min (2 * recvWindow sfc) MaxStreamRecvWindow /\
  limit - dataConsumed sfc2 = RecvWindow sfc2 /\
  SFC_ok sfc2.
Proof.
  intros Hok Hn Hc Hl Ht. destruct (OnDataConsumed_eq sfc n) as (Hok1 & Hc1 & Hiff); try done.
  apply Hiff in Ht. cbv zeta.
  pose proof (AdvertiseLimit_eq _ Hok1) as (Ha & Hw & Hla & Hok2).
  pose proof (AdvertiseLimit_consumed (OnDataConsumed sfc n).1) as Hd.
  assert (recvWindow (OnDataConsumed sfc n).1 = recvWindow sfc) as Hw' by reflexivity.
  destruct (AdvertiseLimit (OnDataConsumed sfc n).1) as [sfc2 limit]. cbn [fst snd] in *.
  unfold RecvWindow. rewrite Hw, Hd, Ha, Hw', Hc1. unfold grown.
  pose proof (ok_window _ Hok). pose proof (Z.mul_div_le (recvWindow sfc) 2).
  split_and!; [lia | done | lia | done].
Qed.

(** A WINDOW_UPDATE offset survives its 32-bit field: the sender recovers
    the full offset, and raises its limit to it, whenever that offset is less
    than 2^31 away from the limit the sender holds. *)
Theorem window_offset_recovered (sfc : StreamFlowController) (t : Z) :
  0 <= t < 2 ^ 61 -> 0 <= maxStreamData sfc < 2 ^ 61 ->
  Z.abs (t - maxStreamData sfc) < 2 ^ 31 ->
  SendLimit (ApplyWindowUpdate sfc (u32 t)).1 = Z.max (maxStreamData sfc) t /\
  (ApplyWindowUpdate sfc (u32 t)).2 = (maxStreamData sfc <? t).
Proof.
  intros Ht Hm Hd. unfold ApplyWindowUpdate, SendLimit.
  rewrite reconstruct_near by done. split; [apply UpdateMaxStreamData_max|].
  unfold UpdateMaxStreamData. zcases; done || lia.
Qed.

(** A WINDOW_UPDATE held back while the limit moved on by more than 2^31
    bytes is not recognised as stale: it raises the sender's limit to an offset
    2^32 above the one it carried, which the receiver never advertised. *)
Theorem stale_update_inflates_limit (sfc : StreamFlowController) (t : Z) :
  0 <= t -> maxStreamData sfc < 2 ^ 60 -> 2 ^ 31 < maxStreamData sfc - t < 2 ^ 32 ->
  SendLimit (ApplyWindowUpdate sfc (u32 t)).1 = t + 2 ^ 32.
Proof.
  intros Ht Hm Hd. unfold ApplyWindowUpdate, SendLimit.
  rewrite reconstruct_stale by done. rewrite UpdateMaxStreamData_max. lia.
Qed.

(** ** Witnesses *)

(** A run of the link: the whole initial credit is sent, received and read,
    and the update that reading triggers arrives. *)
Definition sample_read : StreamFlowController * list Z :=
  consume (OnDataReceived (receiver link_init) InitialMaxStreamData) InitialMaxStreamData [].

Definition sample_link : Link :=
  MkLink (OnDataSent (sender link_init) InitialMaxStreamData) sample_read.1 sample_read.2.

Lemma sample_reach : link_reach sample_link.
Proof.
  eapply reach_step; [eapply reach_step; [eapply reach_step; [apply reach_init|]|]|].
  - apply (LSend _ _ _ InitialMaxStreamData); by vm_compute.
  - apply (LReceive _ _ _ InitialMaxStreamData); by vm_compute.
  - apply (LConsume _ _ _ InitialMaxStreamData). by vm_compute.
Qed.

Lemma link_back_pressure_witness :
  BufferedBytes (receiver sample_link) <= RecvWindow (receiver sample_link)
    <= MaxStreamRecvWindow /\
  dataSent (sender sample_link) <= SendLimit (sender sample_link)
    <= AdvertisedLimit (receiver sample_link).
Proof. exact (link_back_pressure sample_link sample_reach). Defined.

Lemma blocked_exchange_restores_credit_witness :
  SendWindowAvailable (sender sample_link) = 0 /\
  SendWindowAvailable
    (ApplyWindowUpdate (sender sample_link) (u32 (RefreshLimit (receiver sample_link)).2)).1
  = 2 * InitialMaxStreamData.
Proof.
  split; [reflexivity|].
  pose proof (blocked_exchange_restores_credit _ _ _ sample_reach) as H.
  exact (proj1 H).
Defined.

Lemma update_grants_half_window_witness :
  let sfc := OnDataReceived (NewStreamFlowController 65536 65536) 40000 in
  (OnDataConsumed sfc 40000).2 = true /\
  (AdvertiseLimit (OnDataConsumed sfc 40000).1).2 > 65536 + 65536 / 2 - 1.
Proof.
  cbv zeta. split; [reflexivity|].
  refine (proj1 (update_grants_half_window
    (OnDataReceived (NewStreamFlowController 65536 65536) 40000) 40000 _ _ _ _ _));
    [constructor; by vm_compute | by vm_compute ..].
Defined.

Lemma window_offset_recovered_witness :
  SendLimit (ApplyWindowUpdate (NewStreamFlowController (2 ^ 32 - 1) 65536)
    (u32 (2 ^ 32 + 65535))).1 = 2 ^ 32 + 65535.
Proof.
  rewrite (proj1 (window_offset_recovered (NewStreamFlowController (2 ^ 32 - 1) 65536)
    (2 ^ 32 + 65535) ltac:(lia) ltac:(cbn; lia) ltac:(cbn; lia))).
  reflexivity.
Defined.

Lemma stale_update_inflates_limit_witness :
  SendLimit (ApplyWindowUpdate (NewStreamFlowController (2 ^ 31 + 131072) 65536)
    (u32 65536)).1 = 65536 + 2 ^ 32.
Proof.
  apply (stale_update_inflates_limit (NewStreamFlowController (2 ^ 31 + 131072) 65536) 65536);
    cbn; lia.
Defined.
