(* ===== verification/Mtud.v ===== *)
(** * Path MTU discovery (src/pmtud.go)

    The search of [MTUDiscovery] as a state machine: its operations, its
    invariant under every sequence of them, the convergence of the search, and
    the black-hole fallback. Times are nanoseconds since the zero [time.Time];
    0 is the zero time. *)

From S2P Require Import Prelude Constants.

Record MTUDiscovery := MkMTU {
  current : Z;
  probe : Z;
  lowFailed : Z;
  tries : Z;
  inFlight : bool;
  done : bool;
  retryAt : Z;
  largeLost : Z
}.

Definition restartLocked (m : MTUDiscovery) : MTUDiscovery :=
  MkMTU (current m) MaxDatagramSize (MaxDatagramSize + 1) 0 false false 0 0.

Definition NewMTUDiscovery : MTUDiscovery :=
  restartLocked (MkMTU SafeDatagramSize 0 0 0 false false 0 0).

Definition Current (m : MTUDiscovery) : Z := current m.
Definition Done (m : MTUDiscovery) : bool := done m.

Definition NextProbe (now : Z) (m : MTUDiscovery) : MTUDiscovery * Z :=
  let send (m : MTUDiscovery) :=
    if done m || inFlight m then (m, 0)
    else (MkMTU (current m) (probe m) (lowFailed m) (tries m) true (done m)
            (retryAt m) (largeLost m), probe m) in
  if negb (retryAt m =? 0) then
    if now <? retryAt m then (m, 0) else send (restartLocked m)
  else send m.

(** [nextLocked] ends the search or picks the next size; [done] is only ever
    set here. *)
Definition nextLocked (m : MTUDiscovery) : MTUDiscovery :=
  if lowFailed m - current m <=? MTUSearchStep
  then MkMTU (current m) 0 (lowFailed m) (tries m) (inFlight m) true (retryAt m) (largeLost m)
  else MkMTU (current m) (Z.quot (current m + lowFailed m) 2) (lowFailed m) (tries m)
         (inFlight m) (done m) (retryAt m) (largeLost m).

Definition OnProbeAcked (size : Z) (m : MTUDiscovery) : MTUDiscovery :=
  if negb (retryAt m =? 0)
  then MkMTU (current m) (probe m) (lowFailed m) (tries m) false (done m) (retryAt m) (largeLost m)
  else
    let c := if current m <? size then size else current m in
    nextLocked (MkMTU c (probe m) (lowFailed m) 0 false (done m) (retryAt m) (largeLost m)).

Definition OnProbeLost (size : Z) (m : MTUDiscovery) : MTUDiscovery :=
  if negb (retryAt m =? 0)
  then MkMTU (current m) (probe m) (lowFailed m) (tries m) false (done m) (retryAt m) (largeLost m)
  else
    let t := tries m + 1 in
    if t <? MTUProbeTries
    then MkMTU (current m) (probe m) (lowFailed m) t false (done m) (retryAt m) (largeLost m)
    else
      let low := if size <? lowFailed m then size else lowFailed m in
      nextLocked (MkMTU (current m) (probe m) low 0 false (done m) (retryAt m) (largeLost m)).

Definition OnDataAcked (size : Z) (m : MTUDiscovery) : MTUDiscovery :=
  if SafeDatagramSize <? size
  then MkMTU (current m) (probe m) (lowFailed m) (tries m) (inFlight m) (done m) (retryAt m) 0
  else m.

Definition blackholeLocked (now : Z) (m : MTUDiscovery) : MTUDiscovery :=
  if current m <=? SafeDatagramSize then m
  else MkMTU SafeDatagramSize 0 (lowFailed m) (tries m) false true (now + BlackholeRetry) 0.

Definition OnDataLost (now size : Z) (m : MTUDiscovery) : MTUDiscovery :=
  if (current m <=? SafeDatagramSize) || (size <=? SafeDatagramSize) then m
  else
    let n := largeLost m + 1 in
    let m' := MkMTU (current m) (probe m) (lowFailed m) (tries m) (inFlight m) (done m)
                (retryAt m) n in
    if BlackholePackets <=? n then blackholeLocked now m' else m'.

Definition Blackhole (now : Z) (m : MTUDiscovery) : MTUDiscovery := blackholeLocked now m.

Definition Reset (m : MTUDiscovery) : MTUDiscovery :=
  restartLocked (MkMTU SafeDatagramSize (probe m) (lowFailed m) (tries m) (inFlight m)
    (done m) (retryAt m) (largeLost m)).

(** ** Every sequence of calls *)

Inductive mtu_call :=
  | CNextProbe (now : Z)
  | CProbeAcked (size : Z)
  | CProbeLost (size : Z)
  | CDataAcked (size : Z)
  | CDataLost (now size : Z)
  | CBlackhole (now : Z)
  | CReset.

Definition mtu_apply (m : MTUDiscovery) (c : mtu_call) : MTUDiscovery :=
  match c with
  | CNextProbe now => (NextProbe now m).1
  | CProbeAcked size => OnProbeAcked size m
  | CProbeLost size => OnProbeLost size m
  | CDataAcked size => OnDataAcked size m
  | CDataLost now size => OnDataLost now size m
  | CBlackhole now => Blackhole now m
  | CReset => Reset m
  end.

Definition mtu_run (calls : list mtu_call) (m : MTUDiscovery) : MTUDiscovery :=
  fold_left mtu_apply calls m.

(** What the connection guarantees of a call: the clock reads after the zero
    time, and an acknowledged probe is one it sent, no larger than the largest
    probe size. *)
Definition call_ok (c : mtu_call) : Prop :=
  match c with
  | CProbeAcked size => size <= MaxDatagramSize
  | CNextProbe now | CDataLost now _ | CBlackhole now => 0 <= now
  | _ => True
  end.

Record MTU_ok (m : MTUDiscovery) : Prop := {
  mtu_current : SafeDatagramSize <= current m <= MaxDatagramSize;
  mtu_tries : 0 <= tries m < MTUProbeTries;
  mtu_lost : 0 <= largeLost m < BlackholePackets;
  mtu_low : lowFailed m <= MaxDatagramSize + 1;
  mtu_retry : 0 <= retryAt m;
  (* after a black hole the base size is in use and the search is over *)
  mtu_hole : retryAt m <> 0 -> done m = true /\ current m = SafeDatagramSize;
  (* a running search tests a size strictly between its bounds *)
  mtu_search : done m = false ->
    current m < probe m < lowFailed m /\ MTUSearchStep < lowFailed m - current m
}.

Ltac mtu_unfold := unfold SafeDatagramSize, MaxDatagramSize, MTUSearchStep, MTUProbeTries,
  BlackholePackets, BlackholeRetry, Minute, Second, Millisecond in *.

Ltac mtu_solve :=
  constructor; cbn [current probe lowFailed tries inFlight done retryAt largeLost];
  mtu_unfold; intuition (try done; try lia).

Lemma restart_ok m : current m = SafeDatagramSize -> MTU_ok (restartLocked m).
Proof. intros E. unfold restartLocked. rewrite E. mtu_solve. Qed.

Lemma half_between a b : 0 <= a -> 16 < b - a -> a < Z.quot (a + b) 2 < b.
Proof. intros. Z.to_euclidean_division_equations. lia. Qed.

(** [nextLocked] establishes the running-search clause from the others. *)
Lemma nextLocked_ok m :
  SafeDatagramSize <= current m <= MaxDatagramSize -> 0 <= tries m < MTUProbeTries ->
  0 <= largeLost m < BlackholePackets -> lowFailed m <= MaxDatagramSize + 1 ->
  retryAt m = 0 -> MTU_ok (nextLocked m).
Proof.
  intros Hc Ht Hl Hlow Hr. unfold nextLocked. destruct (Z.leb_spec (lowFailed m - current m) MTUSearchStep).
  - mtu_solve.
  - pose proof (half_between (current m) (lowFailed m)). mtu_solve.
Qed.

Lemma mtu_apply_ok m c : MTU_ok m -> call_ok c -> MTU_ok (mtu_apply m c).
Proof.
  intros Hm Hc. destruct c as [now|size|size|size|now size|now|]; cbn [mtu_apply call_ok] in *.
  - unfold NextProbe. destruct Hm as [? ? ? ? ? Hhole ?], (Z.eqb_spec (retryAt m) 0); cbn [negb].
    + destruct (done m || inFlight m); mtu_solve.
    + destruct (now <? retryAt m); [mtu_solve|]. cbn [done inFlight orb restartLocked fst].
      destruct (Hhole n) as [_ E]. cbn. rewrite E. mtu_solve.
  - destruct Hm. unfold OnProbeAcked. destruct (Z.eqb_spec (retryAt m) 0); cbn [negb].
    + apply nextLocked_ok; cbn; mtu_unfold; zcases; lia.
    + mtu_solve.
  - destruct Hm. unfold OnProbeLost. destruct (Z.eqb_spec (retryAt m) 0); cbn [negb]; [|mtu_solve].
    destruct (Z.ltb_spec (tries m + 1) MTUProbeTries); [mtu_solve|].
    apply nextLocked_ok; cbn; mtu_unfold; zcases; lia.
  - destruct Hm. unfold OnDataAcked. zcases; mtu_solve.
  - destruct Hm. unfold OnDataLost, blackholeLocked. cbn. zcases; cbn; mtu_solve.
  - destruct Hm. unfold Blackhole, blackholeLocked. zcases; mtu_solve.
  - by apply restart_ok.
Qed.

Lemma mtu_run_ok calls m : MTU_ok m -> Forall call_ok calls -> MTU_ok (mtu_run calls m).
Proof.
  intros Hm Hc. revert m Hm. induction Hc as [|c calls Hc _ IH]; intros m Hm; [done|].
  apply IH. by apply mtu_apply_ok.
Qed.

Lemma new_mtu_ok : MTU_ok NewMTUDiscovery.
Proof. by apply restart_ok. Qed.

Lemma nextLocked_current m : current (nextLocked m) = current m.
Proof. unfold nextLocked. zcases; done. Qed.

(** Where a step's validated size comes from. *)
Lemma mtu_apply_current m c :
  current (mtu_apply m c) = current m \/ current (mtu_apply m c) = SafeDatagramSize \/
  c = CProbeAcked (current (mtu_apply m c)).
Proof.
  destruct c; cbn [mtu_apply];
    unfold NextProbe, OnProbeAcked, OnProbeLost, OnDataAcked, OnDataLost, Blackhole, Reset,
      blackholeLocked; cbn [current]; zcases; cbn [negb orb andb]; rewrite ?nextLocked_current;
    repeat case_match; cbn; auto.
Qed.

(** ** The search *)

(** The connection's side of the search: whenever [NextProbe] asks for a probe
    it is sent, and [carries k size] says whether the path acknowledged the
    [k]-th one. *)
Section Search.
Context (carries : nat -> Z -> bool) (now : Z).

Fixpoint search (fuel k : nat) (m : MTUDiscovery) : MTUDiscovery :=
  match fuel with
  | O => m
  | S fuel =>
      let '(m, size) := NextProbe now m in
      if size =? 0 then m
      else search fuel (S k) (if carries k size then OnProbeAcked size m else OnProbeLost size m)
  end.

(** A search between probes: no black hole, nothing in flight. *)
Definition idle (m : MTUDiscovery) : Prop :=
  MTU_ok m /\ retryAt m = 0 /\ inFlight m = false.

Definition outcome (k : nat) (m : MTUDiscovery) : MTUDiscovery :=
  let size := probe m in
  let m := (NextProbe now m).1 in
  if carries k size then OnProbeAcked size m else OnProbeLost size m.

Lemma nextLocked_idle m : MTU_ok (nextLocked m) -> retryAt m = 0 -> inFlight m = false ->
  idle (nextLocked m).
Proof. intros Hok ? ?. split; [done|]. unfold nextLocked. zcases; done. Qed.

Lemma search_S fuel k m : idle m -> done m = false ->
  search (S fuel) k m = search fuel (S k) (outcome k m).
Proof.
  intros ([] & Hr & Hf) Hd. cbn [search]. unfold outcome, NextProbe. rewrite Hr, Hd, Hf.
  cbn. destruct (mtu_search0 Hd). mtu_unfold. destruct (Z.eqb_spec (probe m) 0); [lia | done].
Qed.

Lemma search_done fuel k m : idle m -> done m = true -> search fuel k m = m.
Proof.
  intros (_ & Hr & _) Hd. destruct fuel; [done|]. cbn [search]. unfold NextProbe.
  rewrite Hr, Hd. done.
Qed.

(** Every probe narrows the gap between the two bounds or uses up a try. *)
Definition search_measure (m : MTUDiscovery) : Z :=
  if done m then 0 else MTUProbeTries * (lowFailed m - current m) - tries m.

Lemma outcome_eq k m : idle m -> done m = false ->
  outcome k m =
    if carries k (probe m)
    then nextLocked (MkMTU (probe m) (probe m) (lowFailed m) 0 false false 0 (largeLost m))
    else if tries m + 1 <? MTUProbeTries
    then MkMTU (current m) (probe m) (lowFailed m) (tries m + 1) false false 0 (largeLost m)
    else nextLocked (MkMTU (current m) (probe m) (probe m) 0 false false 0 (largeLost m)).
Proof.
  intros ([] & Hr & Hf) Hd. destruct (mtu_search0 Hd) as [[Hcp Hpl] _].
  unfold outcome, NextProbe, OnProbeAcked, OnProbeLost. rewrite Hr, Hd, Hf. cbn.
  rewrite ?Hr. cbn.
  rewrite (proj2 (Z.ltb_lt (current m) (probe m))), (proj2 (Z.ltb_lt (probe m) (lowFailed m)))
    by done. done.
Qed.

Lemma nextLocked_measure m : 0 <= lowFailed m - current m -> tries m = 0 ->
  search_measure (nextLocked m) <= MTUProbeTries * (lowFailed m - current m).
Proof.
  intros ? Ht. unfold search_measure, nextLocked. mtu_unfold.
  zcases; cbn; [lia|]. case_match; lia.
Qed.

Lemma outcome_progress k m : idle m -> done m = false ->
  idle (outcome k m) /\ search_measure (outcome k m) < search_measure m.
Proof.
  intros Hidle Hd. rewrite outcome_eq by done. destruct Hidle as (Hok & Hr & Hf).
  destruct Hok as [Hc Ht Hl Hlow _ _ Hs]. destruct (Hs Hd) as [Hp Hg].
  assert (Hm : search_measure m = MTUProbeTries * (lowFailed m - current m) - tries m)
    by (unfold search_measure; by rewrite Hd).
  rewrite Hm. destruct (carries k (probe m)); [|destruct (Z.ltb_spec (tries m + 1) MTUProbeTries)].
  - split; [apply nextLocked_idle; try done; apply nextLocked_ok; cbn; mtu_unfold; lia|].
    eapply Z.le_lt_trans; [apply nextLocked_measure; cbn; lia|]. cbn. mtu_unfold. lia.
  - split; [split_and!; try done; mtu_solve|]. unfold search_measure; cbn. lia.
  - split; [apply nextLocked_idle; try done; apply nextLocked_ok; cbn; mtu_unfold; lia|].
    eapply Z.le_lt_trans; [apply nextLocked_measure; cbn; lia|]. cbn. mtu_unfold. lia.
Qed.

Lemma search_terminates fuel : forall k m, idle m -> search_measure m <= Z.of_nat fuel ->
  idle (search fuel k m) /\ done (search fuel k m) = true.
Proof.
  induction fuel as [|fuel IH]; intros k m Hidle Hf; destruct (done m) eqn:Hd;
    try (rewrite search_done by done; done).
  - exfalso. destruct Hidle as ([] & _). destruct (mtu_search0 Hd).
    unfold search_measure in Hf. rewrite Hd in Hf. mtu_unfold. lia.
  - rewrite search_S by done. destruct (outcome_progress k m Hidle Hd).
    apply IH; [done | lia].
Qed.

(** A property of idle states that every probe keeps holds at the end. *)
Lemma search_ind (P : MTUDiscovery -> Prop) :
  (forall k m, idle m -> done m = false -> P m -> P (outcome k m)) ->
  forall fuel k m, idle m -> P m -> P (search fuel k m).
Proof.
  intros HP fuel. induction fuel as [|fuel IH]; intros k m Hidle Hm; [done|].
  destruct (done m) eqn:Hd; [by rewrite search_done|].
  rewrite search_S by done. apply IH; [by apply outcome_progress | by apply HP].
Qed.

End Search.

(** The path carries datagrams of up to [capacity] bytes, no more. *)
Definition brackets (capacity : Z) (m : MTUDiscovery) : Prop :=
  current m <= capacity < lowFailed m /\
  (done m = true -> lowFailed m - current m <= MTUSearchStep).

Lemma brackets_next capacity m : current m <= capacity < lowFailed m -> done m = false ->
  brackets capacity (nextLocked m).
Proof. intros H Hd. unfold brackets, nextLocked. zcases; cbn; split; try done; congruence. Qed.

Lemma outcome_brackets capacity now k m :
  idle m -> done m = false -> brackets capacity m ->
  brackets capacity (outcome (fun _ size => size <=? capacity) now k m).
Proof.
  intros Hidle Hd [Hb _]. rewrite outcome_eq by done.
  destruct (Z.leb_spec (probe m) capacity); [|destruct (Z.ltb_spec (tries m + 1) MTUProbeTries)].
  - apply brackets_next; cbn [current lowFailed done]; [lia | done].
  - split; cbn [current lowFailed done]; [done | congruence].
  - apply brackets_next; cbn [current lowFailed done]; [lia | done].
Qed.

Lemma OnDataLost_base now size m : current m <= SafeDatagramSize -> OnDataLost now size m = m.
Proof. intros H. unfold OnDataLost. by rewrite (proj2 (Z.leb_le _ _) H). Qed.

Lemma OnDataLost_large now size m :
  SafeDatagramSize < current m -> SafeDatagramSize < size ->
  OnDataLost now size m =
    if BlackholePackets <=? largeLost m + 1
    then MkMTU SafeDatagramSize 0 (lowFailed m) (tries m) false true (now + BlackholeRetry) 0
    else MkMTU (current m) (probe m) (lowFailed m) (tries m) (inFlight m) (done m) (retryAt m)
           (largeLost m + 1).
Proof.
  intros Hc Hs. unfold OnDataLost, blackholeLocked. cbn.
  rewrite (proj2 (Z.leb_gt _ _) Hc), (proj2 (Z.leb_gt _ _) Hs). done.
Qed.

(** ** Properties *)

(** C37. Whatever the order of probe and data reports, timeouts and resets, the
    datagram size streams use stays between SafeDatagramSize and
    MaxDatagramSize, and is either SafeDatagramSize or a size for which a probe
    was acknowledged. Probes are at most MaxDatagramSize, as [NextProbe] makes
    them. *)
Theorem mtu_current_validated (calls : list mtu_call) :
  Forall call_ok calls ->
  let m := mtu_run calls NewMTUDiscovery in
  SafeDatagramSize <= Current m <= MaxDatagramSize /\
  (Current m = SafeDatagramSize \/ CProbeAcked (Current m) ∈ calls).
Proof.
  intros Hc. cbv zeta. split; [exact (mtu_current _ (mtu_run_ok _ _ new_mtu_ok Hc))|].
  clear Hc. unfold Current, mtu_run. induction calls as [|c calls IH] using rev_ind; [by left|].
  rewrite fold_left_app. cbn [fold_left].
  set (m := fold_left mtu_apply calls NewMTUDiscovery) in *.
  destruct (mtu_apply_current m c) as [E | [E | E]].
  - rewrite E. set_solver.
  - by left.
  - right. rewrite <- E. set_solver.
Qed.

(** The search always ends: whatever each probe's fate, after at most 819
    probes (three tries for each of the 273 sizes in question) the search is
    done and no probe is in flight. *)
Theorem mtu_search_terminates (carries : nat -> Z -> bool) (now : Z) :
  let m := search carries now 819 0 NewMTUDiscovery in
  Done m = true /\ inFlight m = false /\ (NextProbe now m).2 = 0.
Proof.
  cbv zeta.
  destruct (search_terminates carries now 819 0 NewMTUDiscovery) as [(_ & Hr & Hf) Hd].
  - split; [apply new_mtu_ok | done].
  - vm_compute. done.
  - unfold NextProbe. rewrite Hr, Hd, Hf. done.
Qed.

(** C36. On a path that carries datagrams of up to [capacity] bytes and nothing
    larger, the search ends with a size the path carries and less than
    MTUSearchStep below the largest one. *)
Theorem mtu_search_finds_capacity (capacity now : Z) :
  SafeDatagramSize <= capacity <= MaxDatagramSize ->
  let m := search (fun _ size => size <=? capacity) now 819 0 NewMTUDiscovery in
  Done m = true /\ Current m <= capacity < Current m + MTUSearchStep.
Proof.
  intros Hcap. cbv zeta. set (path := fun _ : nat => _).
  assert (idle NewMTUDiscovery) as Hi by (split; [apply new_mtu_ok | done]).
  destruct (search_terminates path now 819 0 NewMTUDiscovery Hi) as [_ Hd]; [by vm_compute|].
  assert (brackets capacity (search path now 819 0 NewMTUDiscovery)) as [Hb Hg].
  { apply search_ind; [intros; by apply outcome_brackets | done |].
    split; [cbn; mtu_unfold; lia | done]. }
  specialize (Hg Hd). unfold Done, Current. split; [done | lia].
Qed.

(** Three full-size data packets lost in a row put the size back to
    SafeDatagramSize; no probe goes out for BlackholeRetry after the first of
    these losses, and a probe of MaxDatagramSize goes out once BlackholeRetry
    has passed since the last. *)
Theorem blackhole_falls_back (m : MTUDiscovery) (t1 t2 t3 s1 s2 s3 : Z) :
  MTU_ok m -> SafeDatagramSize < current m ->
  0 < t1 <= t2 -> t2 <= t3 ->
  SafeDatagramSize < s1 -> SafeDatagramSize < s2 -> SafeDatagramSize < s3 ->
  let m' := OnDataLost t3 s3 (OnDataLost t2 s2 (OnDataLost t1 s1 m)) in
  Current m' = SafeDatagramSize /\
  (forall now, now < t1 + BlackholeRetry -> NextProbe now m' = (m', 0)) /\
  (forall now, t3 + BlackholeRetry <= now -> (NextProbe now m').2 = MaxDatagramSize).
Proof.
  intros Hok Hc Ht Ht' H1 H2 H3. cbv zeta.
  assert (exists t, t1 <= t <= t3 /\
    OnDataLost t3 s3 (OnDataLost t2 s2 (OnDataLost t1 s1 m))
    = MkMTU SafeDatagramSize 0 (lowFailed m) (tries m) false true (t + BlackholeRetry) 0)
    as (t & Htt & ->).
  { destruct Hok as [? ? Hl _ _ _ _]. rewrite (OnDataLost_large t1 s1 m) by done.
    assert (largeLost m = 0 \/ largeLost m = 1 \/ largeLost m = 2) as [-> | [-> | ->]]
      by (mtu_unfold; lia); cbn [Z.leb Z.add BlackholePackets].
    - rewrite (OnDataLost_large t2 s2) by done. cbn. rewrite (OnDataLost_large t3 s3) by done.
      exists t3. split; [lia | done].
    - rewrite (OnDataLost_large t2 s2) by done. cbn. rewrite (OnDataLost_base t3 s3) by done.
      exists t2. split; [lia | done].
    - cbn. rewrite (OnDataLost_base t2 s2), (OnDataLost_base t3 s3) by done.
      exists t1. split; [lia | done]. }
  split_and!; [done | |]; intros now Hnow; unfold NextProbe; cbn [retryAt].
  - mtu_unfold. zcases; try lia. done.
  - mtu_unfold. zcases; try lia. done.
Qed.

(** ** Witnesses *)

Definition sample_calls : list mtu_call :=
  [CNextProbe 5; CProbeLost 1472; CNextProbe 6; CProbeAcked 1400; CDataLost 7 1400].

Lemma mtu_current_validated_witness :
  let m := mtu_run sample_calls NewMTUDiscovery in
  SafeDatagramSize <= Current m <= MaxDatagramSize /\
  (Current m = SafeDatagramSize \/ CProbeAcked (Current m) ∈ sample_calls).
Proof. apply mtu_current_validated. repeat constructor; by vm_compute. Defined.

Lemma mtu_search_finds_capacity_witness :
  let m := search (fun _ size => size <=? 1400) 1 819 0 NewMTUDiscovery in
  Done m = true /\ Current m <= 1400 < Current m + MTUSearchStep.
Proof. apply (mtu_search_finds_capacity 1400 1). by vm_compute. Defined.

Lemma blackhole_falls_back_witness :
  Current (OnDataLost 3 1400 (OnDataLost 2 1400 (OnDataLost 1 1400
    (OnProbeAcked 1400 NewMTUDiscovery)))) = SafeDatagramSize.
Proof.
  refine (proj1 (blackhole_falls_back (OnProbeAcked 1400 NewMTUDiscovery) 1 2 3 1400 1400 1400
    _ _ _ _ _ _ _)); [|by vm_compute ..].
  apply (mtu_apply_ok NewMTUDiscovery (CProbeAcked 1400)); [apply new_mtu_ok | by vm_compute].
Defined.
