(* ===== verification/PacketManager.v ===== *)
(** * Sent packets, acknowledgements and loss (src/packet_manager.go)

    The code shares [*SentPacket] values between the manager, the
    connection's queue of lost packets and its callers, and compares them by
    identity. They live here in a store [packets] indexed by pointer; the map
    [sentPackets] holds pointers, as in the source. A loop over the Go map
    visits the entries in an unspecified order, so it takes that order as an
    argument: any permutation of the map's entries. *)

From S2P Require Import Prelude Constants Cid Frame.

Record SentPacket := MkSentPacket {
  sp_Sequence : Z;
  sp_SentTime : Z;
  sp_FirstSentTime : Z;
  sp_Size : Z;
  sp_IsAcked : bool;
  sp_Frames : list Frame;
  sp_DestinationStreamID : Z;
  sp_SourceStreamID : Z;
  sp_RetransmitCount : Z;
  sp_Probe : bool;
  sp_LastRetransmit : Z
}.

#[global] Instance SentPacket_inhabited : Inhabited SentPacket :=
  populate (MkSentPacket 0 0 0 0 false [] 0 0 0 false 0).

Definition ptr : Type := positive.

Record PacketManager := MkPM {
  packets : gmap ptr SentPacket;   (* the SentPacket values, by address *)
  nextSeq : Z;
  lastSentSeq : Z;
  sentPackets : gmap Z ptr;
  largestAcked : Z;
  lastAckTime : Z;
  ackBeforeLoss : Z;
  lossTimer : option Z             (* when the armed timer fires *)
}.

Definition NewPacketManager : PacketManager :=
  MkPM ∅ 0 (-1) ∅ (-1) 0 0 None.

(** The value a pointer refers to, and writing through one. *)
Definition deref (pm : PacketManager) (p : ptr) : SentPacket := packets pm !!! p.

Definition store (pm : PacketManager) (p : ptr) (v : SentPacket) : PacketManager :=
  MkPM (<[p := v]> (packets pm)) (nextSeq pm) (lastSentSeq pm) (sentPackets pm)
    (largestAcked pm) (lastAckTime pm) (ackBeforeLoss pm) (lossTimer pm).

(** [&SentPacket{...}] *)
Definition alloc (pm : PacketManager) (v : SentPacket) : ptr * PacketManager :=
  let p := fresh (dom (packets pm)) in (p, store pm p v).

Definition with_sent (pm : PacketManager) (m : gmap Z ptr) : PacketManager :=
  MkPM (packets pm) (nextSeq pm) (lastSentSeq pm) m
    (largestAcked pm) (lastAckTime pm) (ackBeforeLoss pm) (lossTimer pm).

Definition with_timer (pm : PacketManager) (t : option Z) : PacketManager :=
  MkPM (packets pm) (nextSeq pm) (lastSentSeq pm) (sentPackets pm)
    (largestAcked pm) (lastAckTime pm) (ackBeforeLoss pm) t.

Definition NextSequence (pm : PacketManager) : Z * PacketManager :=
  (nextSeq pm,
   MkPM (packets pm) (u32 (nextSeq pm + 1)) (lastSentSeq pm) (sentPackets pm)
     (largestAcked pm) (lastAckTime pm) (ackBeforeLoss pm) (lossTimer pm)).

Definition LastSentSeq (pm : PacketManager) : Z := lastSentSeq pm.
Definition PMLargestAcked (pm : PacketManager) : Z := largestAcked pm.

Definition SendPacket (now : Z) (pm : PacketManager) (p : ptr) : PacketManager :=
  let v := deref pm p in
  let first := if sp_FirstSentTime v =? 0 then now else sp_FirstSentTime v in
  let v' := MkSentPacket (sp_Sequence v) now first (sp_Size v) (sp_IsAcked v) (sp_Frames v)
    (sp_DestinationStreamID v) (sp_SourceStreamID v) (sp_RetransmitCount v) (sp_Probe v)
    (sp_LastRetransmit v) in
  MkPM (<[p := v']> (packets pm)) (nextSeq pm) (sp_Sequence v)
    (<[sp_Sequence v := p]> (sentPackets pm))
    (largestAcked pm) (lastAckTime pm) (ackBeforeLoss pm) (lossTimer pm).

(** ** Acknowledgements *)

Definition set_acked (v : SentPacket) : SentPacket :=
  MkSentPacket (sp_Sequence v) (sp_SentTime v) (sp_FirstSentTime v) (sp_Size v) true
    (sp_Frames v) (sp_DestinationStreamID v) (sp_SourceStreamID v) (sp_RetransmitCount v)
    (sp_Probe v) (sp_LastRetransmit v).

(** The closure [take]. *)
Definition take_seq (st : PacketManager * list ptr) (seq : Z) : PacketManager * list ptr :=
  let '(pm, acked) := st in
  match sentPackets pm !! seq with
  | Some p =>
      let pm1 := store pm p (set_acked (deref pm p)) in
      (with_sent pm1 (delete seq (sentPackets pm1)), acked ++ [p])
  | None => (pm, acked)
  end.

(** The sequence numbers the two loops of [HandleAckFrame] take, in order:
    [n] of them down from the highest of a range ... *)
Definition down (high n : Z) : list Z := (fun i => u32 (high -i i)) <$> seqZ 0 n.

(** ... and range after range, [currentSeq] being the first sequence below the
    previous one. *)
Fixpoint walk_ranges (currentSeq : Z) (rs : list AckRange) : list Z :=
  match rs with
  | [] => []
  | r :: rs =>
      let rangeEnd := currentSeq -i Gap r in
      down rangeEnd (AckRangeLength r) ++ walk_ranges (rangeEnd -i AckRangeLength r) rs
  end.

Definition ack_sequences (f : AckFrame) : list Z :=
  down (LargestAcked f) (FirstAckRangeLength f)
  ++ walk_ranges (LargestAcked f -i FirstAckRangeLength f) (AckRanges f).

Definition HandleAckFrame (now : Z) (pm : PacketManager) (f : AckFrame)
    : PacketManager * list ptr :=
  let '(pm, acked) := fold_left take_seq (ack_sequences f) (pm, []) in
  if (0 <? length acked)%nat then
    let la := if largestAcked pm <? LargestAcked f then LargestAcked f else largestAcked pm in
    (MkPM (packets pm) (nextSeq pm) (lastSentSeq pm) (sentPackets pm) la now
       (lastAckTime pm) (lossTimer pm), acked)
  else (pm, acked).

(** ** Loss detection *)

Definition lossDelay (smoothedRtt latestRtt : Z) : Z :=
  let rtt := if smoothedRtt <? latestRtt then latestRtt else smoothedRtt in
  let delay := rtt *i LossTimeThresholdNumerator /i LossTimeThresholdDenominator in
  if delay <? LossTimerGranularity then LossTimerGranularity else delay.

(** One round of the loop over [sentPackets]. *)
Definition judge (now delay : Z) (pm : PacketManager) (st : list ptr * Z) (entry : Z * ptr)
    : list ptr * Z :=
  let '(lost, nextLoss) := st in
  let '(seq, p) := entry in
  if largestAcked pm <? seq then (lost, nextLoss)
  else
    let behind := largestAcked pm -i seq in
    if (LossReorderThreshold <=? behind) || negb (now <? sp_SentTime (deref pm p) + delay)
    then (lost ++ [p], nextLoss)
    else
      let at_ := sp_SentTime (deref pm p) + delay in
      (lost, if (nextLoss =? 0) || (at_ <? nextLoss) then at_ else nextLoss).

Definition before_seq (pm : PacketManager) (p q : ptr) : Prop :=
  sp_Sequence (deref pm p) <= sp_Sequence (deref pm q).

#[global] Instance before_seq_dec pm p q : Decision (before_seq pm p q).
Proof. unfold before_seq. apply _. Defined.

Definition sort_by_seq (pm : PacketManager) (l : list ptr) : list ptr :=
  merge_sort (before_seq pm) l.

Definition detectLostLocked (order : list (Z * ptr)) (now delay : Z) (pm : PacketManager)
    : PacketManager * list ptr :=
  let pm := with_timer pm None in
  if largestAcked pm <? 0 then (pm, [])
  else
    let '(lost, nextLoss) := fold_left (judge now delay pm) order ([], 0) in
    let pm1 := with_sent pm
      (fold_left (fun m p => delete (sp_Sequence (deref pm p)) m) lost (sentPackets pm)) in
    let lost := sort_by_seq pm lost in
    if negb (nextLoss =? 0) then
      let wait := timeSub nextLoss now in
      let wait := if wait <? LossTimerGranularity then LossTimerGranularity else wait in
      (with_timer pm1 (Some (now + wait)), lost)
    else (pm1, lost).

Definition DetectLostPackets (order : list (Z * ptr)) (now delay : Z) (pm : PacketManager)
    : PacketManager * list ptr := detectLostLocked order now delay pm.

Definition onLossTimer (order : list (Z * ptr)) (now delay : Z) (pm : PacketManager)
    : PacketManager * list ptr :=
  detectLostLocked order now delay
    (MkPM (packets pm) (nextSeq pm) (lastSentSeq pm) (sentPackets pm)
       (largestAcked pm) (lastAckTime pm) (lastAckTime pm) (lossTimer pm)).

Definition LossTimerArmed (pm : PacketManager) : bool := bool_decide (lossTimer pm <> None).
Definition AckBeforeLoss (pm : PacketManager) : Z := ackBeforeLoss pm.

(** ** Re-sending *)

(** [if cur, ok := pm.sentPackets[pkt.Sequence]; ok && cur == pkt { delete }] *)
Definition untrack (pm : PacketManager) (p : ptr) : gmap Z ptr :=
  let seq := sp_Sequence (deref pm p) in
  match sentPackets pm !! seq with
  | Some cur => if bool_decide (cur = p) then delete seq (sentPackets pm) else sentPackets pm
  | None => sentPackets pm
  end.

Definition Resend (now : Z) (pm : PacketManager) (p : ptr) : PacketManager * (Z * bool) :=
  let v := deref pm p in
  if sp_IsAcked v || sp_Probe v then (pm, (0, false))
  else
    let tracked := untrack pm p in
    let newSeq := nextSeq pm in
    let first := if sp_FirstSentTime v =? 0 then now else sp_FirstSentTime v in
    let v' := MkSentPacket newSeq now first (sp_Size v) (sp_IsAcked v) (sp_Frames v)
      (sp_DestinationStreamID v) (sp_SourceStreamID v) (sp_RetransmitCount v +i 1) (sp_Probe v)
      now in
    (MkPM (<[p := v']> (packets pm)) (u32 (nextSeq pm + 1)) newSeq (<[newSeq := p]> tracked)
       (largestAcked pm) (lastAckTime pm) (ackBeforeLoss pm) (lossTimer pm), (newSeq, true)).

Definition OldestUnacked (order : list (Z * ptr)) (n : nat) (pm : PacketManager) : list ptr :=
  if bool_decide (order = []) || (n =? 0)%nat then []
  else
    let all := filter (fun p => sp_Probe (deref pm p) = false) order.*2 in
    take n (sort_by_seq pm all).

Definition Drop (pm : PacketManager) (p : ptr) : PacketManager := with_sent pm (untrack pm p).

Definition GetPacket (pm : PacketManager) (seq : Z) : option ptr := sentPackets pm !! seq.
Definition PendingCount (pm : PacketManager) : nat := size (sentPackets pm).
Definition Destroy (pm : PacketManager) : PacketManager := with_sent (with_timer pm None) ∅.

(** ** The invariant

    Every tracked packet is stored, is tracked under its own current sequence
    number, which was handed out already, and is not acknowledged. *)

Record PM_ok (pm : PacketManager) : Prop := {
  pm_next : is_u32 (nextSeq pm);
  pm_largest : -1 <= largestAcked pm < 2 ^ 32;
  pm_tracked : forall seq p, sentPackets pm !! seq = Some p ->
    is_Some (packets pm !! p) /\ sp_Sequence (deref pm p) = seq /\
    sp_IsAcked (deref pm p) = false /\ 0 <= sp_SentTime (deref pm p) /\ 0 <= seq < nextSeq pm
}.

Lemma NewPacketManager_ok : PM_ok NewPacketManager.
Proof. split; cbn; [width | lia | intros seq p H; by rewrite lookup_empty in H]. Qed.

Lemma deref_store pm p q v :
  deref (store pm p v) q = if decide (p = q) then v else deref pm q.
Proof.
  unfold deref, store. cbn. case_decide as E.
  - subst. apply lookup_total_insert_eq.
  - by apply lookup_total_insert_ne.
Qed.

(** A packet is tracked under one number only. *)
Lemma tracked_inj pm s t p : PM_ok pm ->
  sentPackets pm !! s = Some p -> sentPackets pm !! t = Some p -> s = t.
Proof.
  intros Hok Hs Ht. apply (pm_tracked _ Hok) in Hs, Ht. naive_solver.
Qed.

(** ** Acknowledging a list of sequence numbers *)

Record acknowledges (pm : PacketManager) (l : list Z) (pm' : PacketManager) (new : list ptr)
    : Prop := {
  ak_sent : forall s, sentPackets pm' !! s = if decide (s ∈ l) then None else sentPackets pm !! s;
  ak_new : forall p, p ∈ new <-> exists s, s ∈ l /\ sentPackets pm !! s = Some p;
  ak_nodup : NoDup new;
  ak_deref : forall p, deref pm' p = if decide (p ∈ new) then set_acked (deref pm p) else deref pm p;
  ak_dom : forall p, is_Some (packets pm !! p) -> is_Some (packets pm' !! p);
  ak_next : nextSeq pm' = nextSeq pm;
  ak_last : lastSentSeq pm' = lastSentSeq pm;
  ak_largest : largestAcked pm' = largestAcked pm;
  ak_time : lastAckTime pm' = lastAckTime pm /\ ackBeforeLoss pm' = ackBeforeLoss pm;
  ak_timer : lossTimer pm' = lossTimer pm
}.

Lemma take_seq_acknowledges pm l pm' new s : PM_ok pm ->
  acknowledges pm l pm' new ->
  acknowledges pm (l ++ [s]) (take_seq (pm', new) s).1 (take_seq (pm', new) s).2.
Proof.
  intros Hok [Hs Hn Hnd Hd Hdom Hnx Hla Hlg Ht Htm]. unfold take_seq. rewrite (Hs s).
  destruct (decide (s ∈ l)) as [Hin|Hin]; [|destruct (sentPackets pm !! s) as [p|] eqn:E].
  - split; cbn [fst snd]; try done.
    + intros t. rewrite Hs. repeat case_decide; set_solver.
    + intros p. rewrite Hn. set_solver.
  - assert (Hp : p ∉ new).
    { rewrite Hn. intros (t & Ht' & E'). by rewrite (tracked_inj pm s t p) in Hin. }
    split; cbn [fst snd with_sent store sentPackets packets nextSeq lastSentSeq largestAcked
                  lastAckTime ackBeforeLoss lossTimer]; try done.
    + intros t. destruct (decide (s = t)) as [<-|Hne].
      * rewrite lookup_delete_eq, decide_True; [done | set_solver].
      * rewrite lookup_delete_ne, Hs by done. repeat case_decide; set_solver.
    + intros q. rewrite elem_of_app, list_elem_of_singleton, Hn. split.
      * intros [(t & ? & ?) | ->]; [exists t; set_solver | exists s; set_solver].
      * intros (t & Hin' & E'). apply elem_of_app in Hin' as [|Hts%list_elem_of_singleton];
          [left; eauto | right; congruence].
    + apply NoDup_app. split_and!; [done | set_solver | apply NoDup_singleton].
    + intros q. pose proof (deref_store pm' p q (set_acked (deref pm' p))) as Hds.
      unfold deref in Hds |- *. cbn in *. rewrite Hds. fold (deref pm' q). fold (deref pm' p).
      rewrite !Hd. rewrite (decide_False (P := p ∈ new)) by done.
      repeat case_decide; subst; try done; set_solver.
    + intros q Hq. destruct (decide (p = q)) as [<-|].
      * rewrite lookup_insert_eq. eauto.
      * rewrite lookup_insert_ne by done. auto.
  - split; cbn [fst snd]; try done.
    + intros t. rewrite Hs. destruct (decide (t = s)) as [->|]; repeat case_decide; set_solver.
    + intros p. rewrite Hn. split; intros (t & Ht' & E'); exists t; [set_solver|].
      apply elem_of_app in Ht' as [|Hts%list_elem_of_singleton]; [done | congruence].
Qed.

Lemma takes_acknowledge pm l : PM_ok pm ->
  acknowledges pm l (fold_left take_seq l (pm, [])).1 (fold_left take_seq l (pm, [])).2.
Proof.
  intros Hok. induction l as [|s l IH] using rev_ind.
  - split; cbn; try done; try constructor; try set_solver;
      intros ?; by rewrite decide_False by apply not_elem_of_nil.
  - rewrite fold_left_app. cbn [fold_left].
    destruct (fold_left take_seq l (pm, [])) as [pm' new].
    by apply take_seq_acknowledges.
Qed.

Lemma acknowledges_ok pm l pm' new : PM_ok pm -> acknowledges pm l pm' new -> PM_ok pm'.
Proof.
  intros Hok Ha. split.
  - rewrite (ak_next _ _ _ _ Ha). apply Hok.
  - rewrite (ak_largest _ _ _ _ Ha). apply Hok.
  - intros s p. rewrite (ak_sent _ _ _ _ Ha). case_decide as Hin; [done|]. intros E.
    destruct (pm_tracked _ Hok _ _ E) as (Hst & Hseq & Hack & Htime & Hlt).
    assert (p ∉ new).
    { rewrite (ak_new _ _ _ _ Ha). intros (t & Ht & E').
      by rewrite (tracked_inj pm s t p) in Hin. }
    rewrite (ak_deref _ _ _ _ Ha), decide_False, (ak_next _ _ _ _ Ha) by done.
    split_and!; try done; [by apply Ha | lia | lia].
Qed.

Lemma HandleAckFrame_spec now pm f : PM_ok pm -> is_u32 (LargestAcked f) ->
  let '(pm', acked) := HandleAckFrame now pm f in
  PM_ok pm' /\
  (forall s, sentPackets pm' !! s
     = if decide (s ∈ ack_sequences f) then None else sentPackets pm !! s) /\
  (forall p, p ∈ acked <-> exists s, s ∈ ack_sequences f /\ sentPackets pm !! s = Some p) /\
  NoDup acked /\
  (forall p, deref pm' p = if decide (p ∈ acked) then set_acked (deref pm p) else deref pm p) /\
  nextSeq pm' = nextSeq pm /\
  largestAcked pm' = (if decide (acked = []) then largestAcked pm
                      else Z.max (largestAcked pm) (LargestAcked f)) /\
  lastAckTime pm' = (if decide (acked = []) then lastAckTime pm else now).
Proof.
  intros Hok Hf. unfold HandleAckFrame.
  pose proof (takes_acknowledge pm (ack_sequences f) Hok) as Ha.
  destruct (fold_left take_seq (ack_sequences f) (pm, [])) as [pm' acked]. cbn [fst snd] in Ha.
  pose proof (acknowledges_ok _ _ _ _ Hok Ha) as Hok'.
  destruct Ha as [Hs Hn Hnd Hd Hdom Hnx Hla Hlg [Ht _] Htm].
  destruct acked as [|a acked]; cbn [length Nat.ltb Nat.leb].
  - split_and!; try done; by rewrite decide_True by done.
  - split_and!; try done; cbn [largestAcked lastAckTime]; try (by rewrite decide_False by done).
    + split; cbn; try apply Hok'. pose proof (pm_largest _ Hok'). zcases; width.
    + rewrite decide_False, Hlg by done. zcases; lia.
Qed.

(** ** Judging packets lost *)

Definition fires_at (delay : Z) (pm : PacketManager) (e : Z * ptr) : Z :=
  sp_SentTime (deref pm e.2) + delay.

(** RFC 9002 section 6.1: behind the largest acknowledged, by three or more
    packets or for longer than the delay. *)
Definition is_lost (now delay : Z) (pm : PacketManager) (e : Z * ptr) : Prop :=
  e.1 <= largestAcked pm /\
  (LossReorderThreshold <= largestAcked pm - e.1 \/ fires_at delay pm e <= now).

Definition is_waiting (now delay : Z) (pm : PacketManager) (e : Z * ptr) : Prop :=
  e.1 <= largestAcked pm /\ ~ is_lost now delay pm e.

#[global] Instance is_lost_dec now delay pm e : Decision (is_lost now delay pm e).
Proof. unfold is_lost. apply _. Defined.
#[global] Instance is_waiting_dec now delay pm e : Decision (is_waiting now delay pm e).
Proof. unfold is_waiting. apply _. Defined.

Definition earlier (n at_ : Z) : Z := if (n =? 0) || (at_ <? n) then at_ else n.

Lemma judge_fold now delay pm order acc n :
  -1 <= largestAcked pm < 2 ^ 32 -> Forall (fun e => is_u32 e.1) order ->
  fold_left (judge now delay pm) order (acc, n)
  = (acc ++ (filter (is_lost now delay pm) order).*2,
     fold_left earlier (fires_at delay pm <$> filter (is_waiting now delay pm) order) n).
Proof.
  intros Hl Ho. revert acc n. induction Ho as [|[seq p] order Hs Ho IH]; intros acc n.
  { cbn. by rewrite app_nil_r. }
  cbn [fold_left fst] in *. unfold judge at 2. nowrap.
  destruct (Z.ltb_spec (largestAcked pm) seq) as [H1|H1].
  { rewrite IH, !filter_cons_False; [done | |]; unfold is_waiting, is_lost; cbn [fst]; lia. }
  destruct (Z.leb_spec LossReorderThreshold (largestAcked pm - seq)) as [H2|H2];
    [|destruct (Z.ltb_spec now (sp_SentTime (deref pm p) + delay)) as [H3|H3]]; cbn [orb negb].
  2: { rewrite IH, filter_cons_False, (filter_cons_True (is_waiting now delay pm)); [done | |];
         unfold is_waiting, is_lost, fires_at; cbn [fst snd]; lia. }
  all: rewrite IH, (filter_cons_True (is_lost now delay pm)), filter_cons_False;
    [cbn; by rewrite <- app_assoc | |]; unfold is_waiting, is_lost, fires_at; cbn [fst snd]; lia.
Qed.

(** The running minimum of the times a waiting packet becomes old enough. *)
Lemma earlier_pos n a : 0 <= n -> 0 < a -> 0 < earlier n a.
Proof. unfold earlier. zcases; cbn; lia. Qed.

Lemma fold_earlier_min l n : 0 <= n -> Forall (fun a => 0 < a) l ->
  (fold_left earlier l n = 0 <-> l = [] /\ n = 0) /\
  0 <= fold_left earlier l n /\
  (n <> 0 -> fold_left earlier l n <= n) /\ (forall a, a ∈ l -> fold_left earlier l n <= a) /\
  (fold_left earlier l n = n \/ fold_left earlier l n ∈ l).
Proof.
  intros Hn Hl. revert n Hn. induction Hl as [|a l Ha Hl IH]; intros n Hn; cbn [fold_left].
  { split_and!; auto; try tauto; try lia. intros a Ha. by apply not_elem_of_nil in Ha. }
  pose proof (earlier_pos n a Hn Ha) as He.
  destruct (IH (earlier n a)) as (I1 & I2 & I3 & I4 & I5); [lia|].
  assert (earlier n a <= a /\ (n <> 0 -> earlier n a <= n) /\ (earlier n a = n \/ earlier n a = a))
    as (E1 & E2 & E3) by (unfold earlier in *; zcases; cbn in *; lia).
  split_and!.
  - rewrite I1. split; [lia | intros [? ?]; done].
  - done.
  - lia.
  - intros b [->|Hb]%elem_of_cons; [lia | by apply I4].
  - rewrite elem_of_cons. destruct I5 as [-> | ?]; [|tauto]. destruct E3 as [-> | ->]; tauto.
Qed.

Lemma fold_earlier_perm l l' : l ≡ₚ l' -> Forall (fun a => 0 < a) l ->
  fold_left earlier l 0 = fold_left earlier l' 0.
Proof.
  intros Hp Hl. assert (Forall (fun a => 0 < a) l') as Hl' by by rewrite <- Hp.
  destruct (fold_earlier_min l 0) as (A1 & A2 & _ & A4 & A5); [lia | done |].
  destruct (fold_earlier_min l' 0) as (B1 & B2 & _ & B4 & B5); [lia | done |].
  destruct A5 as [A5|A5].
  - apply A1 in A5 as HA. destruct HA as [-> _]. apply Permutation_nil_l in Hp. by subst.
  - destruct B5 as [B5|B5].
    + apply B1 in B5 as HB. destruct HB as [-> _]. apply Permutation_nil_r in Hp. by subst.
    + pose proof (elem_of_perm _ _ Hp) as He.
      apply He, B4 in A5. apply He, A4 in B5. lia.
Qed.

Lemma delete_all_lookup (f : ptr -> Z) lost (m : gmap Z ptr) s :
  fold_left (fun m p => delete (f p) m) lost m !! s
  = if decide (s ∈ f <$> lost) then None else m !! s.
Proof.
  revert m. induction lost as [|p lost IH]; intros m; cbn [fold_left fmap list_fmap].
  { by rewrite decide_False by apply not_elem_of_nil. }
  rewrite IH. destruct (decide (f p = s)) as [<-|Hne].
  - rewrite lookup_delete_eq, (decide_True (P := f p ∈ f p :: _)) by left. by case_decide.
  - rewrite lookup_delete_ne by done.
    destruct (decide (s ∈ f <$> lost)); [rewrite decide_True by (by right); done|].
    rewrite decide_False; [done|]. by intros [?|?]%elem_of_cons.
Qed.

(** ** Loss detection over any enumeration of the map *)

Section Detection.
Context (pm : PacketManager) (Hok : PM_ok pm) (now delay : Z) (Hd : 0 < delay).
Context (order : list (Z * ptr)) (Horder : order ≡ₚ map_to_list (sentPackets pm)).

Lemma order_elem e : e ∈ order <-> sentPackets pm !! e.1 = Some e.2.
Proof using Horder.
  destruct e as [s p]. rewrite (elem_of_perm _ _ Horder).
  apply elem_of_map_to_list.
Qed.

Lemma order_fact e : e ∈ order -> sp_Sequence (deref pm e.2) = e.1 /\ is_u32 e.1 /\
  0 < fires_at delay pm e.
Proof using Hok Hd Horder.
  intros He%order_elem. destruct (pm_tracked _ Hok _ _ He) as (_ & Hs & _ & Ht & Hlt).
  pose proof (pm_next _ Hok). unfold fires_at. split_and!; [done | width | lia].
Qed.

Definition lost_list : list ptr := (filter (is_lost now delay pm) order).*2.
Definition waiting_times : list Z :=
  fires_at delay pm <$> filter (is_waiting now delay pm) order.

Lemma lost_list_elem p : p ∈ lost_list <->
  exists seq, sentPackets pm !! seq = Some p /\ is_lost now delay pm (seq, p).
Proof using Horder.
  unfold lost_list. rewrite list_elem_of_fmap. split.
  - intros ([seq q] & -> & [Hl He%order_elem]%list_elem_of_filter). eauto.
  - intros (seq & He & Hl). exists (seq, p). split; [done|].
    apply list_elem_of_filter. split; [done|]. by apply order_elem.
Qed.

Lemma lost_list_nodup : NoDup lost_list.
Proof using Hok Horder.
  unfold lost_list. apply NoDup_fmap_2_strong.
  - intros [s p] [t q] [_ Hs%order_elem]%list_elem_of_filter [_ Ht%order_elem]%list_elem_of_filter E.
    cbn in *. subst q. f_equal. by eapply tracked_inj.
  - apply NoDup_filter. rewrite Horder. apply NoDup_map_to_list.
Qed.

Lemma waiting_times_pos : Forall (fun a => 0 < a) waiting_times.
Proof using Hok Hd Horder.
  apply Forall_forall. intros a (e & -> & [_ He]%list_elem_of_filter)%list_elem_of_fmap.
  by apply order_fact.
Qed.

Lemma before_seq_antisym (l : list ptr) p q : (forall x, x ∈ l -> exists s, sentPackets pm !! s = Some x) ->
  p ∈ l -> q ∈ l -> before_seq pm p q -> before_seq pm q p -> p = q.
Proof using Hok.
  intros Hl [s Hp]%Hl [t Hq]%Hl. unfold before_seq. intros H1 H2.
  destruct (pm_tracked _ Hok _ _ Hp) as (_ & <- & _), (pm_tracked _ Hok _ _ Hq) as (_ & <- & _).
  assert (sp_Sequence (deref pm p) = sp_Sequence (deref pm q)) as E by lia. congruence.
Qed.
End Detection.

#[global] Instance before_seq_trans pm : Transitive (before_seq pm).
Proof. unfold before_seq. intros ???. lia. Qed.
#[global] Instance before_seq_total pm : Total (before_seq pm).
Proof. unfold before_seq. intros ??. lia. Qed.

Lemma sort_by_seq_perm pm l : sort_by_seq pm l ≡ₚ l.
Proof. apply merge_sort_Permutation. Qed.

(** Sorting forgets the order in which the map was enumerated. *)
Lemma sort_by_seq_unique pm (l l' : list ptr) : PM_ok pm -> l ≡ₚ l' ->
  (forall x, x ∈ l -> exists s, sentPackets pm !! s = Some x) ->
  sort_by_seq pm l = sort_by_seq pm l'.
Proof.
  intros Hok Hp Hl. apply (StronglySorted_unique_strong (before_seq pm)).
  - intros p q Hp1 Hq1. apply (before_seq_antisym pm Hok l); [done | |].
    + by apply (elem_of_perm _ _ (sort_by_seq_perm pm l)).
    + apply (elem_of_perm _ _ Hp).
      by apply (elem_of_perm _ _ (sort_by_seq_perm pm l')).
  - apply (StronglySorted_merge_sort _).
  - apply (StronglySorted_merge_sort _).
  - by rewrite !sort_by_seq_perm.
Qed.

Lemma floor_max a b : (if a <? b then b else a) = Z.max b a.
Proof. zcases; lia. Qed.

Section DetectionSpec.
Context (pm : PacketManager) (Hok : PM_ok pm) (now delay : Z) (Hd : 0 < delay).
Context (order : list (Z * ptr)) (Horder : order ≡ₚ map_to_list (sentPackets pm)).

#[local] Notation lost := (lost_list pm now delay order).
#[local] Notation next := (fold_left earlier (waiting_times pm now delay order) 0).

(** The state the loop and the deletions lead to. *)
Lemma detectLostLocked_eq : 0 <= largestAcked pm ->
  detectLostLocked order now delay pm =
    (MkPM (packets pm) (nextSeq pm) (lastSentSeq pm)
       (fold_left (fun m p => delete (sp_Sequence (deref pm p)) m) lost (sentPackets pm))
       (largestAcked pm) (lastAckTime pm) (ackBeforeLoss pm)
       (if next =? 0 then None
        else Some (now + Z.max LossTimerGranularity (timeSub next now))),
     sort_by_seq pm lost).
Proof using Hok Hd Horder.
  intros Hl. unfold detectLostLocked. cbn [with_timer largestAcked].
  rewrite (proj2 (Z.ltb_ge _ _) Hl), judge_fold; cbn [largestAcked with_timer].
  - cbn [app]. unfold lost_list, waiting_times.
    change (is_lost now delay (with_timer pm None)) with (is_lost now delay pm).
    change (is_waiting now delay (with_timer pm None)) with (is_waiting now delay pm).
    change (fires_at delay (with_timer pm None)) with (fires_at delay pm).
    destruct (fold_left earlier _ 0 =? 0); cbn [negb]; [done|].
    rewrite floor_max. done.
  - apply Hok.
  - apply Forall_forall. intros e He.
    apply (order_fact pm Hok delay Hd order Horder e He).
Qed.

Lemma lost_seq_lookup s :
  fold_left (fun m p => delete (sp_Sequence (deref pm p)) m) lost (sentPackets pm) !! s
  = match sentPackets pm !! s with
    | Some p => if decide (is_lost now delay pm (s, p)) then None else Some p
    | None => None
    end.
Proof using Hok Horder.
  rewrite delete_all_lookup. destruct (sentPackets pm !! s) as [p|] eqn:E; [|by case_decide].
  destruct (pm_tracked _ Hok _ _ E) as (_ & Hs & _).
  destruct (decide (is_lost now delay pm (s, p))) as [H|H].
  - rewrite decide_True; [done|]. apply list_elem_of_fmap. exists p. split; [done|].
    apply (lost_list_elem _ _ _ _ Horder). eauto.
  - rewrite decide_False; [done|]. intros (q & Hq & (t & Et & Ht)%(lost_list_elem _ _ _ _ Horder))%list_elem_of_fmap.
    destruct (pm_tracked _ Hok _ _ Et) as (_ & Hqs & _).
    assert (t = s) as -> by lia. rewrite E in Et. by injection Et as ->.
Qed.

Lemma no_loss_before_ack e : largestAcked pm < 0 -> sentPackets pm !! e.1 = Some e.2 ->
  ~ e.1 <= largestAcked pm.
Proof using Hok. intros Hl He. destruct (pm_tracked _ Hok _ _ He) as (_ & _ & _ & _ & ?). lia. Qed.

Lemma detect_entries pm' ls : detectLostLocked order now delay pm = (pm', ls) ->
  packets pm' = packets pm /\ nextSeq pm' = nextSeq pm /\ largestAcked pm' = largestAcked pm /\
  ls ≡ₚ lost /\ StronglySorted (before_seq pm) ls /\
  forall s, sentPackets pm' !! s = match sentPackets pm !! s with
    | Some p => if decide (is_lost now delay pm (s, p)) then None else Some p
    | None => None
    end.
Proof using Hok Hd Horder.
  destruct (Z.ltb_spec (largestAcked pm) 0) as [Hl|Hl].
  - unfold detectLostLocked. cbn [with_timer largestAcked].
    rewrite (proj2 (Z.ltb_lt _ _) Hl). intros [= <- <-]. split_and!; try done.
    + unfold lost_list. destruct (filter _ order) as [|e l] eqn:E; [done|].
      assert (e ∈ filter (is_lost now delay pm) order) as [[H1 H2] He%(order_elem _ _ Horder)]%list_elem_of_filter
        by (rewrite E; left). by destruct (no_loss_before_ack e).
    + constructor.
    + intros s. cbn. destruct (sentPackets pm !! s) as [p|] eqn:E; [|done].
      rewrite decide_False; [done|]. intros [H _]. by destruct (no_loss_before_ack (s, p)).
  - rewrite detectLostLocked_eq by done. intros [= <- <-]. cbn. split_and!; try done.
    + apply sort_by_seq_perm.
    + apply (StronglySorted_merge_sort _).
    + apply lost_seq_lookup.
Qed.
End DetectionSpec.

(** Sorted by sequence and without duplicates: strictly increasing. *)
Lemma StronglySorted_strict pm l : PM_ok pm ->
  (forall x : ptr, x ∈ l -> exists s, sentPackets pm !! s = Some x) -> NoDup l ->
  StronglySorted (before_seq pm) l ->
  StronglySorted (fun p q => sp_Sequence (deref pm p) < sp_Sequence (deref pm q)) l.
Proof.
  intros Hok Hl Hnd Hs. induction Hs as [|p l Hs IH Hp]; constructor.
  - apply IH; [intros x Hx; apply Hl; by right | by apply NoDup_cons in Hnd as [_ ?]].
  - apply NoDup_cons in Hnd as [Hnin _]. rewrite Forall_forall in Hp |- *.
    intros q Hq. pose proof (Hp q Hq) as Hle. unfold before_seq in Hle.
    destruct (decide (sp_Sequence (deref pm p) = sp_Sequence (deref pm q))) as [E|]; [|lia].
    exfalso. apply Hnin. rewrite (before_seq_antisym pm Hok (p :: l) p q); unfold before_seq;
      done || lia || (try by left); by right.
Qed.

(** ** Tracking a packet under a fresh number *)

Lemma untrack_lookup pm p s : PM_ok pm ->
  untrack pm p !! s = if decide (sentPackets pm !! s = Some p) then None else sentPackets pm !! s.
Proof.
  intros Hok. unfold untrack.
  destruct (sentPackets pm !! sp_Sequence (deref pm p)) as [cur|] eqn:E;
    [case_bool_decide as Hc|]; [subst cur| |].
  - destruct (decide (sp_Sequence (deref pm p) = s)) as [<-|Hne].
    + by rewrite lookup_delete_eq, decide_True.
    + rewrite lookup_delete_ne by done. rewrite decide_False; [done|].
      intros E'. by destruct Hne; eapply tracked_inj.
  - rewrite decide_False; [done|]. intros E'.
    destruct (pm_tracked _ Hok _ _ E') as (_ & Hs & _). subst s. congruence.
  - rewrite decide_False; [done|]. intros E'.
    destruct (pm_tracked _ Hok _ _ E') as (_ & Hs & _). subst s. congruence.
Qed.

(** Entering [p], whose value becomes [v'], under a number not in use. *)
Lemma track_ok pm pm' p v' : PM_ok pm -> packets pm' = <[p := v']> (packets pm) ->
  0 <= sp_SentTime v' -> sp_IsAcked v' = false ->
  is_u32 (nextSeq pm') -> 0 <= sp_Sequence v' < nextSeq pm' -> nextSeq pm <= nextSeq pm' ->
  largestAcked pm' = largestAcked pm ->
  (forall s, sentPackets pm' !! s =
     if decide (s = sp_Sequence v') then Some p
     else if decide (sentPackets pm !! s = Some p) then None else sentPackets pm !! s) ->
  PM_ok pm'.
Proof.
  intros Hok Hp Ht Ha Hn Hs Hnn Hl Hsent. split; [done | rewrite Hl; apply Hok |].
  intros s q. rewrite Hsent. unfold deref. rewrite Hp.
  destruct (decide (s = sp_Sequence v')) as [->|Hne].
  - intros [= <-]. rewrite lookup_insert_eq, lookup_total_insert_eq. split_and!; eauto; lia.
  - case_decide as E; [done|]. intros E'. assert (p <> q) by congruence.
    destruct (pm_tracked _ Hok _ _ E') as (? & ? & ? & ? & ?).
    rewrite lookup_insert_ne, lookup_total_insert_ne by done. unfold deref in *.
    split_and!; try done; lia.
Qed.

Lemma Resend_ok now pm p : PM_ok pm -> 0 <= now -> nextSeq pm + 1 < 2 ^ 32 ->
  PM_ok (Resend now pm p).1.
Proof.
  intros Hok Hnow Hn. pose proof (pm_next _ Hok). unfold Resend.
  destruct (sp_IsAcked (deref pm p) || sp_Probe (deref pm p)) eqn:E; [done|].
  apply orb_false_iff in E as [E _]. cbn [fst].
  eapply track_ok; [exact Hok | cbn; reflexivity |..]; cbn; nowrap; try width; try done.
  intros s. destruct (decide (s = nextSeq pm)) as [->|Hne].
  - by rewrite lookup_insert_eq.
  - rewrite lookup_insert_ne by done. by apply untrack_lookup.
Qed.

Lemma Drop_ok pm p : PM_ok pm -> PM_ok (Drop pm p).
Proof.
  intros Hok. split; try apply Hok. intros s q. cbn. rewrite untrack_lookup by done.
  case_decide; [done|]. apply (pm_tracked _ Hok).
Qed.

(** [NextSequence], a new SentPacket under that number, [SendPacket]: how the
    connection registers every numbered packet. *)
Definition register (now : Z) (pm : PacketManager) (v : Z -> SentPacket) : PacketManager :=
  let '(seq, pm) := NextSequence pm in
  let '(p, pm) := alloc pm (v seq) in
  SendPacket now pm p.

Definition fresh_packet (size : Z) (frames : list Frame) (dst src : Z) (probe : bool) (seq : Z)
    : SentPacket := MkSentPacket seq 0 0 size false frames dst src 0 probe 0.

Lemma register_ok now pm size frames dst src probe : PM_ok pm -> 0 <= now ->
  nextSeq pm + 1 < 2 ^ 32 -> PM_ok (register now pm (fresh_packet size frames dst src probe)).
Proof.
  intros Hok Hnow Hn. pose proof (pm_next _ Hok). unfold register, NextSequence, alloc, SendPacket.
  cbn -[fresh]. set (p := fresh _). unfold deref, store. cbn -[fresh].
  rewrite !lookup_total_insert_eq. cbn -[fresh].
  eapply track_ok; [exact Hok | cbn; apply insert_insert_eq |..]; cbn; nowrap; try width; try done.
  intros s. destruct (decide (s = nextSeq pm)) as [->|Hne].
  - by rewrite lookup_insert_eq.
  - rewrite lookup_insert_ne by done. case_decide as E; [|done].
    apply (pm_tracked _ Hok) in E as [Hp _]. apply elem_of_dom in Hp.
    by destruct (is_fresh (dom (packets pm))).
Qed.

(** ** Every sequence of calls *)

Inductive pm_step : PacketManager -> PacketManager -> Prop :=
  | PRegister pm now size frames dst src probe :
      0 <= now -> nextSeq pm + 1 < 2 ^ 32 ->
      pm_step pm (register now pm (fresh_packet size frames dst src probe))
  | PAck pm now f : is_u32 (LargestAcked f) -> pm_step pm (HandleAckFrame now pm f).1
  | PDetect pm order now srtt latest :
      order ≡ₚ map_to_list (sentPackets pm) ->
      pm_step pm (DetectLostPackets order now (lossDelay srtt latest) pm).1
  | PTimer pm order now srtt latest :
      order ≡ₚ map_to_list (sentPackets pm) ->
      pm_step pm (onLossTimer order now (lossDelay srtt latest) pm).1
  | PResend pm now p :
      0 <= now -> nextSeq pm + 1 < 2 ^ 32 -> pm_step pm (Resend now pm p).1
  | PDrop pm p : pm_step pm (Drop pm p)
  | PAlloc pm v : pm_step pm (alloc pm v).2
  | PDestroy pm : pm_step pm (Destroy pm).

Inductive pm_reach : PacketManager -> Prop :=
  | pm_reach_new : pm_reach NewPacketManager
  | pm_reach_step pm pm' : pm_reach pm -> pm_step pm pm' -> pm_reach pm'.

Lemma lossDelay_pos srtt latest : LossTimerGranularity <= lossDelay srtt latest.
Proof. unfold lossDelay. zcases; lia. Qed.

Lemma detect_ok pm order now delay : PM_ok pm -> 0 < delay ->
  order ≡ₚ map_to_list (sentPackets pm) -> PM_ok (detectLostLocked order now delay pm).1.
Proof.
  intros Hok Hd Ho. destruct (detectLostLocked order now delay pm) as [pm' ls] eqn:E. cbn [fst].
  destruct (detect_entries pm Hok now delay Hd order Ho _ _ E) as (Hp & Hn & Hl & _ & _ & Hs).
  split; [rewrite Hn; apply Hok | rewrite Hl; apply Hok |].
  intros s p. rewrite Hs. destruct (sentPackets pm !! s) as [q|] eqn:Eq; [|done].
  case_decide; [done|]. intros [= <-]. unfold deref. rewrite Hp, Hn. by apply Hok.
Qed.

Lemma pm_step_ok pm pm' : pm_step pm pm' -> PM_ok pm -> PM_ok pm'.
Proof.
  intros Hstep Hok. destruct Hstep as [| |pm order now srtt latest Ho|pm order now srtt latest Ho| | |pm v|pm].
  - by apply register_ok.
  - pose proof (HandleAckFrame_spec now pm f Hok H) as Ha.
    destruct (HandleAckFrame now pm f). apply Ha.
  - apply detect_ok; [done | | done]. pose proof (lossDelay_pos srtt latest).
    unfold LossTimerGranularity, Millisecond in *. lia.
  - apply detect_ok; [split; apply Hok | | done]. pose proof (lossDelay_pos srtt latest).
    unfold LossTimerGranularity, Millisecond in *. lia.
  - by apply Resend_ok.
  - by apply Drop_ok.
  - split; try apply Hok. intros s p E. cbn -[fresh] in *.
    destruct (pm_tracked _ Hok _ _ E) as (Hp & Hrest).
    assert (fresh (dom (packets pm)) <> p).
    { intros Hf. apply elem_of_dom in Hp. rewrite <- Hf in Hp. by destruct (is_fresh (dom (packets pm))). }
    rewrite lookup_insert_ne by done. unfold deref in *. cbn -[fresh].
    by rewrite lookup_total_insert_ne.
  - split; try apply Hok. intros s p E. cbn in E. by rewrite lookup_empty in E.
Qed.

Lemma pm_reach_ok pm : pm_reach pm -> PM_ok pm.
Proof. induction 1; [apply NewPacketManager_ok | by eapply pm_step_ok]. Qed.

Lemma lost_tracked pm now delay order : order ≡ₚ map_to_list (sentPackets pm) ->
  forall x, x ∈ lost_list pm now delay order -> exists s, sentPackets pm !! s = Some x.
Proof. intros Ho x (s & E & _)%(lost_list_elem _ _ _ _ Ho). eauto. Qed.

Lemma eligible_elem pm order : order ≡ₚ map_to_list (sentPackets pm) -> forall p,
  p ∈ filter (fun p => sp_Probe (deref pm p) = false) order.*2 <->
  (exists seq, sentPackets pm !! seq = Some p) /\ sp_Probe (deref pm p) = false.
Proof.
  intros Ho p. rewrite list_elem_of_filter, list_elem_of_fmap.
  split; [intros [? ([s q] & -> & He%(order_elem _ _ Ho))] | intros [[s E] ?]]; [eauto|].
  split; [done|]. exists (s, p). by rewrite (order_elem _ _ Ho).
Qed.

Lemma eligible_nodup pm order : PM_ok pm -> order ≡ₚ map_to_list (sentPackets pm) ->
  NoDup (filter (fun p => sp_Probe (deref pm p) = false) order.*2).
Proof.
  intros Hok Ho. apply NoDup_filter, NoDup_fmap_2_strong; [|rewrite Ho; apply NoDup_map_to_list].
  intros [s p] [t q] Hs%(order_elem _ _ Ho) Ht%(order_elem _ _ Ho) E. cbn in *. subst q.
  f_equal. by eapply tracked_inj.
Qed.

(** ** Properties *)

(** C16. Loss detection declares lost exactly the tracked packets that RFC 9002
    section 6.1 names: not above the largest acknowledged, and three or more
    packets behind it or older than the loss delay. They are returned in
    strictly increasing sequence order and are no longer tracked; every other
    packet stays tracked under its number, and the invariant is kept. *)
Theorem detectLost_exact (pm : PacketManager) (order : list (Z * ptr)) (now delay : Z) :
  pm_reach pm -> 0 < delay -> order ≡ₚ map_to_list (sentPackets pm) ->
  let '(pm', lost) := detectLostLocked order now delay pm in
  (forall p, p ∈ lost <->
     exists seq, sentPackets pm !! seq = Some p /\ is_lost now delay pm (seq, p)) /\
  StronglySorted (fun p q => sp_Sequence (deref pm p) < sp_Sequence (deref pm q)) lost /\
  (forall seq p, sentPackets pm' !! seq = Some p <->
     sentPackets pm !! seq = Some p /\ ~ is_lost now delay pm (seq, p)) /\
  PM_ok pm'.
Proof.
  intros Hok%pm_reach_ok Hd Ho. pose proof (detect_ok pm order now delay Hok Hd Ho) as Hok'.
  destruct (detectLostLocked order now delay pm) as [pm' ls] eqn:E.
  destruct (detect_entries pm Hok now delay Hd order Ho _ _ E) as (_ & _ & _ & Hp & Hst & Hs).
  split_and!; [| | |done].
  - intros p. rewrite (elem_of_perm _ _ Hp). by apply lost_list_elem.
  - apply StronglySorted_strict; try done.
    + intros x Hx%(elem_of_perm _ _ Hp). by eapply lost_tracked.
    + rewrite Hp. by apply lost_list_nodup.
  - intros seq p. rewrite Hs. destruct (sentPackets pm !! seq) as [q|]; [|naive_solver].
    case_decide; naive_solver.
Qed.

(** The result of loss detection does not depend on the order in which the
    Go runtime enumerates the map of sent packets. *)
Theorem detectLost_order_independent (pm : PacketManager) (o1 o2 : list (Z * ptr)) (now delay : Z) :
  pm_reach pm -> 0 < delay ->
  o1 ≡ₚ map_to_list (sentPackets pm) -> o2 ≡ₚ map_to_list (sentPackets pm) ->
  detectLostLocked o1 now delay pm = detectLostLocked o2 now delay pm.
Proof.
  intros Hok%pm_reach_ok Hd H1 H2. assert (o1 ≡ₚ o2) as H12 by by rewrite H1, H2.
  destruct (Z.ltb_spec (largestAcked pm) 0) as [Hl|Hl].
  { unfold detectLostLocked. cbn [with_timer largestAcked]. by rewrite (proj2 (Z.ltb_lt _ _) Hl). }
  rewrite !detectLostLocked_eq by done. f_equal.
  - f_equal.
    + apply map_eq. intros s. by rewrite !lost_seq_lookup.
    + rewrite (fold_earlier_perm (waiting_times pm now delay o1) (waiting_times pm now delay o2));
        [done | by unfold waiting_times; rewrite H12 | by apply waiting_times_pos].
  - apply sort_by_seq_unique; [done | by unfold lost_list; rewrite H12 | by apply lost_tracked].
Qed.

(** C40. After loss detection the loss timer is armed exactly when some packet
    below the largest acknowledged is still waiting on the time threshold, and
    it fires at least the timer granularity from now and no later than the
    moment any such packet is due (or the granularity, if that is later). *)
Theorem loss_timer_covers_waiting (pm : PacketManager) (order : list (Z * ptr)) (now delay : Z) :
  pm_reach pm -> 0 < delay -> order ≡ₚ map_to_list (sentPackets pm) ->
  let pm' := (detectLostLocked order now delay pm).1 in
  (LossTimerArmed pm' = true <->
     exists seq p, sentPackets pm' !! seq = Some p /\ seq <= largestAcked pm') /\
  (forall t, lossTimer pm' = Some t ->
     now + LossTimerGranularity <= t /\
     forall seq p, sentPackets pm' !! seq = Some p -> seq <= largestAcked pm' ->
       t <= Z.max (now + LossTimerGranularity) (fires_at delay pm (seq, p))).
Proof.
  intros Hok%pm_reach_ok Hd Ho. cbv zeta.
  destruct (detectLostLocked order now delay pm) as [pm' ls] eqn:E. cbn [fst].
  destruct (detect_entries pm Hok now delay Hd order Ho _ _ E) as (_ & _ & Hlg & _ & _ & Hs).
  assert (Hw : forall seq p, sentPackets pm' !! seq = Some p /\ seq <= largestAcked pm' <->
    (seq, p) ∈ filter (is_waiting now delay pm) order).
  { intros seq p. rewrite list_elem_of_filter, (order_elem _ _ Ho), Hs, Hlg. unfold is_waiting. cbn.
    destruct (sentPackets pm !! seq) as [q|]; [|naive_solver]. case_decide; naive_solver. }
  destruct (fold_earlier_min (waiting_times pm now delay order) 0) as (M1 & M2 & _ & M4 & _);
    [lia | by apply waiting_times_pos |].
  destruct (Z.ltb_spec (largestAcked pm) 0) as [Hl|Hl].
  - unfold detectLostLocked in E. cbn [with_timer largestAcked] in E.
    rewrite (proj2 (Z.ltb_lt _ _) Hl) in E. injection E as <- <-. split; [|done].
    split; [done|]. intros (seq & p & Hp & Hle). cbn in *.
    by destruct (no_loss_before_ack pm Hok (seq, p)).
  - rewrite detectLostLocked_eq in E by done. injection E as <- <-. cbn in Hw |- *. unfold LossTimerArmed. cbn.
    destruct (Z.eqb_spec (fold_left earlier (waiting_times pm now delay order) 0) 0) as [E0|E0].
    + split; [|done]. split; [done|]. intros (seq & p & Hsp). apply Hw in Hsp.
      apply M1 in E0 as [E0 _]. unfold waiting_times in E0. apply fmap_nil_inv in E0.
      rewrite E0 in Hsp. by apply not_elem_of_nil in Hsp.
    + split.
      * split; [intros _ | done]. destruct (filter (is_waiting now delay pm) order) as [|[s p] l] eqn:Ef.
        { destruct E0. apply M1. unfold waiting_times. by rewrite Ef. }
        exists s, p. apply Hw. left.
      * intros t [= <-]. split; [lia|]. intros seq p H1 H2. pose proof (conj H1 H2) as Hsp.
        apply Hw in Hsp. assert (Hle := M4 (fires_at delay pm (seq, p))).
        specialize (Hle ltac:(apply list_elem_of_fmap; eauto)). unfold timeSub. 
        unfold LossTimerGranularity, Millisecond. lia.
Qed.

(** Re-sending a packet that is neither acknowledged nor a probe tracks it
    under a number never used before, and under that number only; its send
    time restarts, its first send time is kept, and no other packet moves. A
    packet that is acknowledged or a probe is refused and nothing changes. *)
Theorem Resend_fresh (pm : PacketManager) (now : Z) (p : ptr) :
  pm_reach pm -> 0 <= now -> nextSeq pm + 1 < 2 ^ 32 ->
  let '(pm', (seq, ok)) := Resend now pm p in
  if sp_IsAcked (deref pm p) || sp_Probe (deref pm p) then pm' = pm /\ ok = false
  else
    ok = true /\ (forall s q, sentPackets pm !! s = Some q -> s < seq) /\
    (forall s, sentPackets pm' !! s = Some p <-> s = seq) /\
    (forall s q, q <> p -> sentPackets pm' !! s = Some q <-> sentPackets pm !! s = Some q) /\
    sp_Sequence (deref pm' p) = seq /\ sp_SentTime (deref pm' p) = now /\
    (sp_FirstSentTime (deref pm p) <> 0 ->
       sp_FirstSentTime (deref pm' p) = sp_FirstSentTime (deref pm p)) /\
    (forall q, q <> p -> deref pm' q = deref pm q) /\ PM_ok pm'.
Proof.
  intros Hok%pm_reach_ok Hnow Hn. pose proof (Resend_ok now pm p Hok Hnow Hn) as Hok'. revert Hok'.
  unfold Resend. destruct (sp_IsAcked (deref pm p) || sp_Probe (deref pm p)); [done|]. cbn [fst].
  intros Hok'. set (v' := MkSentPacket _ _ _ _ _ _ _ _ _ _ _) in *.
  set (pm' := MkPM _ _ _ _ _ _ _ _) in *.
  assert (Hs : forall s q, sentPackets pm !! s = Some q -> s < nextSeq pm)
    by (intros s q E; apply (pm_tracked _ Hok) in E as (_ & _ & _ & _ & ?); lia).
  assert (Hl : forall s, sentPackets pm' !! s = if decide (s = nextSeq pm) then Some p
    else if decide (sentPackets pm !! s = Some p) then None else sentPackets pm !! s).
  { intros s. cbn. destruct (decide (s = nextSeq pm)) as [->|].
    - apply lookup_insert_eq.
    - rewrite lookup_insert_ne by done. by apply untrack_lookup. }
  assert (Hdp : forall q, deref pm' q = if decide (p = q) then v' else deref pm q)
    by (intros q; apply (deref_store pm p q)).
  split_and!; try done.
  - intros s. rewrite Hl. repeat case_decide; naive_solver.
  - intros s q Hq. rewrite Hl. destruct (decide (s = nextSeq pm)) as [->|]; [|case_decide; naive_solver].
    split; [congruence|]. intros E%Hs. lia.
  - by rewrite Hdp, decide_True.
  - by rewrite Hdp, decide_True.
  - rewrite Hdp, decide_True by done. cbn. intros ?. by destruct (Z.eqb_spec (sp_FirstSentTime (deref pm p)) 0).
  - intros q Hq. by rewrite Hdp, decide_False by congruence.
Qed.

Lemma oldest_spec (pm : PacketManager) (order : list (Z * ptr)) (n : nat) :
  PM_ok pm -> order ≡ₚ map_to_list (sentPackets pm) ->
  let ls := OldestUnacked order n pm in
  let eligible p := (exists seq, sentPackets pm !! seq = Some p) /\ sp_Probe (deref pm p) = false in
  (length ls <= n)%nat /\ (forall p, p ∈ ls -> eligible p) /\
  StronglySorted (fun p q => sp_Sequence (deref pm p) < sp_Sequence (deref pm q)) ls /\
  (forall q, eligible q -> q ∉ ls -> length ls = n /\
     forall p, p ∈ ls -> sp_Sequence (deref pm p) < sp_Sequence (deref pm q)).
Proof.
  intros Hok Ho. cbv zeta. unfold OldestUnacked.
  pose proof (eligible_elem pm order Ho) as Hall. pose proof (eligible_nodup pm order Hok Ho) as Hnd.
  set (all := filter (fun p => sp_Probe (deref pm p) = false) order.*2) in *.
  assert (Hsort : StronglySorted (fun p q => sp_Sequence (deref pm p) < sp_Sequence (deref pm q))
    (sort_by_seq pm all)).
  { apply StronglySorted_strict; [done | | |apply (StronglySorted_merge_sort _)].
    - intros x Hx%(elem_of_perm _ _ (sort_by_seq_perm pm all)). by apply Hall.
    - by rewrite sort_by_seq_perm. }
  assert (Hin : forall p, p ∈ sort_by_seq pm all <-> p ∈ all)
    by apply elem_of_perm, sort_by_seq_perm.
  destruct (bool_decide (order = []) || (n =? 0)%nat) eqn:Eb.
  - split_and!; [cbn; lia | intros p Hp; by apply not_elem_of_nil in Hp | constructor |].
    intros q Hq _. apply orb_true_iff in Eb as [E%bool_decide_eq_true|E%Nat.eqb_eq].
    + apply Hall in Hq. unfold all in Hq. rewrite E in Hq. by apply not_elem_of_nil in Hq.
    + subst n. split; [done|]. intros p Hp. by apply not_elem_of_nil in Hp.
  - clear Eb. set (l := sort_by_seq pm all) in *.
    rewrite <- (take_drop n l) in Hsort. apply StronglySorted_app in Hsort as (H1 & H2 & H3).
    split_and!; [rewrite length_take; lia | | done |].
    + intros p Hp. apply Hall, Hin.
      assert (p ∈ take n l ++ drop n l) as Hp' by (apply elem_of_app; by left).
      by rewrite take_drop in Hp'.
    + intros q Hq%Hall%Hin Hnin.
      assert (q ∈ take n l ++ drop n l) as [?|Hq']%elem_of_app by (by rewrite take_drop); [done|]. split; [|intros p Hp; by apply H1].
      assert (n < length l)%nat; [|rewrite length_take; lia].
      destruct (decide (n < length l)%nat) as [|Hge]; [done|].
      rewrite drop_ge in Hq' by lia. by apply not_elem_of_nil in Hq'.
Qed.

(** A PTO re-sends the right packets: [OldestUnacked n] returns up to [n]
    tracked packets that are not probes, in strictly increasing sequence order,
    all of them if there are no more than [n], and every one it leaves out is
    later than every one it returns. *)
Theorem OldestUnacked_oldest (pm : PacketManager) (order : list (Z * ptr)) (n : nat) :
  pm_reach pm -> order ≡ₚ map_to_list (sentPackets pm) ->
  let ls := OldestUnacked order n pm in
  let eligible p := (exists seq, sentPackets pm !! seq = Some p) /\ sp_Probe (deref pm p) = false in
  (length ls <= n)%nat /\ (forall p, p ∈ ls -> eligible p) /\
  StronglySorted (fun p q => sp_Sequence (deref pm p) < sp_Sequence (deref pm q)) ls /\
  (forall q, eligible q -> q ∉ ls -> length ls = n /\
     forall p, p ∈ ls -> sp_Sequence (deref pm p) < sp_Sequence (deref pm q)).
Proof. intros Hok%pm_reach_ok. by apply oldest_spec. Qed.

(** ** Witnesses

    Six packets sent at times 1 to 6, of which the peer acknowledges the last:
    sequences 0 to 2 are lost by reordering, 3 and 4 wait on the timer. *)

Definition sample_sent : PacketManager :=
  fold_left (fun pm now => register now pm (fresh_packet 1200 [] 1 1 false)) [1; 2; 3; 4; 5; 6]
    NewPacketManager.

Definition sample_pm : PacketManager :=
  (HandleAckFrame 7 sample_sent (MkAckFrame 5 0 1 [])).1.

Lemma sample_pm_reach : pm_reach sample_pm.
Proof.
  eapply pm_reach_step; [|apply PAck; cbn; width]. unfold sample_sent. cbn [fold_left].
  do 6 (eapply pm_reach_step; [|apply PRegister; by vm_compute]). apply pm_reach_new.
Qed.

Lemma detectLost_exact_witness :
  let '(pm', lost) := detectLostLocked (map_to_list (sentPackets sample_pm)) 8 1000000 sample_pm in
  (sp_Sequence ∘ deref pm' <$> lost) = [0; 1; 2] /\ PM_ok pm'.
Proof.
  pose proof (detectLost_exact sample_pm (map_to_list (sentPackets sample_pm)) 8 1000000
    sample_pm_reach ltac:(lia) ltac:(done)) as H.
  destruct (detectLostLocked _ 8 1000000 sample_pm) as [pm' lost] eqn:E.
  split; [|apply H]. apply (f_equal (fun r => (sp_Sequence ∘ deref r.1 <$> r.2))) in E.
  cbn [fst snd] in E. rewrite <- E. vm_compute. reflexivity.
Defined.

Lemma detectLost_order_independent_witness :
  detectLostLocked (map_to_list (sentPackets sample_pm)) 8 1000000 sample_pm
  = detectLostLocked (reverse (map_to_list (sentPackets sample_pm))) 8 1000000 sample_pm.
Proof.
  apply (detectLost_order_independent sample_pm); [apply sample_pm_reach | lia | done |].
  apply reverse_Permutation.
Defined.

Lemma loss_timer_covers_waiting_witness :
  LossTimerArmed (detectLostLocked (map_to_list (sentPackets sample_pm)) 8 1000000 sample_pm).1
  = true.
Proof.
  apply (loss_timer_covers_waiting sample_pm (map_to_list (sentPackets sample_pm)) 8 1000000
    sample_pm_reach ltac:(lia) ltac:(done)).
  exists 4, 5%positive. vm_compute. done.
Defined.

Lemma Resend_fresh_witness :
  exists p, sentPackets sample_pm !! 3 = Some p /\
    let '(pm', (seq, ok)) := Resend 9 sample_pm p in
    ok = true /\ seq = 6 /\ sentPackets pm' !! 3 = None /\ PM_ok pm'.
Proof.
  exists 4%positive. split; [vm_compute; reflexivity|].
  pose proof (Resend_fresh sample_pm 9 4%positive sample_pm_reach ltac:(lia) ltac:(by vm_compute)) as H.
  destruct (Resend 9 sample_pm 4%positive) as [pm' [seq ok]] eqn:E.
  change (sp_IsAcked (deref sample_pm 4%positive) || sp_Probe (deref sample_pm 4%positive)) with false in H.
  destruct H as (Hok & _ & Hp & _ & Hs & _ & _ & _ & Hinv). split; [done|].
  assert (seq = 6) as -> by (apply (f_equal (fun r => r.2.1)) in E; cbn [fst snd] in E;
    rewrite <- E; by vm_compute).
  split; [done|]. split; [|done].
  apply (f_equal (fun r => sentPackets r.1 !! 3)) in E. cbn [fst] in E. rewrite <- E.
  by vm_compute.
Defined.

Lemma OldestUnacked_oldest_witness :
  (length (OldestUnacked (map_to_list (sentPackets sample_pm)) 2 sample_pm) <= 2)%nat /\
  (sp_Sequence ∘ deref sample_pm <$>
     OldestUnacked (map_to_list (sentPackets sample_pm)) 2 sample_pm) = [0; 1].
Proof.
  split; [|by vm_compute].
  refine (proj1 (OldestUnacked_oldest sample_pm (map_to_list (sentPackets sample_pm)) 2 _ _));
    [apply sample_pm_reach | done].
Defined.
