(* ===== verification/AckExchange.v ===== *)
(** * What an ACK says and what the sender reads from it

    The receiver's [frame] (src/ack_tracker.go) and the sender's decoding in
    [HandleAckFrame] (src/packet_manager.go) are two walks over the same run
    lengths. Here they are put together, through the wire format in between. *)

From S2P Require Import Prelude Constants Cid Frame AckTracker PacketManager.

(** ** The sender's walk on well-formed ranges *)

Lemma down_elem high n s : 0 <= n <= high + 1 -> high < 2 ^ 32 ->
  s ∈ down high n <-> high - n < s <= high.
Proof.
  intros Hn Hh. unfold down. rewrite list_elem_of_fmap. split.
  - intros (i & -> & Hi%elem_of_seqZ). nowrap. lia.
  - intros Hs. exists (high - s). rewrite elem_of_seqZ. nowrap. lia.
Qed.

(** How many runs of consecutive members of [S] end between [low] and [high]. *)
Definition runs (S : gset Z) (low high : Z) : nat :=
  length (filter (fun s => s ∈ S /\ s + 1 ∉ S) (seqZ (low + 1) (high - low))).

Lemma runs_split S low mid high : low <= mid <= high -> runs S low high = (runs S low mid + runs S mid high)%nat.
Proof.
  intros H. unfold runs. replace (high - low) with ((mid - low) + (high - mid)) by lia.
  rewrite seqZ_app, filter_app, length_app by lia. by replace (low + 1 + (mid - low)) with (mid + 1) by lia.
Qed.

Lemma runs_none S low high : (forall s, low < s <= high -> s ∉ S) -> runs S low high = 0%nat.
Proof.
  intros H. unfold runs. destruct (filter _ _) as [|s l] eqn:E; [done|].
  assert (Hs : s ∈ s :: l) by left. rewrite <- E in Hs. apply list_elem_of_filter in Hs as [[Hs _] Hin%elem_of_seqZ].
  by destruct (H s); [lia|].
Qed.

Lemma runs_one S low high : low < high -> (forall s, low < s <= high -> s ∈ S) -> high + 1 ∉ S -> runs S low high = 1%nat.
Proof.
  intros Hlt Hin Hout. rewrite (runs_split S low (high - 1) high) by lia.
  assert (E : runs S low (high - 1) = 0%nat).
  { unfold runs. destruct (filter _ _) as [|s l] eqn:E; [done|]. assert (Hs : s ∈ s :: l) by left. rewrite <- E in Hs.
    apply list_elem_of_filter in Hs as [[_ Hs] Hr%elem_of_seqZ]. destruct Hs. apply Hin. lia. }
  rewrite E. unfold runs. replace (high - (high - 1)) with 1 by lia. replace (high - 1 + 1) with high by lia.
  rewrite seqZ_cons, (seqZ_nil (Z.succ high)) by lia. rewrite filter_cons, decide_True; [done|]. split; [apply Hin; lia | done].
Qed.

(** The ranges [rs], read down from [p], acknowledge exactly the members of
    [S] between [low] and [p], a run each. *)
Record covers (S : gset Z) (p : Z) (rs : list AckRange) (low : Z) : Prop := {
  cov_low : -1 <= low <= p;
  cov_exact : forall s, s ∈ walk_ranges p rs <-> s ∈ S /\ low < s <= p;
  cov_ok : Forall (fun r => 1 <= Gap r <= 255 /\ 1 <= AckRangeLength r <= 512) rs;
  cov_runs : runs S low p = length rs
}.

Lemma covers_nil S p low : -1 <= low <= p -> (forall s, low < s <= p -> s ∉ S) ->
  covers S p [] low.
Proof.
  intros Hl Hs. split; [done | | constructor | by apply runs_none].
  intros s. cbn. split; [intros H; by apply not_elem_of_nil in H | intros [? ?%Hs]; done].
Qed.

Lemma covers_cons S p p1 p2 rs low :
  p < 2 ^ 32 -> -1 <= p2 < p1 -> p1 < p -> p - p1 <= 255 -> p1 - p2 <= 512 ->
  (forall s, p1 < s <= p -> s ∉ S) -> (forall s, p2 < s <= p1 -> s ∈ S) ->
  covers S p2 rs low -> covers S p (MkAckRange (p - p1) (p1 - p2) :: rs) low.
Proof.
  intros Hp H21 H1 Hg Hr Hgap Hrun [Hl He Ho Hn]. split.
  - lia.
  - intros s. cbn [walk_ranges Gap AckRangeLength].
    rewrite (i64_small (p - (p - p1))) by width. replace (p - (p - p1)) with p1 by lia.
    rewrite (i64_small (p1 - (p1 - p2))) by width. replace (p1 - (p1 - p2)) with p2 by lia.
    rewrite elem_of_app, down_elem, He by lia. split.
    + intros [Hs | [Hs Hs']]; [split; [apply Hrun; lia | lia] | split; [done | lia]].
    + intros [Hin Hs]. destruct (decide (p2 < s)); [|right; split; [done | lia]].
      left. destruct (decide (p1 < s)); [|lia]. by destruct (Hgap s); [lia|].
  - constructor; [cbn; lia | done].
  - rewrite (runs_split S low p2 p), (runs_split S p2 p1 p), Hn, (runs_one S p2 p1), (runs_none S p1 p) by (done || lia || (apply Hgap; lia)).
    cbn. lia.
Qed.

(** ** Why the frame stops where it does *)

(** Everything down to sequence 0 or the end of the history is described, the
    frame is full at the end of a run, or the next gap does not fit the
    eight-bit field. *)
Definition stops (r : recvTracker) (S : gset Z) (room : nat) (rs : list AckRange) (low : Z) : Prop :=
  low = -1 \/ low = largest r - 512 \/ (length rs = room /\ low ∉ S) \/
  (forall s, low < s <= low + 255 -> s ∉ S).

Lemma ranges_length room r c k : (length (ranges room r c k) <= room)%nat.
Proof.
  revert c k. induction room as [|room IH]; intros c k; cbn [ranges]; [done|].
  destruct (k <? ackHistory); [|cbn; lia].
  destruct (gap scanFuel r 0 c k) as [[g c1] k1]. destruct (g =? 0); [cbn; lia|].
  destruct (run scanFuel r 0 c1 k1) as [[n c2] k2]. destruct (n =? 0); [cbn; lia|].
  cbn [length]. specialize (IH c2 k2). lia.
Qed.

Section Building.
Context (r : recvTracker) (S : gset Z) (T : tracks r S) (NE : S <> ∅).

Lemma scan_bounds p c k : scan_at r p c k -> -1 <= p /\ 0 <= k <= 512 /\
  (k = 512 -> p = -1 \/ p = largest r - 512) /\ (k < 512 -> p = largest r - k /\ 0 <= p).
Proof using Type. intros [(-> & ? & ? & ?) | (-> & ? & ?)]; lia. Qed.

Lemma ranges_spec room : forall p c k, scan_at r p c k -> p < 2 ^ 32 -> (k < 512 -> p ∉ S) ->
  exists low, covers S p (ranges room r c k) low /\ stops r S room (ranges room r c k) low.
Proof using T NE.
  induction room as [|room IH]; intros p c k Hat Hp Hk; cbn [ranges].
  { exists p. destruct (scan_bounds p c k Hat) as (? & ? & Hend & _). split; [apply covers_nil; lia|].
    destruct (decide (k < 512)); [right; right; left; auto | destruct Hend; [lia | by left | by right; left]]. }
  destruct (scan_bounds p c k Hat) as (Hp1 & Hk1 & Hend & Hmid).
  destruct (Z.ltb_spec k ackHistory) as [H|H]; change ackHistory with 512 in H.
  2: { exists p. split; [apply covers_nil; lia|]. destruct Hend; [lia | left | right; left]; done. }
  destruct (gap_spec r S T NE scanFuel 0 p c k Hat) as (p1 & c1 & k1 & -> & Hat1 & Hle1 & Hg & Hk1' & Hgap & Hstop1);
    [unfold scanFuel; lia | lia |].
  destruct (scan_bounds p1 c1 k1 Hat1) as (Hp1' & Hk1'' & Hend1 & Hmid1).
  destruct (Z.eqb_spec (0 + (p - p1)) 0) as [Hz|Hz].
  { assert (p1 = p) as -> by lia. exfalso. destruct Hstop1 as [->|[_ [?|?]]]; [lia | lia |].
    by apply Hk. }
  destruct (run_spec r S T NE scanFuel 0 p1 c1 k1 Hat1) as (p2 & c2 & k2 & -> & Hat2 & Hle2 & Hr & Hrun & Hstop2);
    [unfold scanFuel; lia | lia | lia |].
  destruct (scan_bounds p2 c2 k2 Hat2) as (Hp2 & Hk2 & Hend2 & Hmid2).
  destruct (Z.eqb_spec (0 + (p1 - p2)) 0) as [Hz2|Hz2].
  { assert (p2 = p1) as -> by lia. exists p1. split; [by apply covers_nil; [lia|]|].
    destruct Hstop2 as [->|[? Hnin]]; [destruct Hend2; [lia | left | right; left]; done|].
    destruct Hstop1 as [->|[_ [?|?]]]; [destruct Hend1; [lia | left | right; left]; done | | done].
    right; right; right. intros s Hs. apply Hgap. lia. }
  destruct (IH p2 c2 k2 Hat2) as (low & Hc & Hs);
    [lia | intros ?; destruct Hstop2 as [?|[_ ?]]; [lia | done] |].
  exists low. split.
  - rewrite !Z.add_0_l. apply covers_cons; try done; lia.
  - unfold stops in *. cbn [length]. destruct Hs as [?|[?|[[-> ?]|?]]]; tauto.
Qed.

(** The frame of a tracker that has recorded something. *)
Lemma frame_spec d : let f := frame r d in
  LargestAcked f = largest r /\ AckDelay f = d /\ (length (AckRanges f) <= 5)%nat /\
  1 <= FirstAckRangeLength f <= 512 /\
  Forall (fun g => 1 <= Gap g <= 255 /\ 1 <= AckRangeLength g <= 512) (AckRanges f) /\
  exists low, -1 <= low < largest r /\
    (forall s, s ∈ ack_sequences f <-> s ∈ S /\ low < s) /\ stops r S 5 (AckRanges f) low /\
    runs S low (largest r) = Datatypes.S (length (AckRanges f)).
Proof using T NE.
  cbv zeta. unfold frame. rewrite (tracks_any r S T), bool_decide_eq_true_2 by done. cbn [negb].
  destruct (tracks_largest r S T NE) as [Hin Hmax].
  pose proof (largest_u32 r S T NE) as Hu.
  assert (Hat : scan_at r (largest r) (largest r) 0) by (left; width).
  destruct (run_spec r S T NE scanFuel 0 _ _ _ Hat) as (p & c & k & -> & Hat' & Hle & Hr & Hrun & Hstop);
    [unfold scanFuel; lia | lia | lia |].
  destruct (scan_bounds p c k Hat') as (Hp & Hk & Hend & Hmid).
  assert (Hlt : p < largest r).
  { destruct (decide (p = largest r)) as [->|]; [|lia]. destruct Hstop as [->|[_ ?]]; [|done].
    width. }
  destruct (ranges_spec 5 p c k Hat') as (low & [Hl He Ho Hn] & Hs); [width | |].
  { intros ?. destruct Hstop as [?|[_ ?]]; [lia | done]. }
  cbn [LargestAcked AckDelay FirstAckRangeLength AckRanges]. rewrite Z.add_0_l.
  split_and!; try done; try lia; [apply ranges_length|].
  assert (Htop : largest r + 1 ∉ S) by (intros Ht%Hmax; lia).
  exists low. split_and!; [lia | lia | | done |].
  2: { rewrite (runs_split S low p (largest r)), Hn, (runs_one S p) by (done || lia || (apply Hrun; lia)). lia. }
  intros s. unfold ack_sequences. cbn [LargestAcked FirstAckRangeLength AckRanges].
  rewrite (i64_small (largest r - _)) by width.
  replace (largest r - (largest r - p)) with p by lia.
  rewrite elem_of_app, down_elem, He by width. split.
  - intros [?|[? ?]]; [split; [apply Hrun; lia | lia] | split; [done | lia]].
  - intros [Hs1 Hs2]. pose proof (Hmax s Hs1). destruct (decide (p < s)); [left; lia | right].
    split; [done | lia].
Qed.

End Building.

(** Recording a history of arrivals, oldest first. *)
Definition record_all (arrivals : list Z) : recvTracker :=
  fold_left (fun r seq => (add r seq).1) arrivals newTracker.

Lemma record_all_tracks arrivals : Forall is_u32 arrivals ->
  tracks (record_all arrivals) (list_to_set arrivals).
Proof.
  unfold record_all. induction arrivals as [|s l IH] using rev_ind; intros Hl.
  { apply newTracker_tracks. }
  apply Forall_app in Hl as [Hl Hs]. rewrite Forall_singleton in Hs.
  rewrite fold_left_app. cbn [fold_left].
  replace (list_to_set (l ++ [s]) : gset Z) with ({[s]} ∪ (list_to_set l : gset Z)) by set_solver.
  apply (add_spec _ _ (IH Hl) s Hs).
Qed.

Lemma list_to_set_nonempty (l : list Z) : (list_to_set l : gset Z) <> ∅ <-> l <> [].
Proof. destruct l; set_solver. Qed.

Lemma frame_fits r S d : tracks r S -> S <> ∅ -> is_u16 d -> Frame_ok (AckF (frame r d)).
Proof.
  intros HT Hs Hd. destruct (frame_spec _ _ HT Hs d) as (HL & HD & Hlen & Hfirst & Hrs & _).
  cbn [Frame_ok]. rewrite HL, HD. split_and!; [by apply (largest_u32 _ _ HT Hs) | done | width | | lia].
  eapply Forall_impl; [exact Hrs|]. intros g Hg. split; width.
Qed.

(** ** Properties *)

(** C35. After any history of arrivals, the tracker remembers exactly which of
    the last ackHistory sequence numbers have arrived, and each arrival is
    reported out of order exactly when it leaves a hole behind it, fills one,
    or is older than the history. *)
Theorem tracker_refines_set (arrivals : list Z) (seq s : Z) :
  Forall is_u32 arrivals -> is_u32 seq -> is_u32 s ->
  let r := record_all arrivals in
  has r s = bool_decide (s ∈ arrivals /\ largest r - ackHistory < s) /\
  (add r seq).2 = bool_decide (arrivals <> [] /\ (largest r + 1 < seq \/
     (seq < largest r /\ (seq ∉ arrivals \/ seq <= largest r - ackHistory)))).
Proof.
  intros Ha Hq Hs. cbv zeta. pose proof (record_all_tracks _ Ha) as HT. split.
  - rewrite (has_spec _ _ HT) by done. apply bool_decide_ext.
    by rewrite elem_of_list_to_set.
  - rewrite (proj2 (add_spec _ _ HT seq Hq)). unfold out_of_order. apply bool_decide_ext.
    rewrite elem_of_list_to_set. change ackHistory with 512.
    by rewrite list_to_set_nonempty.
Qed.

(** The ACK frame is truthful and as complete as its format allows: the
    sequence numbers the sender's decoding reads from it are exactly the
    arrivals above some [low], and [low] is below sequence 0 or the end of the
    history unless the frame already has five ranges or 255 missing sequences
    follow. The frame fits its wire format. *)
Theorem ack_frame_exact (arrivals : list Z) (d : Z) :
  arrivals <> [] -> Forall is_u32 arrivals -> is_u16 d ->
  let r := record_all arrivals in
  let f := frame r d in
  Frame_ok (AckF f) /\ LargestAcked f = largest r /\
  exists low, -1 <= low < largest r /\
    (forall s, s ∈ ack_sequences f <-> s ∈ arrivals /\ low < s) /\
    (low = -1 \/ low = largest r - ackHistory \/ length (AckRanges f) = 5%nat \/
     forall s, low < s <= low + 255 -> s ∉ arrivals).
Proof.
  intros Hne Ha Hd. cbv zeta. pose proof (record_all_tracks _ Ha) as HT.
  assert (Hs : (list_to_set arrivals : gset Z) <> ∅) by by apply list_to_set_nonempty.
  destruct (frame_spec _ _ HT Hs d) as (HL & HD & Hlen & Hfirst & Hrs & low & Hl & He & Hst & _).
  split_and!; [|done|].
  - by eapply frame_fits.
  - exists low. split_and!; [lia | lia | |].
    + intros s. by rewrite He, elem_of_list_to_set.
    + destruct Hst as [?|[?|[[? _]|Hst]]]; auto. right; right; right. intros s Hs'%Hst.
      by rewrite elem_of_list_to_set in Hs'.
Qed.


(** ** Witnesses *)

Definition sample_arrivals : list Z := [0; 3; 1; 5].

Lemma tracker_refines_set_witness :
  has (record_all sample_arrivals) 3 = true /\ (add (record_all sample_arrivals) 2).2 = true.
Proof.
  destruct (tracker_refines_set sample_arrivals 2 3) as [H1 H2];
    [repeat constructor; by vm_compute | by vm_compute | by vm_compute |].
  rewrite H1, H2. split; by vm_compute.
Defined.

Lemma ack_frame_exact_witness :
  frame (record_all sample_arrivals) 7
    = MkAckFrame 5 7 1 [MkAckRange 1 1; MkAckRange 1 2] /\
  Frame_ok (AckF (frame (record_all sample_arrivals) 7)).
Proof.
  split; [by vm_compute|].
  apply (ack_frame_exact sample_arrivals 7); [done | repeat constructor; by vm_compute | by vm_compute].
Defined.

