(* ===== verification/Stream.v ===== *)
(** * Streams (src/stream.go)

    The state of a [Stream], its receive side (reassembly on byte offsets,
    FIN, reset) and its blocking [Read] and [Write] as the sections they run
    under the stream's lock. What a stream asks of its connection, the
    interface [streamConn], is the list of calls an operation returns. The
    fields sendBuf and sendSeq, which no code reads, are left out. *)

From S2P Require Import Prelude Constants FlowControl.

Inductive StreamState :=
  | StreamStateIdle
  | StreamStateOpen
  | StreamStateHalfClosedLocal
  | StreamStateHalfClosedRemote
  | StreamStateClosed
  | StreamStateReset.

#[global] Instance StreamState_eq_dec : EqDecision StreamState.
Proof. solve_decision. Defined.

Inductive stream_error := EOF | ErrStreamReset | ErrWriteAfterClose | ErrDeadlineExceeded.

(** Calls a stream makes on its connection. *)
Inductive conn_call :=
  | SendStreamFrame (streamID remoteID offset : Z) (data : list byte) (isFin isSyn : bool)
  | SendStreamFrames (streamID remoteID offset : Z) (data : list byte) (chunkSize : Z) (isSyn : bool)
  | SendResetStream (streamID remoteID errorCode : Z)
  | SendWindowUpdate (streamID remoteID maxStreamData : Z)
  | SendStreamDataBlocked (streamID remoteID limit : Z).

(** The receive buffers. *)
Record Recv := MkRecv {
  recvBuf : list byte;
  recvOOO : gmap Z (list byte);
  recvOffset : Z;
  oooBytes : Z;
  flowControlViolation : bool
}.

Record Stream := MkStream {
  ID : Z;
  RemoteID : Z;
  state : StreamState;
  resetCode : Z;
  writeDeadline : Z;
  recv : Recv;
  readDeadline : Z;
  finReceived : bool;
  finSeen : bool;
  finalSize : Z;
  streamFC : option StreamFlowController;
  conn : bool;                 (* whether a connection is attached *)
  BytesRead : Z;
  BytesWritten : Z
}.

Definition NewStream (id remoteID : Z) (fc : option StreamFlowController) : Stream :=
  MkStream id remoteID StreamStateIdle 0 0 (MkRecv [] ∅ 0 0 false) 0 false false 0 fc false 0 0.

(** Field updates. *)
Definition with_state (s : Stream) (st : StreamState) : Stream :=
  MkStream (ID s) (RemoteID s) st (resetCode s) (writeDeadline s) (recv s) (readDeadline s)
    (finReceived s) (finSeen s) (finalSize s) (streamFC s) (conn s) (BytesRead s) (BytesWritten s).

Definition with_recv (s : Stream) (r : Recv) : Stream :=
  MkStream (ID s) (RemoteID s) (state s) (resetCode s) (writeDeadline s) r (readDeadline s)
    (finReceived s) (finSeen s) (finalSize s) (streamFC s) (conn s) (BytesRead s) (BytesWritten s).

Definition with_fc (s : Stream) (fc : option StreamFlowController) : Stream :=
  MkStream (ID s) (RemoteID s) (state s) (resetCode s) (writeDeadline s) (recv s) (readDeadline s)
    (finReceived s) (finSeen s) (finalSize s) fc (conn s) (BytesRead s) (BytesWritten s).

(** ** Reassembly *)

(** The release loop of [placeLocked]; every round removes an entry. *)
Fixpoint release (fuel : nat) (r : Recv) : Recv :=
  match fuel with
  | O => r
  | S fuel =>
      match recvOOO r !! recvOffset r with
      | None => r
      | Some chunk =>
          release fuel (MkRecv (recvBuf r ++ chunk) (delete (recvOffset r) (recvOOO r))
            (u64 (recvOffset r + Z.of_nat (length chunk)))
            (oooBytes r -i Z.of_nat (length chunk)) (flowControlViolation r))
      end
  end.

Definition placeLocked (r : Recv) (offset : Z) (data : list byte) : Recv * Z :=
  let end_ := u64 (offset + Z.of_nat (length data)) in
  if end_ <=? recvOffset r then (r, 0)
  else
    let '(data, offset) :=
      if offset <? recvOffset r
      then (drop (Z.to_nat (recvOffset r - offset)) data, recvOffset r)
      else (data, offset) in
    if recvOffset r <? offset then
      match recvOOO r !! offset with
      | Some _ => (r, 0)
      | None =>
          if maxStreamRecvOOO <? oooBytes r +i Z.of_nat (length data)
          then (MkRecv (recvBuf r) (recvOOO r) (recvOffset r) (oooBytes r) true, 0)
          else (MkRecv (recvBuf r) (<[offset := data]> (recvOOO r)) (recvOffset r)
                  (oooBytes r +i Z.of_nat (length data)) (flowControlViolation r),
                Z.of_nat (length data))
      end
    else
      let r1 := MkRecv (recvBuf r ++ data) (recvOOO r) end_ (oooBytes r) (flowControlViolation r) in
      (release (size (recvOOO r)) r1, Z.of_nat (length data)).

(** ** State changes *)

Definition finishLocked (s : Stream) : Stream :=
  if negb (finSeen s) || finReceived s || (recvOffset (recv s) <? finalSize s) then s
  else
    let st := if decide (state s = StreamStateHalfClosedLocal)
              then StreamStateClosed else StreamStateHalfClosedRemote in
    MkStream (ID s) (RemoteID s) st (resetCode s) (writeDeadline s) (recv s) (readDeadline s)
      true (finSeen s) (finalSize s) (streamFC s) (conn s) (BytesRead s) (BytesWritten s).

Definition Reset (s : Stream) (errorCode : Z) : Stream * list conn_call :=
  if decide (state s = StreamStateClosed \/ state s = StreamStateReset) then (s, [])
  else
    (MkStream (ID s) (RemoteID s) StreamStateReset errorCode (writeDeadline s) (recv s)
       (readDeadline s) (finReceived s) (finSeen s) (finalSize s) (streamFC s) (conn s)
       (BytesRead s) (BytesWritten s),
     if conn s then [SendResetStream (ID s) (RemoteID s) errorCode] else []).

Definition DeliverData (s : Stream) (offset : Z) (data : list byte) : Stream * list conn_call :=
  let '(r, accepted) := placeLocked (recv s) offset data in
  let s := with_recv s r in
  if flowControlViolation r then Reset s ErrorFlowControlError
  else if 0 <? accepted then
    (finishLocked (with_fc s ((fun fc => OnDataReceived fc accepted) <$> streamFC s)), [])
  else (s, []).

Definition DeliverFin (s : Stream) (size : Z) : Stream :=
  finishLocked
    (MkStream (ID s) (RemoteID s) (state s) (resetCode s) (writeDeadline s) (recv s)
       (readDeadline s) (finReceived s) true size (streamFC s) (conn s)
       (BytesRead s) (BytesWritten s)).

Definition DeliverReset (s : Stream) (errorCode : Z) : Stream :=
  MkStream (ID s) (RemoteID s) StreamStateReset errorCode (writeDeadline s) (recv s)
    (readDeadline s) (finReceived s) (finSeen s) (finalSize s) (streamFC s) (conn s)
    (BytesRead s) (BytesWritten s).

Definition OnWindowUpdate (s : Stream) (wire : Z) : Stream :=
  with_fc s ((fun fc => (ApplyWindowUpdate fc wire).1) <$> streamFC s).

Definition Close (s : Stream) : Stream * list conn_call :=
  if decide (state s = StreamStateClosed \/ state s = StreamStateReset) then (s, [])
  else
    let st := if decide (state s = StreamStateHalfClosedRemote)
              then StreamStateClosed else StreamStateHalfClosedLocal in
    let fin := u64 (BytesWritten s) in
    (with_state s st,
     if conn s then [SendStreamFrame (ID s) (RemoteID s) fin [] true false] else []).

Definition CloseWrite (s : Stream) : Stream * list conn_call := Close s.

Definition SetReadDeadline (s : Stream) (t : Z) : Stream :=
  MkStream (ID s) (RemoteID s) (state s) (resetCode s) (writeDeadline s) (recv s) t
    (finReceived s) (finSeen s) (finalSize s) (streamFC s) (conn s) (BytesRead s) (BytesWritten s).

Definition SetWriteDeadline (s : Stream) (t : Z) : Stream :=
  MkStream (ID s) (RemoteID s) (state s) (resetCode s) t (recv s) (readDeadline s)
    (finReceived s) (finSeen s) (finalSize s) (streamFC s) (conn s) (BytesRead s) (BytesWritten s).

Definition StreamBufferedBytes (s : Stream) : Z :=
  match streamFC s with None => 0 | Some fc => BufferedBytes fc end.
Definition StreamRecvWindow (s : Stream) : Z :=
  match streamFC s with None => 0 | Some fc => RecvWindow fc end.
Definition State (s : Stream) : StreamState := state s.

(** ** Read

    One pass over the wait loop: [RWait] is the call to [waitWithDeadline],
    after which the same pass runs again. [now] is [time.Now()], [n] the size
    of the caller's buffer. *)

Inductive read_result :=
  | RBytes (data : list byte)
  | RError (e : stream_error)
  | RWait.

Definition expired (now deadline : Z) : bool := negb (deadline =? 0) && negb (now <? deadline).

Definition Read (now : Z) (s : Stream) (n : nat) : Stream * read_result * list conn_call :=
  if decide (recvBuf (recv s) = []) then
    (s, if decide (state s = StreamStateReset) then RError ErrStreamReset
        else if finReceived s then RError EOF
        else if decide (state s = StreamStateClosed) then RError EOF
        else if expired now (readDeadline s) then RError ErrDeadlineExceeded
        else RWait, [])
  else
    let r := recv s in
    let data := take n (recvBuf r) in
    let k := length data in
    let r' := MkRecv (drop k (recvBuf r)) (recvOOO r) (recvOffset r) (oooBytes r)
                (flowControlViolation r) in
    let s1 := MkStream (ID s) (RemoteID s) (state s) (resetCode s) (writeDeadline s) r'
      (readDeadline s) (finReceived s) (finSeen s) (finalSize s) (streamFC s) (conn s)
      (BytesRead s +i Z.of_nat k) (BytesWritten s) in
    match streamFC s with
    | None => (s1, RBytes data, [])
    | Some fc =>
        let '(fc1, sendUpdate) := OnDataConsumed fc (Z.of_nat k) in
        if sendUpdate && conn s then
          let '(fc2, limit) := AdvertiseLimit fc1 in
          (with_fc s1 (Some fc2), RBytes data, [SendWindowUpdate (ID s) (RemoteID s) limit])
        else (with_fc s1 (Some fc1), RBytes data, [])
    end.

(** ** Write

    A call to [Write] releases the lock to send STREAM_DATA_BLOCKED, to wait
    for flow-control credit, and to wait for congestion and pacing credit;
    other calls run in between. [write_pc] says where a call stands while it
    does not hold the lock; the functions below are the sections under it.
    [maxDatagram] is the connection's [MaxDatagram()]. *)

Definition streamChunkOverhead : Z := 100.

Inductive write_pc :=
  | WLoop (data : list byte) (total : Z)        (* at the top of the loop *)
  | WStalled (data : list byte) (total : Z)     (* sending STREAM_DATA_BLOCKED *)
  | WWaiting (data : list byte) (total : Z)     (* waiting on sendCond *)
  | WAwait (data : list byte) (total want first chunkSize : Z) (isSyn : bool)
                                                (* in awaitSendCreditUpTo *)
  | WDone (total : Z) (err : option stream_error).

Section Write.
Context (maxDatagram : Z).

Definition chunkSizeLocked (s : Stream) : Z :=
  (if conn s then maxDatagram else SafeDatagramSize) - streamChunkOverhead.

Definition has_credit (s : Stream) : bool :=
  match streamFC s with None => true | Some fc => CanSend fc 1 end.

(** The batch is clamped to the credit of the send window. *)
Definition clamp_window (s : Stream) (want : Z) : Z :=
  match streamFC s with
  | None => want
  | Some fc => if SendWindowAvailable fc <? want then SendWindowAvailable fc else want
  end.

(** From the end of the flow-control wait to [awaitSendCreditUpTo]. *)
Definition write_batch (s : Stream) (data : list byte) (total : Z) : write_pc :=
  let chunkSize := chunkSizeLocked s in
  let want := Z.of_nat (length data) in
  let want := if sendBatchMax * chunkSize <? want then sendBatchMax * chunkSize else want in
  let want := clamp_window s want in
  if want =? 0 then WLoop data total else
  let first := if want <? chunkSize then want else chunkSize in
  WAwait data total want first chunkSize (bool_decide (state s = StreamStateIdle)).

(** The top of the loop, also after a wake-up. *)
Definition write_loop (now : Z) (s : Stream) (data : list byte) (total : Z)
    : write_pc * list conn_call :=
  if decide (data = []) then (WDone total None, [])
  else if has_credit s then (write_batch s data total, [])
  else if decide (state s = StreamStateReset) then (WDone total (Some ErrStreamReset), [])
  else if decide (state s = StreamStateHalfClosedLocal \/ state s = StreamStateClosed)
    then (WDone total (Some ErrWriteAfterClose), [])
  else if expired now (writeDeadline s) then (WDone total (Some ErrDeadlineExceeded), [])
  else
    let limit := match streamFC s with None => 0 | Some fc => SendLimit fc end in
    (WStalled data total,
     if conn s then [SendStreamDataBlocked (ID s) (RemoteID s) limit] else []).

Definition write_start (now : Z) (s : Stream) (p : list byte) : write_pc * list conn_call :=
  if decide (state s = StreamStateReset) then (WDone 0 (Some ErrStreamReset), [])
  else if decide (state s = StreamStateHalfClosedLocal \/ state s = StreamStateClosed)
    then (WDone 0 (Some ErrWriteAfterClose), [])
  else write_loop now s p 0.

(** Back under the lock after STREAM_DATA_BLOCKED: on, or wait. *)
Definition write_stalled (s : Stream) (data : list byte) (total : Z) : write_pc :=
  if has_credit s then write_batch s data total else WWaiting data total.

(** Back under the lock with the answer of [awaitSendCreditUpTo]. The frames
    go out after the lock is released again, the loop continues under it. *)
Definition write_commit (s : Stream) (data : list byte) (total chunkSize : Z) (isSyn : bool)
    (granted : option Z) : Stream * write_pc * list conn_call :=
  match granted with
  | None =>
      (s, WDone total (Some (if decide (state s = StreamStateReset)
         then ErrStreamReset else ErrDeadlineExceeded)), [])
  | Some granted =>
      if decide (state s = StreamStateReset)
      then (s, WDone total (Some ErrStreamReset), [])
      else
        let granted := clamp_window s granted in
        if granted =? 0 then (s, WLoop data total, [])
        else
          let granted :=
            if (granted <? Z.of_nat (length data)) && (chunkSize <? granted)
            then granted - Z.rem granted chunkSize else granted in
          let syn := isSyn && bool_decide (state s = StreamStateIdle) in
          let st := if syn then StreamStateOpen else state s in
          let offset := u64 (BytesWritten s) in
          let s' := MkStream (ID s) (RemoteID s) st (resetCode s) (writeDeadline s) (recv s)
            (readDeadline s) (finReceived s) (finSeen s) (finalSize s)
            ((fun fc => OnDataSent fc granted) <$> streamFC s) (conn s)
            (BytesRead s) (BytesWritten s +i granted) in
          let k := Z.to_nat granted in
          (s', WLoop (drop k data) (total + granted),
           if conn s then [SendStreamFrames (ID s) (RemoteID s) offset (take k data) chunkSize syn]
           else [])
  end.
End Write.

(** ** Reassembly against the peer's byte stream

    [src] is what the peer writes on the stream. A chunk agrees with it when it
    is the bytes of [src] at its offset. *)

Definition chunk_of (src : list byte) (o : Z) (data : list byte) : Prop :=
  0 <= o /\ o + Z.of_nat (length data) <= Z.of_nat (length src) /\
  data = take (length data) (drop (Z.to_nat o) src).

(** What the out-of-order buffer holds, in bytes. *)
Definition held (m : gmap Z (list byte)) : Z := map_fold (fun _ c n => Z.of_nat (length c) + n) 0 m.

Lemma held_insert m o c : m !! o = None -> held (<[o := c]> m) = Z.of_nat (length c) + held m.
Proof.
  intros H. unfold held. rewrite map_fold_insert_L; [done | | done]. intros. lia.
Qed.

Lemma held_delete m o c : m !! o = Some c -> held m = Z.of_nat (length c) + held (delete o m).
Proof.
  intros H. unfold held. rewrite (map_fold_delete_L _ _ o c m); [done | | done]. intros. lia.
Qed.

Lemma held_nonneg m : 0 <= held m.
Proof.
  induction m as [|o c m Hm IH] using map_ind; [done|]. rewrite held_insert by done. lia.
Qed.

Lemma chunk_of_drop src o data k : chunk_of src o data -> (k <= length data)%nat ->
  chunk_of src (o + Z.of_nat k) (drop k data).
Proof.
  intros (Ho & Hl & E) Hk. unfold chunk_of. rewrite length_drop. split_and!; [lia | lia |].
  replace (Z.to_nat (o + Z.of_nat k)) with (Z.to_nat o + k)%nat by lia.
  rewrite <- drop_drop, take_drop_commute.
  replace (k + (length data - k))%nat with (length data) by lia. by rewrite <- E.
Qed.

Lemma placeLocked_ahead r offset data : is_u64 (offset + Z.of_nat (length data)) ->
  recvOffset r < offset ->
  placeLocked r offset data =
    match recvOOO r !! offset with
    | Some _ => (r, 0)
    | None =>
        if maxStreamRecvOOO <? oooBytes r +i Z.of_nat (length data)
        then (MkRecv (recvBuf r) (recvOOO r) (recvOffset r) (oooBytes r) true, 0)
        else (MkRecv (recvBuf r) (<[offset := data]> (recvOOO r)) (recvOffset r)
                (oooBytes r +i Z.of_nat (length data)) (flowControlViolation r),
              Z.of_nat (length data))
    end.
Proof.
  intros Hu Hlt. unfold placeLocked. rewrite u64_small by done.
  destruct (Z.leb_spec (offset + Z.of_nat (length data)) (recvOffset r)); [lia|].
  rewrite (proj2 (Z.ltb_ge offset (recvOffset r))) by lia. by rewrite (proj2 (Z.ltb_lt _ _) Hlt).
Qed.

Lemma placeLocked_old r offset data : is_u64 (offset + Z.of_nat (length data)) ->
  offset + Z.of_nat (length data) <= recvOffset r -> placeLocked r offset data = (r, 0).
Proof.
  intros Hu Hle. unfold placeLocked. rewrite u64_small by done. by rewrite (proj2 (Z.leb_le _ _) Hle).
Qed.

Section Reassembly.
Context (src : list byte) (Hsrc : Z.of_nat (length src) < 2 ^ 62).

(** [seen] has been read; with the buffer it is the stream's prefix up to
    [recvOffset]. What is held agrees with the stream and is counted. *)
Record recv_ok (seen : list byte) (r : Recv) : Prop := {
  ro_offset : 0 <= recvOffset r <= Z.of_nat (length src);
  ro_prefix : seen ++ recvBuf r = take (Z.to_nat (recvOffset r)) src;
  ro_held : forall o c, recvOOO r !! o = Some c -> chunk_of src o c;
  ro_bytes : oooBytes r = held (recvOOO r);
  ro_cap : oooBytes r <= maxStreamRecvOOO
}.

(** Appending the chunk that starts at [recvOffset]. *)
Lemma append_chunk seen r c : recv_ok seen r -> chunk_of src (recvOffset r) c ->
  seen ++ recvBuf r ++ c = take (Z.to_nat (recvOffset r + Z.of_nat (length c))) src.
Proof using Type.
  intros [Ho Hp _ _ _] (_ & Hl & E). rewrite app_assoc, Hp, E at 1.
  rewrite take_take_drop. f_equal. lia.
Qed.

Lemma release_ok fuel : forall seen r, recv_ok seen r -> recv_ok seen (release fuel r).
Proof using Hsrc.
  induction fuel as [|fuel IH]; intros seen r Hr; cbn [release]; [done|].
  destruct (recvOOO r !! recvOffset r) as [c|] eqn:E; [|done].
  pose proof Hr as [Ho Hp Hh Hb Hc]. pose proof (Hh _ _ E) as Hchunk.
  pose proof (append_chunk _ _ _ Hr Hchunk) as Happ. destruct Hchunk as (_ & Hl & _).
  pose proof (held_delete _ _ _ E) as Hd. pose proof (held_nonneg (delete (recvOffset r) (recvOOO r))).
  apply IH. assert (maxStreamRecvOOO = 8388608) as Hm by reflexivity. rewrite Hm in *.
  split; cbn; nowrap; [lia | done | | lia | lia].
  intros o d [_ Hod]%lookup_delete_Some. by apply Hh.
Qed.

Lemma trim_ok r offset data : 0 <= recvOffset r -> chunk_of src offset data -> offset < recvOffset r ->
  recvOffset r < offset + Z.of_nat (length data) ->
  chunk_of src (recvOffset r) (drop (Z.to_nat (recvOffset r - offset)) data).
Proof using Type.
  intros H0 Hc Hlt Hend. pose proof (chunk_of_drop src offset data (Z.to_nat (recvOffset r - offset)) Hc).
  replace (offset + Z.of_nat (Z.to_nat (recvOffset r - offset))) with (recvOffset r) in * by lia.
  apply H. lia.
Qed.

(** The chunk that starts at [recvOffset] is appended and what waited on it
    released. *)
Lemma place_now seen r c : recv_ok seen r -> chunk_of src (recvOffset r) c ->
  recv_ok seen (MkRecv (recvBuf r ++ c) (recvOOO r) (recvOffset r + Z.of_nat (length c))
    (oooBytes r) (flowControlViolation r)).
Proof using Type.
  intros Hr Hc. pose proof (append_chunk _ _ _ Hr Hc). destruct Hr, Hc as (_ & ? & _).
  split; cbn; try done. lia.
Qed.

Lemma placeLocked_now seen r offset data (end_ := offset + Z.of_nat (length data))
    (r1 := MkRecv (recvBuf r ++ drop (Z.to_nat (recvOffset r - offset)) data) (recvOOO r) end_
             (oooBytes r) (flowControlViolation r)) :
  recv_ok seen r -> chunk_of src offset data -> offset <= recvOffset r < end_ ->
  recv_ok seen r1 /\
  placeLocked r offset data = (release (size (recvOOO r)) r1, end_ - recvOffset r).
Proof using Hsrc.
  intros Hr Hc [Hle Hlt]. pose proof Hc as (H0 & Hl & _). pose proof (ro_offset _ _ Hr) as Ho.
  assert (Hd : chunk_of src (recvOffset r) (drop (Z.to_nat (recvOffset r - offset)) data)).
  { destruct (decide (offset = recvOffset r)) as [->|]; [by rewrite Z.sub_diag|].
    apply trim_ok; [lia | done | lia | done]. }
  assert (He : recvOffset r + Z.of_nat (length (drop (Z.to_nat (recvOffset r - offset)) data)) = end_)
    by (rewrite length_drop; unfold end_ in *; lia).
  split; [unfold r1; rewrite <- He; by apply place_now|].
  unfold placeLocked. rewrite u64_small by width. fold end_.
  rewrite (proj2 (Z.leb_gt _ _) Hlt).
  destruct (Z.ltb_spec offset (recvOffset r)) as [Hlt'|Hge].
  - rewrite Z.ltb_irrefl. f_equal. lia.
  - assert (offset = recvOffset r) as E by lia. rewrite E, Z.ltb_irrefl.
    unfold r1 in *. rewrite E, Z.sub_diag in *. cbn [Z.to_nat drop] in *. f_equal. lia.
Qed.

Lemma placeLocked_ok seen r offset data : recv_ok seen r -> chunk_of src offset data ->
  recv_ok seen (placeLocked r offset data).1.
Proof using Hsrc.
  intros Hr Hc. pose proof Hr as [Ho Hp Hh Hb Hcap]. pose proof Hc as (H0 & Hl & _).
  destruct (Z.leb_spec (offset + Z.of_nat (length data)) (recvOffset r)) as [Hold|Hnew].
  { rewrite placeLocked_old; [done | width | done]. }
  destruct (Z.ltb_spec (recvOffset r) offset) as [Hahead|Hat].
  - rewrite placeLocked_ahead by width. destruct (recvOOO r !! offset) as [d|] eqn:E; [done|].
    assert (maxStreamRecvOOO = 8388608) as Hm by reflexivity. rewrite Hm in *.
    pose proof (held_nonneg (recvOOO r)). nowrap.
    destruct (Z.ltb_spec 8388608 (oooBytes r + Z.of_nat (length data))) as [Hv|Hv]; cbn [fst].
    + split; try done; cbn; by rewrite Hm.
    + split; cbn; rewrite ?held_insert, ?Hm by done; try done; try lia.
      intros o c. rewrite lookup_insert_Some. intros [[<- <-]|[_ ?]]; [done | by apply Hh].
  - destruct (placeLocked_now seen r offset data) as [Hr1 ->]; try done.
    by apply release_ok.
Qed.

Lemma release_mono fuel : forall seen r, recv_ok seen r -> recvOffset r <= recvOffset (release fuel r).
Proof using Hsrc.
  induction fuel as [|fuel IH]; intros seen r Hr; cbn [release]; [lia|].
  destruct (recvOOO r !! recvOffset r) as [c|] eqn:E; [|lia].
  pose proof (release_ok 1 _ _ Hr) as Hr1. cbn [release] in Hr1. rewrite E in Hr1.
  etrans; [|by apply (IH seen)]. cbn [recvOffset]. destruct (ro_held _ _ Hr _ _ E) as (? & ? & _). nowrap. lia.
Qed.

Lemma placeLocked_mono seen r offset data : recv_ok seen r -> chunk_of src offset data ->
  recvOffset r <= recvOffset (placeLocked r offset data).1.
Proof using Hsrc.
  intros Hr Hc. pose proof Hc as (H0 & Hl & _).
  destruct (Z.leb_spec (offset + Z.of_nat (length data)) (recvOffset r)) as [Hold|Hnew].
  { rewrite placeLocked_old; [done | width | done]. }
  destruct (Z.ltb_spec (recvOffset r) offset) as [Hahead|Hat].
  - rewrite placeLocked_ahead by width. repeat case_match; cbn; lia.
  - destruct (placeLocked_now seen r offset data) as [Hr1 ->]; try done. cbn [fst].
    etrans; [|by apply (release_mono _ seen)]. cbn. lia.
Qed.

End Reassembly.

(** ** Completeness of reassembly *)

Lemma release_stuck fuel : forall r, (size (recvOOO r) <= fuel)%nat ->
  recvOOO (release fuel r) !! recvOffset (release fuel r) = None.
Proof.
  induction fuel as [|fuel IH]; intros r Hf; cbn [release].
  { assert (recvOOO r = ∅) as -> by (apply map_size_empty_inv; lia). apply lookup_empty. }
  destruct (recvOOO r !! recvOffset r) as [c|] eqn:E; [|done].
  apply IH. cbn. rewrite map_size_delete_Some by eauto.
  assert (size (recvOOO r) <> 0%nat); [|lia]. intros Hz%map_size_empty_inv.
  by rewrite Hz, lookup_empty in E.
Qed.

Lemma release_flag fuel : forall r, flowControlViolation (release fuel r) = flowControlViolation r.
Proof.
  induction fuel as [|fuel IH]; intros r; cbn [release]; [done|].
  case_match; [by rewrite IH | done].
Qed.

Definition chunk_end (x : Z * list byte) : Z := x.1 + Z.of_nat (length x.2).

(** Any two chunks are disjoint or nested: what splitting a packet's data into
    smaller packets produces. *)
Definition laminar (all : Z * list byte -> Prop) : Prop :=
  forall x y, all x -> all y ->
    chunk_end x <= y.1 \/ chunk_end y <= x.1 \/
    (x.1 <= y.1 /\ chunk_end y <= chunk_end x) \/ (y.1 <= x.1 /\ chunk_end x <= chunk_end y).

(** No shorter chunk of [all] starts where this one does. *)
Definition shortest (all : Z * list byte -> Prop) (x : Z * list byte) : Prop :=
  forall y, all y -> y.1 = x.1 -> (length x.2 <= length y.2)%nat.

Definition deliver_all (chunks : list (Z * list byte)) (r : Recv) : Recv :=
  fold_left (fun r x => (placeLocked r x.1 x.2).1) chunks r.

(** The violation flag is never cleared. *)
Lemma place_sticky r o d : flowControlViolation (placeLocked r o d).1 = false ->
  flowControlViolation r = false.
Proof.
  unfold placeLocked. repeat case_match; cbn [fst]; try done; by rewrite release_flag.
Qed.

Lemma violation_sticky chunks : forall r, flowControlViolation (deliver_all chunks r) = false ->
  flowControlViolation r = false.
Proof.
  induction chunks as [|x chunks IH]; intros r; cbn; [done|]. intros H%IH. by eapply place_sticky.
Qed.

Section Completeness.
Context (src : list byte) (Hsrc : Z.of_nat (length src) < 2 ^ 62).
Context (all : Z * list byte -> Prop) (Hlam : laminar all).
Context (Hall : forall x, all x -> chunk_of src x.1 x.2).

(** The chunk [x] is not lost: it has been passed over to the reader, or an
    entry at its offset holds at least as much. *)
Definition kept (r : Recv) (x : Z * list byte) : Prop :=
  chunk_end x <= recvOffset r \/
  (recvOffset r <= x.1 /\ exists c, recvOOO r !! x.1 = Some c /\ (length x.2 <= length c)%nat).

Definition from_all (r : Recv) : Prop := forall o c, recvOOO r !! o = Some c -> all (o, c).

(** Moving [recvOffset] to the end of a chunk that starts no later loses
    nothing that is kept. *)
Lemma advance_kept r r' x y : from_all r -> all x -> shortest all y ->
  x.1 <= recvOffset r -> recvOffset r' = chunk_end x ->
  (forall o, recvOffset r < o -> recvOOO r' !! o = recvOOO r !! o) ->
  recvOOO r !! recvOffset r = None \/ x.1 = recvOffset r ->
  kept r y -> recvOffset r <= chunk_end x -> kept r' y.
Proof using Hlam Hsrc.
  intros Hfa Hx Hy Hle Hoff Hrest Heq [Hend|(Hat & c & Hc & Hlen)] Hprog; [left; lia|].
  unfold kept. rewrite Hoff. destruct (decide (y.1 = recvOffset r)) as [E|E].
  - left. rewrite E in Hc. destruct Heq as [?|Heq]; [congruence|].
    specialize (Hy x Hx ltac:(lia)). unfold chunk_end in *. lia.
  - destruct (decide (chunk_end x <= y.1)) as [Hp|Hp].
    + right. split; [done|]. exists c. rewrite Hrest by lia. done.
    + left. pose proof (Hlam x (y.1, c) Hx (Hfa _ _ Hc)) as Hn. unfold chunk_end in *. cbn in Hn. lia.
Qed.

Lemma release_kept fuel : forall seen r, recv_ok src seen r -> from_all r ->
  from_all (release fuel r) /\
  forall y, shortest all y -> kept r y -> kept (release fuel r) y.
Proof using Hlam Hsrc.
  induction fuel as [|fuel IH]; intros seen r Hr Hfa; cbn [release]; [done|].
  destruct (recvOOO r !! recvOffset r) as [c|] eqn:E; [|done].
  pose proof (release_ok src Hsrc 1 seen r Hr) as Hr'. cbn [release] in Hr'. rewrite E in Hr'.
  set (r' := MkRecv _ _ _ _ _) in *.
  destruct (IH seen r' Hr') as [IH1 IH2].
  { intros o d Hod. cbn in Hod. apply lookup_delete_Some in Hod as [_ Hod]. by apply Hfa. }
  split; [done|]. intros y Hy Hk. apply IH2; [done|].
  pose proof (ro_held _ _ _ Hr _ _ E) as (H0 & Hl & _).
  apply (advance_kept r r' (recvOffset r, c)); try done; cbn; unfold chunk_end; cbn; try lia.
  - by apply Hfa.
  - nowrap. lia.
  - intros o Ho. apply lookup_delete_ne. lia.
Qed.

Lemma placeLocked_kept seen r x : recv_ok src seen r -> from_all r -> all x ->
  recvOOO r !! recvOffset r = None -> let r' := (placeLocked r x.1 x.2).1 in
  flowControlViolation r' = false ->
  flowControlViolation r = false /\ from_all r' /\ recvOOO r' !! recvOffset r' = None /\
  (shortest all x -> kept r' x) /\ forall y, shortest all y -> kept r y -> kept r' y.
Proof using Hlam Hsrc Hall.
  intros Hr Hfa Hx Hnone. cbv zeta. pose proof (Hall _ Hx) as Hc.
  pose proof Hc as (H0 & Hl & _). pose proof (ro_offset _ _ _ Hr) as Ho.
  destruct (Z.leb_spec (chunk_end x) (recvOffset r)) as [Hold|Hnew].
  { rewrite placeLocked_old by (done || width). intros Hv. split_and!; try done. intros _. by left. }
  destruct (Z.ltb_spec (recvOffset r) x.1) as [Hahead|Hat].
  - rewrite placeLocked_ahead by width. destruct (recvOOO r !! x.1) as [d|] eqn:E; cbn [fst].
    { intros Hv. split_and!; try done. intros Hs. right. split; [lia|]. exists d. split; [done|].
      apply (Hs (x.1, d)); [by apply Hfa | done]. }
    destruct (maxStreamRecvOOO <? _); cbn [fst]; [done|]. intros Hv. split_and!; try done.
    + intros o c. cbn. rewrite lookup_insert_Some. intros [[<- <-]|[_ ?]]; [|by apply Hfa].
      by destruct x.
    + cbn. by rewrite lookup_insert_ne by lia.
    + intros _. right. split; [cbn; lia|]. exists x.2. cbn. by rewrite lookup_insert_eq.
    + intros y Hy [?|(? & c & Hc' & ?)]; [by left|]. right. split; [done|]. exists c. cbn.
      by rewrite lookup_insert_ne by congruence.
  - destruct (placeLocked_now src Hsrc seen r x.1 x.2) as [Hr1 ->]; try done.
    fold (chunk_end x) in *. cbn [fst]. rewrite release_flag. cbn [flowControlViolation]. intros Hv.
    destruct (release_kept (size (recvOOO r)) seen _ Hr1 Hfa) as [Hf Hk].
    split_and!; [done | done | by apply release_stuck | |].
    + intros Hs. apply Hk; [done|]. left. cbn. lia.
    + intros y Hy Hky. apply Hk; [done|].
      apply (advance_kept r _ x); try done; [by left | lia].
Qed.

Lemma deliver_all_kept chunks : forall seen r, (forall x, x ∈ chunks -> all x) ->
  recv_ok src seen r -> from_all r -> recvOOO r !! recvOffset r = None ->
  flowControlViolation (deliver_all chunks r) = false ->
  flowControlViolation r = false /\ recv_ok src seen (deliver_all chunks r) /\
  from_all (deliver_all chunks r) /\
  recvOOO (deliver_all chunks r) !! recvOffset (deliver_all chunks r) = None /\
  forall y, shortest all y -> y ∈ chunks \/ kept r y -> kept (deliver_all chunks r) y.
Proof using Hlam Hsrc Hall.
  induction chunks as [|x chunks IH]; intros seen r Hsub Hr Hfa Hnone Hv; cbn [deliver_all fold_left] in *.
  { split_and!; try done. intros y _ [Hy|?]; [by apply not_elem_of_nil in Hy | done]. }
  assert (Hx : all x) by (apply Hsub; left).
  pose proof (placeLocked_ok src Hsrc seen r x.1 x.2 Hr (Hall _ Hx)) as Hr'.
  pose proof (placeLocked_kept seen r x Hr Hfa Hx Hnone) as Hk. cbv zeta in Hk.
  set (r' := (placeLocked r x.1 x.2).1) in *.
  destruct (decide (flowControlViolation r' = false)) as [Hf|Hf].
  - destruct (Hk Hf) as (Hv0 & Hfa' & Hn' & Hkx & Hky).
    destruct (IH seen r' ltac:(intros; apply Hsub; by right) Hr' Hfa' Hn' Hv) as (_ & IH1 & IH2 & IH3 & IH4).
    split_and!; try done. intros y Hy [[->|?]%elem_of_cons|?]; apply IH4; auto.
  - exfalso. apply Hf. by apply (violation_sticky chunks r').
Qed.

End Completeness.

(** What is covered by kept chunks has reached the reader. *)
Lemma kept_cover r n : 0 <= recvOffset r -> recvOOO r !! recvOffset r = None ->
  (forall i, 0 <= i < n -> exists x, kept r x /\ x.1 <= i < chunk_end x) -> n <= recvOffset r.
Proof.
  intros H0 Hnone Hcov. destruct (decide (n <= recvOffset r)) as [|Hn]; [done|]. exfalso.
  destruct (Hcov (recvOffset r)) as (x & [?|(? & c & Hc & _)] & Hlo & Hhi); [lia | lia |].
  assert (x.1 = recvOffset r) as E by lia. rewrite E in Hc. congruence.
Qed.

Lemma deliver_all_complete (src : list byte) (chunks : list (Z * list byte)) (n : Z) :
  Z.of_nat (length src) < 2 ^ 62 -> laminar (.∈ chunks) ->
  (forall x, x ∈ chunks -> chunk_of src x.1 x.2) ->
  let r := deliver_all chunks (MkRecv [] ∅ 0 0 false) in
  flowControlViolation r = false ->
  (forall i, 0 <= i < n -> exists x, x ∈ chunks /\ shortest (.∈ chunks) x /\ x.1 <= i < chunk_end x) ->
  n <= recvOffset r /\ recvBuf r = take (Z.to_nat (recvOffset r)) src.
Proof.
  intros Hs Hlam Hall. cbv zeta. intros Hv Hcov.
  destruct (deliver_all_kept src Hs (.∈ chunks) Hlam Hall chunks [] (MkRecv [] ∅ 0 0 false))
    as (_ & Hok & _ & Hnone & Hk); try done.
  { split; cbn; try done; lia. }
  split; [|apply (ro_prefix _ _ _ Hok)].
  apply kept_cover; [apply Hok | done|]. intros i Hi. destruct (Hcov i Hi) as (x & Hx & Hsh & Hin).
  exists x. split; [apply Hk; auto | done].
Qed.

(** ** Chunks that are held *)

(** The bytes of [src] from [a] to [c]. *)
Local Notation segment src a c := (Z.of_nat a, take (c - a) (drop a src)).

Lemma first_held (src : list byte) (a c : nat) : (0 < a < c)%nat -> (c <= length src)%nat ->
  Z.of_nat (length src) <= maxStreamRecvOOO ->
  let r := MkRecv [] {[Z.of_nat a := take (c - a) (drop a src)]} 0 (Z.of_nat (c - a)) false in
  deliver_all [segment src a c] (MkRecv [] ∅ 0 0 false) = r /\ recv_ok src [] r.
Proof.
  intros Ha Hc Hl. assert (maxStreamRecvOOO = 8388608) as Hm by reflexivity. rewrite Hm in Hl. cbv zeta.
  assert (length (take (c - a) (drop a src)) = (c - a)%nat) as L1 by (rewrite length_take, length_drop; lia). split.
  - cbn [deliver_all fold_left fst snd].
    rewrite (placeLocked_ahead (MkRecv [] ∅ 0 0 false) (Z.of_nat a)); cbn [recvOOO recvOffset oooBytes recvBuf flowControlViolation];
      [|rewrite L1; width | lia].
    rewrite lookup_empty, L1, Hm, Z.add_0_l. nowrap. by rewrite (proj2 (Z.ltb_ge 8388608 _)) by lia.
  - split; cbn; [lia | done | | |rewrite Hm; lia].
    + intros o d [<- <-]%lookup_singleton_Some. split_and!; [lia | lia |]. by rewrite L1, Nat2Z.id.
    + rewrite <- insert_empty, held_insert, L1 by done. change (held ∅) with 0. lia.
Qed.

(** A held chunk that the bytes before it run into is never looked at again:
    after the bytes from [a] to [c] and then those from 0 to [b] with a < b, the
    first chunk is still held and still counted. *)
Lemma overrun_chunk_stays (src : list byte) (a b c : nat) :
  (0 < a < b)%nat -> (a < c <= length src)%nat -> (b <= length src)%nat -> Z.of_nat (length src) <= maxStreamRecvOOO ->
  let r := deliver_all [segment src a c; (0, take b src)] (MkRecv [] ∅ 0 0 false) in
  recvOffset r = Z.of_nat b /\ recvOOO r = {[Z.of_nat a := take (c - a) (drop a src)]} /\
  oooBytes r = Z.of_nat (c - a).
Proof.
  intros Hab Hc Hb Hl. cbv zeta. destruct (first_held src a c) as [E Hr]; [lia.. | done |].
  assert (length (take b src) = b) as L2 by (rewrite length_take; lia). assert (maxStreamRecvOOO < 2 ^ 62) by done.
  unfold deliver_all in *. cbn [fold_left fst snd] in *. rewrite E. clear E. set (r := MkRecv _ _ _ _ _) in *.
  destruct (placeLocked_now src ltac:(lia) [] r 0 (take b src)) as [_ ->]; [done | | cbn; lia |].
  - split_and!; [lia | lia |]. by rewrite L2, drop_0.
  - cbn [fst]. subst r. cbn [recvOOO recvOffset recvBuf oooBytes flowControlViolation].
    rewrite map_size_singleton. cbn [release recvOOO recvOffset].
    rewrite lookup_singleton_ne by lia. cbn. by rewrite L2.
Qed.

(** Of two chunks at an offset ahead of the gap the first to arrive is held and
    the other discarded, the longer one too: after the bytes from [a] to [b],
    those from [a] to [c] and those from 0 to [a] with b < c, the reader gets
    [b] bytes, and nothing is held. *)
Lemma longer_chunk_dropped (src : list byte) (a b c : nat) :
  (0 < a < b)%nat -> (b < c <= length src)%nat -> Z.of_nat (length src) <= maxStreamRecvOOO ->
  let r := deliver_all [segment src a b; segment src a c; (0, take a src)] (MkRecv [] ∅ 0 0 false) in
  recvOffset r = Z.of_nat b /\ recvBuf r = take b src /\ recvOOO r = ∅ /\ flowControlViolation r = false.
Proof.
  intros Hab Hc Hl. cbv zeta. destruct (first_held src a b) as [E Hr]; [lia.. | done |]. assert (maxStreamRecvOOO < 2 ^ 61) by done.
  assert (length (take a src) = a) as L by (rewrite length_take; lia).
  assert (length (take (b - a) (drop a src)) = (b - a)%nat) as L1 by (rewrite length_take, length_drop; lia).
  unfold deliver_all in *. cbn [fold_left fst snd] in *. rewrite E. clear E. set (r := MkRecv _ _ _ _ _) in *.
  rewrite (placeLocked_ahead r (Z.of_nat a)); [|rewrite length_take, length_drop; width | cbn; lia].
  cbn [recvOOO r]. rewrite lookup_singleton_eq. cbn [fst].
  destruct (placeLocked_now src ltac:(lia) [] r 0 (take a src)) as [_ ->]; [done | | cbn; lia |].
  - split_and!; [lia | lia |]. by rewrite L, drop_0.
  - cbn [fst]. subst r. cbn [recvOOO recvOffset recvBuf oooBytes flowControlViolation].
    rewrite map_size_singleton, L. cbn [release recvOOO recvOffset]. rewrite Z.add_0_l, lookup_singleton_eq.
    cbn [recvOOO recvOffset recvBuf oooBytes flowControlViolation]. rewrite L1. split_and!; [rewrite u64_small; [lia | width] | | apply delete_singleton_eq | done].
    cbn [app]. rewrite Z.sub_0_r. change (Z.to_nat 0) with 0%nat. rewrite drop_0. 
    rewrite <- (take_drop a (take b src)) at 1. rewrite take_take, Nat.min_l by lia. f_equal.
    by rewrite skipn_firstn_comm.
Qed.

(** ** Every interleaving of calls on a stream

    [src] is what the peer writes and closes with a FIN at its end; [seen] is
    what the application has read. Data arrives in any order, any number of
    times and cut into any chunks; the application and its writers do as they
    like. *)

Inductive stream_step (src : list byte) : Stream * list byte -> Stream * list byte -> Prop :=
  | SDeliver s seen o d : chunk_of src o d ->
      stream_step src (s, seen) ((DeliverData s o d).1, seen)
  | SFin s seen : stream_step src (s, seen) (DeliverFin s (Z.of_nat (length src)), seen)
  | SRead s seen now n s' data calls : Read now s n = (s', RBytes data, calls) ->
      stream_step src (s, seen) (s', seen ++ data)
  | SClose s seen : stream_step src (s, seen) ((Close s).1, seen)
  | SReset s seen code : stream_step src (s, seen) ((Reset s code).1, seen)
  | SPeerReset s seen code : stream_step src (s, seen) (DeliverReset s code, seen)
  | SWindow s seen wire : stream_step src (s, seen) (OnWindowUpdate s wire, seen)
  | SReadDeadline s seen t : stream_step src (s, seen) (SetReadDeadline s t, seen)
  | SWriteDeadline s seen t : stream_step src (s, seen) (SetWriteDeadline s t, seen)
  | SWrite s seen data total chunkSize isSyn granted :
      stream_step src (s, seen) ((write_commit s data total chunkSize isSyn granted).1.1, seen).

Inductive stream_reach (src : list byte) : Stream -> list byte -> Prop :=
  | sr_new id rid fc attached : stream_reach src
      (MkStream id rid StreamStateIdle 0 0 (MkRecv [] ∅ 0 0 false) 0 false false 0 fc attached 0 0) []
  | sr_step s seen s' seen' : stream_reach src s seen ->
      stream_step src (s, seen) (s', seen') -> stream_reach src s' seen'.

Record stream_inv (src : list byte) (s : Stream) (seen : list byte) : Prop := {
  si_recv : recv_ok src seen (recv s);
  si_fin : finSeen s = true -> finalSize s = Z.of_nat (length src);
  si_done : finReceived s = true -> recvOffset (recv s) = Z.of_nat (length src);
  si_closed : state s = StreamStateClosed \/ state s = StreamStateHalfClosedRemote ->
    finReceived s = true
}.

Lemma take_drop_length (n : nat) (l : list byte) : take n l ++ drop (length (take n l)) l = l.
Proof.
  rewrite length_take. destruct (decide (n <= length l)%nat).
  - rewrite Nat.min_l by done. apply take_drop.
  - rewrite Nat.min_r, take_ge, drop_all, app_nil_r by lia. done.
Qed.

Section StreamInv.
Context (src : list byte) (Hsrc : Z.of_nat (length src) < 2 ^ 62).

(** The invariant does not look at the send side. *)
Lemma inv_ext s s' seen : stream_inv src s seen -> recv s' = recv s -> finSeen s' = finSeen s ->
  finReceived s' = finReceived s -> finalSize s' = finalSize s ->
  (state s' = StreamStateClosed \/ state s' = StreamStateHalfClosedRemote ->
   state s = StreamStateClosed \/ state s = StreamStateHalfClosedRemote) ->
  stream_inv src s' seen.
Proof using Type.
  intros [H1 H2 H3 H4] E1 E2 E3 E4 E5.
  split; rewrite ?E1, ?E2, ?E3, ?E4; auto.
Qed.

Lemma finish_inv s seen : stream_inv src s seen -> stream_inv src (finishLocked s) seen.
Proof using Type.
  intros Hs. unfold finishLocked.
  destruct (negb (finSeen s) || finReceived s || (recvOffset (recv s) <? finalSize s)) eqn:E; [done|].
  apply orb_false_iff in E as [[Ef%negb_false_iff Er]%orb_false_iff Hge%Z.ltb_ge].
  destruct Hs as [H1 H2 H3 H4]. split; cbn; auto. intros _. rewrite H2 in Hge by done.
  pose proof (ro_offset _ _ _ H1). lia.
Qed.

Lemma reset_inv s seen code : stream_inv src s seen -> stream_inv src (Reset s code).1 seen.
Proof using Type.
  intros H. unfold Reset. case_decide; [done|]. apply (inv_ext s); try done. cbn. intros [?|?]; done.
Qed.

Lemma placeLocked_offset seen r o d : recv_ok src seen r -> chunk_of src o d ->
  recvOffset r = Z.of_nat (length src) -> recvOffset (placeLocked r o d).1 = Z.of_nat (length src).
Proof using Hsrc.
  intros Hr Hc E. pose proof Hc as (? & ? & _). rewrite placeLocked_old; [done | width | lia].
Qed.

Lemma deliver_inv s seen o d : stream_inv src s seen -> chunk_of src o d ->
  stream_inv src (DeliverData s o d).1 seen.
Proof using Hsrc.
  intros Hs Hc. pose proof (placeLocked_ok src Hsrc seen (recv s) o d (si_recv _ _ _ Hs) Hc) as Hr.
  unfold DeliverData. destruct (placeLocked (recv s) o d) as [r a] eqn:E. cbn [fst] in Hr.
  assert (Hs' : stream_inv src (with_recv s r) seen).
  { destruct Hs as [H1 H2 H3 H4]. split; cbn; auto. intros Hf.
    pose proof (placeLocked_offset seen (recv s) o d H1 Hc (H3 Hf)) as Ho. by rewrite E in Ho. }
  destruct (flowControlViolation r); [by apply reset_inv|].
  destruct (0 <? a); [|done]. apply finish_inv. by apply (inv_ext (with_recv s r)).
Qed.

Lemma read_eq now s n s' data calls : Read now s n = (s', RBytes data, calls) ->
  data = take n (recvBuf (recv s)) /\ finSeen s' = finSeen s /\ finReceived s' = finReceived s /\
  finalSize s' = finalSize s /\ state s' = state s /\
  recv s' = MkRecv (drop (length data) (recvBuf (recv s))) (recvOOO (recv s)) (recvOffset (recv s))
    (oooBytes (recv s)) (flowControlViolation (recv s)).
Proof using Type.
  unfold Read. case_decide; [repeat case_decide; repeat case_match; done|].
  destruct (streamFC s) as [fc|]; [|by intros [= <- <- _]].
  destruct (OnDataConsumed fc _) as [fc1 u]. destruct (u && conn s); [|by intros [= <- <- _]].
  destruct (AdvertiseLimit fc1) as [fc2 l]. by intros [= <- <- _].
Qed.

Lemma read_inv now s seen n s' data calls : stream_inv src s seen ->
  Read now s n = (s', RBytes data, calls) -> stream_inv src s' (seen ++ data).
Proof using Type.
  intros Hs Hr. destruct (read_eq _ _ _ _ _ _ Hr) as (Hd & E1 & E2 & E3 & E4 & E5).
  destruct Hs as [[Ho Hp Hh Hb Hc] H2 H3 H4].
  split; rewrite ?E1, ?E2, ?E3, ?E4, ?E5; auto. split; cbn; try done.
  rewrite <- Hp, <- app_assoc, Hd. f_equal. apply take_drop_length.
Qed.

Lemma commit_inv s seen data total cs syn g : stream_inv src s seen ->
  stream_inv src (write_commit s data total cs syn g).1.1 seen.
Proof using Type.
  intros Hs. unfold write_commit. destruct g as [g|]; [|done]. case_decide; [done|].
  case_match; [done|]. cbn [fst]. apply (inv_ext s); try done. cbn.
  case_match; [|done]. by intros [?|?].
Qed.

Lemma stream_reach_inv s seen : stream_reach src s seen -> stream_inv src s seen.
Proof using Hsrc.
  induction 1 as [id rid fc attached|s seen s' seen' _ IH Hstep].
  { split; cbn; try done; [|by intros [?|?]]. split; cbn; try done. lia. }
  inversion Hstep; subst.
  - by apply deliver_inv.
  - apply finish_inv. destruct IH as [H1 H2 H3 H4]. by split.
  - by eapply read_inv.
  - unfold Close. case_decide; [done|]. cbn [fst]. case_decide as Hst.
    + destruct IH as [H1 H2 H3 H4]. split; cbn; auto.
    + apply (inv_ext s); try done. cbn. by intros [?|?].
  - by apply reset_inv.
  - apply (inv_ext s); try done. cbn. by intros [?|?].
  - by apply (inv_ext s).
  - by apply (inv_ext s).
  - by apply (inv_ext s).
  - by apply commit_inv.
Qed.
End StreamInv.

(** ** The send side *)

(** What the send side relies on: the counters in order, and far from the end
    of int64. *)
Definition send_ok (s : Stream) : Prop :=
  0 <= BytesWritten s < 2 ^ 62 /\
  match streamFC s with
  | None => True
  | Some fc => dataSent fc = BytesWritten s /\ dataSent fc <= maxStreamData fc < 2 ^ 62
  end.

Lemma clamp_window_bounds s want : send_ok s -> 0 <= want ->
  0 <= clamp_window s want <= want /\
  (has_credit s = true -> 0 < want -> 0 < clamp_window s want) /\
  match streamFC s with
  | None => True
  | Some fc => dataSent fc + clamp_window s want <= maxStreamData fc
  end.
Proof.
  intros [Hb Hf] Hw. unfold clamp_window, has_credit, CanSend, SendWindowAvailable.
  destruct (streamFC s) as [fc|]; [|lia]. destruct Hf as [E Hf].
  nowrap. rewrite Z.leb_le. zcases; lia.
Qed.

(** The data an operation hands to the connection. *)
Definition call_data (c : conn_call) : list (Z * list byte) :=
  match c with SendStreamFrames _ _ o d _ _ => [(o, d)] | _ => [] end.

Definition calls_data (cs : list conn_call) : list (Z * list byte) := mjoin (call_data <$> cs).

(** A batch that goes out: where it starts, what it takes of [data], and what
    it leaves. *)
Record commits (s : Stream) (data : list byte) (total chunkSize : Z) (s' : Stream) (pc : write_pc)
    (calls : list conn_call) (k : nat) : Prop := {
  cm_pos : (0 < k <= length data)%nat;
  cm_pc : pc = WLoop (drop k data) (total + Z.of_nat k);
  cm_written : BytesWritten s' = BytesWritten s + Z.of_nat k;
  cm_conn : conn s' = conn s;
  cm_calls : calls_data calls = if conn s then [(BytesWritten s, take k data)] else [];
  cm_ok : send_ok s'
}.

Lemma commit_size (data : list byte) chunkSize g : 0 < chunkSize -> 0 < g <= Z.of_nat (length data) ->
  let g' := if (g <? Z.of_nat (length data)) && (chunkSize <? g) then g - Z.rem g chunkSize else g in
  0 < g' <= g.
Proof.
  intros Hc Hg. cbv zeta. destruct (Z.ltb_spec g (Z.of_nat (length data))); cbn [andb]; [|lia].
  destruct (Z.ltb_spec chunkSize g); [|lia].
  pose proof (Z.rem_bound_pos g chunkSize). lia.
Qed.

Lemma commit_cases s data total chunkSize isSyn granted : send_ok s ->
  BytesWritten s + Z.of_nat (length data) < 2 ^ 62 ->
  0 < chunkSize -> (forall g, granted = Some g -> 0 <= g <= Z.of_nat (length data)) ->
  let '(s', pc, calls) := write_commit s data total chunkSize isSyn granted in
  (s' = s /\ calls = [] /\ (pc = WLoop data total \/ exists e, pc = WDone total (Some e))) \/
  exists k, commits s data total chunkSize s' pc calls k.
Proof.
  intros Hok Hroom Hcs Hg. unfold write_commit. destruct granted as [g|]; [|left; eauto].
  specialize (Hg g eq_refl). case_decide; [left; eauto|].
  destruct (clamp_window_bounds s g Hok ltac:(lia)) as (Hb & _ & Hfc).
  destruct (Z.eqb_spec (clamp_window s g) 0) as [E|E]; [left; auto|].
  pose proof (commit_size data chunkSize (clamp_window s g) Hcs ltac:(lia)) as Hk. cbv zeta in Hk.
  set (g' := if (clamp_window s g <? _) && _ then _ else _) in *. clearbody g'.
  right. exists (Z.to_nat g'). destruct Hok as [Hw Hf].
  split; cbn [BytesWritten conn]; [lia | f_equal; lia | nowrap; lia | done | |].
  - rewrite u64_small by width. by destruct (conn s).
  - split; cbn [BytesWritten streamFC]; [nowrap; lia|].
    destruct (streamFC s) as [fc|]; cbn; [|done]. nowrap. lia.
Qed.

(** One call [Write p] and whatever else happens to the stream meanwhile.
    [emitted] is what this call has handed to the connection. The answer of
    [awaitSendCreditUpTo first want] is between the two, as
    Connection.awaitSendCreditUpTo grants. *)
Inductive write_step (maxDatagram : Z) :
    Stream * write_pc * list byte -> Stream * write_pc * list byte -> Prop :=
  | WTop now s data total em :
      write_step maxDatagram (s, WLoop data total, em)
        (s, (write_loop maxDatagram now s data total).1, em)
  | WResume s data total em :
      write_step maxDatagram (s, WStalled data total, em)
        (s, write_stalled maxDatagram s data total, em)
  | WWake s data total em :
      write_step maxDatagram (s, WWaiting data total, em) (s, WLoop data total, em)
  | WCommit s data total want first chunkSize isSyn granted em s' pc calls :
      (forall g, granted = Some g -> first <= g <= want) ->
      BytesWritten s + Z.of_nat (length data) < 2 ^ 62 ->
      write_commit s data total chunkSize isSyn granted = (s', pc, calls) ->
      write_step maxDatagram (s, WAwait data total want first chunkSize isSyn, em)
        (s', pc, em ++ mjoin (calls_data calls).*2)
  | WOther s s' pc em : conn s' = conn s -> send_ok s' ->
      write_step maxDatagram (s, pc, em) (s', pc, em).

Inductive write_reach (maxDatagram : Z) (p : list byte) : Stream -> write_pc -> list byte -> Prop :=
  | wr_start now s : conn s = true -> send_ok s ->
      write_reach maxDatagram p s (write_start maxDatagram now s p).1 []
  | wr_step s pc em s' pc' em' : write_reach maxDatagram p s pc em ->
      write_step maxDatagram (s, pc, em) (s', pc', em') -> write_reach maxDatagram p s' pc' em'.

(** Where a call stands: [total] bytes of [p] emitted, the rest in [data]. *)
Definition write_at (p em : list byte) (pc : write_pc) : Prop :=
  match pc with
  | WLoop data total => p = em ++ data /\ total = Z.of_nat (length em)
  | WStalled data total | WWaiting data total =>
      p = em ++ data /\ total = Z.of_nat (length em) /\ data <> []
  | WAwait data total want first chunkSize _ =>
      p = em ++ data /\ total = Z.of_nat (length em) /\
      0 < chunkSize /\ 0 < first <= want /\ want <= Z.of_nat (length data)
  | WDone total None => p = em /\ total = Z.of_nat (length em)
  | WDone total (Some _) => em = take (Z.to_nat total) p /\ total = Z.of_nat (length em)
  end.

Section WriteProcess.
Context (maxDatagram : Z) (Hmax : streamChunkOverhead < maxDatagram).

Lemma batch_at p em s data total : send_ok s -> has_credit s = true -> data <> [] ->
  p = em ++ data -> total = Z.of_nat (length em) ->
  write_at p em (write_batch maxDatagram s data total).
Proof using Hmax.
  intros Hok Hc Hd Hp Ht. unfold write_batch.
  assert (Hcs : 0 < chunkSizeLocked maxDatagram s).
  { unfold chunkSizeLocked, SafeDatagramSize, streamChunkOverhead in *. destruct (conn s); lia. }
  assert (0 < Z.of_nat (length data)) by (destruct data; [done | cbn; lia]).
  set (w := if sendBatchMax * _ <? _ then _ else _).
  assert (Hw : 0 < w <= Z.of_nat (length data))
    by (unfold w, sendBatchMax in *; zcases; lia).
  destruct (clamp_window_bounds s w Hok ltac:(lia)) as (Hb & Hpos & _). specialize (Hpos Hc ltac:(lia)).
  destruct (Z.eqb_spec (clamp_window s w) 0); [lia|]. cbn. split_and!; try done; zcases; lia.
Qed.

Lemma stopped_at (p em data : list byte) total : p = em ++ data -> total = Z.of_nat (length em) ->
  em = take (Z.to_nat total) p.
Proof using Type. intros -> ->. by rewrite Nat2Z.id, take_app_length. Qed.

Lemma loop_at p em now s data total : send_ok s -> p = em ++ data -> total = Z.of_nat (length em) ->
  write_at p em (write_loop maxDatagram now s data total).1.
Proof using Hmax.
  intros Hok Hp Ht. pose proof (stopped_at p em data total Hp Ht). unfold write_loop.
  case_decide as Hd; [subst data; rewrite app_nil_r in Hp; by split|].
  destruct (has_credit s) eqn:Hc; [by apply batch_at|].
  repeat case_decide; cbn; try done. case_match; done.
Qed.

Lemma write_reach_at p s pc em : write_reach maxDatagram p s pc em ->
  conn s = true /\ send_ok s /\ write_at p em pc.
Proof using Hmax.
  induction 1 as [now s Hc Hok|s pc em s' pc' em' _ (Hc & Hok & Hat) Hstep].
  { split_and!; [done | done |]. unfold write_start. repeat case_decide; try (by split).
    by apply loop_at. }
  inversion Hstep; subst.
  - split_and!; try done. destruct Hat. by apply loop_at.
  - split_and!; try done. destruct Hat as (Hp & Ht & Hd). unfold write_stalled.
    destruct (has_credit s') eqn:Hcr; [by apply batch_at | done].
  - destruct Hat as (Hp & Ht & _). by split_and!.
  - destruct Hat as (Hp & Ht & Hcs & Hfw & Hwd).
    pose proof (commit_cases s data total chunkSize isSyn granted Hok ltac:(done) Hcs) as Hcc.
    match goal with H : write_commit _ _ _ _ _ _ = _ |- _ => rewrite H in Hcc end.
    destruct Hcc as [(-> & -> & Hpc)|[k [Hk -> _ Hconn Hcalls Hok']]].
    + intros g Hg. match goal with H : forall g, _ = Some g -> _ |- _ => apply H in Hg end. lia.
    + rewrite app_nil_r. split_and!; try done.
      destruct Hpc as [->|[e ->]]; [done|]. split; [by eapply stopped_at | done].
    + rewrite Hcalls, Hc. cbn. rewrite app_nil_r. split_and!; [congruence | done | |].
      * rewrite <- app_assoc, take_drop. done.
      * rewrite length_app, length_take. lia.
  - split_and!; [congruence | done | done].
Qed.
End WriteProcess.

(** ** All the writers of one stream *)

(** [log] is every batch handed to the connection, in the order the stream's
    lock let them through. *)
Inductive send_step : Stream * list (Z * list byte) -> Stream * list (Z * list byte) -> Prop :=
  | SdCommit s log data total chunkSize isSyn granted s' pc calls :
      0 < chunkSize -> (forall g, granted = Some g -> 0 <= g <= Z.of_nat (length data)) ->
      BytesWritten s + Z.of_nat (length data) < 2 ^ 62 ->
      write_commit s data total chunkSize isSyn granted = (s', pc, calls) ->
      send_step (s, log) (s', log ++ calls_data calls)
  | SdOther s log s' : conn s' = conn s -> BytesWritten s' = BytesWritten s -> send_ok s' ->
      send_step (s, log) (s', log).

Inductive send_reach : Stream -> list (Z * list byte) -> Prop :=
  | sd_new s : conn s = true -> BytesWritten s = 0 -> send_ok s -> send_reach s []
  | sd_step s log s' log' : send_reach s log -> send_step (s, log) (s', log') -> send_reach s' log'.

(** The byte stream the batches spell. *)
Definition written (log : list (Z * list byte)) : list byte := mjoin log.*2.

Lemma written_snoc log o d : written (log ++ [(o, d)]) = written log ++ d.
Proof. unfold written. rewrite fmap_app, join_app. cbn. by rewrite app_nil_r. Qed.

Lemma chunk_of_app src o d post : chunk_of src o d -> chunk_of (src ++ post) o d.
Proof.
  intros (H0 & Hl & E). split_and!; [done | rewrite length_app; lia |].
  rewrite drop_app_le by lia. rewrite take_app_le; [done|]. rewrite length_drop. lia.
Qed.

Lemma chunk_of_snoc src d : chunk_of (src ++ d) (Z.of_nat (length src)) d.
Proof.
  split_and!; [lia | rewrite length_app; lia |].
  rewrite Nat2Z.id, drop_app_length, firstn_all. done.
Qed.

Lemma send_reach_inv s log : send_reach s log ->
  conn s = true /\ send_ok s /\ BytesWritten s = Z.of_nat (length (written log)) /\
  Forall (fun x => chunk_of (written log) x.1 x.2) log.
Proof.
  induction 1 as [s Hc Hb Hok|s log s' log' _ (Hc & Hok & Hb & Hl) Hstep].
  { split_and!; try done. }
  inversion Hstep as [? ? data total cs syn g ? pc calls Hcs Hg Hroom Hw|]; subst;
    [|split_and!; try done; congruence].
  pose proof (commit_cases s data total cs syn g Hok Hroom Hcs Hg) as Hcc. rewrite Hw in Hcc.
  destruct Hcc as [(-> & -> & _)|[k [Hk _ Hbw Hcn Hcalls Hok']]].
  { cbn. rewrite app_nil_r. done. }
  rewrite Hcalls, Hc, written_snoc, length_app, length_take. split_and!; [congruence | done | lia |].
  apply Forall_app. split.
  - eapply Forall_impl; [exact Hl|]. intros x. apply chunk_of_app.
  - constructor; [|constructor]. cbn. rewrite Hb. apply chunk_of_snoc.
Qed.

(** ** Properties *)

(** C11. However the network reorders, duplicates and cuts up the stream, and
    whatever the application does in between, what it has read followed by
    what is buffered is exactly the first [recvOffset] bytes the peer wrote;
    the bytes held out of order are counted exactly and stay within the cap. *)
Theorem stream_reads_prefix (src : list byte) (s : Stream) (seen : list byte) :
  Z.of_nat (length src) < 2 ^ 62 -> stream_reach src s seen ->
  seen ++ recvBuf (recv s) = take (Z.to_nat (recvOffset (recv s))) src /\
  0 <= recvOffset (recv s) <= Z.of_nat (length src) /\
  oooBytes (recv s) = held (recvOOO (recv s)) /\ oooBytes (recv s) <= maxStreamRecvOOO.
Proof.
  intros Hs Hr. destruct (stream_reach_inv src Hs s seen Hr) as [[Ho Hp _ Hb Hc] _ _ _].
  split_and!; try done; lia.
Qed.

(** End of file means the end: when [Read] reports EOF the application has
    read every byte the peer wrote. *)
Theorem stream_eof_complete (src : list byte) (s : Stream) (seen : list byte) (now : Z) (n : nat) :
  Z.of_nat (length src) < 2 ^ 62 -> stream_reach src s seen ->
  (Read now s n).1.2 = RError EOF -> seen = src.
Proof.
  intros Hs Hr. destruct (stream_reach_inv src Hs s seen Hr) as [[Ho Hp _ _ _] _ Hd Hc].
  unfold Read. case_decide as Hbuf.
  - cbn [fst snd]. rewrite Hbuf, app_nil_r in Hp. intros He.
    assert (Hf : finReceived s = true).
    { destruct (finReceived s); [done|]. repeat case_decide; try done; [by apply Hc; left|].
      by destruct (expired now (readDeadline s)). }
    rewrite (Hd Hf), Nat2Z.id, firstn_all in Hp. done.
  - repeat case_match; done.
Qed.

(** C25. Reassembly loses nothing that was cut as this library cuts it. If the
    chunks delivered are pairwise disjoint or nested, as splitting packets into
    smaller ones makes them, and the backstop was not hit, then once every byte
    below [n] lies in a delivered chunk that no shorter one shares its offset
    with, at least [n] bytes have been passed to the reader, in any order of
    arrival. That last condition is needed: of two chunks with the same offset
    ahead of the gap only the first to arrive is held, and when it is the
    shorter one the bytes that only the longer one has are discarded, and are
    missing when everything before them has arrived. *)
Theorem reassembly_complete :
  (forall (src : list byte) (chunks : list (Z * list byte)) (n : Z),
   Z.of_nat (length src) < 2 ^ 62 -> laminar (.∈ chunks) ->
   (forall x, x ∈ chunks -> chunk_of src x.1 x.2) ->
   let r := deliver_all chunks (MkRecv [] ∅ 0 0 false) in
   flowControlViolation r = false ->
   (forall i, 0 <= i < n -> exists x, x ∈ chunks /\ shortest (.∈ chunks) x /\ x.1 <= i < chunk_end x) ->
   n <= recvOffset r /\ recvBuf r = take (Z.to_nat (recvOffset r)) src) /\
  (forall (src : list byte) (a b c : nat),
   (0 < a < b)%nat -> (b < c <= length src)%nat -> Z.of_nat (length src) <= maxStreamRecvOOO ->
   let r := deliver_all [segment src a b; segment src a c; (0, take a src)] (MkRecv [] ∅ 0 0 false) in
   recvOffset r = Z.of_nat b /\ recvBuf r = take b src /\ recvOOO r = ∅ /\ flowControlViolation r = false).
Proof. split; [apply deliver_all_complete | apply longer_chunk_dropped]. Qed.

(** C38. A [Write] is all or an error: a call that ends without error has
    handed over exactly its argument, a call that fails has handed over
    exactly the first [total] bytes of it, whatever else happened to the
    stream meanwhile. *)
Theorem write_emits_argument (maxDatagram : Z) (p em : list byte) (s : Stream) (total : Z)
    (err : option stream_error) :
  streamChunkOverhead < maxDatagram -> write_reach maxDatagram p s (WDone total err) em ->
  em = take (Z.to_nat total) p /\ (err = None -> total = Z.of_nat (length p)).
Proof.
  intros Hm Hr. destruct (write_reach_at _ Hm _ _ _ _ Hr) as (_ & _ & Hat). cbn in Hat.
  destruct err as [e|].
  - by destruct Hat as [? ?].
  - destruct Hat as [-> ->]. rewrite Nat2Z.id, firstn_all. done.
Qed.

(** However many writers share a stream, the batches they hand to the
    connection tile one byte stream: each batch is that stream's bytes at the
    batch's offset, [BytesWritten] is its length, and the stream never passes
    the limit the peer granted. *)
Theorem writes_tile_stream (s : Stream) (log : list (Z * list byte)) :
  send_reach s log ->
  BytesWritten s = Z.of_nat (length (written log)) /\
  Forall (fun x => chunk_of (written log) x.1 x.2) log /\
  (forall fc, streamFC s = Some fc -> dataSent fc = BytesWritten s /\ dataSent fc <= SendLimit fc).
Proof.
  intros Hr. destruct (send_reach_inv s log Hr) as (_ & [_ Hok] & Hb & Hl).
  split_and!; try done. intros fc E. rewrite E in Hok. unfold SendLimit. lia.
Qed.

(** If only partly overrun, it is stranded: with a < b < c all of [0, c) has
    been received, yet the reader gets [b] bytes and never the rest. *)
Theorem crossing_chunk_strands (src : list byte) (a b c : nat) :
  (0 < a < b)%nat -> (b < c <= length src)%nat -> Z.of_nat (length src) <= maxStreamRecvOOO ->
  let r := deliver_all [segment src a c; (0, take b src)] (MkRecv [] ∅ 0 0 false) in
  recvOffset r = Z.of_nat b /\ recvOOO r = {[Z.of_nat a := take (c - a) (drop a src)]}.
Proof. intros Hab Hbc Hl. destruct (overrun_chunk_stays src a b c) as (? & ? & _); [lia.. | done | done]. Qed.

(** If wholly overrun, as a piece of a split packet is by the whole packet
    arriving late, the reader gets everything, but the piece stays held and
    counts against the backstop for the rest of the stream's life. *)
Theorem swallowed_chunk_leaks (src : list byte) (a b c : nat) :
  (0 < a < c)%nat -> (c <= b <= length src)%nat -> Z.of_nat (length src) <= maxStreamRecvOOO ->
  let r := deliver_all [segment src a c; (0, take b src)] (MkRecv [] ∅ 0 0 false) in
  Z.of_nat c <= recvOffset r /\ oooBytes r = Z.of_nat (c - a).
Proof. intros Hac Hcb Hl. cbv zeta. destruct (overrun_chunk_stays src a b c) as (-> & _ & ->); [lia.. | done | lia]. Qed.

(** A reset does not last: a FIN whose bytes have all arrived, delivered
    after the peer's reset, moves the stream out of the reset state, and
    [Read] then reports end of file instead of the reset. *)
Theorem fin_revives_reset_stream (s : Stream) (code size now : Z) (n : nat) :
  finReceived s = false -> recvBuf (recv s) = [] -> size <= recvOffset (recv s) ->
  let s' := DeliverFin (DeliverReset s code) size in
  State s' = StreamStateHalfClosedRemote /\
  (Read now (DeliverReset s code) n).1.2 = RError ErrStreamReset /\
  (Read now s' n).1.2 = RError EOF.
Proof.
  intros Hf Hb Hs. cbv zeta. unfold DeliverFin, DeliverReset, finishLocked, State.
  cbn [finSeen finReceived recv finalSize state negb orb]. rewrite Hf.
  rewrite (proj2 (Z.ltb_ge _ _) Hs). cbn [orb]. split; [done|].
  unfold Read. cbn [recv]. rewrite Hb. done.
Qed.

(** A [Write] that was waiting for congestion credit when the stream was
    closed still sends: the FIN announces the end of the stream at the current
    offset, and the write's data goes out from that same offset on. *)
Theorem write_continues_past_close (s : Stream) (data : list byte) (total chunkSize granted : Z) :
  conn s = true -> state s = StreamStateOpen -> send_ok s ->
  BytesWritten s + Z.of_nat (length data) < 2 ^ 62 -> 0 < chunkSize ->
  0 < granted <= Z.of_nat (length data) -> has_credit s = true ->
  let '(s1, fin) := Close s in
  let '(_, _, calls) := write_commit s1 data total chunkSize false (Some granted) in
  fin = [SendStreamFrame (ID s) (RemoteID s) (BytesWritten s) [] true false] /\
  exists d, d <> [] /\ calls_data calls = [(BytesWritten s, d)].
Proof.
  intros Hc Hst Hok Hroom Hcs Hg Hcr. unfold Close. rewrite Hst.
  rewrite decide_False by (by intros [?|?]). rewrite decide_False by done.
  pose proof Hok as [Hb _].
  rewrite Hc, u64_small by width. set (s1 := with_state s StreamStateHalfClosedLocal).
  pose proof (commit_cases s1 data total chunkSize false (Some granted) Hok Hroom Hcs) as Hcc.
  destruct (clamp_window_bounds s1 granted Hok ltac:(lia)) as (Hcb & Hpos & _).
  specialize (Hpos Hcr ltac:(lia)).
  destruct (write_commit s1 data total chunkSize false (Some granted)) as [[s2 pc] calls] eqn:E.
  split; [done|]. destruct Hcc as [(_ & Hcalls & Hpc)|[k [Hk _ _ _ Hcalls _]]].
  - intros g [= <-]. lia.
  - exfalso. revert E. unfold write_commit. cbn [state s1 with_state].
    rewrite decide_False by done.
    destruct (Z.eqb_spec (clamp_window s1 granted) 0); [lia|].
    intros [= _ _ Ec]. revert Ec. cbn [conn with_state s1]. rewrite Hc. by rewrite Hcalls.
  - exists (take k data). rewrite Hcalls. cbn [conn s1 with_state]. rewrite Hc. split; [|done].
    destruct data; [cbn in Hk; lia|]. destruct k; [lia | done].
Qed.

(** ** Witnesses *)

Definition sample_src : list byte := to_byte <$> [104; 101; 108; 108; 111].

Definition sample_stream : Stream :=
  MkStream 1 2 StreamStateIdle 0 0 (MkRecv [] ∅ 0 0 false) 0 false false 0
    (Some (NewStreamFlowController 65536 65536)) true 0 0.

(** The tail arrives first, then the FIN, then the head; everything is read. *)
Definition sample_received : Stream :=
  (DeliverData (DeliverFin (DeliverData sample_stream 2 (drop 2 sample_src)).1 5) 0
     (take 2 sample_src)).1.

Definition sample_read_all : Stream := (Read 1 sample_received 10).1.1.

Lemma sample_read_reach : stream_reach sample_src sample_read_all sample_src.
Proof.
  eapply (sr_step _ sample_received []);
    [|apply (SRead _ sample_received [] 1 10 sample_read_all sample_src []); by vm_compute].
  eapply sr_step; [|apply SDeliver; by vm_compute].
  eapply sr_step; [|apply (SFin sample_src)].
  eapply sr_step; [|apply SDeliver; by vm_compute].
  apply sr_new.
Qed.

Lemma stream_reads_prefix_witness :
  sample_src ++ recvBuf (recv sample_read_all)
  = take (Z.to_nat (recvOffset (recv sample_read_all))) sample_src.
Proof.
  apply (stream_reads_prefix sample_src sample_read_all sample_src); [by vm_compute|].
  apply sample_read_reach.
Defined.

Lemma stream_eof_complete_witness :
  (Read 2 sample_read_all 10).1.2 = RError EOF /\ sample_src = sample_src.
Proof.
  split; [by vm_compute|].
  apply (stream_eof_complete sample_src sample_read_all sample_src 2 10);
    [by vm_compute | apply sample_read_reach | by vm_compute].
Defined.

Definition sample_chunks : list (Z * list byte) :=
  [(2, drop 2 sample_src); (0, take 2 sample_src); (2, drop 2 sample_src)].

Lemma reassembly_complete_witness :
  5 <= recvOffset (deliver_all sample_chunks (MkRecv [] ∅ 0 0 false)).
Proof.
  refine (proj1 (proj1 reassembly_complete sample_src sample_chunks 5 _ _ _ _ _)).
  - by vm_compute.
  - intros x y Hx Hy. unfold sample_chunks in *. rewrite !elem_of_cons, elem_of_nil in Hx, Hy.
    destruct Hx as [->|[->|[->|[]]]], Hy as [->|[->|[->|[]]]]; vm_compute; intuition congruence.
  - intros x Hx. unfold sample_chunks in Hx. rewrite !elem_of_cons, elem_of_nil in Hx.
    destruct Hx as [->|[->|[->|[]]]]; by vm_compute.
  - by vm_compute.
  - intros i Hi. exists (if i <? 2 then (0, take 2 sample_src) else (2, drop 2 sample_src)).
    unfold shortest, sample_chunks, chunk_end.
    assert (length (take 2 sample_src) = 2%nat /\ length (drop 2 sample_src) = 3%nat) as [L1 L2] by done.
    split_and!; zcases; cbn [fst snd]; rewrite ?L1, ?L2; try lia; try (by set_solver).
    all: intros y; rewrite !elem_of_cons, elem_of_nil;
      intros [->|[->|[->|[]]]]; cbn [fst snd]; rewrite ?L1, ?L2; lia.
Defined.

Definition sample_written : Stream :=
  (write_commit sample_stream sample_src 0 1100 true (Some 5)).1.1.

Lemma write_emits_argument_witness : sample_src = take 5 sample_src /\ 5 = Z.of_nat (length sample_src).
Proof.
  destruct (write_emits_argument 1200 sample_src sample_src sample_written 5 None) as [H1 H2].
  - by vm_compute.
  - eapply wr_step; [|apply (WTop 1200 1 _ [] 5)].
    eapply (wr_step _ _ sample_stream (WAwait sample_src 0 5 5 1100 true) []);
      [|apply (WCommit 1200 sample_stream sample_src 0 5 5 1100 true (Some 5) [] _ _
          [SendStreamFrames 1 2 0 sample_src 1100 true]);
        [intros g [= <-]; lia | by vm_compute | by vm_compute]].
    apply (wr_start 1200 sample_src 1 sample_stream); by vm_compute.
  - split; [exact H1 | by apply H2].
Defined.

Lemma writes_tile_stream_witness : BytesWritten sample_written = 5.
Proof.
  rewrite (proj1 (writes_tile_stream sample_written [(0, sample_src)] ltac:(
    eapply (sd_step sample_stream []);
    [apply sd_new; by vm_compute
    | apply (SdCommit sample_stream [] sample_src 0 1100 true (Some 5) sample_written (WLoop [] 5)
        [SendStreamFrames 1 2 0 sample_src 1100 true]);
      [lia | intros g [= <-]; vm_compute; split; congruence | by vm_compute | by vm_compute]]))).
  reflexivity.
Defined.

Lemma crossing_chunk_strands_witness :
  recvOffset (deliver_all [(1, take 4 (drop 1 sample_src)); (0, take 3 sample_src)]
    (MkRecv [] ∅ 0 0 false)) = 3.
Proof.
  refine (proj1 (crossing_chunk_strands sample_src 1 3 5 _ _ _)); [lia | cbn; lia | by vm_compute].
Defined.

Lemma swallowed_chunk_leaks_witness :
  oooBytes (deliver_all [(1, take 2 (drop 1 sample_src)); (0, take 5 sample_src)]
    (MkRecv [] ∅ 0 0 false)) = 2.
Proof.
  refine (proj2 (swallowed_chunk_leaks sample_src 1 5 3 _ _ _)); [lia | cbn; lia | by vm_compute].
Defined.

Lemma fin_revives_reset_stream_witness :
  State (DeliverFin (DeliverReset sample_stream 7) 0) = StreamStateHalfClosedRemote.
Proof.
  refine (proj1 (fin_revives_reset_stream sample_stream 7 0 1 10 _ _ _)); by vm_compute.
Defined.

Lemma write_continues_past_close_witness :
  exists d, d <> [] /\
    calls_data (write_commit (Close (with_state sample_stream StreamStateOpen)).1 sample_src 0 1100
      false (Some 5)).2 = [(0, d)].
Proof.
  pose proof (write_continues_past_close (with_state sample_stream StreamStateOpen) sample_src 0 1100 5)
    as H.
  exact (proj2 (H eq_refl eq_refl ltac:(by vm_compute) ltac:(by vm_compute) ltac:(by vm_compute)
    ltac:(by vm_compute) ltac:(by vm_compute))).
Defined.
