(* ===== verification/StreamWait.v ===== *)
(** * Waiting on a stream (src/stream.go)

    A [Read] without data and a [Write] without credit wait on a condition
    variable of the stream, which any event of interest signals, and arrange to
    be woken at a time as well. No call sleeps past its deadline, and a writer
    without credit asks its peer again at the latest after
    [StreamBlockedRetryInterval]. *)

From stdpp Require Import strings.
From S2P Require Import Prelude Constants FlowControl Stream.

(** What wakes a waiting call: nothing, it does not wait; a signal; a signal or
    the time. *)
Inductive wakeup := Awake | OnSignal | BySignalOr (t : Z).

Definition waitWithDeadline (now deadline : Z) : wakeup :=
  if deadline =? 0 then OnSignal
  else
    let d := timeSub deadline now in
    if d <=? 0 then Awake else BySignalOr (now + d).

Definition blockedWakeupLocked (now : Z) (s : Stream) : Z :=
  let retry := now + StreamBlockedRetryInterval in
  if negb (writeDeadline s =? 0) && (writeDeadline s <? retry) then writeDeadline s else retry.

(** The wait of a [Read] that found nothing, and of a [Write] without credit. *)
Definition read_wait (now : Z) (s : Stream) : wakeup := waitWithDeadline now (readDeadline s).
Definition write_wait (now : Z) (s : Stream) : wakeup := waitWithDeadline now (blockedWakeupLocked now s).

Lemma wait_until now t : 0 <= now < t -> t < 2 ^ 63 -> waitWithDeadline now t = BySignalOr t.
Proof.
  intros H1 H2. unfold waitWithDeadline. rewrite (proj2 (Z.eqb_neq _ _)) by lia. rewrite timeSub_exact by lia.
  cbv zeta. rewrite (proj2 (Z.leb_gt _ _)) by lia. f_equal. lia.
Qed.

(** A reader with a deadline is woken at it, and then does not wait again. *)
Theorem reader_wakes_at_deadline (now : Z) (s : Stream) (n : nat) :
  0 <= now -> 0 < readDeadline s < 2 ^ 63 -> (Read now s n).1.2 = RWait ->
  read_wait now s = BySignalOr (readDeadline s) /\
  forall t, readDeadline s <= t -> (Read t s n).1.2 = RError ErrDeadlineExceeded.
Proof.
  intros Hnow Hd. unfold Read, read_wait. destruct (decide (recvBuf (recv s) = [])); [|repeat case_match; by intros [=]].
  cbn [fst snd]. destruct (finReceived s); repeat case_decide; try done.
  unfold expired. rewrite (proj2 (Z.eqb_neq _ _)) by lia. destruct (Z.ltb_spec now (readDeadline s)); [|by intros [=]].
  intros _. split; [apply wait_until; lia|]. intros t Ht. by rewrite (proj2 (Z.ltb_ge _ _)).
Qed.

(** A writer without credit is woken by a signal or at a time [t] at most
    [StreamBlockedRetryInterval] ahead and not past its deadline. If it then
    still has no credit, it asks again with the limit it knows, or fails because
    its deadline has passed. *)
Theorem blocked_writer_asks_again (maxDatagram now : Z) (s : Stream) (data : list byte) (total : Z) :
  0 <= now < 2 ^ 62 -> 0 <= writeDeadline s -> conn s = true -> data <> [] -> has_credit s = false ->
  state s <> StreamStateReset -> state s <> StreamStateHalfClosedLocal -> state s <> StreamStateClosed ->
  expired now (writeDeadline s) = false -> write_stalled maxDatagram s data total = WWaiting data total /\
  exists t, write_wait now s = BySignalOr t /\ now < t <= now + StreamBlockedRetryInterval /\
    (writeDeadline s <> 0 -> t <= writeDeadline s) /\
    forall t', t <= t' ->
      (exists limit, write_loop maxDatagram t' s data total = (WStalled data total, [SendStreamDataBlocked (ID s) (RemoteID s) limit])) \/
      (writeDeadline s <> 0 /\ writeDeadline s <= t' /\ write_loop maxDatagram t' s data total = (WDone total (Some ErrDeadlineExceeded), [])).
Proof.
  intros Hnow Hd Hconn Hdata Hc S1 S2 S3 He. unfold write_stalled. rewrite Hc. split; [done|].
  set (t := blockedWakeupLocked now s). exists t.
  assert (Ht : now < t <= now + StreamBlockedRetryInterval /\ (writeDeadline s <> 0 -> t <= writeDeadline s)).
  { unfold t, blockedWakeupLocked. cbv zeta. unfold expired in He.
    assert (0 < StreamBlockedRetryInterval) by done. destruct (Z.eqb_spec (writeDeadline s) 0) as [E|E]; cbn [negb andb] in *; [lia|].
    apply negb_false_iff, Z.ltb_lt in He. destruct (Z.ltb_spec (writeDeadline s) (now + StreamBlockedRetryInterval)); lia. }
  assert (now + StreamBlockedRetryInterval < 2 ^ 63) by (unfold StreamBlockedRetryInterval, Millisecond; lia).
  split_and!; try apply Ht; [apply wait_until; lia|]. intros t' Ht'.
  unfold write_loop. rewrite decide_False by done. rewrite Hc. do 2 rewrite decide_False by naive_solver.
  destruct (expired t' (writeDeadline s)) eqn:E; [right | left; rewrite Hconn; eauto].
  unfold expired in E. apply andb_true_iff in E as [E1%negb_true_iff%Z.eqb_neq E2%negb_true_iff%Z.ltb_ge]. done.
Qed.
