(* ===== verification/Float64.v ===== *)
(** * Go's float64

    The floating-point operations the pacer and the congestion controller
    use, on the Standard Library's executable model of IEEE 754 (SpecFloat)
    at binary64: conversions, the four operations rounded to nearest even,
    comparisons, and the functions of package math the sources call (Pow with
    exponent 3, Cbrt, Ceil). Products and sums are rounded one by one, as on
    amd64, where the compiler does not fuse them. *)

From S2P Require Import Prelude.
From Stdlib Require Import SpecFloat.

Definition f64 : Type := spec_float.
Definition prec : Z := 53.
Definition emax : Z := 1024.

(** [float64(z)] *)
Definition of_int (z : Z) : f64 := binary_normalize prec emax z 0 false.

Definition fadd : f64 -> f64 -> f64 := SFadd prec emax.
Definition fsub : f64 -> f64 -> f64 := SFsub prec emax.
Definition fmul : f64 -> f64 -> f64 := SFmul prec emax.
Definition fdiv : f64 -> f64 -> f64 := SFdiv prec emax.
Definition flt (x y : f64) : bool := SFltb x y.
Definition fle (x y : f64) : bool := SFleb x y.
Definition Inf : f64 := S754_infinity false.

(** [math.IsInf(x, 1)] *)
Definition is_inf (x : f64) : bool :=
  match x with S754_infinity false => true | _ => false end.

(** The integer part of [m * 2^e]. *)
Definition trunc_pos (m : positive) (e : Z) : Z := Z.shiftl (Zpos m) e.

(** [int(x)]: truncation; out of range the amd64 instruction gives the
    smallest integer. *)
Definition to_int (x : f64) : Z :=
  match x with
  | S754_zero _ => 0
  | S754_finite s m e =>
      let t := trunc_pos m e in
      let z := if s then - t else t in
      if (- 2 ^ 63 <=? z) && (z <? 2 ^ 63) then z else - 2 ^ 63
  | _ => - 2 ^ 63
  end.

(** [math.Ceil] *)
Definition fceil (x : f64) : f64 :=
  match x with
  | S754_finite s m e =>
      if 0 <=? e then x
      else
        let t := trunc_pos m e in
        let exact := Z.shiftl t (- e) =? Zpos m in
        if s then (if t =? 0 then S754_zero true else SFopp (of_int t))
        else of_int (if exact then t else t + 1)
  | _ => x
  end.

(** [Duration.Seconds] *)
Definition nanos : f64 := of_int 1000000000.

Definition Seconds (d : Z) : f64 :=
  let sec := Z.quot d 1000000000 in
  let nsec := Z.rem d 1000000000 in
  fadd (of_int sec) (fdiv (of_int nsec) nanos).

(** [math.Pow(x, 3)]: repeated squaring on the fraction, two rounds for the
    two bits of 3; a finite nonzero [x] has an exponent far from the range in
    which the loop gives up. *)
Definition half : f64 := S754_finite false 4503599627370496 (-53).

Definition Pow3 (x : f64) : f64 :=
  match x with
  | S754_finite _ _ _ =>
      let '(x1, xe) := SFfrexp prec emax x in
      let a1 := x1 in
      let ae := xe in
      let y1 := fmul x1 x1 in
      let ye := 2 * xe in
      let '(y1, ye) := if flt y1 half then (fadd y1 y1, ye - 1) else (y1, ye) in
      SFldexp prec emax (fmul a1 y1) (ae + ye)
  | _ => x
  end.

(** [math.Float64bits] and [math.Float64frombits] on positive numbers. *)
Definition bits_of (x : f64) : Z :=
  match x with
  | S754_finite _ m e => if Zpos m <? 2 ^ 52 then Zpos m else Z.shiftl (e + 1074) 52 + Zpos m
  | S754_infinity _ => Z.shiftl 2047 52
  | S754_nan => Z.shiftl 2047 52 + 1
  | S754_zero _ => 0
  end.

Definition of_bits (b : Z) : f64 :=
  let ex := Z.shiftr b 52 in
  let fr := b mod 2 ^ 52 in
  if ex =? 0 then
    match fr with Zpos m => S754_finite false m (-1074) | _ => S754_zero false end
  else if ex =? 2047 then (if fr =? 0 then S754_infinity false else S754_nan)
  else match 2 ^ 52 + fr with Zpos m => S754_finite false m (ex - 1075) | _ => S754_nan end.

(** [math.Cbrt] (the FreeBSD algorithm): a rough root from the exponent, a
    rational correction to 23 bits, a cut to 22 bits and one Newton step. *)
Definition cbrtB1 : Z := 715094163.
Definition cbrtB2 : Z := 696219795.
Definition cbrtC : f64 := of_bits 4603064841997850097.
Definition cbrtD : f64 := SFopp (of_bits 4604528052325763124).
Definition cbrtE : f64 := of_bits 4609048195788499471.
Definition cbrtF : f64 := of_bits 4609916747145206638.
Definition cbrtG : f64 := of_bits 4600105333671292343.
Definition SmallestNormal : f64 := of_bits 4503599627370496.

Definition cbrt_pos (x : f64) : f64 :=
  let t :=
    if flt x SmallestNormal
    then of_bits (bits_of (fmul (of_int (2 ^ 54)) x) / 3 + Z.shiftl cbrtB2 32)
    else of_bits (bits_of x / 3 + Z.shiftl cbrtB1 32) in
  let r := fdiv (fmul t t) x in
  let s := fadd cbrtC (fmul r t) in
  let t := fmul t (fadd cbrtG (fdiv cbrtF (fadd (fadd s cbrtE) (fdiv cbrtD s)))) in
  let t := of_bits (Z.land (bits_of t) (Z.shiftl 68719476732 28) + Z.shiftl 1 30) in
  let s := fmul t t in
  let r := fdiv x s in
  let w := fadd t t in
  let r := fdiv (fsub r t) (fadd w r) in
  fadd t (fmul t r).

Definition Cbrt (x : f64) : f64 :=
  match x with
  | S754_finite true m e => SFopp (cbrt_pos (S754_finite false m e))
  | S754_finite false _ _ => cbrt_pos x
  | _ => x
  end.

(** ** Comparisons *)

Lemma flt_irrefl x : flt x x = false.
Proof.
  unfold flt, SFltb, SFcompare. destruct x as [[]|[]| |[] m e]; try done;
    rewrite Z.compare_refl, Pos.compare_cont_refl; done.
Qed.

(** ** Rounding

    Enough of the theory of rounding to nearest to bound a product: on a
    mantissa of at least 53 bits in the normal range, the rounded value is one
    of the two neighbours with 53 bits. *)

Lemma digits2_size p : digits2_pos p = Pos.size p.
Proof. induction p as [p IH|p IH|]; cbn; by rewrite ?IH. Qed.

Lemma Zdigits2_bounds m : 0 < m -> 2 ^ (Zdigits2 m - 1) <= m < 2 ^ Zdigits2 m /\ 0 < Zdigits2 m.
Proof.
  intros Hm. destruct m as [|p|p]; try lia. cbn. rewrite digits2_size.
  pose proof (Pos.size_gt p) as H1. pose proof (Pos.size_le p) as H2.
  assert (E : Z.pos (Pos.size p) = Z.pos (Pos.size p) - 1 + 1) by lia.
  assert (2 ^ (Z.pos (Pos.size p) - 1 + 1) = 2 * 2 ^ (Z.pos (Pos.size p) - 1))
    by (rewrite Z.pow_add_r by lia; lia).
  rewrite <- E in *.
  assert (Z.pos (2 ^ Pos.size p) = 2 ^ Z.pos (Pos.size p)) as Ep by (by rewrite Pos2Z.inj_pow).
  lia.
Qed.

Lemma Zdigits2_unique m d : 0 < d -> 2 ^ (d - 1) <= m < 2 ^ d -> Zdigits2 m = d.
Proof.
  intros Hd Hm. assert (0 < m) by (pose proof (Z.pow_pos_nonneg 2 (d - 1)); lia).
  destruct (Zdigits2_bounds m) as [Hb Hp]; [done|].
  destruct (Z.lt_trichotomy (Zdigits2 m) d) as [H1|[H1|H1]]; [|done|].
  - assert (2 ^ Zdigits2 m <= 2 ^ (d - 1)) by (apply Z.pow_le_mono_r; lia). lia.
  - assert (2 ^ d <= 2 ^ (Zdigits2 m - 1)) by (apply Z.pow_le_mono_r; lia). lia.
Qed.

Lemma shr_1_m r : 0 <= shr_m r -> shr_m (shr_1 r) = shr_m r / 2.
Proof.
  destruct r as [m r s]. cbn. intros Hm. destruct m as [|p|p]; [done| |lia].
  destruct p as [p|p|]; cbn; Z.to_euclidean_division_equations; lia.
Qed.

Lemma iter_shr p : forall r, 0 <= shr_m r -> shr_m (iter_pos shr_1 p r) = shr_m r / 2 ^ Zpos p.
Proof.
  assert (Hnn : forall r, 0 <= shr_m r -> 0 <= shr_m (shr_1 r))
    by (intros r Hr; rewrite shr_1_m by done; apply Z.div_pos; lia).
  induction p as [p IH|p IH|]; intros r Hr; cbn [iter_pos].
  - assert (0 <= shr_m (iter_pos shr_1 p (shr_1 r))) by (rewrite IH by auto; apply Z.div_pos; auto; lia).
    rewrite !IH, shr_1_m by auto. rewrite !Zdiv_Zdiv by lia. f_equal.
    replace (Z.pos p~1) with (1 + Z.pos p + Z.pos p) by lia. rewrite !Z.pow_add_r by lia. lia.
  - assert (0 <= shr_m (iter_pos shr_1 p r)) by (rewrite IH by auto; apply Z.div_pos; lia).
    rewrite !IH by auto. rewrite Zdiv_Zdiv by lia. f_equal.
    replace (Z.pos p~0) with (Z.pos p + Z.pos p) by lia. by rewrite Z.pow_add_r by lia.
  - by rewrite shr_1_m.
Qed.

Lemma shr_shift m l e n : 0 <= m -> 0 <= n ->
  shr_m (shr (shr_record_of_loc m l) e n).1 = m / 2 ^ n /\ (shr (shr_record_of_loc m l) e n).2 = e + n.
Proof.
  intros Hm Hn. assert (Hr : shr_m (shr_record_of_loc m l) = m) by (by destruct l as [|[]]).
  unfold shr. destruct n as [|p|p]; [|cbn [fst snd]|lia].
  - cbn. rewrite Hr, Z.div_1_r. lia.
  - rewrite iter_shr, Hr by lia. done.
Qed.

Lemma round_near q l : q <= round_nearest_even q l <= q + 1.
Proof. unfold round_nearest_even. repeat case_match; lia. Qed.

(** A mantissa with more than 53 bits is rounded to a neighbour with 53; [n]
    bits are dropped. *)
Lemma round_aux_spec mx ex : 0 < mx -> 53 <= Zdigits2 mx -> - 1074 <= Zdigits2 mx + ex - 53 ->
  let n := Zdigits2 mx - 53 in
  exists q m e, q = mx / 2 ^ n /\ ex <= e /\
    (Zpos m * 2 ^ (e - ex) = q * 2 ^ n \/ Zpos m * 2 ^ (e - ex) = (q + 1) * 2 ^ n) /\
    binary_round_aux prec emax false mx ex loc_Exact
      = if e <=? emax - prec then S754_finite false m e else S754_infinity false.
Proof.
  intros Hm Hd He. cbv zeta. destruct (Zdigits2_bounds mx Hm) as [Hb _].
  set (n := Zdigits2 mx - 53) in *. set (q := mx / 2 ^ n).
  assert (Hq : 2 ^ 52 <= q < 2 ^ 53).
  { assert (2 ^ (Zdigits2 mx - 1) = 2 ^ 52 * 2 ^ n) by (rewrite <- Z.pow_add_r by lia; f_equal; lia).
    assert (2 ^ Zdigits2 mx = 2 ^ 53 * 2 ^ n) by (rewrite <- Z.pow_add_r by lia; f_equal; lia).
    split; [apply Z.div_le_lower_bound | apply Z.div_lt_upper_bound]; lia. }
  unfold binary_round_aux, shr_fexp.
  assert (Hf : fexp prec emax (Zdigits2 mx + ex) - ex = n) by (unfold fexp, emin, prec, emax; lia).
  rewrite Hf. destruct (shr_shift mx loc_Exact ex n) as [E1 E2]; [lia | lia |].
  destruct (shr (shr_record_of_loc mx loc_Exact) ex n) as [r e1]. cbn [fst snd] in E1, E2. subst e1.
  rewrite E1. fold q. pose proof (round_near q (loc_of_shr_record r)) as Hr.
  set (m1 := round_nearest_even q (loc_of_shr_record r)) in *.
  assert (Hm1 : m1 = q \/ m1 = q + 1) by lia. clearbody m1. clear Hr E1 r.
  destruct (decide (m1 = 2 ^ 53)) as [Ef|Ef].
  - (* the mantissa overflows into a 54th bit *)
    rewrite Ef. rewrite (Zdigits2_unique (2 ^ 53) 54) by lia.
    replace (fexp prec emax (54 + (ex + n)) - (ex + n)) with 1 by (unfold fexp, emin, prec, emax; lia).
    cbn [shr shr_record_of_loc iter_pos].
    exists q, 4503599627370496%positive, (ex + n + 1). split_and!; [done | lia | | done].
    replace (ex + n + 1 - ex) with (n + 1) by lia. rewrite Z.pow_add_r by lia. lia.
  - rewrite (Zdigits2_unique m1 53) by lia.
    replace (fexp prec emax (53 + (ex + n)) - (ex + n)) with 0 by (unfold fexp, emin, prec, emax; lia).
    cbn [shr shr_record_of_loc shr_m]. destruct m1 as [|m|m]; [lia | | lia].
    exists q, m, (ex + n). split_and!; [done | lia | | done].
    replace (ex + n - ex) with n by lia. destruct Hm1 as [-> | ->]; auto.
Qed.

Lemma round_aux_exact m ex : Zdigits2 (Zpos m) = 53 -> -1074 <= ex <= 971 ->
  binary_round_aux prec emax false (Zpos m) ex loc_Exact = S754_finite false m ex.
Proof.
  intros Hd He. unfold binary_round_aux, shr_fexp.
  assert (Hf : fexp prec emax (Zdigits2 (Zpos m) + ex) - ex = 0)
    by (unfold fexp, emin, prec, emax; lia).
  rewrite Hf. cbn [shr shr_record_of_loc shr_m loc_of_shr_record round_nearest_even].
  rewrite Hf. cbn [shr shr_record_of_loc shr_m].
  unfold emax, prec. destruct (Z.leb_spec ex (1024 - 53)); [done | lia].
Qed.

Lemma iter_xO_eq t : forall m, Zpos (Pos.iter xO m t) = Zpos m * 2 ^ Zpos t.
Proof.
  induction t as [|t IH] using Pos.peano_ind; intros m; [cbn; lia|].
  rewrite Pos.iter_succ, Pos2Z.inj_succ, Z.pow_succ_r by lia.
  rewrite (Pos2Z.pos_xO (Pos.iter xO m t)), IH. lia.
Qed.

(** An integer below 2^53 converts exactly, to a mantissa of 53 bits. *)
Lemma of_int_exact w : 0 < w < 2 ^ 53 -> exists m e,
  of_int w = S754_finite false m e /\ -52 <= e <= 0 /\
  Zpos m = w * 2 ^ (- e) /\ Zdigits2 (Zpos m) = 53.
Proof.
  intros Hw. destruct (Zdigits2_bounds w) as [Hb Hp]; [lia|].
  destruct w as [|p|p]; try lia. unfold of_int, binary_normalize, binary_round, shl_align.
  set (d := Zdigits2 (Zpos p)) in *. assert (Hd : d <= 53).
  { destruct (decide (d <= 53)) as [|Hn]; [done|].
    assert (2 ^ 53 <= 2 ^ (d - 1)) by (apply Z.pow_le_mono_r; lia). lia. }
  assert (Zpos (digits2_pos p) = d) as Ed by done.
  replace (fexp prec emax (Zpos (digits2_pos p) + 0) - 0) with (d - 53)
    by (unfold fexp, emin, prec, emax; lia).
  destruct (d - 53) as [|t|t] eqn:E; [| lia |].
  - exists p, 0. assert (d = 53) by lia. rewrite round_aux_exact by (done || lia). split_and!; try done; lia.
  - assert (Hdig : Zdigits2 (Zpos (Pos.iter xO p t)) = 53).
    { apply Zdigits2_unique; [lia|]. rewrite iter_xO_eq.
      replace (2 ^ (53 - 1)) with (2 ^ (d - 1) * 2 ^ Zpos t) by (rewrite <- Z.pow_add_r by lia; f_equal; lia).
      replace (2 ^ 53) with (2 ^ d * 2 ^ Zpos t) by (rewrite <- Z.pow_add_r by lia; f_equal; lia).
      nia. }
    exists (Pos.iter xO p t), (fexp prec emax (Zpos (digits2_pos p) + 0)).
    assert (Hfe : fexp prec emax (Zpos (digits2_pos p) + 0) = Z.neg t)
      by (unfold fexp, emin, prec, emax; lia).
    rewrite Hfe, round_aux_exact by (done || lia). split_and!; try done; [lia|].
    by rewrite iter_xO_eq.
Qed.

(** The integer part on a finer scale. *)
Lemma trunc_scaled m e ex : ex <= e -> ex <= 0 ->
  trunc_pos m e = Zpos m * 2 ^ (e - ex) / 2 ^ (- ex).
Proof.
  intros He Hx. unfold trunc_pos. destruct (Z.le_gt_cases 0 e) as [H|H].
  - rewrite Z.shiftl_mul_pow2 by lia.
    replace (2 ^ (e - ex)) with (2 ^ e * 2 ^ (- ex)) by (rewrite <- Z.pow_add_r by lia; f_equal; lia).
    rewrite Z.mul_assoc, Z.div_mul; [done|]. apply Z.pow_nonzero; lia.
  - rewrite Z.shiftl_div_pow2 by lia.
    replace (2 ^ (- ex)) with (2 ^ (- e) * 2 ^ (e - ex)) by (rewrite <- Z.pow_add_r by lia; f_equal; lia).
    rewrite Z.div_mul_cancel_r; [done | apply Z.pow_nonzero; lia ..].
Qed.

(** The arithmetic of the next lemma: [V] is the product [w * S * b] up to an
    error [P], on a scale where one byte is [2^53 * S]. *)
Lemma seven_tenths_bounds w S P V r (b := 6305039478318694) :
  0 < w < 2 ^ 53 -> 0 < S -> 0 < P -> P * 2 ^ 52 <= w * S * b ->
  w * S * b - P <= V <= w * S * b + P ->
  r = V / (2 ^ 53 * S) -> 0 <= r < w /\ 7 * w - 30 <= 10 * r <= 7 * w + 14.
Proof.
  intros Hw HS HP Hsmall HV Hr.
  assert (HB : 0 < 2 ^ 53 * S) by lia.
  assert (HP2 : P < 2 * S * b) by nia.
  pose proof (Z.div_mod V (2 ^ 53 * S) ltac:(lia)) as Hd.
  pose proof (Z.mod_pos_bound V (2 ^ 53 * S) HB) as Hm. rewrite <- Hr in Hd.
  assert (Hlo : r * 2 ^ 53 < b * (w + 2)) by nia.
  assert (Hhi : b * (w - 2) < (r + 1) * 2 ^ 53) by nia.
  assert (Hlt : r * 2 ^ 53 * 2 ^ 52 <= w * b * (2 ^ 52 + 1)) by nia.
  assert (0 <= r) by (rewrite Hr; apply Z.div_pos; nia).
  unfold b in *. lia.
Qed.

(** Multiplying a window by 0.7 and truncating: strictly smaller, and within
    three bytes of seven tenths. *)
Lemma mul_seven_tenths w : 0 < w < 2 ^ 53 ->
  let r := to_int (fmul (of_int w) (S754_finite false 6305039478318694 (-53))) in
  0 <= r < w /\ 7 * w - 30 <= 10 * r <= 7 * w + 14.
Proof.
  intros Hw. cbv zeta. destruct (of_int_exact w Hw) as (m & e & -> & He & Hm & Hd).
  unfold fmul, SFmul. cbn [xorb]. set (b := 6305039478318694%positive).
  destruct (Zdigits2_bounds (Zpos m)) as [Hmb _]; [lia|]. rewrite Hd in Hmb.
  destruct (Zdigits2_bounds (Zpos (m * b))) as [Hpb _]; [lia|].
  assert (Hmul : Zpos (m * b) = Zpos m * Zpos b) by lia.
  set (D := Zdigits2 (Zpos (m * b))) in *.
  assert (HD : 104 < D < 108).
  { split; apply Z.nle_gt; intros Hn.
    - assert (2 ^ D <= 2 ^ 104) by (apply Z.pow_le_mono_r; lia). unfold b in *. lia.
    - assert (2 ^ 107 <= 2 ^ (D - 1)) by (apply Z.pow_le_mono_r; lia). unfold b in *. lia. }
  destruct (round_aux_spec (Zpos (m * b)) (e + -53)) as (q & m' & e' & Hq & He' & Hv & ->);
    [lia | fold D; lia | fold D; lia |].
  fold D in Hq, Hv. set (P := 2 ^ (D - 53)) in *.
  assert (HP : 0 < P) by (apply Z.pow_pos_nonneg; lia).
  assert (Hsmall : P * 2 ^ 52 <= Zpos (m * b)).
  { unfold P. rewrite <- Z.pow_add_r by lia. replace (D - 53 + 52) with (D - 1) by lia. lia. }
  pose proof (Z.div_mod (Zpos (m * b)) P ltac:(lia)) as Hdm.
  pose proof (Z.mod_pos_bound (Zpos (m * b)) P HP) as Hmod. rewrite <- Hq in Hdm.
  assert (HV : Zpos (m * b) - P <= Zpos m' * 2 ^ (e' - (e + -53)) <= Zpos (m * b) + P)
    by (destruct Hv; lia).
  assert (Hfin : e' <= 971).
  { destruct (decide (e' <= 971)); [done|]. exfalso.
    assert (2 ^ 110 <= 2 ^ (e' - (e + -53))) by (apply Z.pow_le_mono_r; lia).
    assert (2 ^ D <= 2 ^ 107) by (apply Z.pow_le_mono_r; lia). nia. }
  rewrite (proj2 (Z.leb_le e' (emax - prec))) by (unfold emax, prec; lia). cbn [to_int].
  rewrite (trunc_scaled m' e' (e + -53)) by lia.
  assert (Hbound : 0 <= Zpos m' * 2 ^ (e' - (e + -53)) / 2 ^ (- (e + -53)) < w /\
    7 * w - 30 <= 10 * (Zpos m' * 2 ^ (e' - (e + -53)) / 2 ^ (- (e + -53))) <= 7 * w + 14).
  { eapply (seven_tenths_bounds w (2 ^ (- e)) P); [done | apply Z.pow_pos_nonneg; lia | done | | |].
    - rewrite <- Hm. unfold b in Hmul. lia.
    - rewrite <- Hm. unfold b in Hmul. rewrite <- Hmul. exact HV.
    - f_equal. rewrite <- Z.pow_add_r by lia. f_equal. lia. }
  set (r := Zpos m' * 2 ^ (e' - (e + -53)) / 2 ^ (- (e + -53))) in *.
  rewrite (proj2 (Z.leb_le (- 2 ^ 63) r)), (proj2 (Z.ltb_lt r (2 ^ 63))) by lia. exact Hbound.
Qed.
