(* ===== verification/Pacing.v ===== *)
(** * Pacing (src/pacing.go)

    The token budget of [PacingController], computed in float64 as the source
    does. [now] is the clock's reading. *)

From S2P Require Import Prelude Constants Float64.
From Stdlib Require Import SpecFloat.

Record PacingController := MkPacer {
  rate : f64;
  budgetAtLastSend : f64;
  pacer_lastSendTime : Z
}.

Definition NewPacingController : PacingController := MkPacer Inf (S754_zero false) 0.

Definition PacingGain : f64 := S754_finite false 5629499534213120 (-52).
Definition PacingGainSlowStart : f64 := S754_finite false 4503599627370496 (-51).

Definition UpdateRate (cwnd srtt : Z) (slowStart : bool) (p : PacingController) : PacingController :=
  if srtt <=? 0 then MkPacer Inf (budgetAtLastSend p) (pacer_lastSendTime p)
  else
    let gain := if slowStart then PacingGainSlowStart else PacingGain in
    MkPacer (fdiv (fmul gain (of_int cwnd)) (Seconds srtt)) (budgetAtLastSend p)
      (pacer_lastSendTime p).

Definition maxBurst (p : PacingController) : f64 :=
  let burst := of_int (PacingBurstPackets * MaxDatagramSize) in
  if negb (is_inf (rate p)) then
    let byDelay := fmul (rate p) (Seconds MinPacingDelay) in
    if flt burst byDelay then byDelay else burst
  else burst.

Definition budget (now : Z) (p : PacingController) : f64 :=
  if pacer_lastSendTime p =? 0 then maxBurst p
  else
    let b := fadd (budgetAtLastSend p)
               (fmul (rate p) (Seconds (timeSub now (pacer_lastSendTime p)))) in
    if flt (maxBurst p) b then maxBurst p else b.

Definition TimeUntilSend (now : Z) (p : PacingController) : Z :=
  if is_inf (rate p) then 0
  else
    let short := fsub (of_int MaxDatagramSize) (budget now p) in
    if fle short (S754_zero false) then 0
    else
      let wait := to_int (fceil (fmul (fdiv short (rate p)) (of_int Second))) in
      if wait <? MinPacingDelay then MinPacingDelay else wait.

Definition PacerOnPacketSent (now packetSize : Z) (p : PacingController) : PacingController :=
  if is_inf (rate p) then p
  else MkPacer (rate p) (fsub (budget now p) (of_int packetSize)) now.

Definition PacingRate (p : PacingController) : f64 := rate p.

Definition Budget (now : Z) (p : PacingController) : f64 :=
  if is_inf (rate p) then rate p else budget now p.

(** ** The budget is capped and the waits are real *)

Lemma budget_capped now p : flt (maxBurst p) (budget now p) = false.
Proof.
  unfold budget. destruct (pacer_lastSendTime p =? 0); [apply flt_irrefl|]. cbv zeta.
  set (b := fadd _ _). destruct (flt (maxBurst p) b) eqn:E; [apply flt_irrefl | exact E].
Qed.

(** The budget never exceeds a burst, a wait the pacer asks for is either
    none or at least MinPacingDelay, and it asks for none exactly when it does
    not pace or the budget holds a full datagram. *)
Theorem pacer_bounds (now : Z) (p : PacingController) :
  flt (maxBurst p) (budget now p) = false /\
  (TimeUntilSend now p = 0 \/ MinPacingDelay <= TimeUntilSend now p) /\
  (TimeUntilSend now p = 0 <->
     is_inf (rate p) = true \/
     fle (fsub (of_int MaxDatagramSize) (budget now p)) (S754_zero false) = true).
Proof.
  split; [apply budget_capped|]. unfold TimeUntilSend. destruct (is_inf (rate p)); [tauto|].
  cbv zeta. destruct (fle _ _); [tauto|].
  set (w := to_int _). clearbody w. unfold MinPacingDelay, Millisecond.
  split; [destruct (Z.ltb_spec w 1000000); lia|].
  split; [destruct (Z.ltb_spec w 1000000); lia | intros [?|?]; done].
Qed.
