(* ===== verification/Congestion.v ===== *)
(** * Congestion control (src/congestion.go)

    RTT estimation, the CUBIC window, recovery epochs and the probe timeout of
    [CongestionController]. Integers are int64 with wrap-around; the CUBIC
    curve and the contraction are computed in float64 as in the source. [now]
    is the clock's reading. *)

From S2P Require Import Prelude Constants Float64 Pacing.
From Stdlib Require Import SpecFloat.

Record CongestionController := MkCC {
  cwnd : Z;
  ssthresh : Z;
  wMax : Z;
  k : f64;
  epochStart : Z;
  smoothedRtt : Z;
  rttVar : Z;
  minRtt : Z;
  latestRtt : Z;
  firstRttSample : bool;
  inflight : Z;
  inRecovery : bool;
  recoveryEndSeq : Z;
  ptoTimer : option Z;           (* when the armed timer fires *)
  ptoCount : Z;
  lastSendTime : Z;
  Pacer : PacingController
}.

Definition MaxInt : Z := 2 ^ 63 - 1.
Definition BetaCubic : f64 := S754_finite false 6305039478318694 (-53).
Definition CubicC : f64 := S754_finite false 7205759403792794 (-54).
(** [1 - BetaCubic], a constant expression: 0.3 rounded once. *)
Definition oneMinusBeta : f64 := S754_finite false 5404319552844595 (-54).

Definition NewCongestionController : CongestionController :=
  MkCC InitialCwnd MaxInt 0 (S754_zero false) 0 InitialRTT InitialRTTVar 0 0 true 0 false (-1)
    None 0 0 NewPacingController.

(** ** Field updates *)

Definition with_cwnd (cc : CongestionController) (w : Z) : CongestionController :=
  MkCC w (ssthresh cc) (wMax cc) (k cc) (epochStart cc) (smoothedRtt cc) (rttVar cc) (minRtt cc)
    (latestRtt cc) (firstRttSample cc) (inflight cc) (inRecovery cc) (recoveryEndSeq cc)
    (ptoTimer cc) (ptoCount cc) (lastSendTime cc) (Pacer cc).

Definition with_inflight (cc : CongestionController) (n : Z) : CongestionController :=
  MkCC (cwnd cc) (ssthresh cc) (wMax cc) (k cc) (epochStart cc) (smoothedRtt cc) (rttVar cc)
    (minRtt cc) (latestRtt cc) (firstRttSample cc) n (inRecovery cc) (recoveryEndSeq cc)
    (ptoTimer cc) (ptoCount cc) (lastSendTime cc) (Pacer cc).

Definition with_pto (cc : CongestionController) (t : option Z) (n last : Z) : CongestionController :=
  MkCC (cwnd cc) (ssthresh cc) (wMax cc) (k cc) (epochStart cc) (smoothedRtt cc) (rttVar cc)
    (minRtt cc) (latestRtt cc) (firstRttSample cc) (inflight cc) (inRecovery cc)
    (recoveryEndSeq cc) t n last (Pacer cc).

Definition with_rtt (cc : CongestionController) (srtt var mn latest : Z) : CongestionController :=
  MkCC (cwnd cc) (ssthresh cc) (wMax cc) (k cc) (epochStart cc) srtt var mn latest false
    (inflight cc) (inRecovery cc) (recoveryEndSeq cc) (ptoTimer cc) (ptoCount cc)
    (lastSendTime cc) (Pacer cc).

Definition with_recovery (cc : CongestionController) (r : bool) : CongestionController :=
  MkCC (cwnd cc) (ssthresh cc) (wMax cc) (k cc) (epochStart cc) (smoothedRtt cc) (rttVar cc)
    (minRtt cc) (latestRtt cc) (firstRttSample cc) (inflight cc) r (recoveryEndSeq cc)
    (ptoTimer cc) (ptoCount cc) (lastSendTime cc) (Pacer cc).

Definition with_epoch (cc : CongestionController) (t : Z) : CongestionController :=
  MkCC (cwnd cc) (ssthresh cc) (wMax cc) (k cc) t (smoothedRtt cc) (rttVar cc)
    (minRtt cc) (latestRtt cc) (firstRttSample cc) (inflight cc) (inRecovery cc)
    (recoveryEndSeq cc) (ptoTimer cc) (ptoCount cc) (lastSendTime cc) (Pacer cc).

Definition with_pacer (cc : CongestionController) (p : PacingController) : CongestionController :=
  MkCC (cwnd cc) (ssthresh cc) (wMax cc) (k cc) (epochStart cc) (smoothedRtt cc) (rttVar cc)
    (minRtt cc) (latestRtt cc) (firstRttSample cc) (inflight cc) (inRecovery cc)
    (recoveryEndSeq cc) (ptoTimer cc) (ptoCount cc) (lastSendTime cc) p.

(** ** Observers *)

Definition Cwnd (cc : CongestionController) : Z := cwnd cc.
Definition Ssthresh (cc : CongestionController) : Z := ssthresh cc.
Definition SmoothedRtt (cc : CongestionController) : Z := smoothedRtt cc.
Definition RttVar (cc : CongestionController) : Z := rttVar cc.
Definition LatestRtt (cc : CongestionController) : Z := latestRtt cc.
Definition MinRtt (cc : CongestionController) : Z := minRtt cc.
Definition Inflight (cc : CongestionController) : Z := inflight cc.
Definition InRecovery (cc : CongestionController) : bool := inRecovery cc.
Definition PTOCount (cc : CongestionController) : Z := ptoCount cc.
Definition HasRttSample (cc : CongestionController) : bool := negb (firstRttSample cc).

Definition pto (cc : CongestionController) : Z :=
  let v := 4 *i rttVar cc in
  let v := if v <? LossTimerGranularity then LossTimerGranularity else v in
  smoothedRtt cc +i v +i MaxAckDelay.

Definition PTO (cc : CongestionController) : Z := pto cc.

Definition nextPTO (cc : CongestionController) : Z :=
  let shift := if 20 <? ptoCount cc then 20 else ptoCount cc in
  i64 (Z.shiftl (pto cc) shift).

Definition PersistentCongestionDuration (cc : CongestionController) : Z :=
  pto cc *i PersistentCongestionThreshold.

Definition CCCanSend (cc : CongestionController) (bytes : Z) : bool :=
  (inflight cc +i bytes) <=? cwnd cc.

Definition Available (cc : CongestionController) : Z :=
  if cwnd cc <=? inflight cc then 0 else cwnd cc -i inflight cc.

(** ** The probe timeout *)

Definition armPtoTimer (now : Z) (cc : CongestionController) : CongestionController :=
  let wait := nextPTO cc in
  let wait :=
    if negb (lastSendTime cc =? 0) then
      let remaining := timeSub (lastSendTime cc + wait) now in
      if remaining <? wait then remaining else wait
    else wait in
  let wait := if wait <? LossTimerGranularity then LossTimerGranularity else wait in
  with_pto cc (Some (now + wait)) (ptoCount cc) (lastSendTime cc).

(** [onPtoTimeout] up to its callback [OnProbe] ... *)
Definition ptoFired (cc : CongestionController) : CongestionController :=
  with_pto cc None (ptoCount cc +i 1) (lastSendTime cc).

(** ... and after it. *)
Definition ptoRearm (now : Z) (cc : CongestionController) : CongestionController :=
  if (0 <? inflight cc) && bool_decide (ptoTimer cc = None)
  then with_pto cc (Some (now + nextPTO cc)) (ptoCount cc) now
  else cc.

Definition DestroyCC (cc : CongestionController) : CongestionController :=
  with_pto cc None (ptoCount cc) (lastSendTime cc).

(** ** Sending and acknowledgements *)

Definition OnPacketSent (now bytes : Z) (cc : CongestionController) : CongestionController :=
  let cc := with_inflight cc (inflight cc +i bytes) in
  armPtoTimer now (with_pto cc (ptoTimer cc) (ptoCount cc) now).

Definition updatePacingRate (cc : CongestionController) : CongestionController :=
  if firstRttSample cc then cc
  else with_pacer cc (UpdateRate (cwnd cc) (smoothedRtt cc) (cwnd cc <? ssthresh cc) (Pacer cc)).

Definition updateRtt (now sentTime ackDelay : Z) (cc : CongestionController)
    : CongestionController :=
  let latest := timeSub now sentTime in
  if latest <? 0 then cc
  else if firstRttSample cc then with_rtt cc latest (latest /i 2) latest latest
  else
    let mn := if latest <? minRtt cc then latest else minRtt cc in
    let ackDelay := if MaxAckDelay <? ackDelay then MaxAckDelay else ackDelay in
    let latest := if (mn +i ackDelay) <=? latest then latest -i ackDelay else latest in
    let sample := smoothedRtt cc -i latest in
    let sample := if sample <? 0 then i64 (- sample) else sample in
    with_rtt cc ((7 *i smoothedRtt cc +i latest) /i 8) ((3 *i rttVar cc +i sample) /i 4) mn latest.

(** The CUBIC target in bytes, [t] nanoseconds into the epoch. *)
Definition cubicTarget (t : Z) (cc : CongestionController) : Z :=
  let wCubic := fadd (fmul CubicC (Pow3 (fsub (Seconds t) (k cc))))
                  (fdiv (of_int (wMax cc)) (of_int MaxDatagramSize)) in
  to_int (fmul wCubic (of_int MaxDatagramSize)).

Definition cubicUpdate (now bytes : Z) (cc : CongestionController) : CongestionController :=
  let cc := if epochStart cc =? 0 then with_epoch cc now else cc in
  let target := cubicTarget (timeSub now (epochStart cc)) cc in
  let wTcp := cwnd cc +i MaxDatagramSize *i bytes /i cwnd cc in
  if target <? wTcp then with_cwnd cc wTcp
  else if cwnd cc <? target then
    with_cwnd cc (cwnd cc +i (target -i cwnd cc) *i MaxDatagramSize /i cwnd cc)
  else with_cwnd cc (cwnd cc +i MaxDatagramSize *i bytes /i cwnd cc).

(** The window's part of [OnPacketAcked]: leave recovery, then grow. *)
Definition grow (now bytes largestAcked : Z) (cc : CongestionController) : CongestionController :=
  let cc := if inRecovery cc && (recoveryEndSeq cc <? largestAcked)
            then with_recovery cc false else cc in
  if negb (inRecovery cc) then
    if cwnd cc <? ssthresh cc then with_cwnd cc (cwnd cc +i bytes)
    else cubicUpdate now bytes cc
  else cc.

Definition OnPacketAcked (now bytes sentTime ackDelay : Z) (isNewCumulativeAck : bool)
    (largestAcked : Z) (cc : CongestionController) : CongestionController :=
  let left := inflight cc -i bytes in
  let cc := with_inflight cc (if left <? 0 then 0 else left) in
  let cc :=
    if isNewCumulativeAck
    then grow now bytes largestAcked (updateRtt now sentTime ackDelay cc)
    else cc in
  let cc := with_pto cc None 0 (lastSendTime cc) in
  let cc := if 0 <? inflight cc then armPtoTimer now cc else cc in
  updatePacingRate cc.

(** ** Loss *)

(** [lastSentSeqFn] is the packet manager's [LastSentSeq], absent before the
    connection sets it. *)
Definition OnCongestionEvent (now : Z) (lastSentSeqFn : option Z) (cc : CongestionController)
    : CongestionController :=
  if inRecovery cc then cc
  else
    let w := cwnd cc in
    let ss := to_int (fmul (of_int w) BetaCubic) in
    let ss := if ss <? MinCwnd then MinCwnd else ss in
    let diff := fdiv (fmul (fdiv (of_int w) (of_int MaxDatagramSize)) oneMinusBeta) CubicC in
    updatePacingRate
      (MkCC ss ss w (Cbrt diff) now (smoothedRtt cc) (rttVar cc) (minRtt cc) (latestRtt cc)
         (firstRttSample cc) (inflight cc) true (default (recoveryEndSeq cc) lastSentSeqFn)
         (ptoTimer cc) (ptoCount cc) (lastSendTime cc) (Pacer cc)).

Definition OnPacketLost (now : Z) (lastSentSeqFn : option Z) (bytes : Z)
    (cc : CongestionController) : CongestionController :=
  let left := inflight cc -i bytes in
  OnCongestionEvent now lastSentSeqFn (with_inflight cc (if left <? 0 then 0 else left)).

Definition OnPersistentCongestion (cc : CongestionController) : CongestionController :=
  updatePacingRate
    (MkCC MinCwnd (ssthresh cc) (wMax cc) (k cc) 0 (smoothedRtt cc) (rttVar cc) (minRtt cc)
       (latestRtt cc) (firstRttSample cc) (inflight cc) false (-1) (ptoTimer cc) (ptoCount cc)
       (lastSendTime cc) (Pacer cc)).

Definition SetSmoothedRtt (d : Z) (cc : CongestionController) : CongestionController :=
  MkCC (cwnd cc) (ssthresh cc) (wMax cc) (k cc) (epochStart cc) d (rttVar cc) (minRtt cc)
    (latestRtt cc) (firstRttSample cc) (inflight cc) (inRecovery cc) (recoveryEndSeq cc)
    (ptoTimer cc) (ptoCount cc) (lastSendTime cc) (Pacer cc).

Definition SetRttVar (d : Z) (cc : CongestionController) : CongestionController :=
  MkCC (cwnd cc) (ssthresh cc) (wMax cc) (k cc) (epochStart cc) (smoothedRtt cc) d (minRtt cc)
    (latestRtt cc) (firstRttSample cc) (inflight cc) (inRecovery cc) (recoveryEndSeq cc)
    (ptoTimer cc) (ptoCount cc) (lastSendTime cc) (Pacer cc).

(** ** The window *)

Lemma updatePacingRate_eq cc : exists p, updatePacingRate cc = with_pacer cc p.
Proof. unfold updatePacingRate. destruct (firstRttSample cc); [exists (Pacer cc); by destruct cc | eauto]. Qed.

Lemma quot_bounds a b : 0 <= a -> 0 < b -> 0 <= Z.quot a b <= a.
Proof.
  intros Ha Hb. rewrite Z.quot_div_nonneg by lia. split; [apply Z.div_pos; lia|].
  apply Z.div_le_upper_bound; nia.
Qed.

(** The range in which the window's arithmetic does not wrap: what a window
    may be, what one acknowledgement covers, and where the CUBIC curve is. *)
Definition ack_in_range (now bytes : Z) (cc : CongestionController) : Prop :=
  0 <= bytes < 2 ^ 20 /\ cwnd cc < 2 ^ 52 /\
  forall t, t = timeSub now (if epochStart cc =? 0 then now else epochStart cc) ->
    cubicTarget t cc < 2 ^ 52.

Lemma cubicTarget_ext t cc cc' : wMax cc' = wMax cc -> k cc' = k cc ->
  cubicTarget t cc' = cubicTarget t cc.
Proof. intros E1 E2. unfold cubicTarget. by rewrite E1, E2. Qed.

Lemma cubicUpdate_grows now bytes cc : MinCwnd <= cwnd cc -> ack_in_range now bytes cc ->
  cwnd cc <= cwnd (cubicUpdate now bytes cc) <= 2 ^ 63 - 1.
Proof.
  intros Hw (Hb & Hmax & Ht). unfold cubicUpdate.
  set (cc' := if epochStart cc =? 0 then with_epoch cc now else cc).
  assert (Hc : cwnd cc' = cwnd cc) by (unfold cc'; by case_match).
  assert (Ht' : cubicTarget (timeSub now (epochStart cc')) cc' < 2 ^ 52).
  { unfold cc'. specialize (Ht _ eq_refl). destruct (epochStart cc =? 0); [|exact Ht].
    rewrite (cubicTarget_ext _ cc) by done. exact Ht. }
  set (target := cubicTarget _ _) in *. clearbody target. rewrite Hc.
  change MinCwnd with 2944 in Hw. change MaxDatagramSize with 1472.
  pose proof (quot_bounds (1472 * bytes) (cwnd cc)) as Hq. 
  pose proof (quot_bounds ((target - cwnd cc) * 1472) (cwnd cc)) as Hq2.
  assert (Z.quot (1472 * bytes) (cwnd cc) <= 1472 * bytes) by lia.
  nowrap. destruct (Z.ltb_spec target (cwnd cc + Z.quot (1472 * bytes) (cwnd cc))); cbn; [nowrap; lia|].
  destruct (Z.ltb_spec (cwnd cc) target); cbn; nowrap; lia.
Qed.

Lemma updateRtt_window now sent delay cc :
  let cc' := updateRtt now sent delay cc in
  cwnd cc' = cwnd cc /\ ssthresh cc' = ssthresh cc /\ epochStart cc' = epochStart cc /\
  wMax cc' = wMax cc /\ k cc' = k cc /\ inflight cc' = inflight cc /\
  inRecovery cc' = inRecovery cc /\ recoveryEndSeq cc' = recoveryEndSeq cc.
Proof. cbv zeta. unfold updateRtt. repeat case_match; done. Qed.

Lemma ack_in_range_ext now bytes cc cc' : cwnd cc' = cwnd cc -> epochStart cc' = epochStart cc ->
  wMax cc' = wMax cc -> k cc' = k cc -> ack_in_range now bytes cc -> ack_in_range now bytes cc'.
Proof.
  intros E1 E2 E3 E4 (Hb & Hw & Ht). split_and!; try lia. intros t. rewrite E2. intros Et.
  rewrite (cubicTarget_ext t cc cc') by done. auto.
Qed.

Lemma cubicUpdate_rest now bytes cc : let cc' := cubicUpdate now bytes cc in
  ssthresh cc' = ssthresh cc /\ inflight cc' = inflight cc /\ inRecovery cc' = inRecovery cc.
Proof. cbv zeta. unfold cubicUpdate. repeat case_match; done. Qed.

Lemma grow_spec now bytes la cc : MinCwnd <= cwnd cc -> ack_in_range now bytes cc ->
  let cc' := grow now bytes la cc in
  cwnd cc <= cwnd cc' /\ ssthresh cc' = ssthresh cc /\ inflight cc' = inflight cc /\
  (inRecovery cc' = true -> cwnd cc' = cwnd cc).
Proof.
  intros Hw Hr. cbv zeta. unfold grow.
  set (cc1 := if inRecovery cc && _ then _ else _).
  assert (Hr1 : ack_in_range now bytes cc1)
    by (apply (ack_in_range_ext _ _ cc); try done; unfold cc1; by case_match).
  assert (E : cwnd cc1 = cwnd cc /\ ssthresh cc1 = ssthresh cc /\ inflight cc1 = inflight cc)
    by (unfold cc1; by case_match).
  destruct E as (E1 & E2 & E3). clearbody cc1.
  destruct (inRecovery cc1) eqn:Hrec; cbn [negb]; [lia|].
  pose proof Hr1 as (Hb & Hmax & _). change MinCwnd with 2944 in *.
  destruct (Z.ltb_spec (cwnd cc1) (ssthresh cc1)).
  - cbn. nowrap. split_and!; try lia. congruence.
  - destruct (cubicUpdate_grows now bytes cc1) as [Hg _]; [change MinCwnd with 2944; lia | done |].
    destruct (cubicUpdate_rest now bytes cc1) as (R1 & R2 & R3).
    split_and!; try lia. congruence.
Qed.

Lemma armPtoTimer_eq now cc : exists t, armPtoTimer now cc = with_pto cc (Some t) (ptoCount cc) (lastSendTime cc)
  /\ now + LossTimerGranularity <= t <= now + Z.max LossTimerGranularity (nextPTO cc).
Proof.
  unfold armPtoTimer. eexists. split; [reflexivity|].
  set (w := nextPTO cc). destruct (negb (lastSendTime cc =? 0)); zcases; lia.
Qed.

(** [OnPacketAcked] as growth and timer. *)
Lemma OnPacketAcked_parts now bytes sent delay (new : bool) la cc :
  exists (cc1 : CongestionController) (t : option Z) (p : PacingController),
    cc1 = (if new then grow now bytes la (updateRtt now sent delay (with_inflight cc (Z.max 0 (inflight cc -i bytes))))
           else with_inflight cc (Z.max 0 (inflight cc -i bytes))) /\
    OnPacketAcked now bytes sent delay new la cc = with_pacer (with_pto cc1 t 0 (lastSendTime cc1)) p /\
    (t = None <-> inflight cc1 <= 0).
Proof.
  unfold OnPacketAcked. replace (if (inflight cc -i bytes) <? 0 then 0 else inflight cc -i bytes)
    with (Z.max 0 (inflight cc -i bytes)) by (zcases; lia).
  set (cc1 := if new then grow now bytes la _ else _). exists cc1.
  assert (Hi : inflight (with_pto cc1 None 0 (lastSendTime cc1)) = inflight cc1) by done. rewrite Hi.
  destruct (Z.ltb_spec 0 (inflight cc1)) as [H|H].
  - destruct (armPtoTimer_eq now (with_pto cc1 None 0 (lastSendTime cc1))) as (t & -> & _).
    match goal with |- context [updatePacingRate ?c] => destruct (updatePacingRate_eq c) as [p ->] end.
    exists (Some t), p. split_and!; [reflexivity | done | split; [done | lia]].
  - destruct (updatePacingRate_eq (with_pto cc1 None 0 (lastSendTime cc1))) as [p ->].
    exists None, p. split_and!; [reflexivity | done | split; [lia | done]].
Qed.

Record CC_ok (cc : CongestionController) : Prop := {
  cc_cwnd : MinCwnd <= cwnd cc;
  cc_ssthresh : MinCwnd <= ssthresh cc;
  cc_inflight : 0 <= inflight cc < 2 ^ 62
}.

(** The calls that change a controller. *)
Inductive cc_call :=
  | CallSent (now bytes : Z)
  | CallAcked (now bytes sent delay : Z) (new : bool) (la : Z)
  | CallLost (now : Z) (fn : option Z) (bytes : Z)
  | CallPersistent
  | CallPtoFired
  | CallPtoRearm (now : Z)
  | CallDestroy.

Definition cc_apply (call : cc_call) (cc : CongestionController) : CongestionController :=
  match call with
  | CallSent now bytes => OnPacketSent now bytes cc
  | CallAcked now bytes sent delay new la => OnPacketAcked now bytes sent delay new la cc
  | CallLost now fn bytes => OnPacketLost now fn bytes cc
  | CallPersistent => OnPersistentCongestion cc
  | CallPtoFired => ptoFired cc
  | CallPtoRearm now => ptoRearm now cc
  | CallDestroy => DestroyCC cc
  end.

Definition cc_run (calls : list cc_call) (cc : CongestionController) : CongestionController :=
  fold_left (fun cc call => cc_apply call cc) calls cc.

(** The code has no such guard: the call finds numbers its arithmetic is right
    for. Sizes are those of packets; for an acknowledgement see [ack_in_range]. *)
Definition cc_guard (call : cc_call) (cc : CongestionController) : Prop :=
  match call with
  | CallSent _ bytes => 0 <= bytes /\ inflight cc + bytes < 2 ^ 62
  | CallAcked now bytes _ _ _ _ => ack_in_range now bytes cc
  | CallLost _ _ bytes => 0 <= bytes < 2 ^ 20
  | _ => True
  end.

Fixpoint cc_in_range (calls : list cc_call) (cc : CongestionController) : Prop :=
  match calls with
  | [] => True
  | call :: calls => cc_guard call cc /\ cc_in_range calls (cc_apply call cc)
  end.

(** A call within that range. *)
Inductive cc_step : CongestionController -> CongestionController -> Prop :=
  | cc_called call cc : cc_guard call cc -> cc_step cc (cc_apply call cc).

Inductive cc_reach : CongestionController -> Prop :=
  | cc_reach_new : cc_reach NewCongestionController
  | cc_reach_step cc cc' : cc_reach cc -> cc_step cc cc' -> cc_reach cc'.

Lemma leave_flight cc bytes : CC_ok cc -> 0 <= bytes < 2 ^ 62 ->
  Z.max 0 (inflight cc -i bytes) = Z.max 0 (inflight cc - bytes).
Proof. intros [] Hb. nowrap. done. Qed.

(** The contraction: to seven tenths, never below the minimum. *)
Lemma OnCongestionEvent_eq now fn cc : inRecovery cc = false ->
  let ss := Z.max MinCwnd (to_int (fmul (of_int (cwnd cc)) BetaCubic)) in
  let cc' := OnCongestionEvent now fn cc in
  cwnd cc' = ss /\ ssthresh cc' = ss /\ inflight cc' = inflight cc /\ inRecovery cc' = true /\
  wMax cc' = cwnd cc /\ recoveryEndSeq cc' = default (recoveryEndSeq cc) fn.
Proof.
  intros Hr. cbv zeta. unfold OnCongestionEvent. rewrite Hr.
  match goal with |- context [updatePacingRate ?c] => destruct (updatePacingRate_eq c) as [p ->] end.
  cbn [cwnd ssthresh inflight inRecovery wMax recoveryEndSeq with_pacer].
  set (s := to_int _). split_and!; try done; zcases; lia.
Qed.

Lemma OnCongestionEvent_absorbed now fn cc : inRecovery cc = true -> OnCongestionEvent now fn cc = cc.
Proof. intros Hr. unfold OnCongestionEvent. by rewrite Hr. Qed.

Lemma OnPacketLost_eq now fn bytes cc : CC_ok cc -> 0 <= bytes < 2 ^ 20 ->
  OnPacketLost now fn bytes cc
  = OnCongestionEvent now fn (with_inflight cc (Z.max 0 (inflight cc - bytes))).
Proof.
  intros Hok Hb. unfold OnPacketLost. f_equal. f_equal.
  rewrite <- (leave_flight cc bytes) by (done || lia). zcases; lia.
Qed.

Lemma OnCongestionEvent_ok now fn cc : CC_ok cc -> CC_ok (OnCongestionEvent now fn cc).
Proof.
  intros Hok. destruct (inRecovery cc) eqn:E; [by rewrite OnCongestionEvent_absorbed|].
  destruct (OnCongestionEvent_eq now fn cc E) as (E1 & E2 & E3 & _). destruct Hok.
  split; rewrite ?E1, ?E2, ?E3; lia.
Qed.

Lemma with_inflight_ok cc n : CC_ok cc -> 0 <= n < 2 ^ 62 -> CC_ok (with_inflight cc n).
Proof. intros [] Hn. by split. Qed.

Lemma OnPacketAcked_window now bytes sent delay new la cc : CC_ok cc -> ack_in_range now bytes cc ->
  let cc' := OnPacketAcked now bytes sent delay new la cc in
  cwnd cc <= cwnd cc' /\ ssthresh cc' = ssthresh cc /\
  inflight cc' = Z.max 0 (inflight cc - bytes) /\ ptoCount cc' = 0 /\
  (ptoTimer cc' = None <-> inflight cc' = 0) /\
  (inRecovery cc' = true -> cwnd cc' = cwnd cc).
Proof.
  intros Hok Hr. cbv zeta. pose proof Hr as (Hb & _).
  destruct (OnPacketAcked_parts now bytes sent delay new la cc) as (cc1 & t & p & E & -> & Ht).
  rewrite (leave_flight cc bytes Hok ltac:(lia)) in E.
  set (cc0 := with_inflight cc (Z.max 0 (inflight cc - bytes))) in *.
  cbn [cwnd ssthresh inflight ptoCount ptoTimer inRecovery with_pacer with_pto].
  assert (H : cwnd cc <= cwnd cc1 /\ ssthresh cc1 = ssthresh cc /\
    inflight cc1 = Z.max 0 (inflight cc - bytes) /\ (inRecovery cc1 = true -> cwnd cc1 = cwnd cc)).
  { subst cc1. destruct new; [|by split_and!].
    destruct (updateRtt_window now sent delay cc0) as (U1 & U2 & U3 & U4 & U5 & U6 & _ & _).
    destruct (grow_spec now bytes la (updateRtt now sent delay cc0)) as (G1 & G2 & G3 & G4).
    - rewrite U1. apply Hok.
    - by apply (ack_in_range_ext _ _ cc).
    - rewrite U1 in *. rewrite G2, G3, U2, U6. split_and!; done. }
  destruct H as (H1 & H2 & H3 & H4). split_and!; try done. rewrite Ht. lia.
Qed.

Lemma cc_step_ok cc cc' : cc_step cc cc' -> CC_ok cc -> CC_ok cc'.
Proof.
  intros Hstep Hok. destruct Hstep as [call cc Hg].
  destruct call as [now bytes|now bytes sent delay new la|now fn bytes| | |now|]; cbn [cc_apply cc_guard] in *.
  - destruct Hg as [Hb Hi]. unfold OnPacketSent. cbv zeta.
    match goal with |- context [armPtoTimer ?n ?c] => destruct (armPtoTimer_eq n c) as (t & -> & _) end.
    destruct Hok. split; cbn; try done. nowrap. lia.
  - destruct (OnPacketAcked_window now bytes sent delay new la cc Hok Hg) as (H1 & H2 & H3 & _).
    pose proof Hg as (Hb & _). destruct Hok. split; rewrite ?H2, ?H3; lia.
  - rewrite OnPacketLost_eq by done. apply OnCongestionEvent_ok, with_inflight_ok; [done|].
    destruct Hok. lia.
  - unfold OnPersistentCongestion.
    match goal with |- context [updatePacingRate ?c] => destruct (updatePacingRate_eq c) as [p ->] end.
    destruct Hok. by split.
  - destruct Hok. by split.
  - unfold ptoRearm. destruct Hok. case_match; by split.
  - destruct Hok. by split.
Qed.

Lemma cc_reach_ok cc : cc_reach cc -> CC_ok cc.
Proof. induction 1; [by split; vm_compute | by eapply cc_step_ok]. Qed.

Lemma cc_run_ok calls : forall cc, cc_in_range calls cc -> CC_ok cc -> CC_ok (cc_run calls cc).
Proof.
  induction calls as [|call calls IH]; intros cc Hr Hok; [done|]. destruct Hr as [Hg Hr]. cbn.
  apply IH; [done|]. by eapply cc_step_ok; [apply cc_called|].
Qed.

Definition Hour : Z := 3600 * Second.

(** A run of losses: the first contracts the window, the rest are absorbed. *)
Lemma losses_absorbed now fn losses : forall cc, CC_ok cc -> inRecovery cc = true ->
  Forall (fun b => 0 <= b < 2 ^ 20) losses ->
  let cc' := fold_left (fun cc b => OnPacketLost now fn b cc) losses cc in
  cwnd cc' = cwnd cc /\ ssthresh cc' = ssthresh cc /\ inRecovery cc' = true /\
  recoveryEndSeq cc' = recoveryEndSeq cc.
Proof.
  induction losses as [|b losses IH]; intros cc Hok Hr Hl; cbn [fold_left]; [done|].
  apply Forall_cons in Hl as [Hb Hl]. rewrite OnPacketLost_eq, OnCongestionEvent_absorbed by done.
  apply (IH (with_inflight cc (Z.max 0 (inflight cc - b)))); try done.
  apply with_inflight_ok; [done|]. destruct Hok. lia.
Qed.

(** ** Properties *)

(** C39. The window has a floor as long as its arithmetic does not overflow. For
    any sequence of calls, sends, acknowledgements, losses, persistent
    congestion and probe timeouts, in which every packet is smaller than 1 MiB
    and every acknowledgement finds the window and the CUBIC target below
    2^52, the window and the slow-start threshold stay at or above the minimum
    window and the bytes in flight never go negative. Nothing in the code keeps
    the CUBIC target there: two calls, a loss and an acknowledgement seven hours
    later, make the window negative. *)
Theorem window_floor :
  (forall calls, cc_in_range calls NewCongestionController ->
     let cc := cc_run calls NewCongestionController in
     MinCwnd <= Cwnd cc /\ MinCwnd <= Ssthresh cc /\ 0 <= Inflight cc) /\
  (let calls := [CallLost Second (Some 5) 1200; CallAcked (Second + 7 * Hour) 1200 (Second + 7 * Hour - 50 * Millisecond) 0 true 6] in
   Cwnd (cc_run calls NewCongestionController) < 0).
Proof.
  split; [|by vm_compute]. intros calls Hr. cbv zeta.
  destruct (cc_run_ok calls NewCongestionController Hr) as [H1 H2 H3]; [by split; vm_compute|].
  unfold Cwnd, Ssthresh, Inflight. lia.
Qed.

(** An acknowledgement never shrinks the window (in slow start, on the
    CUBIC curve or below it), leaves it alone during recovery, takes exactly
    its bytes out of flight, ends the probe backoff, and leaves the probe
    timer armed exactly when something is still in flight. *)
Theorem ack_never_shrinks (now bytes sent delay la : Z) (new : bool) (cc : CongestionController) :
  cc_reach cc -> ack_in_range now bytes cc ->
  let cc' := OnPacketAcked now bytes sent delay new la cc in
  Cwnd cc <= Cwnd cc' /\ (InRecovery cc' = true -> Cwnd cc' = Cwnd cc) /\
  Inflight cc' = Z.max 0 (Inflight cc - bytes) /\ PTOCount cc' = 0 /\
  (ptoTimer cc' = None <-> Inflight cc' = 0).
Proof.
  intros Hr Ha. cbv zeta.
  destruct (OnPacketAcked_window now bytes sent delay new la cc (cc_reach_ok cc Hr) Ha)
    as (H1 & _ & H3 & H4 & H5 & H6). unfold Cwnd, Inflight, InRecovery, PTOCount. tauto.
Qed.

(** C31. The window contracts once per recovery epoch: however many packets of
    one round trip are lost, the window after them is seven tenths of the
    window before (to within three bytes of rounding), or the minimum window,
    never more than before; and the epoch ends at the last sequence sent. *)
Theorem loss_contracts_once (now last : Z) (losses : list Z) (cc : CongestionController) :
  cc_reach cc -> inRecovery cc = false -> cwnd cc < 2 ^ 53 ->
  losses <> [] -> Forall (fun b => 0 <= b < 2 ^ 20) losses ->
  let cc' := fold_left (fun cc b => OnPacketLost now (Some last) b cc) losses cc in
  InRecovery cc' = true /\ recoveryEndSeq cc' = last /\ Ssthresh cc' = Cwnd cc' /\
  MinCwnd <= Cwnd cc' <= Cwnd cc /\
  (Cwnd cc' = MinCwnd \/ 7 * Cwnd cc - 30 <= 10 * Cwnd cc' <= 7 * Cwnd cc + 14).
Proof.
  intros Hr Hrec Hmax Hne Hl. cbv zeta. pose proof (cc_reach_ok cc Hr) as Hok.
  destruct losses as [|b losses]; [done|]. apply Forall_cons in Hl as [Hb Hl]. cbn [fold_left].
  rewrite OnPacketLost_eq by done.
  set (cc0 := with_inflight cc (Z.max 0 (inflight cc - b))).
  assert (Hok0 : CC_ok cc0) by (apply with_inflight_ok; [done | destruct Hok; lia]).
  destruct (OnCongestionEvent_eq now (Some last) cc0 Hrec) as (E1 & E2 & _ & E4 & _ & E6).
  destruct (losses_absorbed now (Some last) losses (OnCongestionEvent now (Some last) cc0)) as (L1 & L2 & L3 & L4);
    [by apply OnCongestionEvent_ok | done | done |].
  unfold Cwnd, Ssthresh, InRecovery. rewrite L1, L2, L4, E1, E2, E6. change (cwnd cc0) with (cwnd cc).
  pose proof (cc_cwnd _ Hok) as Hc. change MinCwnd with 2944 in *.
  destruct (mul_seven_tenths (cwnd cc)) as [M1 M2]; [lia|]. fold BetaCubic in M1, M2.
  split_and!; try done; lia.
Qed.

Lemma nextPTO_ext cc cc' : smoothedRtt cc = smoothedRtt cc' -> rttVar cc = rttVar cc' ->
  ptoCount cc = ptoCount cc' -> nextPTO cc = nextPTO cc'.
Proof. intros E1 E2 E3. unfold nextPTO, pto. by rewrite E1, E2, E3. Qed.

(** What the RTT estimator relies on: times below about a year. *)
Definition rtt_ok (cc : CongestionController) : Prop :=
  0 <= smoothedRtt cc < 2 ^ 55 /\ 0 <= rttVar cc < 2 ^ 55 /\ 0 <= minRtt cc < 2 ^ 55.

(** An RTT sample keeps the estimates sound: the minimum is the smallest
    sample seen, the sample corrected for the peer's delay never falls below
    it, the smoothed estimate moves between its old value and the sample, and
    the variation stays non-negative; the first sample replaces the initial
    estimates. *)
Theorem rtt_update_sound (now sent delay : Z) (cc : CongestionController) :
  rtt_ok cc -> 0 <= now - sent < 2 ^ 55 -> 0 <= delay < 2 ^ 55 ->
  let raw := now - sent in
  let cc' := updateRtt now sent delay cc in
  rtt_ok cc' /\ HasRttSample cc' = true /\
  (if firstRttSample cc
   then MinRtt cc' = raw /\ LatestRtt cc' = raw /\ SmoothedRtt cc' = raw /\ RttVar cc' = raw / 2
   else MinRtt cc' = Z.min (MinRtt cc) raw /\ MinRtt cc' <= LatestRtt cc' <= raw /\
        raw - MaxAckDelay <= LatestRtt cc' /\
        Z.min (SmoothedRtt cc) (LatestRtt cc') <= SmoothedRtt cc'
          <= Z.max (SmoothedRtt cc) (LatestRtt cc') /\
        RttVar cc' <= Z.max (RttVar cc) (Z.abs (SmoothedRtt cc - LatestRtt cc'))).
Proof.
  intros (Hs & Hv & Hm) Hr Hd. cbv zeta. unfold updateRtt, rtt_ok, HasRttSample, MinRtt, LatestRtt, SmoothedRtt, RttVar.
  rewrite timeSub_exact by lia. set (raw := now - sent) in *. clearbody raw.
  destruct (Z.ltb_spec raw 0); [lia|].
  destruct (firstRttSample cc) eqn:Ef; cbn.
  { rewrite Z.quot_div_nonneg by lia. pose proof (Z.div_pos raw 2). pose proof (Z.div_le_upper_bound raw 2 raw).
    nowrap. split_and!; try done; lia. }
  set (mn := if raw <? minRtt cc then raw else minRtt cc).
  assert (Hmn : mn = Z.min (minRtt cc) raw) by (unfold mn; zcases; lia). clearbody mn.
  change MaxAckDelay with 25000000.
  set (ad := if 25000000 <? delay then 25000000 else delay).
  assert (Had : 0 <= ad <= 25000000) by (unfold ad; zcases; lia). clearbody ad.
  rewrite (i64_small (mn + ad)), (i64_small (raw - ad)) by width.
  set (lt := if mn + ad <=? raw then raw - ad else raw).
  assert (Hlt : mn <= lt <= raw /\ raw - 25000000 <= lt) by (unfold lt; zcases; lia). clearbody lt.
  rewrite (i64_small (smoothedRtt cc - lt)) by width.
  set (sm := if smoothedRtt cc - lt <? 0 then _ else _).
  assert (Hsm : sm = Z.abs (smoothedRtt cc - lt)) by (unfold sm; zcases; nowrap; lia). clearbody sm.
  assert (Habs : 0 <= sm < 2 ^ 55) by lia.
  rewrite (i64_small (7 * smoothedRtt cc)), (i64_small (3 * rttVar cc)) by width.
  rewrite (i64_small (7 * smoothedRtt cc + lt)), (i64_small (3 * rttVar cc + sm)) by width.
  rewrite !Z.quot_div_nonneg by lia.
  assert (H8 : 8 * ((7 * smoothedRtt cc + lt) / 8) <= 7 * smoothedRtt cc + lt
    < 8 * ((7 * smoothedRtt cc + lt) / 8) + 8) by (Z.to_euclidean_division_equations; lia).
  assert (H4 : 4 * ((3 * rttVar cc + sm) / 4) <= 3 * rttVar cc + sm
    < 4 * ((3 * rttVar cc + sm) / 4) + 4) by (Z.to_euclidean_division_equations; lia).
  rewrite (i64_small ((7 * smoothedRtt cc + lt) / 8)), (i64_small ((3 * rttVar cc + sm) / 4)) by width.
  split_and!; try done; lia.
Qed.

(** The probe timeout backs off exponentially: a send arms the timer for
    smoothed RTT + max(4 * variation, granularity) + MaxAckDelay, doubled for
    every timeout since the last acknowledgement, up to twenty doublings. *)
Theorem pto_backoff (now bytes : Z) (cc : CongestionController) :
  0 < now -> 0 <= smoothedRtt cc < 2 ^ 38 -> 0 <= rttVar cc < 2 ^ 36 -> 0 <= ptoCount cc < 2 ^ 32 ->
  let base := smoothedRtt cc + Z.max (4 * rttVar cc) LossTimerGranularity + MaxAckDelay in
  let cc' := OnPacketSent now bytes cc in
  ptoTimer cc' = Some (now + base * 2 ^ Z.min 20 (ptoCount cc)) /\
  ptoTimer (OnPacketSent now bytes (ptoFired cc))
    = Some (now + base * 2 ^ Z.min 20 (ptoCount cc + 1)).
Proof.
  intros Hnow Hs Hv Hc. cbv zeta.
  assert (Hn : forall c, 0 <= ptoCount c < 2 ^ 33 -> smoothedRtt c = smoothedRtt cc -> rttVar c = rttVar cc ->
    nextPTO c = (smoothedRtt cc + Z.max (4 * rttVar cc) LossTimerGranularity + MaxAckDelay)
                * 2 ^ Z.min 20 (ptoCount c) /\ LossTimerGranularity <= nextPTO c < 2 ^ 62).
  { intros c Hcc E1 E2. unfold nextPTO, pto. rewrite E1, E2.
    change LossTimerGranularity with 1000000. change MaxAckDelay with 25000000.
    replace (if 20 <? ptoCount c then 20 else ptoCount c) with (Z.min 20 (ptoCount c)) by (zcases; lia).
    nowrap. replace (if 4 * rttVar cc <? 1000000 then 1000000 else 4 * rttVar cc)
      with (Z.max (4 * rttVar cc) 1000000) by (zcases; lia).
    nowrap. rewrite Z.shiftl_mul_pow2 by lia.
    assert (1 <= 2 ^ Z.min 20 (ptoCount c) <= 2 ^ 20)
      by (split; [apply (Z.pow_le_mono_r 2 0); lia | apply Z.pow_le_mono_r; lia]).
    rewrite i64_small by (unfold is_i64; nia). split; [done | nia]. }
  assert (Ha : forall c, LossTimerGranularity <= nextPTO c < 2 ^ 62 ->
    ptoTimer (OnPacketSent now bytes c) = Some (now + nextPTO c)).
  { intros c Hc'. unfold OnPacketSent, armPtoTimer. cbv zeta. cbn [ptoTimer with_pto lastSendTime].
    match goal with |- context [nextPTO ?x] => rewrite (nextPTO_ext x c) by done end.
    destruct (Z.eqb_spec now 0); [lia|]. cbn [negb]. change LossTimerGranularity with 1000000 in *.
    rewrite timeSub_exact by lia.
    replace (now + nextPTO c - now) with (nextPTO c) by lia. rewrite Z.ltb_irrefl.
    by rewrite (proj2 (Z.ltb_ge _ _)) by lia. }
  destruct (Hn cc) as [N1 N2]; [lia | done | done |].
  destruct (Hn (ptoFired cc)) as [N3 N4]; [cbn; nowrap; lia | done | done |].
  rewrite (Ha cc N2), (Ha (ptoFired cc) N4), N1, N3. cbn [ptoFired with_pto ptoCount].
  rewrite (i64_small (ptoCount cc + 1)) by width. done.
Qed.

(** ** The uncapped curve *)

(** A connection that has lost one packet with the initial window and left
    recovery. *)
Definition after_loss : CongestionController :=
  with_recovery (OnPacketLost 1000000000 (Some 5) 1200 NewCongestionController) false.

(** Nothing caps the CUBIC curve. An hour after its last loss one
    acknowledgement takes a connection's window from ten kilobytes to
    terabytes, a million times MaxCongestionWindow; seven hours after, the
    product in [cubicUpdate] overflows int64 and the window becomes negative,
    so that [CanSend] refuses every size. *)
Theorem cubic_curve_uncapped :
  Cwnd after_loss = 10304 /\
  Cwnd (cubicUpdate (1000000000 + Hour) 1200 after_loss) = 3918038085317 /\
  Cwnd (cubicUpdate (1000000000 + 7 * Hour) 1200 after_loss) < 0 /\
  CCCanSend (cubicUpdate (1000000000 + 7 * Hour) 1200 after_loss) 1 = false.
Proof. by vm_compute. Qed.

(** ** Witnesses *)

Definition sample_cc : CongestionController :=
  OnPacketSent 1000 1200 (OnPacketSent 900 1200 NewCongestionController).

Lemma sample_cc_reach : cc_reach sample_cc.
Proof.
  eapply cc_reach_step; [|apply (cc_called (CallSent 1000 1200)); split; by vm_compute].
  eapply cc_reach_step; [|apply (cc_called (CallSent 900 1200)); split; by vm_compute]. apply cc_reach_new.
Qed.

Lemma sample_in_range : ack_in_range 50000000 1200 sample_cc.
Proof.
  split_and!; [by vm_compute | by vm_compute | by vm_compute |].
  intros t ->. by vm_compute.
Qed.

(** Two packets, of which one is acknowledged and one lost. *)
Lemma window_floor_witness : MinCwnd <= Cwnd (cc_run [CallSent 900 1200; CallSent 1000 1200;
  CallAcked 50000000 1200 900 0 true 0; CallLost 60000000 (Some 1) 1200] NewCongestionController).
Proof.
  refine (proj1 (proj1 window_floor _ _)). cbn [cc_in_range cc_guard cc_apply]. split_and!; try done; try apply sample_in_range.
Defined.

Lemma ack_never_shrinks_witness :
  Cwnd sample_cc <= Cwnd (OnPacketAcked 50000000 1200 900 0 true 0 sample_cc).
Proof.
  refine (proj1 (ack_never_shrinks 50000000 1200 900 0 0 true sample_cc _ _));
    [apply sample_cc_reach | apply sample_in_range].
Defined.

Lemma loss_contracts_once_witness :
  MinCwnd <= Cwnd (fold_left (fun cc b => OnPacketLost 2000 (Some 1) b cc) [1200; 1200] sample_cc)
    <= Cwnd sample_cc.
Proof.
  refine (proj1 (proj2 (proj2 (proj2 (loss_contracts_once 2000 1 [1200; 1200] sample_cc _ _ _ _ _)))));
    [apply sample_cc_reach | by vm_compute | by vm_compute | done | repeat constructor; lia].
Defined.

Lemma rtt_update_sound_witness : SmoothedRtt (updateRtt 60000000 10000000 0 sample_cc) = 50000000.
Proof.
  destruct (rtt_update_sound 60000000 10000000 0 sample_cc) as (_ & _ & H);
    [by vm_compute | lia | lia |].
  change (firstRttSample sample_cc) with true in H. cbv iota in H. apply H.
Defined.

Lemma pto_backoff_witness :
  ptoTimer (OnPacketSent 1000 1200 NewCongestionController) = Some (1000 + 1024000000).
Proof.
  rewrite (proj1 (pto_backoff 1000 1200 NewCongestionController ltac:(lia) ltac:(by vm_compute)
    ltac:(by vm_compute) ltac:(by vm_compute))).
  by vm_compute.
Defined.
