(* ===== verification/Connection.v ===== *)
(** * Connections (src/connection.go)

    The state of a [Connection] and its operations: sending, acknowledging,
    the dispatch of received frames to the components, loss handling, path
    migration and the life cycle. The fields one mutex guards form a record of
    their own ([Acks] for ackMu, [Loss] for lostMu, [Path], [Life] and
    [StreamTable] for mu). Each operation reads the clock once, as [now]. An
    armed timer is its deadline. A stream pointer is its key in the stream
    table. Two fields are not the code's: [wire] is the log of what was handed
    to the socket, and [issued] counts the sequence numbers taken from the
    packet manager, without wrap-around; nothing computes with them. *)

From stdpp Require Import strings.
From S2P Require Import Prelude Constants Cid Frame Packet AckTracker FlowControl Mtud.
From S2P Require Import PacketManager Stream Pacing Congestion.

Inductive ConnectionState :=
  | ConnStateNew
  | ConnStateHandshaking
  | ConnStateEstablished
  | ConnStateClosing
  | ConnStateClosed.

#[export] Instance ConnectionState_eq_dec : EqDecision ConnectionState.
Proof. solve_decision. Defined.

(** [net.Addr], of which the code reads only [String()]. *)
Definition addr : Type := string.

Definition datagram : Type := list byte * option addr.

Record StreamTable := MkStreams {
  streams : gmap Z Stream;
  nextStreamID : Z;
  maxStreams : Z;
  incomingStreams : list Z           (* a channel of capacity 16 *)
}.

(** Receive-side acknowledgement state; the timer's callback carries the
    stream IDs of the packet that armed it. *)
Record Acks := MkAcks {
  recvd : recvTracker;
  ackPending : Z;
  ackTimer : option (Z * (Z * Z));
  largestArrival : Z
}.

Record Path := MkPath {
  remoteAddr : option addr;
  pathChallenge : list byte;
  pathChallengeResp : option (list byte);   (* a channel of capacity 1 *)
  pendingAddr : option addr;
  pendingChallenge : list byte;
  pendingSentAt : Z;
  bytesSent : Z;
  bytesReceived : Z;
  addrValidated : bool;
  migrations : list (list byte * addr)      (* the calls of InitiatePathMigration that
                                               wait: each one's challenge and newAddr *)
}.

Record Loss := MkLoss { lostQueue : list ptr; lostTimer : option Z }.

(** [closeOnce]: the close has begun; [closeCh]: the channel is closed;
    [closeReported]: [onClose] has been called. *)
Record Life := MkLife {
  connState : ConnectionState;
  lastActivity : Z;
  idleTimer : option Z;
  closeOnce : bool;
  closeCh : bool;
  closeReported : bool
}.

Record Connection := MkConn {
  localCID : ConnectionID;
  remoteCID : ConnectionID;
  localAddr : option addr;
  isInitiator : bool;
  sendFunc : bool;                   (* whether the function is set *)
  sendBatchFunc : bool;
  onClose : bool;
  table : StreamTable;
  c_cc : CongestionController;
  c_pm : PacketManager;
  c_fc : FlowController;
  c_mtu : MTUDiscovery;
  ackedLarge : bool;
  acks : Acks;
  path : Path;
  loss : Loss;
  life : Life;
  inbound : list Packet;             (* a channel of capacity inboundQueue *)
  inboundDropped : Z;
  wire : list datagram;              (* what went to the socket, in order *)
  issued : Z                         (* sequence numbers handed out so far *)
}.

(** ** Field updates *)

Definition set_table (t : StreamTable) (c : Connection) : Connection :=
  MkConn (localCID c) (remoteCID c) (localAddr c) (isInitiator c) (sendFunc c) (sendBatchFunc c)
    (onClose c) t (c_cc c) (c_pm c) (c_fc c) (c_mtu c) (ackedLarge c) (acks c) (path c) (loss c)
    (life c) (inbound c) (inboundDropped c) (wire c) (issued c).
Definition set_cc (x : CongestionController) (c : Connection) : Connection :=
  MkConn (localCID c) (remoteCID c) (localAddr c) (isInitiator c) (sendFunc c) (sendBatchFunc c)
    (onClose c) (table c) x (c_pm c) (c_fc c) (c_mtu c) (ackedLarge c) (acks c) (path c) (loss c)
    (life c) (inbound c) (inboundDropped c) (wire c) (issued c).
Definition set_pm (x : PacketManager) (c : Connection) : Connection :=
  MkConn (localCID c) (remoteCID c) (localAddr c) (isInitiator c) (sendFunc c) (sendBatchFunc c)
    (onClose c) (table c) (c_cc c) x (c_fc c) (c_mtu c) (ackedLarge c) (acks c) (path c) (loss c)
    (life c) (inbound c) (inboundDropped c) (wire c) (issued c).
Definition set_fc (x : FlowController) (c : Connection) : Connection :=
  MkConn (localCID c) (remoteCID c) (localAddr c) (isInitiator c) (sendFunc c) (sendBatchFunc c)
    (onClose c) (table c) (c_cc c) (c_pm c) x (c_mtu c) (ackedLarge c) (acks c) (path c) (loss c)
    (life c) (inbound c) (inboundDropped c) (wire c) (issued c).
Definition set_mtu (x : MTUDiscovery) (c : Connection) : Connection :=
  MkConn (localCID c) (remoteCID c) (localAddr c) (isInitiator c) (sendFunc c) (sendBatchFunc c)
    (onClose c) (table c) (c_cc c) (c_pm c) (c_fc c) x (ackedLarge c) (acks c) (path c) (loss c)
    (life c) (inbound c) (inboundDropped c) (wire c) (issued c).
Definition set_ackedLarge (x : bool) (c : Connection) : Connection :=
  MkConn (localCID c) (remoteCID c) (localAddr c) (isInitiator c) (sendFunc c) (sendBatchFunc c)
    (onClose c) (table c) (c_cc c) (c_pm c) (c_fc c) (c_mtu c) x (acks c) (path c) (loss c)
    (life c) (inbound c) (inboundDropped c) (wire c) (issued c).
Definition set_acks (x : Acks) (c : Connection) : Connection :=
  MkConn (localCID c) (remoteCID c) (localAddr c) (isInitiator c) (sendFunc c) (sendBatchFunc c)
    (onClose c) (table c) (c_cc c) (c_pm c) (c_fc c) (c_mtu c) (ackedLarge c) x (path c) (loss c)
    (life c) (inbound c) (inboundDropped c) (wire c) (issued c).
Definition set_path (x : Path) (c : Connection) : Connection :=
  MkConn (localCID c) (remoteCID c) (localAddr c) (isInitiator c) (sendFunc c) (sendBatchFunc c)
    (onClose c) (table c) (c_cc c) (c_pm c) (c_fc c) (c_mtu c) (ackedLarge c) (acks c) x (loss c)
    (life c) (inbound c) (inboundDropped c) (wire c) (issued c).
Definition set_loss (x : Loss) (c : Connection) : Connection :=
  MkConn (localCID c) (remoteCID c) (localAddr c) (isInitiator c) (sendFunc c) (sendBatchFunc c)
    (onClose c) (table c) (c_cc c) (c_pm c) (c_fc c) (c_mtu c) (ackedLarge c) (acks c) (path c) x
    (life c) (inbound c) (inboundDropped c) (wire c) (issued c).
Definition set_life (x : Life) (c : Connection) : Connection :=
  MkConn (localCID c) (remoteCID c) (localAddr c) (isInitiator c) (sendFunc c) (sendBatchFunc c)
    (onClose c) (table c) (c_cc c) (c_pm c) (c_fc c) (c_mtu c) (ackedLarge c) (acks c) (path c)
    (loss c) x (inbound c) (inboundDropped c) (wire c) (issued c).
Definition set_inbound (q : list Packet) (n : Z) (c : Connection) : Connection :=
  MkConn (localCID c) (remoteCID c) (localAddr c) (isInitiator c) (sendFunc c) (sendBatchFunc c)
    (onClose c) (table c) (c_cc c) (c_pm c) (c_fc c) (c_mtu c) (ackedLarge c) (acks c) (path c)
    (loss c) (life c) q n (wire c) (issued c).
Definition set_wire (w : list datagram) (c : Connection) : Connection :=
  MkConn (localCID c) (remoteCID c) (localAddr c) (isInitiator c) (sendFunc c) (sendBatchFunc c)
    (onClose c) (table c) (c_cc c) (c_pm c) (c_fc c) (c_mtu c) (ackedLarge c) (acks c) (path c)
    (loss c) (life c) (inbound c) (inboundDropped c) w (issued c).
Definition bump (c : Connection) : Connection :=
  MkConn (localCID c) (remoteCID c) (localAddr c) (isInitiator c) (sendFunc c) (sendBatchFunc c)
    (onClose c) (table c) (c_cc c) (c_pm c) (c_fc c) (c_mtu c) (ackedLarge c) (acks c) (path c)
    (loss c) (life c) (inbound c) (inboundDropped c) (wire c) (issued c + 1).

Definition with_bytes (sent received : Z) (p : Path) : Path :=
  MkPath (remoteAddr p) (pathChallenge p) (pathChallengeResp p) (pendingAddr p)
    (pendingChallenge p) (pendingSentAt p) sent received (addrValidated p) (migrations p).

Definition set_stream (id : Z) (s : Stream) (c : Connection) : Connection :=
  let t := table c in
  set_table (MkStreams (<[id := s]> (streams t)) (nextStreamID t) (maxStreams t)
    (incomingStreams t)) c.

(** ** Creation *)

Definition idleCheckInterval : Z := 1 * Second.

Definition armIdleCheck (now : Z) (c : Connection) : Connection :=
  let l := life c in
  if closeCh l then c
  else set_life (MkLife (connState l) (lastActivity l) (Some (now + idleCheckInterval))
    (closeOnce l) (closeCh l) (closeReported l)) c.

Definition startIdleTimer (now : Z) (c : Connection) : Connection :=
  let l := life c in
  armIdleCheck now (set_life (MkLife (connState l) now (idleTimer l) (closeOnce l) (closeCh l)
    (closeReported l)) c).

Definition zero8 : list byte := replicate 8 x00.

Definition NewConnection (now : Z) (local remote : ConnectionID) (laddr raddr : option addr)
    (initiator hasSend : bool) : Connection :=
  startIdleTimer now
    (MkConn local remote laddr initiator hasSend false false
       (MkStreams ∅ (if initiator then 1 else 2) InitialMaxStreams [])
       NewCongestionController NewPacketManager
       (NewFlowController InitialMaxData InitialMaxData) NewMTUDiscovery false
       (MkAcks newTracker 0 None 0)
       (MkPath raddr zero8 None None zero8 0 0 0 false [])
       (MkLoss [] None)
       (MkLife ConnStateNew 0 None false false false)
       [] 0 [] 0).

(** What the multiplexer sets on a connection it creates: batched writes, the
    close callback, the state, and the address as validated. *)
Definition establish (c : Connection) : Connection :=
  let p := path c in
  let l := life c in
  MkConn (localCID c) (remoteCID c) (localAddr c) (isInitiator c) (sendFunc c) true true (table c)
    (c_cc c) (c_pm c) (c_fc c) (c_mtu c) (ackedLarge c) (acks c)
    (MkPath (remoteAddr p) (pathChallenge p) (pathChallengeResp p) (pendingAddr p)
       (pendingChallenge p) (pendingSentAt p) (bytesSent p) (bytesReceived p) true (migrations p))
    (loss c)
    (MkLife ConnStateEstablished (lastActivity l) (idleTimer l) (closeOnce l) (closeCh l)
       (closeReported l))
    (inbound c) (inboundDropped c) (wire c) (issued c).

Inductive conn_error := ErrConnectionClosed | ErrMaxStreams | ErrContext.

Definition newStreamFC : option StreamFlowController :=
  Some (NewStreamFlowController InitialMaxStreamData InitialMaxStreamData).

(** [s := NewStream(...); s.conn = c], in the given state. *)
Definition attached (id remoteID : Z) (st : StreamState) : Stream :=
  let s := NewStream id remoteID newStreamFC in
  MkStream (ID s) (RemoteID s) st (resetCode s) (writeDeadline s) (recv s) (readDeadline s)
    (finReceived s) (finSeen s) (finalSize s) (streamFC s) true (BytesRead s) (BytesWritten s).

Definition OpenStream (c : Connection) : Connection * (Z + conn_error) :=
  if decide (connState (life c) = ConnStateClosed \/ connState (life c) = ConnStateClosing)
  then (c, inr ErrConnectionClosed)
  else
    let t := table c in
    if maxStreams t <=? Z.of_nat (size (streams t)) then (c, inr ErrMaxStreams)
    else
      let id := nextStreamID t in
      (set_table (MkStreams (<[id := attached id 0 StreamStateIdle]> (streams t)) (u32 (id + 2))
         (maxStreams t) (incomingStreams t)) c, inl id).

(** [AcceptStream] waits until one of three things is ready and takes any of
    the ready ones. *)
Inductive AcceptStream (ctxDone : bool) (c : Connection) : Connection -> Z + conn_error -> Prop :=
  | accept_stream id rest : incomingStreams (table c) = id :: rest ->
      AcceptStream ctxDone c
        (set_table (MkStreams (streams (table c)) (nextStreamID (table c)) (maxStreams (table c))
           rest) c) (inl id)
  | accept_ctx : ctxDone = true -> AcceptStream ctxDone c c (inr ErrContext)
  | accept_closed : closeCh (life c) = true -> AcceptStream ctxDone c c (inr ErrConnectionClosed).

Definition ConnState (c : Connection) : ConnectionState := connState (life c).
Definition peerAddr (c : Connection) : option addr := remoteAddr (path c).
Definition StreamCount (c : Connection) : nat := size (streams (table c)).
Definition MaxDatagram (c : Connection) : Z := Current (c_mtu c).
Definition LostQueueLen (c : Connection) : nat := length (lostQueue (loss c)).
Definition InboundDropped (c : Connection) : Z := inboundDropped c.

Definition LocalAddr (c : Connection) : option addr := localAddr c.
Definition RemoteAddr (c : Connection) : option addr := peerAddr c.

(** ** Sending *)

Definition stream_bears (f : StreamFrame) : bool :=
  (0 <? length (Data f))%nat || IsSyn f || IsFin f.

Definition bears_data (f : Frame) : bool :=
  match f with StreamF sf => stream_bears sf | _ => false end.

Definition isDataBearing (pkt : Packet) : bool := existsb bears_data (Frames pkt).

(** The packet literal of every send. *)
Definition outgoing (c : Connection) (seq dst src : Z) (frames : list Frame) : Packet :=
  MkPacket VersionCurrent (remoteCID c) (localCID c) seq dst src frames 0 false 0.

Definition encoded (c : Connection) (seq dst src : Z) (frames : list Frame) : list byte :=
  MarshalPacket (outgoing c seq dst src frames).

(** [if c.sendFunc != nil { c.sendFunc(data, addr) }] *)
Definition transmit (data : list byte) (to : option addr) (c : Connection) : Connection :=
  if sendFunc c then set_wire (wire c ++ [(data, to)]) c else c.

Definition add_sent (n : Z) (c : Connection) : Connection :=
  set_path (with_bytes (bytesSent (path c) +i n) (bytesReceived (path c)) (path c)) c.

(** Whether the anti-amplification limit forbids [n] more bytes. *)
Definition amplifies (n : Z) (c : Connection) : bool :=
  negb (addrValidated (path c))
  && (bytesReceived (path c) *i AmplificationFactor <? bytesSent (path c) +i n).

(** [NextSequence], the encoding under that number, the tracking and the
    booking of a data-bearing packet. *)
Definition track (now dst src : Z) (frames : list Frame) (c : Connection) : Connection :=
  let size := Z.of_nat (length (encoded c (nextSeq (c_pm c)) dst src frames)) in
  set_cc (OnPacketSent now size (c_cc c))
    (bump (set_pm (register now (c_pm c) (fresh_packet size frames dst src false)) c)).

Definition sendPacket (now dst src : Z) (frames : list Frame) (c : Connection) : Connection :=
  let hasData := existsb bears_data frames in
  let seq := if hasData then nextSeq (c_pm c) else 0 in
  let data := encoded c seq dst src frames in
  let n := Z.of_nat (length data) in
  let c := if hasData then track now dst src frames c else c in
  if amplifies n c then c
  else transmit data (peerAddr c) (add_sent n c).

Definition sendFrames (now : Z) (frames : list Frame) (c : Connection) : Connection :=
  sendPacket now 0 0 frames c.

Definition sendStreamFrame (now streamID remoteID offset : Z) (data : list byte)
    (isFin isSyn : bool) (c : Connection) : Connection :=
  sendPacket now remoteID streamID [StreamF (MkStreamFrame isFin isSyn offset data)] c.

Definition sendResetStream (now streamID remoteID errorCode : Z) (c : Connection) : Connection :=
  sendPacket now remoteID streamID [ResetStreamFrame errorCode] c.

Definition sendWindowUpdate (now streamID remoteID maxStreamData : Z) (c : Connection)
    : Connection :=
  sendPacket now remoteID streamID [WindowUpdateFrame (u32 maxStreamData)] c.

Definition sendStreamDataBlocked (now streamID remoteID limit : Z) (c : Connection) : Connection :=
  sendPacket now remoteID streamID [StreamDataBlockedFrame streamID (u64 limit)] c.

Definition Ping (now : Z) (c : Connection) : Connection := sendFrames now [PingFrame] c.

(** The chunking loop [sendStreamFrames] and [fitToPath] share: frames of at
    most [k] bytes from [offset] on, SYN on the first and, when [isFin], FIN
    on the last. Every round takes at least one byte when [k] is positive, so
    the length of the data is fuel enough. *)
Fixpoint chunk_frames (fuel k : nat) (offset : Z) (isSyn isFin : bool) (data : list byte)
    : list StreamFrame :=
  match fuel, data with
  | O, _ | _, [] => []
  | S fuel, _ =>
      let n := Nat.min k (length data) in
      MkStreamFrame (isFin && (n =? length data)%nat) isSyn offset (take n data)
      :: chunk_frames fuel k (u64 (offset + Z.of_nat n)) false isFin (drop n data)
  end.

Definition prepareDataPacket (now dst src : Z) (frames : list Frame) (c : Connection)
    : Connection * option (list byte) :=
  let data := encoded c (nextSeq (c_pm c)) dst src frames in
  let n := Z.of_nat (length data) in
  let c := track now dst src frames c in
  let c := set_cc (with_pacer (c_cc c) (PacerOnPacketSent now n (Pacer (c_cc c)))) c in
  if amplifies n c then (c, None) else (add_sent n c, Some data).

Definition writeDatagrams (bufs : list (list byte)) (c : Connection) : Connection :=
  if (sendBatchFunc c && (1 <? length bufs)%nat) || sendFunc c
  then set_wire (wire c ++ ((fun b => (b, peerAddr c)) <$> bufs)) c
  else c.

Definition prepare_all (now remoteID streamID : Z) (st : Connection * list (list byte))
    (f : StreamFrame) : Connection * list (list byte) :=
  let '(c, bufs) := st in
  let '(c, buf) := prepareDataPacket now remoteID streamID [StreamF f] c in
  (c, match buf with Some b => bufs ++ [b] | None => bufs end).

Definition sendStreamFrames (now streamID remoteID offset : Z) (data : list byte) (chunkSize : Z)
    (isSyn : bool) (c : Connection) : Connection :=
  let frames := chunk_frames (length data) (Z.to_nat chunkSize) offset isSyn false data in
  let '(c, bufs) := fold_left (prepare_all now remoteID streamID) frames (c, []) in
  writeDatagrams bufs c.

(** Carrying out the calls a stream made on its connection. *)
Definition exec_call (now : Z) (c : Connection) (call : conn_call) : Connection :=
  match call with
  | SendStreamFrame id rid offset data isFin isSyn => sendStreamFrame now id rid offset data isFin isSyn c
  | SendStreamFrames id rid offset data chunk isSyn => sendStreamFrames now id rid offset data chunk isSyn c
  | SendResetStream id rid code => sendResetStream now id rid code c
  | SendWindowUpdate id rid limit => sendWindowUpdate now id rid limit c
  | SendStreamDataBlocked id rid limit => sendStreamDataBlocked now id rid limit c
  end.

Definition exec_calls (now : Z) (calls : list conn_call) (c : Connection) : Connection :=
  fold_left (exec_call now) calls c.

(** ** Send credit

    One pass of the wait loop of [awaitSendCredit]: stop, go ahead, or wait
    (until the time has passed or an acknowledgement wakes the caller) and
    look again. *)

Inductive credit := CreditNo | CreditYes | CreditWait (wait : Z).

Definition awaitSendCredit (now size deadline : Z) (c : Connection) : credit :=
  if closeCh (life c) then CreditNo
  else if expired now deadline then CreditNo
  else
    let wait := TimeUntilSend now (Pacer (c_cc c)) in
    if (wait <=? 0) && CCCanSend (c_cc c) size then CreditYes
    else CreditWait (if (wait <=? 0) || (sendCreditPollInterval <? wait)
                     then sendCreditPollInterval else wait).

(** What [awaitSendCreditUpTo] grants once the wait has ended in success. *)
Definition granted (minSize maxSize : Z) (c : Connection) : Z :=
  let granted := Available (c_cc c) in
  let granted := if maxSize <? granted then maxSize else granted in
  if granted <? minSize then minSize else granted.

(** The call, once its wait has ended: the size that may be sent and whether
    any. *)
Definition awaitSendCreditUpTo (now minSize maxSize deadline : Z) (c : Connection) : option (Z * bool) :=
  match awaitSendCredit now minSize deadline c with
  | CreditNo => Some (0, false)
  | CreditYes => Some (granted minSize maxSize c, true)
  | CreditWait _ => None
  end.

(** ** Acknowledging *)

Definition takeAckLocked (now : Z) (a : Acks) : Acks * AckFrame :=
  let a := MkAcks (recvd a) 0 None (largestArrival a) in
  let delay :=
    if negb (largestArrival a =? 0) then
      let d := timeSub now (largestArrival a) /i Millisecond in
      if 0 <? d then u16 (if 65535 <? d then 65535 else d) else 0
    else 0 in
  (a, AckTracker.frame (recvd a) delay).

Definition is_probe_frame (f : Frame) : bool :=
  match f with PingFrame | MTUProbeFrame _ => true | _ => false end.

(** A frame whose packet is acknowledged at once. *)
Definition is_edge (f : Frame) : bool :=
  match f with StreamF sf => IsSyn sf || IsFin sf | _ => is_probe_frame f end.

Definition isNumberedProbe (pkt : Packet) : bool :=
  if Sequence pkt =? 0 then false else existsb is_probe_frame (Frames pkt).

Definition ack_delay (srtt : Z) : Z :=
  let delay := srtt /i 4 in
  let delay := if delay <? MinAckDelay then MinAckDelay else delay in
  if MaxAckDelay <? delay then MaxAckDelay else delay.

Definition noteReceived (now : Z) (pkt : Packet) (c : Connection) : Connection :=
  let edge := existsb is_edge (Frames pkt) in
  let a := acks c in
  let '(r, outOfOrder) := AckTracker.add (recvd a) (Sequence pkt) in
  let arrival := if negb (any (recvd a)) || negb (largest r =? largest (recvd a))
                 then now else largestArrival a in
  let a := MkAcks r (ackPending a +i 1) (ackTimer a) arrival in
  if outOfOrder || edge || (AckElicitingThreshold <=? ackPending a) then
    let '(a, frame) := takeAckLocked now a in
    sendPacket now (SourceStreamID pkt) (DestinationStreamID pkt) [AckF frame] (set_acks a c)
  else
    let timer :=
      match ackTimer a with
      | None => Some (now + ack_delay (SmoothedRtt (c_cc c)),
                      (SourceStreamID pkt, DestinationStreamID pkt))
      | Some t => Some t
      end in
    set_acks (MkAcks (recvd a) (ackPending a) timer (largestArrival a)) c.

Definition ackTimerFired (now src dst : Z) (c : Connection) : Connection :=
  let a := acks c in
  let a := MkAcks (recvd a) (ackPending a) None (largestArrival a) in
  if ackPending a =? 0 then set_acks a c
  else
    let '(a, frame) := takeAckLocked now a in
    sendPacket now src dst [AckF frame] (set_acks a c).

Definition buildAckFrame (latestSeq : Z) (c : Connection) : Connection * AckFrame :=
  let a := acks c in
  let r := (AckTracker.add (recvd a) latestSeq).1 in
  (set_acks (MkAcks r (ackPending a) (ackTimer a) (largestArrival a)) c, AckTracker.frame r 0).

(** ** Loss *)

Definition retransmitPacket (p : ptr) (seq : Z) (c : Connection) : Connection :=
  let v := deref (c_pm c) p in
  let data := encoded c seq (sp_DestinationStreamID v) (sp_SourceStreamID v) (sp_Frames v) in
  transmit data (peerAddr c) (add_sent (Z.of_nat (length data)) c).

Definition alloc_all (vs : list SentPacket) (pm : PacketManager) : PacketManager * list ptr :=
  fold_left (fun st v => let '(p, pm) := alloc st.1 v in (pm, st.2 ++ [p])) vs (pm, []).

(** The size of a packet of [p]'s stream with one frame. *)
Definition size_with (c : Connection) (v : SentPacket) (f : StreamFrame) : Z :=
  Z.of_nat (length (encoded c 0 (sp_DestinationStreamID v) (sp_SourceStreamID v) [StreamF f])).

(** A piece of a packet that is split: the SentPacket literal of [fitToPath]. *)
Definition piece_packet (c : Connection) (v : SentPacket) (f : StreamFrame) : SentPacket :=
  MkSentPacket 0 0 (sp_FirstSentTime v) (size_with c v f) false [StreamF f]
    (sp_DestinationStreamID v) (sp_SourceStreamID v) (sp_RetransmitCount v) false 0.

Definition fitToPath (p : ptr) (c : Connection) : Connection * list ptr :=
  let v := deref (c_pm c) p in
  let limit := Current (c_mtu c) in
  match sp_Frames v with
  | [StreamF sf] =>
      let piece := limit - size_with c v (MkStreamFrame false (IsSyn sf) (Offset sf) []) in
      if (sp_Size v <=? limit) || (piece <=? 0) || (Z.of_nat (length (Data sf)) <=? piece)
      then (c, [p])
      else
        let frames := chunk_frames (length (Data sf)) (Z.to_nat piece) (Offset sf) (IsSyn sf)
          (IsFin sf) (Data sf) in
        let '(pm, pieces) := alloc_all (piece_packet c v <$> frames) (Drop (c_pm c) p) in
        (set_pm pm c, pieces)
  | _ => (c, [p])
  end.

Definition set_queue (q : list ptr) (t : option Z) (c : Connection) : Connection :=
  set_loss (MkLoss q t) c.

(** The bytes of the frames of a packet that can still be split. *)
Definition splittable (v : SentPacket) : nat :=
  match sp_Frames v with [StreamF sf] => length (Data sf) | _ => O end.

(** A round of the loop of [flushLost] on the queue [p :: rest], and whether
    the loop goes on. A round that does removes a packet from the queue or
    replaces one by pieces that fit the path. *)
Definition flush_round (now : Z) (p : ptr) (rest : list ptr) (c : Connection) : Connection * bool :=
  if closeCh (life c) then (set_queue [] (lostTimer (loss c)) c, false)
  else
    let v := deref (c_pm c) p in
    if sp_IsAcked v then (set_queue rest (lostTimer (loss c)) c, true)
    else
      let '(c1, pieces) := if Current (c_mtu c) <? sp_Size v then fitToPath p c else (c, []) in
      if (1 <? length pieces)%nat
      then (set_queue (pieces ++ rest) (lostTimer (loss c1)) c1, true)
      else
        let wait := TimeUntilSend now (Pacer (c_cc c1)) in
        if 0 <? wait then (set_queue (p :: rest) (Some (now + wait)) c1, false)
        else if negb (CCCanSend (c_cc c1) (sp_Size v)) then (c1, false)
        else
          let c2 := set_queue rest (lostTimer (loss c1)) c1 in
          let '(pm, (seq, ok)) := Resend now (c_pm c2) p in
          let c3 := set_pm pm c2 in
          if negb ok then (c3, true)
          else
            let cc := OnPacketSent now (sp_Size v) (c_cc c3) in
            let cc := with_pacer cc (PacerOnPacketSent now (sp_Size v) (Pacer cc)) in
            (retransmitPacket p seq (set_cc cc (bump c3)), true).

(** The loop; [None] when the fuel runs out. *)
Fixpoint flush_loop (fuel : nat) (now : Z) (c : Connection) : option Connection :=
  match lostQueue (loss c) with
  | [] => Some c
  | p :: rest =>
      match fuel with
      | O => None
      | S fuel =>
          let '(c, more) := flush_round now p rest c in
          if more then flush_loop fuel now c else Some c
      end
  end.

Definition flush_fuel (c : Connection) : nat :=
  sum_list ((fun p => S (splittable (deref (c_pm c) p))) <$> lostQueue (loss c)).

Definition flushLost (now : Z) (c : Connection) : Connection :=
  let c := set_queue (lostQueue (loss c)) None c in
  default c (flush_loop (flush_fuel c) now c).

(** The first loop of [onPacketsLost]: probes report to the search, data
    counts towards a black hole and is kept. *)
Definition sort_lost (now : Z) (countLarge : bool) (pm : PacketManager)
    (st : MTUDiscovery * list ptr) (p : ptr) : MTUDiscovery * list ptr :=
  let '(m, data) := st in
  let v := deref pm p in
  if sp_Probe v then (OnProbeLost (sp_Size v) m, data)
  else ((if countLarge then OnDataLost now (sp_Size v) m else m), data ++ [p]).

Definition sum_sizes (pm : PacketManager) (l : list ptr) : Z :=
  fold_left (fun n p => n +i sp_Size (deref pm p)) l 0.

Definition onPacketsLost (now : Z) (lost : list ptr) (c : Connection) : Connection :=
  let pm := c_pm c in
  let '(m, data) := fold_left (sort_lost now (negb (ackedLarge c)) pm) lost (c_mtu c, []) in
  let c := set_mtu m c in
  match data, last data with
  | oldest :: _, Some newest =>
      let cc := OnPacketLost now (Some (LastSentSeq pm)) (sum_sizes pm data) (c_cc c) in
      let first := sp_SentTime (deref pm oldest) in
      let cc :=
        if HasRttSample cc
           && (PersistentCongestionDuration cc <=? timeSub (sp_SentTime (deref pm newest)) first)
           && (AckBeforeLoss pm <? first)
        then OnPersistentCongestion cc else cc in
      let c := set_cc cc c in
      flushLost now (set_queue (lostQueue (loss c) ++ data) (lostTimer (loss c)) c)
  | _, _ => c
  end.

(** [if len(lost) > 0 { pm.OnPacketsLost(lost) }] *)
Definition report_lost (now : Z) (res : PacketManager * list ptr) (c : Connection) : Connection :=
  let '(pm, lost) := res in
  let c := set_pm pm c in
  match lost with [] => c | _ => onPacketsLost now lost c end.

(** ** Path MTU probes *)

Definition probeMTU (now : Z) (c : Connection) : Connection :=
  if negb (HasRttSample (c_cc c)) then c
  else
    let '(m, size) := NextProbe now (c_mtu c) in
    let c := set_mtu m c in
    if size =? 0 then c
    else
      let seq := nextSeq (c_pm c) in
      let header := Z.of_nat (length (encoded c seq 0 0 [MTUProbeFrame 1])) - 1 in
      let frames := [MTUProbeFrame (size - header)] in
      let data := encoded c seq 0 0 frames in
      let n := Z.of_nat (length data) in
      let c := bump (set_pm (register now (c_pm c) (fresh_packet n frames 0 0 true)) c) in
      transmit data (peerAddr c) (add_sent n c).

(** ** Timers and frames

    Go leaves the order of [range] over a map open: an instance says which
    order one run takes. *)

Class RangeOrder := {
  range_packets : gmap Z ptr -> list (Z * ptr);
  range_streams : gmap Z Stream -> list (Z * Stream);
  range_packets_perm m : range_packets m ≡ₚ map_to_list m;
  range_streams_perm m : range_streams m ≡ₚ map_to_list m
}.

Definition key_order : RangeOrder := {|
  range_packets := map_to_list;
  range_streams := map_to_list;
  range_packets_perm m := Permutation_refl _;
  range_streams_perm m := Permutation_refl _
|}.

Section Dispatch.
Context `{RangeOrder}.

Definition lossDelayOf (c : Connection) : Z :=
  lossDelay (smoothedRtt (c_cc c)) (latestRtt (c_cc c)).

Definition detectLost (now : Z) (c : Connection) : Connection :=
  report_lost now
    (DetectLostPackets (range_packets (sentPackets (c_pm c))) now (lossDelayOf c) (c_pm c)) c.

(** The loss timer of the packet manager. *)
Definition lossTimerFired (now : Z) (c : Connection) : Connection :=
  report_lost now
    (onLossTimer (range_packets (sentPackets (c_pm c))) now (lossDelayOf c) (c_pm c)) c.

Definition probe_piece (now : Z) (c : Connection) (p : ptr) : Connection :=
  let '(pm, (seq, ok)) := Resend now (c_pm c) p in
  let c := set_pm pm c in
  if ok then
    let c := retransmitPacket p seq (bump c) in
    let size := sp_Size (deref (c_pm c) p) in
    set_cc (with_pacer (c_cc c) (PacerOnPacketSent now size (Pacer (c_cc c)))) c
  else c.

Definition probe_packet (now : Z) (c : Connection) (p : ptr) : Connection :=
  let '(c, pieces) := fitToPath p c in fold_left (probe_piece now) pieces c.

Definition onPTO (now : Z) (c : Connection) : Connection :=
  let c := if BlackholePTOs <=? PTOCount (c_cc c) then set_mtu (Blackhole now (c_mtu c)) c else c in
  fold_left (probe_packet now)
    (OldestUnacked (range_packets (sentPackets (c_pm c))) ptoProbes (c_pm c)) c.

(** The probe timer of the congestion controller, around its callback. *)
Definition onPtoTimeout (now : Z) (c : Connection) : Connection :=
  let c := onPTO now (set_cc (ptoFired (c_cc c)) c) in
  set_cc (ptoRearm now (c_cc c)) c.

(** The loop over the newly acknowledged packets. *)
Definition note_acked (f : AckFrame) (pm : PacketManager)
    (st : MTUDiscovery * Z * option ptr * bool) (p : ptr) : MTUDiscovery * Z * option ptr * bool :=
  let '(m, bytes, largest, large) := st in
  let v := deref pm p in
  let largest := if sp_Sequence v =? LargestAcked f then Some p else largest in
  if sp_Probe v then (OnProbeAcked (sp_Size v) m, bytes, largest, large)
  else
    let bytes := bytes +i sp_Size v in
    if SafeDatagramSize <? sp_Size v then (OnDataAcked (sp_Size v) m, bytes, largest, true)
    else (m, bytes, largest, large).

Definition handleAckFrame (now : Z) (f : AckFrame) (c : Connection) : Connection :=
  let '(pm, acked) := HandleAckFrame now (c_pm c) f in
  let c := set_pm pm c in
  match acked with
  | [] => c
  | _ =>
      let '(m, bytes, largest, large) :=
        fold_left (note_acked f pm) acked (c_mtu c, 0, None, false) in
      let c := set_ackedLarge large (set_mtu m c) in
      let sentTime := match largest with Some p => sp_SentTime (deref pm p) | None => 0 end in
      let c := set_cc (OnPacketAcked now bytes sentTime (AckDelay f *i Millisecond)
        (bool_decide (largest <> None)) (LargestAcked f) (c_cc c)) c in
      probeMTU now (flushLost now (detectLost now c))
  end.

(** The first stream in [range] order with that RemoteID. *)
Definition by_remote (remoteID : Z) (t : StreamTable) : option Z :=
  (list_find (fun e : Z * Stream => RemoteID e.2 = remoteID) (range_streams (streams t)))
    ≫= (fun r => Some r.2.1).

Definition findStream (localID remoteID : Z) (c : Connection) : option Z :=
  match streams (table c) !! localID with
  | Some _ => Some localID
  | None => if negb (remoteID =? 0) then by_remote remoteID (table c) else None
  end.

(** A method call on the stream with that key, and the calls it makes. *)
Definition on_stream (now : Z) (id : Z) (op : Stream -> Stream * list conn_call) (c : Connection)
    : Connection :=
  match streams (table c) !! id with
  | None => c
  | Some s => let '(s, calls) := op s in exec_calls now calls (set_stream id s c)
  end.

Definition on_found (now : Z) (pkt : Packet) (op : Stream -> Stream * list conn_call)
    (c : Connection) : Connection :=
  match findStream (DestinationStreamID pkt) (SourceStreamID pkt) c with
  | None => c
  | Some id => on_stream now id op c
  end.

Definition incomingCap : nat := 16.

(** An incoming stream: a new local ID, the remote's as RemoteID, offered to
    [AcceptStream] if its channel has room. *)
Definition accept_incoming (remoteID : Z) (c : Connection) : Connection * Z :=
  let t := table c in
  let id := nextStreamID t in
  let queue := if (length (incomingStreams t) <? incomingCap)%nat
               then incomingStreams t ++ [id] else incomingStreams t in
  (set_table (MkStreams (<[id := attached id remoteID StreamStateOpen]> (streams t)) (u32 (id + 2))
     (maxStreams t) queue) c, id).

(** The stream a frame is for, opened if the frame opens one. *)
Definition stream_for (pkt : Packet) (f : StreamFrame) (c : Connection) : Connection * option Z :=
  let remoteID := SourceStreamID pkt in
  match findStream (DestinationStreamID pkt) remoteID c with
  | Some id => (c, Some id)
  | None =>
      if negb (remoteID =? 0) && (IsSyn f || (0 <? length (Data f))%nat)
      then let '(c, id) := accept_incoming remoteID c in (c, Some id)
      else (c, None)
  end.

Definition handleStreamFrame (now : Z) (pkt : Packet) (f : StreamFrame) (c : Connection)
    : Connection :=
  let '(c, found) := stream_for pkt f c in
  match found with
  | None => c
  | Some id =>
      let c := if (0 <? length (Data f))%nat
               then on_stream now id (fun s => DeliverData s (Offset f) (Data f)) c else c in
      if IsFin f
      then on_stream now id
             (fun s => (DeliverFin s (u64 (Offset f + Z.of_nat (length (Data f)))), [])) c
      else c
  end.

(** ** Path migration *)

Definition completeMigration (data : list byte) (c : Connection) : Connection * bool :=
  let p := path c in
  match pendingAddr p with
  | None => (c, false)
  | Some a =>
      if decide (data = pendingChallenge p) then
        (set_path (MkPath (Some a) (pathChallenge p) (pathChallengeResp p) None
           (pendingChallenge p) (pendingSentAt p) (bytesSent p) (bytesReceived p) true (migrations p)) c, true)
      else (c, false)
  end.

Definition handlePathResponse (data : list byte) (c : Connection) : Connection :=
  let '(c, moved) := completeMigration data c in
  if moved then c
  else
    let p := path c in
    match pathChallengeResp p with
    | Some _ => c
    | None =>
        set_path (MkPath (remoteAddr p) (pathChallenge p) (Some data) (pendingAddr p)
          (pendingChallenge p) (pendingSentAt p) (bytesSent p) (bytesReceived p)
          (addrValidated p) (migrations p)) c
    end.

Definition sendControlTo (frames : list Frame) (to : addr) (c : Connection) : Connection :=
  let data := encoded c 0 0 0 frames in
  transmit data (Some to) (add_sent (Z.of_nat (length data)) c).

Definition pathChallengeRetry : Z := Second.

(** [random] is what [crypto/rand.Read] delivers for the challenge, [None]
    when it fails. The send, which the code starts on a goroutine of its own,
    is returned as the frames and the address it is for. *)
Definition observeAddr (now : Z) (a : option addr) (random : option (list byte)) (c : Connection)
    : Connection * option (list Frame * addr) :=
  match a with
  | None => (c, None)
  | Some a =>
      let p := path c in
      if decide (remoteAddr p = Some a) then (c, None)
      else if bool_decide (pendingAddr p = Some a)
              && (timeSub now (pendingSentAt p) <? pathChallengeRetry) then (c, None)
      else
        match random with
        | None => (c, None)
        | Some challenge =>
            (set_path (MkPath (remoteAddr p) (pathChallenge p) (pathChallengeResp p) (Some a)
               challenge now (bytesSent p) (bytesReceived p) (addrValidated p) (migrations p)) c,
             Some ([PathChallengeFrame challenge], a))
        end
  end.

(** [InitiatePathMigration] up to its wait; [challenge] is what crypto/rand
    delivers ... *)
Definition migrate_start (now : Z) (newAddr : addr) (challenge : list byte) (c : Connection) : Connection :=
  let p := path c in
  sendFrames now [PathChallengeFrame challenge]
    (set_path (MkPath (remoteAddr p) challenge (pathChallengeResp p) (pendingAddr p)
       (pendingChallenge p) (pendingSentAt p) (bytesSent p) (bytesReceived p)
       (addrValidated p) (migrations p ++ [(challenge, newAddr)])) c).

(** One of the waiting calls is over. *)
Fixpoint leave_one (call : list byte * addr) (l : list (list byte * addr)) : list (list byte * addr) :=
  match l with
  | [] => []
  | x :: l => if decide (x = call) then l else x :: leave_one call l
  end.

Definition leave (newAddr : addr) (challenge : list byte) (p : Path) : list (list byte * addr) :=
  leave_one (challenge, newAddr) (migrations p).

(** ... and, for a call that waits, from the answer it takes off the channel;
    [None] while there is no answer ... *)
Definition migrate_finish (newAddr : addr) (challenge : list byte) (c : Connection)
    : option (Connection * bool) :=
  let p := path c in
  match pathChallengeResp p with
  | None => None
  | Some resp =>
      if decide (resp = challenge) then
        Some (set_path (MkPath (Some newAddr) (pathChallenge p) None (pendingAddr p)
          (pendingChallenge p) (pendingSentAt p) (bytesSent p) (bytesReceived p) true (leave newAddr challenge p)) c, true)
      else
        Some (set_path (MkPath (remoteAddr p) (pathChallenge p) None (pendingAddr p)
          (pendingChallenge p) (pendingSentAt p) (bytesSent p) (bytesReceived p)
          (addrValidated p) (leave newAddr challenge p)) c, false)
  end.

(** ... or from the timeout, or the end of its context. *)
Definition migrate_abandon (newAddr : addr) (challenge : list byte) (c : Connection) : Connection :=
  let p := path c in
  set_path (MkPath (remoteAddr p) (pathChallenge p) (pathChallengeResp p) (pendingAddr p)
    (pendingChallenge p) (pendingSentAt p) (bytesSent p) (bytesReceived p)
    (addrValidated p) (leave newAddr challenge p)) c.

(** ** Closing *)

(** [closeInternal] up to the announcement: closing, no idle timer, nothing
    left to acknowledge. *)
Definition close_begin (c : Connection) : Connection :=
  let l := life c in
  set_acks (MkAcks (recvd (acks c)) 0 None (largestArrival (acks c)))
    (set_life (MkLife ConnStateClosing (lastActivity l) None true (closeCh l) (closeReported l)) c).

(** After the announcement: closed, every stream reset, the resend queue and
    its timer gone, the controller and the packet manager destroyed, and the
    multiplexer told. *)
Definition close_end (code : Z) (c : Connection) : Connection :=
  let t := table c in
  let l := life c in
  MkConn (localCID c) (remoteCID c) (localAddr c) (isInitiator c) (sendFunc c) (sendBatchFunc c)
    (onClose c)
    (MkStreams ((fun s => DeliverReset s code) <$> streams t) (nextStreamID t) (maxStreams t)
       (incomingStreams t))
    (DestroyCC (c_cc c)) (Destroy (c_pm c)) (c_fc c) (c_mtu c) (ackedLarge c) (acks c) (path c)
    (MkLoss [] None)
    (MkLife ConnStateClosed (lastActivity l) (idleTimer l) true true (closeReported l || onClose c))
    (inbound c) (inboundDropped c) (wire c) (issued c).

Definition closeInternal (now code : Z) (reason : list byte) (announce : bool) (c : Connection)
    : Connection :=
  if closeOnce (life c) then c
  else
    let c := close_begin c in
    close_end code (if announce then sendFrames now [ConnectionCloseFrame code 0 reason] c else c).

Definition CloseWithError (now code : Z) (reason : list byte) (c : Connection) : Connection :=
  closeInternal now code reason true c.

Definition CloseConn (now : Z) (c : Connection) : Connection :=
  CloseWithError now ErrorNoError [] c.

Definition idleTimeout (c : Connection) : Z :=
  let pto := 3 *i PTO (c_cc c) in
  if MaxIdleTimeout <? pto then pto else MaxIdleTimeout.

Definition idleExpired (now : Z) (c : Connection) : bool :=
  if decide (connState (life c) = ConnStateClosing \/ connState (life c) = ConnStateClosed)
  then false
  else idleTimeout c <=? timeSub now (lastActivity (life c)).

Definition idle_reason : list byte := String.list_byte_of_string "idle timeout".

Definition onIdleCheck (now : Z) (c : Connection) : Connection :=
  if idleExpired now c then closeInternal now ErrorConnectionTimeout idle_reason false c
  else armIdleCheck now c.

(** ** Received packets *)

Definition handleFrame (now : Z) (pkt : Packet) (c : Connection) (f : Frame) : Connection :=
  match f with
  | StreamF sf => handleStreamFrame now pkt sf c
  | AckF af => handleAckFrame now af c
  | WindowUpdateFrame size => on_found now pkt (fun s => (OnWindowUpdate s size, [])) c
  | MaxDataFrame m => set_fc (UpdateMaxData (c_fc c) (i64 m)) c
  | ResetStreamFrame code => on_found now pkt (fun s => (DeliverReset s code, [])) c
  | ConnectionCloseFrame _ _ _ => CloseConn now c
  | PathChallengeFrame data => sendFrames now [PathResponseFrame data] c
  | PathResponseFrame data => handlePathResponse data c
  | MaxStreamsFrame n =>
      let t := table c in
      if maxStreams t <? n
      then set_table (MkStreams (streams t) (nextStreamID t) n (incomingStreams t)) c else c
  | StopSendingFrame _ code => on_found now pkt (fun s => Stream.Reset s code) c
  | DataBlockedFrame _ => sendFrames now [MaxDataFrame (u64 (ConnMaxData (c_fc c)))] c
  | StreamDataBlockedFrame _ _ =>
      on_found now pkt (fun s =>
        match streamFC s with
        | None => (s, [])
        | Some fc =>
            let '(fc, limit) := RefreshLimit fc in
            (with_fc s (Some fc), [SendWindowUpdate (ID s) (RemoteID s) limit])
        end) c
  | PingFrame | PaddingFrame | MTUProbeFrame _ | NewConnectionIDFrame _ _ _ _
  | RetireConnectionIDFrame _ => c
  end.

(** The bookkeeping of [HandlePacket] before the frames. *)
Definition note_arrival (now : Z) (pkt : Packet) (c : Connection) : Connection :=
  let size := if (wireLen pkt =? 0)%nat then length (MarshalPacket pkt) else wireLen pkt in
  let p := path c in
  let l := life c in
  set_life (MkLife (connState l) now (idleTimer l) (closeOnce l) (closeCh l) (closeReported l))
    (set_path (with_bytes (bytesSent p) (bytesReceived p +i Z.of_nat size) p) c).

Definition HandlePacket (now : Z) (pkt : Packet) (c : Connection) : Connection :=
  let c := fold_left (handleFrame now pkt) (Frames pkt) (note_arrival now pkt c) in
  if isDataBearing pkt || isNumberedProbe pkt then noteReceived now pkt c else c.

Definition enqueue (pkt : Packet) (c : Connection) : Connection :=
  if (length (inbound c) <? inboundQueue)%nat
  then set_inbound (inbound c ++ [pkt]) (inboundDropped c) c
  else set_inbound (inbound c) (inboundDropped c +i 1) c.

(** A round of [inboundLoop] that takes a packet. *)
Definition inbound_round (now : Z) (c : Connection) : option Connection :=
  match inbound c with
  | [] => None
  | pkt :: rest => Some (HandlePacket now pkt (set_inbound rest (inboundDropped c) c))
  end.
End Dispatch.
