(* ===== verification/Recovery.v ===== *)
(** * Loss recovery of a connection (src/connection.go, src/packet_manager.go)

    What the packet manager tracks, the bytes the congestion controller
    counts in flight, the queue of lost packets and the data the packets
    carry, through every operation of the connection. The invariant [Good]
    says that the books agree. *)

From stdpp Require Import strings.
From S2P Require Import Prelude Constants Cid Frame Packet AckTracker FlowControl Mtud.
From S2P Require Import PacketManager Stream Pacing Congestion Connection.

(** ** The tracked packets *)

Definition tracked (pm : PacketManager) : list ptr := (map_to_list (sentPackets pm)).*2.

(** The bytes of a packet that count as in flight: a path-MTU probe's do not. *)
Definition data_size (v : SentPacket) : Z := if sp_Probe v then 0 else sp_Size v.

Definition total (g : ptr -> Z) (l : list ptr) : Z := foldr (fun p n => g p + n) 0 l.

Definition load (pm : PacketManager) (p : ptr) : Z := data_size (deref pm p).

Lemma tracked_elem pm p : p ∈ tracked pm <-> exists s, sentPackets pm !! s = Some p.
Proof.
  unfold tracked. rewrite list_elem_of_fmap. split.
  - intros ([s q] & -> & H%elem_of_map_to_list). eauto.
  - intros [s H]. exists (s, p). by rewrite elem_of_map_to_list.
Qed.

Lemma tracked_nodup pm : PM_ok pm -> NoDup (tracked pm).
Proof.
  intros Hok. apply NoDup_fmap_2_strong; [|apply NoDup_map_to_list].
  intros [s p] [t q] Hs%elem_of_map_to_list Ht%elem_of_map_to_list E. cbn in *. subst q.
  f_equal. by eapply tracked_inj.
Qed.

Lemma tracked_fact pm p : PM_ok pm -> p ∈ tracked pm ->
  is_Some (packets pm !! p) /\ sp_IsAcked (deref pm p) = false.
Proof. intros Hok [s H]%tracked_elem. apply (pm_tracked _ Hok) in H. naive_solver. Qed.

(** No more packets are tracked than numbers were handed out. *)
Lemma tracked_length pm : PM_ok pm -> Z.of_nat (length (tracked pm)) <= nextSeq pm.
Proof.
  intros Hok. unfold tracked. rewrite length_fmap, length_map_to_list.
  rewrite <- size_dom. pose proof (pm_next _ Hok) as Hn.
  assert (Hsub : dom (sentPackets pm) ⊆ list_to_set (seqZ 0 (nextSeq pm))).
  { intros s [p Hp]%elem_of_dom. rewrite elem_of_list_to_set, elem_of_seqZ.
    apply (pm_tracked _ Hok) in Hp as (_ & _ & _ & _ & ?). lia. }
  apply subseteq_size in Hsub. rewrite size_list_to_set, length_seqZ in Hsub by apply NoDup_seqZ.
  width.
Qed.

Lemma total_nil g : total g [] = 0.
Proof. done. Qed.
Lemma total_cons g p l : total g (p :: l) = g p + total g l.
Proof. done. Qed.
#[global] Arguments total : simpl never.
#[export] Hint Rewrite total_nil total_cons : total.

Lemma total_app g l l' : total g (l ++ l') = total g l + total g l'.
Proof. induction l as [|p l IH]; [done|]. rewrite <- app_comm_cons, !total_cons, IH. lia. Qed.
#[export] Hint Rewrite total_app : total.

Lemma total_perm g l l' : l ≡ₚ l' -> total g l = total g l'.
Proof. induction 1; rewrite ?total_cons; lia. Qed.

Lemma total_ext g g' l : (forall p, p ∈ l -> g p = g' p) -> total g l = total g' l.
Proof.
  induction l as [|p l IH]; intros H; [done|]. rewrite !total_cons, H by left. rewrite IH; [done|].
  intros q Hq. apply H. by right.
Qed.

Lemma total_bounds g l B : (forall p, p ∈ l -> 0 <= g p <= B) ->
  0 <= total g l <= B * Z.of_nat (length l).
Proof.
  induction l as [|p l IH]; intros H; [rewrite total_nil; cbn; lia|]. rewrite total_cons. cbn [length].
  assert (0 <= g p <= B) by (apply H; left).
  assert (0 <= total g l <= B * Z.of_nat (length l)) by (apply IH; intros q Hq; apply H; by right). lia.
Qed.

Lemma total_nonneg g l : (forall p, p ∈ l -> 0 <= g p) -> 0 <= total g l.
Proof.
  induction l as [|p l IH]; intros H; [done|]. rewrite total_cons.
  assert (0 <= g p) by (apply H; left).
  assert (0 <= total g l) by (apply IH; intros q Hq; apply H; by right). lia.
Qed.

Lemma total_le_elem g l p : (forall q, q ∈ l -> 0 <= g q) -> p ∈ l -> g p <= total g l.
Proof.
  intros H [l1 [l2 ->]]%list_elem_of_split. autorewrite with total.
  assert (0 <= total g l1) by (apply total_nonneg; intros; apply H; apply elem_of_app; by left).
  assert (0 <= total g l2)
    by (apply total_nonneg; intros; apply H; apply elem_of_app; right; by right). lia.
Qed.

(** ** What packets carry

    The stream bytes, openings and ends a packet takes to its peer. Positions
    are offsets modulo 2^64, as the frames count them. *)

Inductive item :=
  | Byte (dst src offset : Z) (b : byte)
  | Syn (dst src : Z)
  | Fin (dst src size : Z).

Definition end_of (f : StreamFrame) : Z := u64 (Offset f + Z.of_nat (length (Data f))).

Definition frame_carries (dst src : Z) (f : StreamFrame) (x : item) : Prop :=
  match x with
  | Byte d s o b => d = dst /\ s = src /\
      exists i, Data f !! i = Some b /\ o = u64 (Offset f + Z.of_nat i)
  | Syn d s => d = dst /\ s = src /\ IsSyn f = true
  | Fin d s n => d = dst /\ s = src /\ IsFin f = true /\ n = end_of f
  end.

Definition carries (v : SentPacket) (x : item) : Prop :=
  exists f, StreamF f ∈ sp_Frames v /\
    frame_carries (sp_DestinationStreamID v) (sp_SourceStreamID v) f x.

(** ** Chunking *)

Lemma chunk_frames_cons fuel k o syn fin data : data <> [] ->
  chunk_frames (S fuel) k o syn fin data =
    let n := Nat.min k (length data) in
    MkStreamFrame (fin && (n =? length data)%nat) syn o (take n data)
    :: chunk_frames fuel k (u64 (o + Z.of_nat n)) false fin (drop n data).
Proof. by destruct data. Qed.

Lemma u64_add_u64 a b : u64 (u64 a + b) = u64 (a + b).
Proof. unfold u64. by rewrite Zplus_mod_idemp_l. Qed.

(** The chunks carry what the whole carries. *)
Lemma chunks_carry dst src x k : (0 < k)%nat -> forall fuel o syn fin data,
  data <> [] -> (length data <= fuel)%nat ->
  frame_carries dst src (MkStreamFrame fin syn o data) x ->
  exists f, f ∈ chunk_frames fuel k o syn fin data /\ frame_carries dst src f x.
Proof.
  intros Hk. induction fuel as [|fuel IH]; intros o syn fin data Hne Hf Hx.
  { destruct data; [done|]. cbn in Hf. lia. }
  rewrite chunk_frames_cons by done. cbv zeta. set (n := Nat.min k (length data)).
  assert (0 < length data)%nat by (destruct data; [done | cbn; lia]).
  assert (Hn : (0 < n <= length data)%nat) by (unfold n; lia).
  assert (Hrest : (n < length data)%nat ->
    frame_carries dst src (MkStreamFrame fin false (u64 (o + Z.of_nat n)) (drop n data)) x ->
    exists f, f ∈ chunk_frames fuel k (u64 (o + Z.of_nat n)) false fin (drop n data) /\
      frame_carries dst src f x).
  { intros Hl Hc. apply IH; [intros E; apply (f_equal length) in E; rewrite length_drop in E; cbn in E; lia
      | rewrite length_drop; lia | done]. }
  destruct x as [d s p b|d s|d s z]; cbn in Hx.
  - destruct Hx as (-> & -> & i & Hi & ->). destruct (decide (i < n)%nat) as [Hin|Hin].
    + eexists. split; [left|]. cbn. split_and!; [done.. |]. exists i. by rewrite lookup_take_lt.
    + pose proof (lookup_lt_Some _ _ _ Hi). destruct Hrest as (f & Hf1 & Hf2); [lia | |].
      * cbn. split_and!; [done.. |]. exists (i - n)%nat. rewrite lookup_drop.
        replace (n + (i - n))%nat with i by lia. split; [done|].
        rewrite u64_add_u64. f_equal. lia.
      * exists f. split; [by right | done].
  - eexists. split; [left|]. done.
  - destruct Hx as (-> & -> & -> & ->). destruct (decide (n = length data)) as [E|E].
    + eexists. split; [left|]. cbn. rewrite E, Nat.eqb_refl. split_and!; [done..|].
      unfold end_of. cbn. by rewrite length_take, Nat.min_id.
    + destruct Hrest as (f & Hf1 & Hf2); [lia | |].
      * cbn. split_and!; [done..|]. unfold end_of. cbn. rewrite u64_add_u64, length_drop. f_equal. lia.
      * exists f. split; [by right | done].
Qed.

(** A chunk is no longer than asked, there is one at least for every byte, and
    together they hold all the bytes. *)
Lemma chunks_sizes k : (0 < k)%nat -> forall fuel o syn fin data, (length data <= fuel)%nat ->
  let fs := chunk_frames fuel k o syn fin data in
  (forall f, f ∈ fs -> (0 < length (Data f) <= k)%nat) /\
  sum_list ((fun f => length (Data f)) <$> fs) = length data /\ (length fs <= length data)%nat.
Proof.
  intros Hk. induction fuel as [|fuel IH]; intros o syn fin data Hf; cbv zeta.
  { destruct data; [|cbn in Hf; lia]. cbn. split_and!; [|done..]. intros f H. by apply not_elem_of_nil in H. }
  destruct data as [|b data'] eqn:E.
  { cbn. split_and!; [|done..]. intros f H. by apply not_elem_of_nil in H. }
  rewrite <- E in *. rewrite chunk_frames_cons by (subst; done). cbv zeta.
  set (n := Nat.min k (length data)).
  assert (Hn : (0 < n <= length data)%nat) by (subst n; rewrite E; cbn; lia).
  destruct (IH (u64 (o + Z.of_nat n)) false fin (drop n data)) as (H1 & H2 & H3);
    [rewrite length_drop; lia|]. rewrite length_drop in H2, H3. split_and!.
  - intros f [->|Hin]%elem_of_cons; [|by apply H1]. cbn. rewrite length_take. subst n. lia.
  - rewrite fmap_cons. cbn [sum_list_with Data]. unfold id at 1. rewrite length_take, H2. lia.
  - cbn [length]. lia.
Qed.

(** ** What the packet manager's calls do to the tracked packets *)

(** The parts of a packet that are fixed once it is sent. *)
Definition same_load (v v' : SentPacket) : Prop :=
  sp_Size v' = sp_Size v /\ sp_Frames v' = sp_Frames v /\ sp_Probe v' = sp_Probe v /\
  sp_DestinationStreamID v' = sp_DestinationStreamID v /\
  sp_SourceStreamID v' = sp_SourceStreamID v.

Lemma same_load_carries v v' x : same_load v v' -> carries v x <-> carries v' x.
Proof. intros (_ & E1 & _ & E2 & E3). unfold carries. by rewrite E1, E2, E3. Qed.

Lemma same_load_size v v' : same_load v v' -> data_size v' = data_size v.
Proof. intros (E1 & _ & E2 & _ & _). unfold data_size. by rewrite E1, E2. Qed.

(** [p], with the load of [v], is tracked under the next number. *)
Record enters (p : ptr) (v : SentPacket) (pm pm' : PacketManager) : Prop := {
  en_ok : PM_ok pm';
  en_next : nextSeq pm' = nextSeq pm + 1;
  en_stored : is_Some (packets pm' !! p);
  en_load : same_load v (deref pm' p);
  en_acked : sp_IsAcked (deref pm' p) = false;
  en_others : forall q, q <> p -> packets pm' !! q = packets pm !! q;
  en_tracked : forall q, q ∈ tracked pm' <-> q = p \/ q ∈ tracked pm;
  en_largest : largestAcked pm' = largestAcked pm
}.

Lemma deref_same pm pm' q : packets pm' !! q = packets pm !! q -> deref pm' q = deref pm q.
Proof. intros E. unfold deref. by rewrite !lookup_total_alt, E. Qed.

Lemma deref_none pm p : packets pm !! p = None -> deref pm p = inhabitant.
Proof. intros E. unfold deref. by rewrite lookup_total_alt, E. Qed.

Lemma register_enters now pm size frames dst src probe : PM_ok pm -> 0 <= now ->
  nextSeq pm + 1 < 2 ^ 32 ->
  let v := fresh_packet size frames dst src probe in
  exists p, packets pm !! p = None /\ enters p (v (nextSeq pm)) pm (register now pm v).
Proof.
  intros Hok Hnow Hn. cbv zeta. pose proof (register_ok now pm size frames dst src probe Hok Hnow Hn) as Hok'.
  pose proof (pm_next _ Hok) as Hu. exists (fresh (dom (packets pm))).
  assert (Hf : packets pm !! fresh (dom (packets pm)) = None) by apply not_elem_of_dom, is_fresh.
  split; [done|]. unfold register, NextSequence, alloc, SendPacket in *. cbn -[fresh] in *.
  set (p := fresh _) in *. unfold deref, store in *. cbn -[fresh] in *.
  rewrite !lookup_total_insert_eq in *. cbn -[fresh] in *. split; cbn; try done.
  - by rewrite u32_small by width.
  - rewrite lookup_insert_eq. eauto.
  - unfold deref. cbn. by rewrite lookup_total_insert_eq.
  - unfold deref. cbn. by rewrite lookup_total_insert_eq.
  - intros q Hq. by rewrite !lookup_insert_ne.
  - intros q. rewrite !tracked_elem. cbn. split.
    + intros [s Hs]. apply lookup_insert_Some in Hs as [[_ <-]|[_ Hs]]; eauto.
    + intros [->|[s Hs]]; [exists (nextSeq pm); by rewrite lookup_insert_eq|].
      exists s. rewrite lookup_insert_ne; [done|].
      apply (pm_tracked _ Hok) in Hs as (_ & _ & _ & _ & ?). lia.
Qed.

Lemma Resend_enters now pm p : PM_ok pm -> 0 <= now -> nextSeq pm + 1 < 2 ^ 32 ->
  is_Some (packets pm !! p) -> sp_IsAcked (deref pm p) = false -> sp_Probe (deref pm p) = false ->
  (Resend now pm p).2 = (nextSeq pm, true) /\ enters p (deref pm p) pm (Resend now pm p).1.
Proof.
  intros Hok Hnow Hn Hp Ha Hpr. pose proof (Resend_ok now pm p Hok Hnow Hn) as Hok'.
  pose proof (pm_next _ Hok) as Hu. unfold Resend in *. rewrite Ha, Hpr in *. cbn [orb fst snd] in *.
  split; [done|]. split; cbn; try done.
  - by rewrite u32_small by width.
  - rewrite lookup_insert_eq. eauto.
  - unfold deref at 2. cbn. rewrite lookup_total_insert_eq. done.
  - unfold deref. cbn. by rewrite lookup_total_insert_eq.
  - intros q Hq. by rewrite lookup_insert_ne.
  - intros q. rewrite !tracked_elem. cbn. split.
    + intros [s Hs]. apply lookup_insert_Some in Hs as [[_ <-]|[_ Hs]]; [by left|].
      rewrite untrack_lookup in Hs by done. case_decide; [done | eauto].
    + intros [->|[s Hs]]; [exists (nextSeq pm); by rewrite lookup_insert_eq|].
      destruct (decide (q = p)) as [->|Hq]; [exists (nextSeq pm); by rewrite lookup_insert_eq|].
      exists s. rewrite lookup_insert_ne, untrack_lookup, decide_False; [done | congruence | done |].
      apply (pm_tracked _ Hok) in Hs as (_ & _ & _ & _ & ?). lia.
Qed.

Lemma Drop_tracked pm p q : PM_ok pm -> q ∈ tracked (Drop pm p) <-> q ∈ tracked pm /\ q <> p.
Proof.
  intros Hok. rewrite !tracked_elem. cbn. split.
  - intros [s Hs]. rewrite untrack_lookup in Hs by done. case_decide; [done|]. split; [eauto | congruence].
  - intros [[s Hs] Hne]. exists s. rewrite untrack_lookup, decide_False by (done || congruence). done.
Qed.

Lemma HandleAckFrame_dom now pm f p : PM_ok pm ->
  is_Some (packets pm !! p) -> is_Some (packets (HandleAckFrame now pm f).1 !! p).
Proof.
  intros Hok Hp. unfold HandleAckFrame.
  pose proof (takes_acknowledge pm (ack_sequences f) Hok) as Ha.
  destruct (fold_left take_seq (ack_sequences f) (pm, [])) as [pm' acked]. cbn [fst snd] in Ha.
  apply (ak_dom _ _ _ _ Ha) in Hp. by case_match.
Qed.

(** The packets of [out] are no longer tracked, the others stay as they were. *)
Record removes (out : list ptr) (pm pm' : PacketManager) : Prop := {
  rm_ok : PM_ok pm';
  rm_next : nextSeq pm' = nextSeq pm;
  rm_stored : forall q, is_Some (packets pm !! q) -> is_Some (packets pm' !! q);
  rm_load : forall q, same_load (deref pm q) (deref pm' q);
  rm_out : forall q, q ∈ out -> q ∈ tracked pm;
  rm_nodup : NoDup out;
  rm_tracked : forall q, q ∈ tracked pm' <-> q ∈ tracked pm /\ q ∉ out
}.

Lemma ack_removes now pm f : PM_ok pm -> is_u32 (LargestAcked f) ->
  let '(pm', acked) := HandleAckFrame now pm f in
  removes acked pm pm' /\
  forall q, sp_IsAcked (deref pm' q) = (bool_decide (q ∈ acked) || sp_IsAcked (deref pm q)).
Proof.
  intros Hok Hf. pose proof (HandleAckFrame_spec now pm f Hok Hf) as Hs.
  pose proof (HandleAckFrame_dom now pm f) as Hdom.
  destruct (HandleAckFrame now pm f) as [pm' acked]. cbn [fst] in Hdom.
  destruct Hs as (Hok' & Hs & Ha & Hnd & Hd & Hn & _). split; [split; try done|].
  - intros q. by apply Hdom.
  - intros q. rewrite Hd. by case_decide.
  - intros q (s & _ & E)%Ha. apply tracked_elem. eauto.
  - intros q. rewrite !tracked_elem. split.
    + intros [s E]. rewrite Hs in E. case_decide as Hin; [done|]. split; [eauto|].
      intros (t & Ht & E')%Ha. by rewrite (tracked_inj pm s t q) in Hin.
    + intros [[s E] Hnin]. exists s. rewrite Hs, decide_False; [done|]. intros Hin. apply Hnin, Ha. eauto.
  - intros q. rewrite Hd. case_decide; case_bool_decide; done.
Qed.

Lemma detect_removes pm order now delay : PM_ok pm -> 0 < delay ->
  order ≡ₚ map_to_list (sentPackets pm) ->
  let '(pm', ls) := detectLostLocked order now delay pm in
  removes ls pm pm' /\ packets pm' = packets pm.
Proof.
  intros Hok Hd Ho. pose proof (detect_ok pm order now delay Hok Hd Ho) as Hok'.
  destruct (detectLostLocked order now delay pm) as [pm' ls] eqn:E. cbn [fst] in Hok'.
  destruct (detect_entries pm Hok now delay Hd order Ho _ _ E) as (Hp & Hn & Hl & Hperm & _ & Hs).
  assert (Hin : forall q, q ∈ ls <-> exists s, sentPackets pm !! s = Some q /\ is_lost now delay pm (s, q))
    by (intros q; rewrite (elem_of_perm _ _ Hperm); by apply lost_list_elem).
  split; [|done]. split; try done.
  - intros q. by rewrite Hp.
  - intros q. unfold deref. by rewrite Hp.
  - intros q (s & Eq & _)%Hin. apply tracked_elem. eauto.
  - rewrite Hperm. by apply lost_list_nodup.
  - intros q. rewrite !tracked_elem. split.
    + intros [s Eq]. rewrite Hs in Eq. destruct (sentPackets pm !! s) as [r|] eqn:Es; [|done].
      case_decide as Hlost; [done|]. injection Eq as ->. split; [eauto|].
      intros (t & Et & Hlt)%Hin. by rewrite (tracked_inj pm t s q) in Hlt.
    + intros [[s Eq] Hnin]. exists s. rewrite Hs, Eq, decide_False; [done|]. intros ?. apply Hnin, Hin. eauto.
Qed.

(** [alloc] puts a value at an address not in use. *)
Record allocates (vs : list SentPacket) (pm pm' : PacketManager) (ps : list ptr) : Prop := {
  al_ok : PM_ok pm -> PM_ok pm';
  al_next : nextSeq pm' = nextSeq pm;
  al_sent : sentPackets pm' = sentPackets pm;
  al_nodup : NoDup ps;
  al_fresh : forall q, q ∈ ps -> packets pm !! q = None;
  al_values : Forall2 (fun q v => packets pm' !! q = Some v) ps vs;
  al_others : forall q, q ∉ ps -> packets pm' !! q = packets pm !! q;
  al_largest : largestAcked pm' = largestAcked pm
}.

Lemma alloc_ok pm v : PM_ok pm -> PM_ok (alloc pm v).2.
Proof. intros Hok. eapply pm_step_ok; [apply PAlloc | done]. Qed.

Lemma alloc_all_spec vs pm : let '(pm', ps) := alloc_all vs pm in allocates vs pm pm' ps.
Proof.
  unfold alloc_all.
  enough (forall vs0 pm0 ps0, allocates vs0 pm pm0 ps0 ->
    let '(pm', ps) := fold_left (fun st v => let '(p, pm) := alloc st.1 v in (pm, st.2 ++ [p])) vs (pm0, ps0) in
    allocates (vs0 ++ vs) pm pm' ps) as H.
  { apply (H [] pm []). split; try done; [apply NoDup_nil_2 |].
    intros q Hq. by apply not_elem_of_nil in Hq. }
  induction vs as [|v vs IH]; intros vs0 pm0 ps0 H0; cbn [fold_left]; [by rewrite app_nil_r|].
  replace (vs0 ++ v :: vs) with ((vs0 ++ [v]) ++ vs) by by rewrite <- app_assoc.
  destruct (alloc pm0 v) as [p pm1] eqn:E. cbn [fst snd]. apply IH. clear IH.
  assert (Hok1 : PM_ok pm -> PM_ok pm1).
  { intros Hok. pose proof (alloc_ok pm0 v (al_ok _ _ _ _ H0 Hok)) as Hok1. by rewrite E in Hok1. }
  unfold alloc in E. injection E as Ep Epm.
  assert (Hf : packets pm0 !! p = None) by (rewrite <- Ep; apply not_elem_of_dom, is_fresh).
  assert (Hpk : forall q, packets pm1 !! q = if decide (q = p) then Some v else packets pm0 !! q).
  { intros q. rewrite <- Epm, Ep. cbn. case_decide as Hq; [subst; by rewrite lookup_insert_eq|].
    by rewrite lookup_insert_ne. }
  destruct H0 as [_ Hn Hs Hnd Hfr Hv Ho Hlg].
  assert (Hnin : p ∉ ps0).
  { intros (i & Hi)%list_elem_of_lookup. destruct (Forall2_lookup_l _ _ _ _ _ Hv Hi) as (w & _ & Hw). congruence. }
  rewrite Epm, Ep. split; try done.
  - by rewrite <- Epm.
  - by rewrite <- Epm.
  - apply NoDup_app. split_and!; [done | | apply NoDup_singleton]. intros q Hq ->%list_elem_of_singleton. done.
  - intros q [Hq| ->%list_elem_of_singleton]%elem_of_app; [by apply Hfr|]. by rewrite <- Ho.
  - apply Forall2_app; [|constructor; [by rewrite Hpk, decide_True | constructor]].
    eapply Forall2_impl; [exact Hv|]. intros q w Hq. cbn in *. rewrite Hpk. case_decide; [congruence | done].
  - intros q Hq. apply not_elem_of_app in Hq as [Hq1 Hq2%not_elem_of_cons]. rewrite Hpk, decide_False by naive_solver.
    by apply Ho.
  - by rewrite <- Epm.
Qed.

(** ** The invariant *)

Definition maxPacket : Z := 2 ^ 17.

(** Every data packet's content is acknowledged or carried by a packet in [out]. *)
Definition items_ok (pm : PacketManager) (out : list ptr) : Prop :=
  forall p x, sp_Probe (deref pm p) = false -> carries (deref pm p) x ->
    exists q, sp_Probe (deref pm q) = false /\ carries (deref pm q) x /\
      (sp_IsAcked (deref pm q) = true \/ q ∈ out).

Definition size_ok (v : SentPacket) : Prop :=
  0 <= sp_Size v <= maxPacket /\ (sp_Probe v = true -> sp_Size v <= MaxDatagramSize).

(** The size is that of the encoded packet. *)
Definition sized (hdr : nat) (v : SentPacket) : Prop :=
  sp_Size v = Z.of_nat (hdr + sum_list (FrameLen <$> sp_Frames v)).

Definition sizes_ok (hdr : nat) (pm : PacketManager) : Prop :=
  forall p, size_ok (deref pm p) /\ (is_Some (packets pm !! p) -> sized hdr (deref pm p)).

Definition header (c : Connection) : nat := (18 + Len (remoteCID c) + Len (localCID c))%nat.

(** A lost or split packet not yet sent again. *)
Definition live (pm : PacketManager) (p : ptr) : Prop :=
  is_Some (packets pm !! p) /\ sp_Probe (deref pm p) = false /\ sp_IsAcked (deref pm p) = false.

Definition queue (c : Connection) : list ptr := lostQueue (loss c).

(** [hand] are packets taken out of tracking whose bytes still count in
    flight, in the middle of an operation; [exact] says that the count is
    exact, not only a lower bound of what is tracked. *)
Record Good (exact : bool) (hand : list ptr) (c : Connection) : Prop := {
  g_pm : PM_ok (c_pm c);
  g_next : nextSeq (c_pm c) = issued c;
  g_nodup : NoDup (tracked (c_pm c) ++ queue c ++ hand);
  g_live : forall p, p ∈ queue c ++ hand -> live (c_pm c) p;
  g_sizes : sizes_ok (header c) (c_pm c);
  g_flight : 0 <= inflight (c_cc c) <= total (load (c_pm c)) (tracked (c_pm c) ++ hand);
  g_exact : exact = true -> inflight (c_cc c) = total (load (c_pm c)) (tracked (c_pm c) ++ hand);
  g_items : items_ok (c_pm c) (tracked (c_pm c) ++ queue c ++ hand);
  g_mtu : MTU_ok (c_mtu c);
  g_cids : (Len (localCID c) <= 20)%nat /\ (Len (remoteCID c) <= 20)%nat
}.

(** The packets of the queue are allocated. *)
Definition stored (c : Connection) : Prop := forall p, p ∈ queue c -> is_Some (packets (c_pm c) !! p).

(** Calls that change nothing of a packet once it is sent. *)
Definition loads (pm pm' : PacketManager) : Prop :=
  forall q, is_Some (packets pm !! q) -> is_Some (packets pm' !! q) /\ same_load (deref pm q) (deref pm' q).

#[export] Instance loads_preorder : PreOrder loads.
Proof.
  split; [by intros pm q|]. intros a b c H1 H2 q Hq. destruct (H1 q Hq) as [S1 (A1 & A2 & A3 & A4 & A5)].
  destruct (H2 q S1) as [S2 (B1 & B2 & B3 & B4 & B5)]. split; [done|]. unfold same_load. split_and!; congruence.
Qed.

Lemma insert_loads pm pm' p v : packets pm' = <[p := v]> (packets pm) -> same_load (deref pm p) v -> loads pm pm'.
Proof.
  intros E Hv q Hq. unfold deref. rewrite E. destruct (decide (q = p)) as [->|Hne].
  - rewrite lookup_insert_eq, lookup_total_insert_eq. eauto.
  - by rewrite lookup_insert_ne, lookup_total_insert_ne.
Qed.

(** The probe timer is armed while bytes are in flight. *)
Definition Armed (c : Connection) : Prop := 0 < inflight (c_cc c) -> ptoTimer (c_cc c) <> None.

(** The resend queue is not stuck: it is empty, or the pacer's timer will
    resume it, or its first packet does not fit the congestion window. *)
Definition Draining (c : Connection) : Prop :=
  queue c = [] \/ lostTimer (loss c) <> None \/
  exists p rest, queue c = p :: rest /\
    cwnd (c_cc c) < inflight (c_cc c) + sp_Size (deref (c_pm c) p).

(** Between operations ([Calm]) no packet is in hand and the queue drains; in
    the middle of one ([Busy]) neither need be so. *)
Inductive phase := Calm | Busy (hand : list ptr).

Definition hand_of (ph : phase) : list ptr := match ph with Calm => [] | Busy h => h end.

(** The invariant holds until the connection closes, as long as the sequence
    numbers have not wrapped around. *)
Definition Inv (exact : bool) (ph : phase) (c : Connection) : Prop :=
  issued c < 2 ^ 32 -> closeCh (life c) = false ->
  Good exact (hand_of ph) c /\ Armed c /\ (ph = Calm -> Draining c).

Definition later (c c' : Connection) : Prop :=
  issued c <= issued c' /\ (closeCh (life c) = true -> closeCh (life c') = true).

#[export] Instance later_preorder : PreOrder later.
Proof. split; [by split; [lia|] | intros a b c [] []; split; [lia | auto]]. Qed.

(** [c'] comes after [c], and the invariant is carried over. *)
Definition keeps (exact : bool) (ph ph' : phase) (c c' : Connection) : Prop :=
  later c c' /\ (Inv exact ph c -> Inv exact ph' c').

Lemma keeps_refl e ph c : keeps e ph ph c c.
Proof. split; [reflexivity | auto]. Qed.

Lemma keeps_trans e h1 h2 h3 a b c : keeps e h1 h2 a b -> keeps e h2 h3 b c -> keeps e h1 h3 a c.
Proof. intros [L1 H1] [L2 H2]. split; [by etransitivity | auto]. Qed.

Lemma keeps_busy e c : keeps e Calm (Busy []) c c.
Proof. split; [reflexivity|]. intros HI Hi Hc. destruct (HI Hi Hc) as (? & ? & _). by split_and!. Qed.

(** From the state where the invariant says something. *)
Lemma keeps_open e ph ph' c c' : later c c' ->
  (issued c' < 2 ^ 32 -> closeCh (life c') = false -> closeCh (life c) = false ->
   Good e (hand_of ph) c -> Armed c -> (ph = Calm -> Draining c) ->
   Good e (hand_of ph') c' /\ Armed c' /\ (ph' = Calm -> Draining c')) -> keeps e ph ph' c c'.
Proof.
  intros [L1 L2] H. split; [done|]. intros HI Hi Hc.
  assert (closeCh (life c) = false) as Hc0 by (destruct (closeCh (life c)); [by rewrite L2 in Hc | done]).
  destruct (HI ltac:(lia) Hc0) as (? & ? & ?). by apply H.
Qed.

(** What keeps the queue draining: it and its timer, the loads and the window
    stay, and no bytes leave flight. *)
Record steady (c c' : Connection) : Prop := {
  st_queue : queue c' = queue c;
  st_timer : lostTimer (loss c') = lostTimer (loss c);
  st_loads : loads (c_pm c) (c_pm c');
  st_cwnd : cwnd (c_cc c') = cwnd (c_cc c);
  st_flight : inflight (c_cc c) <= inflight (c_cc c')
}.

Lemma Good_stored e h c : Good e h c -> stored c.
Proof. intros G p Hp. apply (g_live _ _ _ G). apply elem_of_app. by left. Qed.

Lemma steady_draining e h c c' : Good e h c -> steady c c' -> Draining c -> Draining c'.
Proof.
  intros G [Eq Et HL Ew Hf] [H|[H|(p & rest & Ep & Hw)]]; [left; congruence | right; left; congruence |].
  right. right. exists p, rest. rewrite Eq, Ew. split; [done|].
  destruct (HL p) as [_ (-> & _)]; [apply (Good_stored _ _ _ G); rewrite Ep; left | lia].
Qed.

Lemma keeps_good e ph ph' c c' : later c c' ->
  (issued c' < 2 ^ 32 -> Good e (hand_of ph) c -> Armed c -> Armed c') ->
  (issued c' < 2 ^ 32 -> Good e (hand_of ph) c -> ph' = Calm -> ph = Calm /\ steady c c') ->
  (issued c' < 2 ^ 32 -> closeCh (life c) = false -> Good e (hand_of ph) c -> Good e (hand_of ph') c') ->
  keeps e ph ph' c c'.
Proof.
  intros L HA HD HG. apply keeps_open; [done|]. intros Hi _ Hc G Ha Hd. split_and!; [auto..|].
  intros Hp. destruct (HD Hi G Hp) as [Hp' Hs]. eapply steady_draining; eauto.
Qed.

Lemma keeps_fold {A} e ph (f : Connection -> A -> Connection) (l : list A) c :
  (forall c x, x ∈ l -> keeps e ph ph c (f c x)) -> keeps e ph ph c (fold_left f l c).
Proof.
  revert c. induction l as [|x l IH]; intros c H; [apply keeps_refl|]. cbn [fold_left].
  eapply keeps_trans; [apply H; left | apply IH]. intros c' y Hy. apply H. by right.
Qed.

(** Updates of fields the invariant does not read. *)
Record agrees (c c' : Connection) : Prop := {
  ag_pm : c_pm c' = c_pm c;
  ag_issued : issued c' = issued c;
  ag_queue : queue c' = queue c;
  ag_flight : inflight (c_cc c') = inflight (c_cc c);
  ag_mtu : c_mtu c' = c_mtu c;
  ag_local : localCID c' = localCID c;
  ag_remote : remoteCID c' = remoteCID c
}.

Lemma Good_agrees e h c c' : agrees c c' -> Good e h c -> Good e h c'.
Proof.
  intros [E1 E2 E3 E4 E5 E6 E7] []. split; unfold header in *;
    rewrite ?E1, ?E2, ?E3, ?E4, ?E5, ?E6, ?E7; done.
Qed.

Lemma keeps_agrees e ph c c' : agrees c c' -> ptoTimer (c_cc c') = ptoTimer (c_cc c) ->
  lostTimer (loss c') = lostTimer (loss c) -> cwnd (c_cc c') = cwnd (c_cc c) ->
  (closeCh (life c) = true -> closeCh (life c') = true) -> keeps e ph ph c c'.
Proof.
  intros Ha Ht Hl Hw Hc. apply keeps_good; [split; [by rewrite (ag_issued _ _ Ha) | done] | | |].
  - intros _ _. unfold Armed. by rewrite Ht, (ag_flight _ _ Ha).
  - intros _ _ ->. split; [done|]. split; [apply Ha | done | by rewrite (ag_pm _ _ Ha) | done | by rewrite (ag_flight _ _ Ha)].
  - intros _ _. by apply Good_agrees.
Qed.

(** Solves [keeps] for an update of fields the invariant does not read. *)
Ltac irrelevant := apply keeps_agrees; [split; reflexivity | reflexivity.. | auto].

Lemma transmit_keeps e ph data to c : keeps e ph ph c (transmit data to c).
Proof. unfold transmit. destruct (sendFunc c); [irrelevant | apply keeps_refl]. Qed.

Lemma add_sent_keeps e ph n c : keeps e ph ph c (add_sent n c).
Proof. irrelevant. Qed.

Lemma length_encoded c seq dst src frames :
  length (encoded c seq dst src frames)
  = (18 + Len (remoteCID c) + Len (localCID c) + sum_list (FrameLen <$> frames))%nat.
Proof. unfold encoded. by rewrite MarshalPacket_length. Qed.

(** ** The congestion controller's count *)

Lemma sent_flight now b cc : inflight (OnPacketSent now b cc) = inflight cc +i b.
Proof.
  unfold OnPacketSent.
  match goal with |- context [armPtoTimer ?n ?c] => destruct (armPtoTimer_eq n c) as (t & -> & _) end. done.
Qed.

Lemma sent_timer now b cc : ptoTimer (OnPacketSent now b cc) <> None.
Proof.
  unfold OnPacketSent.
  match goal with |- context [armPtoTimer ?n ?c] => destruct (armPtoTimer_eq n c) as (t & -> & _) end. done.
Qed.

Lemma grow_flight now bytes la cc : inflight (grow now bytes la cc) = inflight cc.
Proof.
  unfold grow. set (cc1 := if inRecovery cc && _ then _ else _).
  assert (E : inflight cc1 = inflight cc) by (unfold cc1; by case_match). clearbody cc1.
  repeat case_match; try done. destruct (cubicUpdate_rest now bytes cc1) as (_ & -> & _). done.
Qed.

Lemma acked_flight now bytes sent delay new la cc :
  let cc' := OnPacketAcked now bytes sent delay new la cc in
  inflight cc' = Z.max 0 (inflight cc -i bytes) /\ (ptoTimer cc' = None <-> inflight cc' <= 0).
Proof.
  cbv zeta. destruct (OnPacketAcked_parts now bytes sent delay new la cc) as (cc1 & t & p & E & -> & Ht).
  cbn [inflight ptoTimer with_pacer with_pto]. split; [|done]. subst cc1. destruct new; [|done].
  rewrite grow_flight. by destruct (updateRtt_window now sent delay
    (with_inflight cc (Z.max 0 (inflight cc -i bytes)))) as (_ & _ & _ & _ & _ & -> & _).
Qed.

Lemma congestion_flight now fn cc :
  inflight (OnCongestionEvent now fn cc) = inflight cc /\
  ptoTimer (OnCongestionEvent now fn cc) = ptoTimer cc.
Proof.
  unfold OnCongestionEvent. destruct (inRecovery cc); [done|].
  match goal with |- context [updatePacingRate ?c] => destruct (updatePacingRate_eq c) as [p ->] end. done.
Qed.

Lemma lost_flight now fn bytes cc :
  inflight (OnPacketLost now fn bytes cc) = Z.max 0 (inflight cc -i bytes) /\
  ptoTimer (OnPacketLost now fn bytes cc) = ptoTimer cc.
Proof.
  unfold OnPacketLost. set (l := inflight cc -i bytes).
  destruct (congestion_flight now fn (with_inflight cc (if l <? 0 then 0 else l))) as [-> ->].
  cbn [inflight with_inflight ptoTimer]. split; [zcases; lia | done].
Qed.

Lemma persistent_flight cc : inflight (OnPersistentCongestion cc) = inflight cc /\
  ptoTimer (OnPersistentCongestion cc) = ptoTimer cc.
Proof.
  unfold OnPersistentCongestion.
  match goal with |- context [updatePacingRate ?c] => destruct (updatePacingRate_eq c) as [p ->] end. done.
Qed.

(** Far from the width of an int. *)
Lemma tracked_bound e h c : Good e h c -> issued c < 2 ^ 32 ->
  0 <= total (load (c_pm c)) (tracked (c_pm c)) <= 2 ^ 50.
Proof.
  intros G Hi. pose proof (tracked_length _ (g_pm _ _ _ G)) as Hl. rewrite (g_next _ _ _ G) in Hl.
  assert (Hb : 0 <= total (load (c_pm c)) (tracked (c_pm c))
    <= maxPacket * Z.of_nat (length (tracked (c_pm c)))).
  { apply total_bounds. intros p _. destruct (g_sizes _ _ _ G p) as [[Hs _] _].
    unfold load, data_size. unfold maxPacket in *. case_match; lia. }
  unfold maxPacket in *. nia.
Qed.

Lemma flight_bound e c : Good e [] c -> issued c < 2 ^ 32 -> 0 <= inflight (c_cc c) <= 2 ^ 50.
Proof.
  intros G Hi. pose proof (g_flight _ _ _ G) as Hf. rewrite app_nil_r in Hf.
  pose proof (tracked_bound _ _ _ G Hi). lia.
Qed.

(** ** Packets that enter tracking *)

Section Entering.
Context (p : ptr) (v : SentPacket) (pm pm' : PacketManager).
Context (Hok : PM_ok pm) (En : enters p v pm pm').
Context (Hv : v = deref pm p \/ packets pm !! p = None).

Lemma en_deref q : q <> p -> deref pm' q = deref pm q.
Proof using En. intros Hq. apply deref_same. by apply (en_others _ _ _ _ En). Qed.

Lemma en_sizes hdr : sizes_ok hdr pm -> size_ok v -> sized hdr v -> sizes_ok hdr pm'.
Proof using En.
  intros Hs Hsz Hpos q. destruct (decide (q = p)) as [->|Hq].
  - destruct (en_load _ _ _ _ En) as (E1 & E3 & E2 & _). unfold size_ok, sized in *.
    rewrite E1, E2, E3. auto.
  - rewrite (en_deref q Hq), (en_others _ _ _ _ En q Hq). apply Hs.
Qed.

Lemma en_live q : live pm q -> sp_Probe v = false -> live pm' q.
Proof using En.
  intros (H1 & H2 & H3) Hp. destruct (decide (q = p)) as [->|Hq].
  - split_and!; [apply En | | apply En]. destruct (en_load _ _ _ _ En) as (_ & _ & -> & _). done.
  - unfold live. rewrite (en_deref q Hq), (en_others _ _ _ _ En q Hq). done.
Qed.

Lemma en_items out out' : items_ok pm out -> (forall q, q ∈ out -> q ∈ out') -> p ∈ out' ->
  items_ok pm' out'.
Proof using En Hv.
  intros Hi Hsub Hp q x Hpr Hc. destruct (decide (q = p)) as [->|Hq]; [by eauto|].
  rewrite (en_deref q Hq) in Hpr, Hc. destruct (Hi q x Hpr Hc) as (r & Hr1 & Hr2 & Hr3).
  destruct (decide (r = p)) as [->|Hr].
  - destruct Hv as [E|E].
    + exists p. destruct (en_load _ _ _ _ En) as (_ & _ & E2 & _).
      rewrite E2, E. split_and!; [done | |by right]. rewrite E in *.
      by apply (same_load_carries _ _ x (en_load _ _ _ _ En)).
    + rewrite (deref_none _ _ E) in Hr2. destruct Hr2 as (f & Hf & _). by apply not_elem_of_nil in Hf.
  - exists r. rewrite (en_deref r Hr). naive_solver.
Qed.

Lemma en_load_eq q : q ∈ tracked pm -> load pm' q = load pm q.
Proof using Hok En Hv.
  intros Hq. unfold load. destruct (decide (q = p)) as [->|Hne]; [|by rewrite en_deref].
  destruct Hv as [E|E].
  - rewrite <- E. by apply same_load_size, En.
  - apply tracked_fact in Hq as [[? Hs] _]; [congruence | done].
Qed.

Lemma en_perm_new : p ∉ tracked pm -> tracked pm' ≡ₚ p :: tracked pm.
Proof using Hok En.
  intros Hp. apply NoDup_Permutation.
  - apply tracked_nodup, En.
  - constructor; [done | by apply tracked_nodup].
  - intros q. rewrite (en_tracked _ _ _ _ En). by rewrite elem_of_cons.
Qed.

Lemma en_perm_again : p ∈ tracked pm -> tracked pm' ≡ₚ tracked pm.
Proof using Hok En.
  intros Hp. apply NoDup_Permutation; [apply tracked_nodup, En | by apply tracked_nodup|].
  intros q. rewrite (en_tracked _ _ _ _ En).
  split; [by intros [->|] | by right].
Qed.

Lemma en_total_new l : p ∉ tracked pm -> (forall q, q ∈ l -> q <> p) ->
  total (load pm') (tracked pm' ++ l) = data_size v + total (load pm) (tracked pm ++ l).
Proof using Hok En Hv.
  intros Hp Hl. rewrite (total_perm _ _ _ (Permutation_app_tail l (en_perm_new Hp))).
  rewrite <- app_comm_cons, total_cons. f_equal.
  - unfold load. by apply same_load_size, En.
  - apply total_ext. intros q [Hq|Hq]%elem_of_app; [by apply en_load_eq|].
    unfold load. rewrite en_deref; [done | by apply Hl].
Qed.
End Entering.

Lemma enters_loads p v pm pm' : enters p v pm pm' -> v = deref pm p \/ packets pm !! p = None ->
  loads pm pm'.
Proof.
  intros En Hv q Hq. destruct (decide (q = p)) as [->|Hne].
  - destruct Hv as [->|E]; [|destruct Hq; congruence]. split; apply En.
  - by rewrite (en_deref p v _ _ En), (en_others _ _ _ _ En).
Qed.

(** A new packet, whose bytes are added to the count. *)
Lemma enter_new e c c' p v : Good e [] c -> issued c' < 2 ^ 32 ->
  enters p v (c_pm c) (c_pm c') -> packets (c_pm c) !! p = None ->
  issued c' = issued c + 1 -> queue c' = queue c -> MTU_ok (c_mtu c') ->
  localCID c' = localCID c -> remoteCID c' = remoteCID c ->
  size_ok v -> sized (header c) v -> inflight (c_cc c') = inflight (c_cc c) + data_size v ->
  Good e [] c'.
Proof.
  intros G Hi En Hp Hiss Hq Hm Hl Hr Hsz Hpos Hf. pose proof (g_pm _ _ _ G) as Hok.
  assert (Hpt : p ∉ tracked (c_pm c)).
  { intros [[? Hs] _]%tracked_fact; [congruence | done]. }
  assert (Hpq : p ∉ queue c).
  { intros Hin. destruct (g_live _ _ _ G p) as ([? Hs] & _); [apply elem_of_app; by left | congruence]. }
  pose proof (en_perm_new p v _ _ Hok En Hpt) as Hperm.
  pose proof (en_total_new p v _ _ Hok En (or_intror Hp) [] Hpt) as Htot.
  assert (0 <= data_size v) by (unfold data_size, size_ok in *; case_match; lia).
  destruct G as [_ Gn Gnd Gl Gs Gf Ge Gi Gm Gc]. rewrite ?app_nil_r in *.
  split; unfold header; rewrite ?app_nil_r, ?Hq, ?Hl, ?Hr, ?Hf; try done.
  - apply En.
  - rewrite (en_next _ _ _ _ En). lia.
  - rewrite Hperm, <- app_comm_cons. constructor; [|done]. by rewrite elem_of_app; intros [|].
  - intros q Hin. destruct (Gl q Hin) as (L1 & L2 & L3). assert (q <> p) by (intros ->; done).
    unfold live. rewrite (en_deref p v _ _ En), (en_others _ _ _ _ En) by done. done.
  - by apply (en_sizes p v (c_pm c)).
  - rewrite Htot by (intros q Hin; by apply not_elem_of_nil in Hin). lia.
  - intros He. rewrite Htot, (Ge He) by (intros q Hin; by apply not_elem_of_nil in Hin). lia.
  - apply (en_items p v (c_pm c) _ En (or_intror Hp) (tracked (c_pm c) ++ queue c)); [done| |].
    + intros q. rewrite !elem_of_app, (en_tracked _ _ _ _ En). naive_solver.
    + rewrite elem_of_app, (en_tracked _ _ _ _ En). naive_solver.
Qed.

(** A packet in hand goes out again; its bytes are counted already. *)
Lemma enter_hand e h c c' p : Good e (p :: h) c ->
  enters p (deref (c_pm c) p) (c_pm c) (c_pm c') ->
  issued c' = issued c + 1 -> queue c' = queue c -> c_mtu c' = c_mtu c ->
  localCID c' = localCID c -> remoteCID c' = remoteCID c ->
  inflight (c_cc c') = inflight (c_cc c) -> Good e h c'.
Proof.
  intros G En Hiss Hq Hm Hl Hr Hf. pose proof (g_pm _ _ _ G) as Hok.
  pose proof (g_nodup _ _ _ G) as Gnd.
  assert (Hnd : NoDup (p :: tracked (c_pm c) ++ queue c ++ h)).
  { rewrite !app_assoc in Gnd. rewrite <- Permutation_middle in Gnd. by rewrite app_assoc. }
  apply NoDup_cons in Hnd as [Hpn Hnd]. rewrite !elem_of_app in Hpn.
  assert (Hpt : p ∉ tracked (c_pm c)) by naive_solver.
  pose proof (en_perm_new p _ _ _ Hok En Hpt) as Hperm.
  assert (Htot : total (load (c_pm c')) (tracked (c_pm c') ++ h)
    = total (load (c_pm c)) (tracked (c_pm c) ++ p :: h)).
  { rewrite (en_total_new p _ _ _ Hok En (or_introl eq_refl) h Hpt) by (intros ?? ->; naive_solver).
    autorewrite with total. unfold load at 4. lia. }
  destruct (g_live _ _ _ G p) as (Lp1 & Lp2 & Lp3); [rewrite !elem_of_app; right; left|].
  destruct G as [_ Gn _ Gl Gs Gf Ge Gi Gm Gc].
  split; unfold header; rewrite ?Hq, ?Hl, ?Hr, ?Hf, ?Hm, ?Htot; try done.
  - apply En.
  - rewrite (en_next _ _ _ _ En). lia.
  - rewrite Hperm, <- app_comm_cons. constructor; [by rewrite !elem_of_app | done].
  - intros q Hin. apply (en_live p _ (c_pm c) _ En); [|done]. apply Gl. rewrite elem_of_app in *.
    destruct Hin; [by left | right; by right].
  - apply (en_sizes p _ (c_pm c) _ En); [done | apply Gs | by apply Gs].
  - apply (en_items p _ (c_pm c) _ En (or_introl eq_refl) (tracked (c_pm c) ++ queue c ++ p :: h)); [done| |].
    + intros q. rewrite !elem_of_app, elem_of_cons, (en_tracked _ _ _ _ En). naive_solver.
    + rewrite !elem_of_app, (en_tracked _ _ _ _ En). naive_solver.
Qed.

(** A tracked packet goes out again under a new number. *)
Lemma enter_again e h c c' p : Good e h c -> p ∈ tracked (c_pm c) -> sp_Probe (deref (c_pm c) p) = false ->
  enters p (deref (c_pm c) p) (c_pm c) (c_pm c') ->
  issued c' = issued c + 1 -> queue c' = queue c -> c_mtu c' = c_mtu c ->
  localCID c' = localCID c -> remoteCID c' = remoteCID c ->
  inflight (c_cc c') = inflight (c_cc c) -> Good e h c'.
Proof.
  intros G Hp Hpr En Hiss Hq Hm Hl Hr Hf. pose proof (g_pm _ _ _ G) as Hok.
  pose proof (en_perm_again p _ _ _ Hok En Hp) as Hperm.
  assert (Hld : forall q, load (c_pm c') q = load (c_pm c) q).
  { intros q. unfold load. destruct (decide (q = p)) as [->|]; [by apply same_load_size, En|].
    by rewrite (en_deref p _ _ _ En). }
  assert (Htot : total (load (c_pm c')) (tracked (c_pm c') ++ h)
    = total (load (c_pm c)) (tracked (c_pm c) ++ h)).
  { rewrite (total_perm _ _ _ (Permutation_app_tail h Hperm)). apply total_ext. auto. }
  destruct (tracked_fact _ _ Hok Hp) as [Hst _].
  destruct G as [_ Gn Gnd Gl Gs Gf Ge Gi Gm Gc].
  split; unfold header; rewrite ?Hq, ?Hl, ?Hr, ?Hf, ?Hm, ?Htot; try done.
  - apply En.
  - rewrite (en_next _ _ _ _ En). lia.
  - by rewrite Hperm.
  - intros q Hin. apply (en_live p _ (c_pm c) _ En); [|done]. by apply Gl.
  - apply (en_sizes p _ (c_pm c) _ En); [done | apply Gs | by apply Gs].
  - apply (en_items p _ (c_pm c) _ En (or_introl eq_refl) (tracked (c_pm c) ++ queue c ++ h)); [done| |].
    + intros q. rewrite !elem_of_app, (en_tracked _ _ _ _ En). naive_solver.
    + rewrite !elem_of_app, (en_tracked _ _ _ _ En). naive_solver.
Qed.

(** ** Sending *)

Definition frames_small (frames : list Frame) : Prop :=
  Z.of_nat (sum_list (FrameLen <$> frames)) <= 70000.

Lemma track_good e now dst src frames c (c' := track now dst src frames c) :
  0 <= now -> frames_small frames -> issued c' < 2 ^ 32 -> Good e [] c -> Good e [] c' /\ steady c c'.
Proof.
  intros Hnow Hsm Hi G. cbn in Hi.
  pose proof (g_next _ _ _ G) as Hn. pose proof (flight_bound _ _ G ltac:(lia)) as Hb.
  unfold c', track in *. set (size := Z.of_nat _).
  assert (Hsz : 18 <= size <= maxPacket).
  { unfold size. rewrite length_encoded. destruct (g_cids _ _ _ G). unfold frames_small, maxPacket in *. lia. }
  destruct (register_enters now (c_pm c) size frames dst src false (g_pm _ _ _ G) Hnow) as (p & Hp & En); [lia|].
  assert (Hf : inflight (OnPacketSent now size (c_cc c)) = inflight (c_cc c) + size).
  { rewrite sent_flight. unfold maxPacket in *. nowrap. done. }
  split.
  - eapply (enter_new e c _ p); try done.
    + apply G.
    + split; [cbn [sp_Size fresh_packet]; lia | done].
    + unfold sized, size, header. cbn [sp_Size sp_Frames fresh_packet]. by rewrite length_encoded.
  - split; try done.
    + eapply enters_loads; [exact En | by right].
    + cbn [c_cc set_cc]. rewrite Hf. lia.
Qed.

Lemma track_keeps e now dst src frames c : 0 <= now -> frames_small frames ->
  keeps e Calm Calm c (track now dst src frames c).
Proof.
  intros Hnow Hsm. apply keeps_good; [split; [cbn; lia | done] | intros _ _ _ _; apply sent_timer | |].
  - intros Hi G _. split; [done|]. by apply (track_good e).
  - intros Hi _ G. by apply track_good.
Qed.

Lemma sendPacket_keeps e now dst src frames c : 0 <= now ->
  (existsb bears_data frames = true -> frames_small frames) ->
  keeps e Calm Calm c (sendPacket now dst src frames c).
Proof.
  intros Hnow Hsm. unfold sendPacket. set (c1 := if existsb bears_data frames then _ else c).
  assert (K : keeps e Calm Calm c c1).
  { unfold c1. destruct (existsb bears_data frames); [by apply track_keeps; auto | apply keeps_refl]. }
  clearbody c1. case_match; [done|]. eapply keeps_trans; [exact K|].
  eapply keeps_trans; [apply add_sent_keeps | apply transmit_keeps].
Qed.

Lemma control_keeps e now dst src f c : 0 <= now -> bears_data f = false ->
  keeps e Calm Calm c (sendPacket now dst src [f] c).
Proof. intros Hnow Hf. apply sendPacket_keeps; [done|]. cbn. by rewrite Hf. Qed.

Lemma sendFrames_keeps e now f c : 0 <= now -> bears_data f = false ->
  keeps e Calm Calm c (sendFrames now [f] c).
Proof. unfold sendFrames. apply control_keeps. Qed.

Lemma prepare_keeps e now dst src frames c : 0 <= now -> frames_small frames ->
  keeps e Calm Calm c (prepareDataPacket now dst src frames c).1.
Proof.
  intros Hnow Hsm. unfold prepareDataPacket. set (c2 := set_cc _ _).
  assert (K : keeps e Calm Calm c c2).
  { eapply keeps_trans; [by apply (track_keeps e now dst src frames) | irrelevant]. }
  clearbody c2. case_match; [done|]. eapply keeps_trans; [exact K | apply add_sent_keeps].
Qed.

Lemma sendStreamFrames_keeps e now sid rid offset data chunk syn c : 0 <= now -> 0 < chunk <= 2 ^ 16 ->
  keeps e Calm Calm c (sendStreamFrames now sid rid offset data chunk syn c).
Proof.
  intros Hnow Hch. unfold sendStreamFrames.
  destruct (chunks_sizes (Z.to_nat chunk) ltac:(lia) (length data) offset syn false data ltac:(lia)) as (Hs & _).
  set (fs := chunk_frames _ _ _ _ _ _) in *. clearbody fs.
  enough (keeps e Calm Calm c (fold_left (prepare_all now rid sid) fs (c, [])).1) as K.
  { destruct (fold_left _ _ _) as [c' bufs]. eapply keeps_trans; [exact K|].
    unfold writeDatagrams. case_match; [irrelevant | apply keeps_refl]. }
  generalize (@nil (list byte)) as bufs. revert c Hs.
  induction fs as [|f fs IH]; intros c Hs bufs; [apply keeps_refl|]. cbn [fold_left].
  destruct (prepare_all now rid sid (c, bufs) f) as [c1 bufs1] eqn:E.
  unfold prepare_all in E. destruct (prepareDataPacket now rid sid [StreamF f] c) as [c2 buf] eqn:E2.
  injection E as <- <-.
  assert (Hf : (length (Data f) <= Z.to_nat chunk)%nat) by (apply Hs; left).
  eapply keeps_trans; [|apply IH; intros g Hg; apply Hs; by right].
  replace c2 with (prepareDataPacket now rid sid [StreamF f] c).1 by by rewrite E2.
  apply prepare_keeps; [done|]. unfold frames_small. cbn. unfold StreamFrame_Len, streamFrameHeaderLen, id. lia.
Qed.

Definition call_small (call : conn_call) : Prop :=
  match call with
  | SendStreamFrame _ _ _ data _ _ => Z.of_nat (length data) <= 2 ^ 16
  | SendStreamFrames _ _ _ _ chunk _ => 0 < chunk <= 2 ^ 16
  | _ => True
  end.

Lemma exec_call_keeps e now c call : 0 <= now -> call_small call ->
  keeps e Calm Calm c (exec_call now c call).
Proof.
  intros Hnow Hs. destruct call; cbn in *.
  - apply sendPacket_keeps; [done|]. intros _. unfold frames_small. cbn.
    unfold StreamFrame_Len, streamFrameHeaderLen, id. cbn. lia.
  - by apply sendStreamFrames_keeps.
  - by apply control_keeps.
  - by apply control_keeps.
  - by apply control_keeps.
Qed.

Lemma exec_calls_keeps e now calls c : 0 <= now -> Forall call_small calls ->
  keeps e Calm Calm c (exec_calls now calls c).
Proof.
  intros Hnow Hs. apply keeps_fold. intros c' call Hin. apply exec_call_keeps; [done|].
  by rewrite Forall_forall in Hs; apply Hs.
Qed.

Lemma on_stream_keeps e now id op c : 0 <= now ->
  (forall s, Forall call_small (op s).2) -> keeps e Calm Calm c (on_stream now id op c).
Proof.
  intros Hnow Hop. unfold on_stream. destruct (streams (table c) !! id) as [s|]; [|apply keeps_refl].
  specialize (Hop s). destruct (op s) as [s' calls].
  eapply keeps_trans; [|by apply exec_calls_keeps]. irrelevant.
Qed.

(** ** Path MTU probes *)

Lemma NextProbe_size now m : MTU_ok m -> 0 <= now ->
  let '(m', size) := NextProbe now m in
  MTU_ok m' /\ current m' = current m /\ (size = 0 \/ SafeDatagramSize < size <= MaxDatagramSize).
Proof.
  intros Hm Hnow. pose proof (mtu_apply_ok m (CNextProbe now) Hm Hnow) as Hm'.
  pose proof (mtu_apply_current m (CNextProbe now)) as Hcur. cbn [mtu_apply] in *.
  unfold NextProbe in *. destruct (negb (retryAt m =? 0)) eqn:Er.
  - destruct (now <? retryAt m); cbn in *; [auto|]. split_and!; [done..|].
    right. unfold SafeDatagramSize, MaxDatagramSize. lia.
  - destruct (done m) eqn:Ed; cbn in *; [auto|]. destruct (inFlight m); cbn in *; [auto|].
    split_and!; [done..|]. right. destruct Hm as [? _ _ ? _ _ Hs]. destruct (Hs Ed). lia.
Qed.

(** The probe of [size] bytes: tracked, not counted in flight. *)
Definition send_probe (now size : Z) (c : Connection) : Connection :=
  let header := Z.of_nat (length (encoded c (nextSeq (c_pm c)) 0 0 [MTUProbeFrame 1])) - 1 in
  let frames := [MTUProbeFrame (size - header)] in
  let n := Z.of_nat (length (encoded c (nextSeq (c_pm c)) 0 0 frames)) in
  bump (set_pm (register now (c_pm c) (fresh_packet n frames 0 0 true)) c).

Lemma send_probe_good e now size c : Good e [] c -> issued c + 1 < 2 ^ 32 -> 0 <= now ->
  SafeDatagramSize < size <= MaxDatagramSize ->
  Good e [] (send_probe now size c) /\ steady c (send_probe now size c).
Proof.
  intros G Hi Hnow Hsz. unfold send_probe. set (frames := [MTUProbeFrame _]). set (n := Z.of_nat _).
  assert (Hn : n = size).
  { unfold n, frames. rewrite !length_encoded. cbn. unfold MTUProbeFrame_Len, id.
    destruct (g_cids _ _ _ G). unfold SafeDatagramSize in *. zcases; lia. }
  unfold SafeDatagramSize, MaxDatagramSize in *.
  destruct (register_enters now (c_pm c) n frames 0 0 true (g_pm _ _ _ G) Hnow) as (p & Hp & En);
    [rewrite (g_next _ _ _ G); lia|].
  split.
  - eapply (enter_new e c _ p); try done.
    + apply G.
    + split; cbn; [unfold maxPacket; lia | intros _; unfold MaxDatagramSize; lia].
    + unfold sized, n, header. cbn [sp_Size sp_Frames fresh_packet]. by rewrite length_encoded.
    + cbn. lia.
  - split; try done. eapply enters_loads; [exact En | by right].
Qed.

Lemma probeMTU_keeps e now c : 0 <= now -> keeps e Calm Calm c (probeMTU now c).
Proof.
  intros Hnow. unfold probeMTU. destruct (negb (HasRttSample (c_cc c))); [apply keeps_refl|].
  destruct (NextProbe now (c_mtu c)) as [m size] eqn:Em.
  assert (Hm : MTU_ok (c_mtu c) -> MTU_ok m /\ (size = 0 \/ SafeDatagramSize < size <= MaxDatagramSize)).
  { intros H. pose proof (NextProbe_size now _ H Hnow) as Hs. rewrite Em in Hs. naive_solver. }
  assert (K : keeps e Calm Calm c (set_mtu m c)).
  { apply keeps_good; [by split | auto | by intros; split; [|split] |]. intros _ _ G. destruct (Hm (g_mtu _ _ _ G)).
    destruct G. by split. }
  destruct (Z.eqb_spec size 0) as [|Hnz]; [done|].
  match goal with |- keeps _ _ _ _ (transmit ?d ?a (add_sent ?k ?c1)) =>
    eapply (keeps_trans _ _ Calm _ _ (add_sent k c1)); [|apply transmit_keeps];
    eapply (keeps_trans _ _ Calm _ _ c1); [|apply add_sent_keeps];
    change c1 with (send_probe now size (set_mtu m c)) end.
  apply keeps_open; [split; [cbn; lia | done]|]. intros Hi _ _ G HA HD. cbn in Hi.
  destruct (Hm (g_mtu _ _ _ G)) as [Hm' [|Hsz]]; [done|].
  assert (G1 : Good e [] (set_mtu m c)) by (destruct G; by split).
  destruct (send_probe_good e now size (set_mtu m c) G1 Hi Hnow Hsz) as [G2 S2].
  split_and!; [done | done |]. intros _. eapply (steady_draining e [] (set_mtu m c)); [done..|]. by apply HD.
Qed.

(** ** Packets that leave tracking *)

Lemma removes_perm out pm pm' : PM_ok pm -> removes out pm pm' -> tracked pm ≡ₚ out ++ tracked pm'.
Proof.
  intros Hok R. apply NoDup_Permutation.
  - by apply tracked_nodup.
  - apply NoDup_app. split_and!; [apply R | | apply tracked_nodup, R].
    intros q Hq [_ Hn]%(rm_tracked _ _ _ R). done.
  - intros q. rewrite elem_of_app, (rm_tracked _ _ _ R).
    split; [intros Hq; destruct (decide (q ∈ out)); naive_solver | intros [Hq|[]]; [by apply R | done]].
Qed.

Lemma removes_load out pm pm' p : removes out pm pm' -> load pm' p = load pm p.
Proof. intros R. apply same_load_size, R. Qed.

Lemma removes_sizes hdr out pm pm' : PM_ok pm -> removes out pm pm' ->
  (forall q, is_Some (packets pm' !! q) -> is_Some (packets pm !! q)) ->
  sizes_ok hdr pm -> sizes_ok hdr pm'.
Proof.
  intros Hok R Hdom Hs q. destruct (rm_load _ _ _ R q) as (E1 & E3 & E2 & _). unfold size_ok, sized.
  rewrite E1, E2, E3. destruct (Hs q) as [H1 H2]. split; [done | intros Hq; apply H2; auto].
Qed.

Lemma HandleAckFrame_dom_back now pm f p : PM_ok pm ->
  is_Some (packets (HandleAckFrame now pm f).1 !! p) -> is_Some (packets pm !! p).
Proof.
  intros Hok. unfold HandleAckFrame.
  assert (H : forall l st, PM_ok st.1 -> is_Some (packets (fold_left take_seq l st).1 !! p) -> is_Some (packets st.1 !! p)).
  { induction l as [|s l IH]; intros [pm0 acc] Hok0 Hp; [done|]. cbn [fold_left fst] in *.
    assert (Hok1 : PM_ok (take_seq (pm0, acc) s).1).
    { pose proof (takes_acknowledge pm0 [s] Hok0) as Ha. cbn [fold_left] in Ha.
      apply acknowledges_ok in Ha; [|done]. unfold take_seq in *. by destruct (sentPackets pm0 !! s). }
    apply IH in Hp; [|done]. unfold take_seq in *. destruct (sentPackets pm0 !! s) as [q|] eqn:E; [|done].
    cbn in *. apply lookup_insert_is_Some in Hp as [<-|[_ Hp]]; [|done].
    by apply (pm_tracked _ Hok0) in E as [? _]. }
  specialize (H (ack_sequences f) (pm, []) Hok). cbn [fst] in H.
  destruct (fold_left take_seq (ack_sequences f) (pm, [])) as [pm' acked]. by case_match.
Qed.

(** Acknowledged packets: out of tracking and out of flight. *)
Lemma acked_good e c c' acked : Good e [] c -> issued c < 2 ^ 32 ->
  removes acked (c_pm c) (c_pm c') ->
  (forall q, is_Some (packets (c_pm c') !! q) -> is_Some (packets (c_pm c) !! q)) ->
  (forall q, sp_IsAcked (deref (c_pm c') q)
     = (bool_decide (q ∈ acked) || sp_IsAcked (deref (c_pm c) q))) ->
  issued c' = issued c -> queue c' = queue c -> MTU_ok (c_mtu c') ->
  localCID c' = localCID c -> remoteCID c' = remoteCID c ->
  inflight (c_cc c') = Z.max 0 (inflight (c_cc c) - total (load (c_pm c)) acked) -> Good e [] c'.
Proof.
  intros G Hi R Hdom Ha Hiss Hq Hm Hl Hr Hf. pose proof (g_pm _ _ _ G) as Hok.
  pose proof (removes_perm _ _ _ Hok R) as Hp.
  assert (Hload : forall q, load (c_pm c') q = load (c_pm c) q) by (intros q; by eapply removes_load).
  assert (Ht : total (load (c_pm c)) (tracked (c_pm c))
    = total (load (c_pm c)) acked + total (load (c_pm c')) (tracked (c_pm c'))).
  { rewrite (total_perm _ _ _ Hp), total_app. f_equal. apply total_ext. auto. }
  assert (0 <= total (load (c_pm c')) (tracked (c_pm c'))).
  { apply total_nonneg. intros q _. rewrite Hload. unfold load, data_size. destruct (g_sizes _ _ _ G q) as [[? _] _].
    case_match; lia. }
  pose proof (g_nodup _ _ _ G) as Gnd. rewrite Hp in Gnd. rewrite <- app_assoc in Gnd.
  destruct G as [_ Gn _ Gl Gs Gf Ge Gi Gm Gc]. rewrite ?app_nil_r in *.
  split; unfold header; rewrite ?app_nil_r, ?Hq, ?Hl, ?Hr, ?Hf, ?Hiss; try done.
  - apply R.
  - by rewrite (rm_next _ _ _ R).
  - apply NoDup_app in Gnd. naive_solver.
  - intros q Hin. destruct (Gl q Hin) as (L1 & L2 & L3). split_and!; [by apply R | |].
    + by destruct (rm_load _ _ _ R q) as (_ & _ & -> & _).
    + rewrite Ha, L3, bool_decide_eq_false_2; [done|]. intros Hqa. apply NoDup_app in Gnd as (_ & Gnd & _).
      apply (Gnd q Hqa). apply elem_of_app. by right.
  - by eapply removes_sizes.
  - lia.
  - intros He. rewrite (Ge He). lia.
  - intros p x Hpr Hc. destruct (rm_load _ _ _ R p) as (_ & _ & E & _). rewrite E in Hpr.
    apply (same_load_carries _ _ x (rm_load _ _ _ R p)) in Hc. destruct (Gi p x Hpr Hc) as (r & R1 & R2 & R3).
    exists r. destruct (rm_load _ _ _ R r) as (_ & _ & E' & _). rewrite E'.
    split_and!; [done | by apply (same_load_carries _ _ x (rm_load _ _ _ R r)) |].
    rewrite Ha, orb_true_iff, bool_decide_eq_true. rewrite elem_of_app in *.
    destruct (decide (r ∈ acked)); [by left; left|].
    destruct R3 as [?|[?|?]]; [by left; right | | by right; right]. right. left. by apply R.
Qed.

Lemma note_acked_fold hdr f pm acked m : sizes_ok hdr pm -> MTU_ok m -> total (load pm) acked < 2 ^ 62 ->
  let '(m', bytes, _, _) := fold_left (note_acked f pm) acked (m, 0, None, false) in
  MTU_ok m' /\ bytes = total (load pm) acked.
Proof.
  intros Hs. enough (H : forall acked m b lg la, MTU_ok m -> 0 <= b -> b + total (load pm) acked < 2 ^ 62 ->
    let '(m', bytes, _, _) := fold_left (note_acked f pm) acked (m, b, lg, la) in
    MTU_ok m' /\ bytes = b + total (load pm) acked) by (intros; by apply H).
  clear acked m. induction acked as [|p acked IH]; intros m b lg la Hm Hb Hlt; cbn [fold_left];
    rewrite ?total_cons, ?total_nil in *; [split; [done | lia]|].
  assert (0 <= total (load pm) acked).
  { apply total_nonneg. intros q _. unfold load, data_size. destruct (Hs q) as [[? _] _]. case_match; lia. }
  destruct (Hs p) as [[H1 H2] _]. unfold note_acked at 2. unfold load at 1 in Hlt. unfold load at 1. unfold data_size in *.
  destruct (sp_Probe (deref pm p)).
  - rewrite Z.add_0_l in *. apply IH; [|done..]. apply (mtu_apply_ok m (CProbeAcked _)); [done | by apply H2].
  - assert (E : b +i sp_Size (deref pm p) = b + sp_Size (deref pm p)) by (nowrap; done). rewrite E.
    rewrite Z.add_assoc. destruct (SafeDatagramSize <? sp_Size (deref pm p)); apply IH; try lia; try done.
    by apply (mtu_apply_ok m (CDataAcked _)).
Qed.

(** Lost packets: the data packets among them are in hand. *)
Definition is_data (pm : PacketManager) (p : ptr) : Prop := sp_Probe (deref pm p) = false.

#[export] Instance is_data_dec pm p : Decision (is_data pm p).
Proof. unfold is_data. apply _. Defined.

Lemma total_data pm l : total (load pm) (filter (is_data pm) l) = total (load pm) l.
Proof.
  induction l as [|p l IH]; [done|]. rewrite filter_cons. destruct (decide (is_data pm p)) as [E|E].
  - by rewrite !total_cons, IH.
  - rewrite total_cons, IH. assert (load pm p = 0); [|lia]. unfold load, data_size, is_data in *.
    by destruct (sp_Probe (deref pm p)).
Qed.

Lemma lost_good e c pm' ls : Good e [] c -> removes ls (c_pm c) pm' -> packets pm' = packets (c_pm c) ->
  Good e (filter (is_data pm') ls) (set_pm pm' c).
Proof.
  intros G R Hpk. pose proof (g_pm _ _ _ G) as Hok. pose proof (removes_perm _ _ _ Hok R) as Hp.
  assert (Hd : forall q, deref pm' q = deref (c_pm c) q) by (intros q; unfold deref; by rewrite Hpk).
  assert (Ht : total (load pm') (tracked pm' ++ filter (is_data pm') ls) = total (load (c_pm c)) (tracked (c_pm c))).
  { rewrite (total_perm _ _ _ Hp). autorewrite with total. rewrite total_data, Z.add_comm.
    f_equal; apply total_ext; intros q _; unfold load; by rewrite Hd. }
  pose proof (g_nodup _ _ _ G) as Gnd. rewrite app_nil_r, Hp in Gnd. rewrite <- app_assoc in Gnd.
  apply NoDup_app in Gnd as (N1 & N2 & N3).
  destruct G as [_ Gn _ Gl Gs Gf Ge Gi Gm Gc]. rewrite ?app_nil_r in *.
  split; cbn [c_pm set_pm c_cc c_mtu issued localCID remoteCID]; rewrite ?Ht; try done.
  - apply R.
  - by rewrite (rm_next _ _ _ R).
  - change (queue (set_pm pm' c)) with (queue c). rewrite app_assoc. apply NoDup_app. split_and!; [done | |by apply NoDup_filter].
    intros q Hq [_ Hin]%list_elem_of_filter. by apply (N2 q Hin).
  - change (queue (set_pm pm' c)) with (queue c). intros q [Hq|[Hq1 Hq2]%list_elem_of_filter]%elem_of_app.
    + unfold live. rewrite Hd, Hpk. by apply Gl.
    + apply (rm_out _ _ _ R), tracked_fact in Hq2 as [H1 H2]; [|done].
      unfold live. rewrite Hd, Hpk. unfold is_data in Hq1. by rewrite Hd in Hq1.
  - intros q. rewrite Hd, Hpk. apply Gs.
  - change (queue (set_pm pm' c)) with (queue c). intros p x. rewrite Hd. intros Hpr Hc.
    destruct (Gi p x Hpr Hc) as (r & R1 & R2 & R3). exists r. rewrite Hd. split_and!; [done..|].
    rewrite !elem_of_app in *. destruct R3 as [?|[Hr|?]]; [by left | right | by right; right; left].
    destruct (decide (r ∈ ls)); [right; right; apply list_elem_of_filter; unfold is_data; by rewrite Hd|].
    left. by apply R.
Qed.

Lemma lost_bound e c pm' ls : Good e [] c -> removes ls (c_pm c) pm' -> issued c < 2 ^ 32 ->
  total (load pm') (filter (is_data pm') ls) <= 2 ^ 60.
Proof.
  intros G R Hi. pose proof (tracked_bound _ _ _ G Hi) as Ht. rewrite total_data.
  rewrite (total_ext _ (load (c_pm c))) by (intros q _; by eapply removes_load).
  rewrite (total_perm _ _ _ (removes_perm _ _ _ (g_pm _ _ _ G) R)), total_app in Ht.
  assert (0 <= total (load (c_pm c)) (tracked pm')); [|lia].
  apply total_nonneg. intros q _. unfold load, data_size. destruct (g_sizes _ _ _ G q) as [[? _] _]. case_match; lia.
Qed.

Lemma sort_lost_fold now cl pm lost m : 0 <= now ->
  let '(m', data) := fold_left (sort_lost now cl pm) lost (m, []) in
  data = filter (is_data pm) lost /\ (MTU_ok m -> MTU_ok m').
Proof.
  intros Hnow. enough (H : forall lost m acc,
    let '(m', data) := fold_left (sort_lost now cl pm) lost (m, acc) in
    data = acc ++ filter (is_data pm) lost /\ (MTU_ok m -> MTU_ok m')) by apply H.
  clear lost m. induction lost as [|p lost IH]; intros m acc; cbn [fold_left].
  { by rewrite app_nil_r. }
  unfold sort_lost at 2. rewrite filter_cons. destruct (sp_Probe (deref pm p)) eqn:E.
  - rewrite decide_False by (unfold is_data; congruence).
    specialize (IH (OnProbeLost (sp_Size (deref pm p)) m) acc). destruct (fold_left _ _ _) as [m' data].
    destruct IH as [-> IH]. split; [done|]. intros Hm. apply IH. by apply (mtu_apply_ok m (CProbeLost _)).
  - rewrite decide_True by done.
    specialize (IH (if cl then OnDataLost now (sp_Size (deref pm p)) m else m) (acc ++ [p])).
    destruct (fold_left _ _ _) as [m' data]. destruct IH as [-> IH]. split; [by rewrite <- app_assoc|].
    intros Hm. apply IH. destruct cl; [by apply (mtu_apply_ok m (CDataLost _ _)) | done].
Qed.

Lemma sum_sizes_total hdr pm l : sizes_ok hdr pm -> (forall p, p ∈ l -> is_data pm p) ->
  total (load pm) l < 2 ^ 62 -> sum_sizes pm l = total (load pm) l.
Proof.
  intros Hs. unfold sum_sizes.
  enough (H : forall l n, (forall p, p ∈ l -> is_data pm p) -> 0 <= n -> n + total (load pm) l < 2 ^ 62 ->
    fold_left (fun n p => n +i sp_Size (deref pm p)) l n = n + total (load pm) l)
    by (intros; by apply H).
  clear l. induction l as [|p l IH]; intros n Hd Hn Hlt; rewrite ?total_cons, ?total_nil in *; cbn [fold_left]; [lia|].
  assert (Hl : forall q, q ∈ l -> is_data pm q) by (intros; apply Hd; by right).
  assert (0 <= total (load pm) l).
  { apply total_nonneg. intros q _. unfold load, data_size. destruct (Hs q) as [[? _] _]. case_match; lia. }
  assert (E : load pm p = sp_Size (deref pm p)).
  { unfold load, data_size. by rewrite (Hd p) by left. }
  destruct (Hs p) as [[? _] _]. rewrite E in *. rewrite IH; [|done| |]; nowrap; lia.
Qed.

(** Lost data leaves flight and joins the queue. *)
Lemma queue_good e hand c c' : Good e hand c -> c_pm c' = c_pm c -> issued c' = issued c ->
  queue c' = queue c ++ hand -> MTU_ok (c_mtu c') ->
  localCID c' = localCID c -> remoteCID c' = remoteCID c ->
  inflight (c_cc c') = Z.max 0 (inflight (c_cc c) - total (load (c_pm c)) hand) -> Good e [] c'.
Proof.
  intros [Gp Gn Gnd Gl Gs Gf Ge Gi Gm Gc] Hp Hi Hq Hm Hl Hr Hf.
  rewrite total_app in Gf, Ge.
  assert (0 <= total (load (c_pm c)) (tracked (c_pm c))).
  { apply total_nonneg. intros q _. unfold load, data_size. destruct (Gs q) as [[? _] _]. case_match; lia. }
  split; unfold header; rewrite ?Hp, ?Hi, ?Hq, ?Hl, ?Hr, ?Hf, ?app_nil_r; try done; [lia|].
  intros He. rewrite (Ge He). lia.
Qed.

(** ** Splitting a packet that no longer fits *)

Lemma size_with_eq c v f : size_with c v f = Z.of_nat (header c + (12 + length (Data f))).
Proof.
  unfold size_with, header. rewrite length_encoded. cbn. unfold StreamFrame_Len, streamFrameHeaderLen, id. lia.
Qed.

Lemma fitToPath_cases p c (v := deref (c_pm c) p) :
  fitToPath p c = (c, [p]) \/
  exists sf k pm pieces,
    sp_Frames v = [StreamF sf] /\ Current (c_mtu c) < sp_Size v /\
    (0 < k < length (Data sf))%nat /\ Z.of_nat (header c + (12 + k)) = Current (c_mtu c) /\
    alloc_all (piece_packet c v <$>
      chunk_frames (length (Data sf)) k (Offset sf) (IsSyn sf) (IsFin sf) (Data sf))
      (Drop (c_pm c) p) = (pm, pieces) /\
    fitToPath p c = (set_pm pm c, pieces).
Proof.
  unfold fitToPath. fold v. destruct (sp_Frames v) as [|[] []] eqn:Ef; try (by left). rename f into sf.
  rewrite size_with_eq. cbn [Data length]. set (piece := Current (c_mtu c) - _).
  destruct ((sp_Size v <=? Current (c_mtu c)) || (piece <=? 0) || (Z.of_nat (length (Data sf)) <=? piece)) eqn:E;
    [by left|]. rewrite !orb_false_iff, !Z.leb_gt in E. destruct E as [[E1 E2] E3]. right.
  destruct (alloc_all _ _) as [pm pieces] eqn:Ea. exists sf, (Z.to_nat piece), pm, pieces.
  split_and!; try done; try lia.
Qed.

(** The pieces of a split packet. *)
Record split_into (p : ptr) (c : Connection) (pm : PacketManager) (pieces : list ptr) : Prop := {
  sp_dropped : exists vs, allocates vs (Drop (c_pm c) p) pm pieces;
  sp_many : (1 < length pieces <= splittable (deref (c_pm c) p))%nat;
  sp_fit : forall q, q ∈ pieces -> sp_Size (deref pm q) <= Current (c_mtu c);
  sp_good : forall q, q ∈ pieces -> live pm q /\ 0 <= sp_Size (deref pm q) /\ sized (header c) (deref pm q);
  sp_carry : forall x, carries (deref (c_pm c) p) x -> exists q, q ∈ pieces /\ carries (deref pm q) x;
  sp_total : sized (header c) (deref (c_pm c) p) -> sp_Size (deref (c_pm c) p) <= total (load pm) pieces
}.

Lemma Forall2_elem_l {A B} (P : A -> B -> Prop) l k x :
  Forall2 P l k -> x ∈ l -> exists y, y ∈ k /\ P x y.
Proof. intros H (i & Hi)%list_elem_of_lookup. destruct (Forall2_lookup_l _ _ _ _ _ H Hi) as (y & Hy & ?).
  exists y. split; [by eapply list_elem_of_lookup_2 | done]. Qed.

Lemma Forall2_elem_r {A B} (P : A -> B -> Prop) l k y :
  Forall2 P l k -> y ∈ k -> exists x, x ∈ l /\ P x y.
Proof. intros H%Forall2_flip Hy. destruct (Forall2_elem_l _ _ _ _ H Hy) as (x & ? & ?). eauto. Qed.

Lemma total_pieces pm pieces (sizes : list Z) :
  Forall2 (fun q s => load pm q = s) pieces sizes -> total (load pm) pieces = foldr Z.add 0 sizes.
Proof. induction 1; [done|]. rewrite total_cons. cbn. lia. Qed.

Lemma sum_piece_sizes c v fs :
  foldr Z.add 0 ((fun f => size_with c v f) <$> fs)
  = Z.of_nat (length fs * (header c + 12) + sum_list ((fun f => length (Data f)) <$> fs)).
Proof.
  induction fs as [|f fs IH]; [done|]. rewrite !fmap_cons. cbn [foldr length sum_list_with]. rewrite IH, size_with_eq.
  unfold id at 2. lia.
Qed.

Lemma fitToPath_split p c :
  fitToPath p c = (c, [p]) \/
  exists pm pieces, fitToPath p c = (set_pm pm c, pieces) /\ Current (c_mtu c) < sp_Size (deref (c_pm c) p) /\
    split_into p c pm pieces.
Proof.
  destruct (fitToPath_cases p c) as [|(sf & k & pm & pieces & Ef & Hsz & Hk & Hlim & Ea & Efit)]; [by left|].
  right. exists pm, pieces. split_and!; [done..|]. set (v := deref (c_pm c) p) in *.
  set (fs := chunk_frames _ _ _ _ _ _) in *.
  pose proof (alloc_all_spec (piece_packet c v <$> fs) (Drop (c_pm c) p)) as Hal.
  rewrite Ea in Hal. pose proof (al_values _ _ _ _ Hal) as Hvals. apply Forall2_fmap_r in Hvals.
  assert (Hd : Forall2 (fun q f => packets pm !! q = Some (piece_packet c v f) /\ deref pm q = piece_packet c v f) pieces fs).
  { eapply Forall2_impl; [exact Hvals|]. intros q f Hq. cbn in *. split; [done|]. unfold deref. by rewrite lookup_total_alt, Hq. }
  destruct (chunks_sizes k ltac:(lia) (length (Data sf)) (Offset sf) (IsSyn sf) (IsFin sf) (Data sf) ltac:(lia)) as (Hc1 & Hc2 & Hc3).
  fold fs in Hc1, Hc2, Hc3. pose proof (Forall2_length _ _ _ Hd) as Hlen.
  assert (Hone : forall q, q ∈ pieces -> exists f, f ∈ fs /\ packets pm !! q = Some (piece_packet c v f) /\ deref pm q = piece_packet c v f)
    by (intros q Hq; exact (Forall2_elem_l _ _ _ _ Hd Hq)).
  split.
  - eauto.
  - unfold splittable. fold v. rewrite Ef, Hlen. split; [|done].
    destruct fs as [|f [|g fs']]; cbn in Hc2 |- *; [lia | | lia].
    specialize (Hc1 f ltac:(left)). unfold id in *. lia.
  - intros q (f & Hf & _ & ->)%Hone. cbn. rewrite size_with_eq. specialize (Hc1 f Hf). lia.
  - intros q (f & Hf & Hq & E)%Hone. unfold live. rewrite E, Hq. cbn [sp_Size piece_packet]. rewrite size_with_eq.
    split_and!; eauto; [lia|]. unfold sized. cbn [sp_Size sp_Frames piece_packet]. rewrite size_with_eq. cbn.
    unfold StreamFrame_Len, streamFrameHeaderLen, id. lia.
  - intros x (f & Hf & Hx). fold v in Hf, Hx. rewrite Ef in Hf. apply list_elem_of_singleton in Hf as [= ->].
    destruct (chunks_carry (sp_DestinationStreamID v) (sp_SourceStreamID v) x k ltac:(lia) (length (Data sf))
      (Offset sf) (IsSyn sf) (IsFin sf) (Data sf)) as (g & Hg & Hgx); [|lia| by destruct sf |].
    { intros E. rewrite E in Hk. cbn in Hk. lia. }
    destruct (Forall2_elem_r _ _ _ g Hd Hg) as (q & Hq & _ & E). exists q. split; [done|]. rewrite E.
    exists g. cbn. split; [left | done].
  - intros Hs. rewrite (total_pieces pm pieces ((fun f => size_with c v f) <$> fs)).
    2: { apply Forall2_fmap_r. eapply Forall2_impl; [exact Hd|]. intros q f [_ E]. cbn. unfold load. by rewrite E. }
    rewrite sum_piece_sizes, Hc2. unfold sized in Hs. fold v in Hs |- *. rewrite Hs, Ef. cbn.
    unfold StreamFrame_Len, streamFrameHeaderLen, id.
    destruct fs as [|f fs']; [cbn in Hc2; lia|]. cbn [length]. lia.
Qed.

Section Split.
Context (p : ptr) (c : Connection) (pm : PacketManager) (pieces : list ptr).
Context (Hok : PM_ok (c_pm c)) (Hs : sizes_ok (header c) (c_pm c)) (Hm : MTU_ok (c_mtu c)).
Context (Hsplit : split_into p c pm pieces) (Hp : is_Some (packets (c_pm c) !! p)).

Lemma split_fresh q : q ∈ pieces -> packets (c_pm c) !! q = None.
Proof using Hsplit. destruct (sp_dropped _ _ _ _ Hsplit) as [vs Ha]. apply (al_fresh _ _ _ _ Ha). Qed.

Lemma split_others q : q ∉ pieces -> packets pm !! q = packets (c_pm c) !! q.
Proof using Hsplit. destruct (sp_dropped _ _ _ _ Hsplit) as [vs Ha]. apply (al_others _ _ _ _ Ha). Qed.

Lemma split_deref q : q ∉ pieces -> deref pm q = deref (c_pm c) q.
Proof using Hsplit. intros H. by apply deref_same, split_others. Qed.

Lemma split_tracked q : q ∈ tracked pm <-> q ∈ tracked (c_pm c) /\ q <> p.
Proof using Hsplit Hok.
  destruct (sp_dropped _ _ _ _ Hsplit) as [vs Ha]. unfold tracked at 1. rewrite (al_sent _ _ _ _ Ha).
  change ((map_to_list (sentPackets (Drop (c_pm c) p))).*2) with (tracked (Drop (c_pm c) p)).
  by apply Drop_tracked.
Qed.

Lemma split_apart q : q ∈ pieces -> q ∉ tracked (c_pm c).
Proof using Hsplit Hok. intros H%split_fresh [[? Hq] _]%tracked_fact; [congruence | done]. Qed.

Lemma split_nodup : NoDup pieces /\ NoDup (tracked pm) /\ PM_ok pm /\ nextSeq pm = nextSeq (c_pm c).
Proof using Hsplit Hok.
  destruct (sp_dropped _ _ _ _ Hsplit) as [vs Ha].
  assert (PM_ok pm) by by apply Ha, Drop_ok.
  split_and!; [apply Ha | by apply tracked_nodup | done | apply Ha].
Qed.

Lemma split_sizes : sizes_ok (header c) pm.
Proof using Hsplit Hs Hm.
  intros q. destruct (decide (q ∈ pieces)) as [Hq|Hq].
  - destruct (sp_good _ _ _ _ Hsplit q Hq) as ((_ & Hpr & _) & H0 & Hz). split; [|done].
    pose proof (sp_fit _ _ _ _ Hsplit q Hq). destruct Hm as [Hc _ _ _ _ _ _].
    unfold Current, MaxDatagramSize in *. split; [unfold maxPacket; lia | intros ?; congruence].
  - rewrite (split_deref q Hq), (split_others q Hq). apply Hs.
Qed.

Lemma split_items out out' : items_ok (c_pm c) out ->
  (forall q, q ∈ out -> q <> p -> q ∈ out') -> (forall q, q ∈ pieces -> q ∈ out') -> items_ok pm out'.
Proof using Hsplit Hp.
  intros Hi Hout Hpc q x Hpr Hc. destruct (decide (q ∈ pieces)) as [Hq|Hq]; [exists q; auto|].
  rewrite (split_deref q Hq) in *. destruct (Hi q x Hpr Hc) as (r & R1 & R2 & R3).
  destruct (decide (r ∈ pieces)) as [Hr|Hr].
  { rewrite (deref_none _ _ (split_fresh r Hr)) in R2. destruct R2 as (f & Hf & _). by apply not_elem_of_nil in Hf. }
  destruct (decide (r = p)) as [->|Hrp].
  - destruct (sp_carry _ _ _ _ Hsplit x R2) as (s & Hs1 & Hs2). exists s.
    destruct (sp_good _ _ _ _ Hsplit s Hs1) as ((_ & ? & _) & _). naive_solver.
  - exists r. rewrite (split_deref r Hr). naive_solver.
Qed.

Lemma split_live q : live (c_pm c) q -> live pm q.
Proof using Hsplit.
  intros (H1 & H2 & H3). assert (Hq : q ∉ pieces) by (intros Hq%split_fresh; destruct H1; congruence).
  unfold live. by rewrite (split_deref q Hq), (split_others q Hq).
Qed.

Lemma split_load l : (forall q, q ∈ l -> is_Some (packets (c_pm c) !! q)) ->
  total (load pm) l = total (load (c_pm c)) l.
Proof using Hsplit.
  intros Hl. apply total_ext. intros q Hq. unfold load. rewrite split_deref; [done|].
  intros H%split_fresh. destruct (Hl q Hq). congruence.
Qed.
End Split.

(** A queued packet makes room for its pieces. *)
Lemma split_queue_good e c pm pieces p rest t : Good e [] c -> queue c = p :: rest ->
  split_into p c pm pieces -> Good e [] (set_queue (pieces ++ rest) t (set_pm pm c)).
Proof.
  intros G Hq Hsp. pose proof G as [Gp Gn Gnd Gl Gs Gf Ge Gi Gm Gc]. rewrite ?app_nil_r in *. rewrite Hq in *.
  destruct (Gl p ltac:(left)) as (Hst & Hpr & Hac).
  apply NoDup_app in Gnd as (N1 & N2 & N3). apply NoDup_cons in N3 as [N3 N4].
  assert (Hpt : p ∉ tracked (c_pm c)) by (intros H; apply (N2 p H); left).
  assert (Ht : tracked pm ≡ₚ tracked (c_pm c)).
  { destruct (split_nodup p c pm pieces Gp Hsp) as (_ & ? & _). apply NoDup_Permutation; [done..|].
    intros q. rewrite (split_tracked p c pm pieces Gp Hsp). naive_solver. }
  destruct (split_nodup p c pm pieces Gp Hsp) as (M1 & M2 & M3 & M4).
  assert (Htot : total (load pm) (tracked pm) = total (load (c_pm c)) (tracked (c_pm c))).
  { rewrite (total_perm _ _ _ Ht). apply (split_load p c pm pieces Hsp).
    intros q Hin. by apply tracked_fact. }
  split; rewrite ?app_nil_r; cbn [c_pm set_queue set_pm set_loss issued c_cc c_mtu localCID remoteCID queue loss lostQueue];
    rewrite ?Htot; try done.
  - by rewrite M4.
  - rewrite Ht, (Permutation_app_comm pieces), app_assoc. apply NoDup_app. split_and!; [|  | done].
    + apply NoDup_app. split_and!; try done. intros q H1 H2. apply (N2 q H1). by right.
    + intros q [Hin|Hin]%elem_of_app Hpc.
      * by apply (split_apart p c pm pieces Gp Hsp q).
      * apply (split_fresh p c pm pieces Hsp) in Hpc. destruct (Gl q ltac:(by right)) as ([] & _). congruence.
  - intros q [Hin|Hin]%elem_of_app; [by apply Hsp|]. apply (split_live p c pm pieces Hsp), Gl. by right.
  - by apply (split_sizes p c pm pieces).
  - apply (split_items p c pm pieces Hsp Hst (tracked (c_pm c) ++ p :: rest)); [done| |].
    + intros q [Hin|[->|Hin]%elem_of_cons]%elem_of_app Hne; [|done|]; rewrite !elem_of_app.
      * left. by apply (split_tracked p c pm pieces Gp Hsp).
      * by right; right.
    + intros q Hin. rewrite !elem_of_app. by right; left.
Qed.

(** A tracked packet is split: the pieces are in hand, and hold at least the
    bytes the packet counted for. *)
Lemma split_hand_good c pm pieces p : Good false [] c -> p ∈ tracked (c_pm c) -> is_data (c_pm c) p ->
  split_into p c pm pieces -> Good false pieces (set_pm pm c).
Proof.
  intros G Hpt Hpr Hsp. pose proof G as [Gp Gn Gnd Gl Gs Gf Ge Gi Gm Gc]. rewrite ?app_nil_r in *.
  destruct (tracked_fact _ _ Gp Hpt) as [Hst Hac]. apply NoDup_app in Gnd as (N1 & N2 & N3).
  destruct (split_nodup p c pm pieces Gp Hsp) as (M1 & M2 & M3 & M4).
  assert (Ht : tracked (c_pm c) ≡ₚ p :: tracked pm).
  { apply NoDup_Permutation; [done| |].
    - constructor; [|done]. rewrite (split_tracked p c pm pieces Gp Hsp). naive_solver.
    - intros q. rewrite elem_of_cons, (split_tracked p c pm pieces Gp Hsp). destruct (decide (q = p)); naive_solver. }
  assert (Htot : total (load (c_pm c)) (tracked (c_pm c)) <= total (load pm) (tracked pm ++ pieces)).
  { rewrite (total_perm _ _ _ Ht). autorewrite with total. rewrite (split_load p c pm pieces Hsp).
    - pose proof (sp_total _ _ _ _ Hsp (proj2 (Gs p) Hst)). unfold load at 1, data_size.
      unfold is_data in Hpr. rewrite Hpr. lia.
    - intros q [Hin _]%(split_tracked p c pm pieces Gp Hsp). by apply tracked_fact. }
  split; cbn [c_pm set_pm issued c_cc c_mtu localCID remoteCID]; change (queue (set_pm pm c)) with (queue c); try done.
  - by rewrite M4.
  - apply NoDup_app. split_and!; [done | |].
    + intros q [Hin _]%(split_tracked p c pm pieces Gp Hsp). rewrite elem_of_app. intros [Hq|Hq].
      * by apply (N2 q).
      * by apply (split_apart p c pm pieces Gp Hsp q).
    + apply NoDup_app. split_and!; [done | | done]. intros q Hq Hpc%(split_fresh p c pm pieces Hsp).
      destruct (Gl q Hq) as ([] & _). congruence.
  - intros q [Hin|Hin]%elem_of_app; [|by apply Hsp]. by apply (split_live p c pm pieces Hsp), Gl.
  - by apply (split_sizes p c pm pieces).
  - lia.
  - apply (split_items p c pm pieces Hsp Hst (tracked (c_pm c) ++ queue c)); [done| |].
    + intros q [Hin|Hin]%elem_of_app Hne; rewrite !elem_of_app; [|by right; left].
      left. by apply (split_tracked p c pm pieces Gp Hsp).
    + intros q Hin. rewrite !elem_of_app. by right; right.
Qed.

(** ** The resend queue *)

(** A round that does not split leaves the connection to the last part of
    [flush_round] as it was. *)
Lemma fit_one p c :
  let v := deref (c_pm c) p in
  let '(c1, pieces) := if Current (c_mtu c) <? sp_Size v then fitToPath p c else (c, []) in
  (length pieces <= 1)%nat /\ c1 = c \/
  (1 < length pieces)%nat /\ exists pm, c1 = set_pm pm c /\ Current (c_mtu c) < sp_Size v /\
    split_into p c pm pieces.
Proof.
  cbv zeta. destruct (Z.ltb_spec (Current (c_mtu c)) (sp_Size (deref (c_pm c) p))); [|left; cbn; auto with lia].
  destruct (fitToPath_split p c) as [->|(pm & pieces & -> & Hsz & Hsp)]; [left; cbn; auto|].
  right. pose proof (sp_many _ _ _ _ Hsp). split; [lia | eauto].
Qed.

(** Sending the first packet of the queue again. *)
Lemma resend_head e now c p rest : Good e [] c -> issued c + 1 < 2 ^ 32 -> 0 <= now ->
  queue c = p :: rest ->
  let c2 := set_queue rest (lostTimer (loss c)) c in
  let v := deref (c_pm c) p in
  let pm := (Resend now (c_pm c) p).1 in
  let cc := OnPacketSent now (sp_Size v) (c_cc c) in
  let cc := with_pacer cc (PacerOnPacketSent now (sp_Size v) (Pacer cc)) in
  (Resend now (c_pm c) p).2 = (nextSeq (c_pm c), true) /\
  Good e [] (set_cc cc (bump (set_pm pm c2))) /\ enters p v (c_pm c) pm.
Proof.
  intros G Hi Hnow Hq. cbv zeta. pose proof (flight_bound _ _ G ltac:(lia)) as Hb.
  pose proof G as [Gp Gn Gnd Gl Gs Gf Ge Gi Gm Gc]. rewrite ?app_nil_r, Hq in *.
  destruct (Gl p ltac:(left)) as (Hst & Hpr & Hac).
  destruct (Resend_enters now (c_pm c) p Gp Hnow ltac:(lia) Hst Hac Hpr) as [E1 E2].
  split_and!; [done | | done]. set (v := deref (c_pm c) p) in *.
  set (c0 := set_cc (with_inflight (c_cc c) (inflight (c_cc c) + sp_Size v)) (set_queue rest (lostTimer (loss c)) c)).
  assert (Hv : load (c_pm c) p = sp_Size v) by (unfold load, data_size; fold v; by rewrite Hpr).
  destruct (Gs p) as [[Hsz _] _]. fold v in Hsz. unfold maxPacket in Hsz.
  assert (G0 : Good e [p] c0).
  { split; cbn [c0 c_pm set_cc set_queue set_loss issued c_cc c_mtu localCID remoteCID inflight with_inflight];
      change (queue c0) with rest; autorewrite with total in *; rewrite ?Hv; try done; try lia.
    - revert Gnd. rewrite (Permutation_app_comm rest [p]). done.
    - intros q Hin. apply Gl. rewrite elem_of_app, list_elem_of_singleton in Hin. rewrite elem_of_cons. naive_solver.
    - intros He. rewrite (Ge He). lia.
    - intros q x Hq1 Hx. destruct (Gi q x Hq1 Hx) as (r & R1 & R2 & R3). exists r. split_and!; [done..|].
      rewrite !elem_of_app, elem_of_cons, ?list_elem_of_singleton in *. naive_solver. }
  apply (enter_hand e [] c0 _ p G0); try done. cbn [c_cc set_cc bump set_pm set_queue set_loss with_pacer inflight].
  rewrite sent_flight. cbn [inflight with_inflight c0 set_cc c_cc]. nowrap. done.
Qed.

Lemma fitToPath_later p c : later c (fitToPath p c).1.
Proof. unfold fitToPath. repeat case_match; cbn [fst]; try reflexivity. by split; [cbn; lia|]. Qed.

Lemma transmit_later data to c : later c (transmit data to c).
Proof. unfold transmit. by case_match. Qed.

Lemma flush_round_later now p rest c : later c (flush_round now p rest c).1.
Proof.
  unfold flush_round. destruct (closeCh (life c)); [by split; cbn; [lia|]|].
  destruct (sp_IsAcked _); [by split; cbn; [lia|]|].
  destruct (if Current (c_mtu c) <? sp_Size (deref (c_pm c) p) then fitToPath p c else (c, [])) as [c1 pieces] eqn:E.
  assert (L : later c c1).
  { revert E. case_match; [|by intros [= <- _]]. pose proof (fitToPath_later p c) as L. by intros E; rewrite E in L. }
  etransitivity; [exact L|]. clear. repeat case_match; cbn [fst]; try reflexivity; try (by split; cbn; [lia|]).
  unfold retransmitPacket. etransitivity; [|apply transmit_later]. by split; cbn; [lia|].
Qed.

Lemma flush_round_armed now p rest c : Armed c -> Armed (flush_round now p rest c).1.
Proof.
  intros HA. unfold flush_round. destruct (closeCh (life c)); [done|]. destruct (sp_IsAcked _); [done|].
  destruct (if Current (c_mtu c) <? sp_Size (deref (c_pm c) p) then fitToPath p c else (c, [])) as [c1 pieces] eqn:E.
  assert (HA1 : Armed c1).
  { revert E. unfold fitToPath. repeat case_match; intros [= <- _]; done. }
  repeat case_match; try done; intros _; cbn [fst]; unfold retransmitPacket, transmit;
    case_match; cbn; apply sent_timer.
Qed.

Lemma flush_round_keeps e now p rest c : 0 <= now -> queue c = p :: rest ->
  keeps e (Busy []) (Busy []) c (flush_round now p rest c).1.
Proof.
  intros Hnow Hq. apply keeps_good;
    [apply flush_round_later | intros _ _; apply flush_round_armed | done |]. cbn [hand_of].
  intros Hi Hc G. revert Hi.
  destruct (g_live _ _ _ G p) as (_ & _ & Ha); [rewrite Hq; left|].
  pose proof (fit_one p c) as Hfit. unfold flush_round. rewrite Hc, Ha. cbv zeta in Hfit.
  destruct (if Current (c_mtu c) <? sp_Size (deref (c_pm c) p) then fitToPath p c else (c, [])) as [c1 pieces].
  destruct Hfit as [[Hl ->]|(Hl & pm & -> & Hsz & Hsp)].
  2: { rewrite (proj2 (Nat.ltb_lt _ _) Hl). intros _. by apply (split_queue_good e c pm pieces p rest). }
  rewrite (proj2 (Nat.ltb_ge _ _) Hl).
  destruct (0 <? TimeUntilSend now (Pacer (c_cc c))).
  { intros _. cbn [fst]. revert G. by apply Good_agrees. }
  destruct (negb (CCCanSend _ _)); [done|].
  change (c_pm (set_queue rest (lostTimer (loss c)) c)) with (c_pm c).
  destruct (Resend now (c_pm c) p) as [pm [seq ok]] eqn:Er. destruct ok; cbn [negb fst snd].
  - intros Hi. assert (issued c + 1 < 2 ^ 32) as Hi'.
    { revert Hi. unfold retransmitPacket, transmit. case_match; cbn; done. }
    destruct (resend_head e now c p rest G Hi' Hnow Hq) as (_ & G' & _). rewrite Er in G'. cbn [fst] in G'.
    revert G'. apply Good_agrees. unfold retransmitPacket, transmit. by case_match.
  - cbn. intros Hi. exfalso. revert Er. unfold Resend. rewrite Ha.
    destruct (g_live _ _ _ G p) as (_ & -> & _); [rewrite Hq; left | done].
Qed.

Lemma flush_loop_keeps e now fuel : forall c c', 0 <= now ->
  flush_loop fuel now c = Some c' -> keeps e (Busy []) (Busy []) c c'.
Proof.
  induction fuel as [|fuel IH]; intros c c' Hnow; cbn [flush_loop];
    destruct (lostQueue (loss c)) as [|p rest] eqn:Hq; try done; try (intros [= <-]; apply keeps_refl).
  pose proof (flush_round_keeps e now p rest c Hnow Hq) as K.
  destruct (flush_round now p rest c) as [c1 more]. cbn [fst] in K. destruct more.
  - intros E. eapply keeps_trans; [exact K | by apply IH].
  - by intros [= <-].
Qed.

(** The fuel of the loop suffices. *)
Definition weight (limit : Z) (v : SentPacket) : nat := if limit <? sp_Size v then S (splittable v) else 1.

Definition rounds (c : Connection) : nat :=
  sum_list ((fun p => weight (Current (c_mtu c)) (deref (c_pm c) p)) <$> queue c).

Lemma sum_list_app (l k : list nat) : sum_list (l ++ k) = (sum_list l + sum_list k)%nat.
Proof. induction l as [|x l IH]; [done|]. rewrite <- app_comm_cons. cbn. rewrite IH. unfold id. lia. Qed.

Lemma sum_list_ext (f g : ptr -> nat) l : (forall p, p ∈ l -> f p = g p) ->
  sum_list (f <$> l) = sum_list (g <$> l).
Proof. intros H. f_equal. apply list_fmap_ext. intros i p Hp. apply H. by eapply list_elem_of_lookup_2. Qed.

Lemma sum_list_ones (f : ptr -> nat) l : (forall p, p ∈ l -> f p = 1%nat) -> sum_list (f <$> l) = length l.
Proof.
  induction l as [|p l IH]; intros H; [done|]. rewrite fmap_cons. cbn. rewrite IH; [|intros; apply H; by right].
  rewrite H by left. done.
Qed.

Lemma Resend_loads now pm p : loads pm (Resend now pm p).1.
Proof. unfold Resend. case_match; [done|]. by eapply insert_loads. Qed.

Lemma split_loads p c pm pieces : split_into p c pm pieces -> loads (c_pm c) pm.
Proof.
  intros Hsp q Hq. assert (Hn : q ∉ pieces).
  { intros Hf%(split_fresh p c pm pieces Hsp). destruct Hq. congruence. }
  by rewrite (split_deref p c pm pieces Hsp q Hn), (split_others p c pm pieces Hsp q Hn).
Qed.

Lemma weight_load limit v v' : same_load v v' -> weight limit v' = weight limit v.
Proof. intros (E1 & E2 & _). unfold weight, splittable. by rewrite E1, E2. Qed.

Lemma rest_rounds limit pm pm' rest : loads pm pm' -> (forall q, q ∈ rest -> is_Some (packets pm !! q)) ->
  sum_list ((fun p => weight limit (deref pm' p)) <$> rest) = sum_list ((fun p => weight limit (deref pm p)) <$> rest).
Proof. intros HL Hs. apply sum_list_ext. intros q Hq. apply weight_load. by apply HL, Hs. Qed.

Lemma flush_round_less now p rest c c' : stored c -> queue c = p :: rest ->
  flush_round now p rest c = (c', true) -> stored c' /\ (rounds c' < rounds c)%nat.
Proof.
  intros Hst Hq.
  assert (Hrest : forall q, q ∈ rest -> is_Some (packets (c_pm c) !! q))
    by (intros q Hin; apply Hst; rewrite Hq; by right).
  assert (Hc : rounds c = (weight (Current (c_mtu c)) (deref (c_pm c) p)
    + sum_list ((fun p => weight (Current (c_mtu c)) (deref (c_pm c) p)) <$> rest))%nat)
    by (unfold rounds; rewrite Hq; done).
  assert (Hw : (1 <= weight (Current (c_mtu c)) (deref (c_pm c) p))%nat) by (unfold weight; case_match; lia).
  (* the packet leaves the queue, the others keep their loads *)
  assert (Hpop : forall c2, queue c2 = rest -> c_mtu c2 = c_mtu c -> loads (c_pm c) (c_pm c2) ->
    stored c2 /\ (rounds c2 < rounds c)%nat).
  { intros c2 E1 E2 HL. split.
    - intros q. rewrite E1. intros Hin. by apply HL, Hrest.
    - rewrite Hc. unfold rounds. rewrite E1, E2, (rest_rounds _ _ _ _ HL Hrest). lia. }
  pose proof (fit_one p c) as Hfit. unfold flush_round. cbv zeta in Hfit.
  destruct (closeCh (life c)); [done|].
  destruct (sp_IsAcked (deref (c_pm c) p)); [intros [= <-]; by apply Hpop|].
  destruct (if Current (c_mtu c) <? sp_Size (deref (c_pm c) p) then fitToPath p c else (c, [])) as [c1 pieces].
  destruct Hfit as [[Hl ->]|(Hl & pm & -> & Hsz & Hsp)].
  - rewrite (proj2 (Nat.ltb_ge _ _) Hl).
    destruct (0 <? TimeUntilSend now (Pacer (c_cc c))); [done|]. destruct (negb (CCCanSend _ _)); [done|].
    change (c_pm (set_queue rest (lostTimer (loss c)) c)) with (c_pm c).
    pose proof (Resend_loads now (c_pm c) p) as HL.
    destruct (Resend now (c_pm c) p) as [pm [seq ok]]. cbn [fst] in HL.
    destruct ok; cbn [negb]; intros [= <-]; apply Hpop; try done.
    all: unfold retransmitPacket, transmit; case_match; done.
  - rewrite (proj2 (Nat.ltb_lt _ _) Hl). intros [= <-]. pose proof (split_loads _ _ _ _ Hsp) as HL. split.
    + intros q [Hin|Hin]%elem_of_app; [apply (sp_good _ _ _ _ Hsp q Hin) | by apply HL, Hrest].
    + rewrite Hc. unfold rounds.
      cbn [queue set_queue set_loss loss lostQueue c_mtu set_pm c_pm]. rewrite fmap_app, sum_list_app.
      rewrite (sum_list_ones _ pieces), (rest_rounds _ _ _ _ HL Hrest).
      2: { intros q Hin. unfold weight. by rewrite (proj2 (Z.ltb_ge _ _) (sp_fit _ _ _ _ Hsp q Hin)). }
      pose proof (sp_many _ _ _ _ Hsp) as Hm. unfold weight at 2. rewrite (proj2 (Z.ltb_lt _ _) Hsz). lia.
Qed.

Lemma rounds_pos c p rest : queue c = p :: rest -> (1 <= rounds c)%nat.
Proof. intros E. unfold rounds. rewrite E, fmap_cons. cbn. unfold weight, id. case_match; lia. Qed.

Lemma flush_loop_total now fuel : forall c, stored c -> (rounds c <= fuel)%nat ->
  exists c', flush_loop fuel now c = Some c'.
Proof.
  induction fuel as [|fuel IH]; intros c Hs Hr; cbn [flush_loop];
    destruct (lostQueue (loss c)) as [|p rest] eqn:Hq; eauto.
  - pose proof (rounds_pos c p rest Hq). lia.
  - pose proof (flush_round_less now p rest c) as Hless.
    destruct (flush_round now p rest c) as [c1 more]. destruct more; [|eauto].
    destruct (Hless c1 Hs Hq eq_refl). apply IH; [done | lia].
Qed.

Lemma flush_fuel_enough c : (rounds c <= flush_fuel c)%nat.
Proof.
  unfold rounds, flush_fuel, queue. induction (lostQueue (loss c)) as [|p l IH]; [done|].
  rewrite !fmap_cons. cbn [sum_list_with]. unfold id at 1 3. assert (weight (Current (c_mtu c)) (deref (c_pm c) p)
    <= S (splittable (deref (c_pm c) p)))%nat by (unfold weight; case_match; lia). lia.
Qed.

Lemma flush_round_life now p rest c : life (flush_round now p rest c).1 = life c.
Proof.
  unfold flush_round. destruct (closeCh (life c)); [done|]. destruct (sp_IsAcked _); [done|].
  pose proof (fit_one p c) as Hfit. cbv zeta in Hfit.
  destruct (if Current (c_mtu c) <? sp_Size (deref (c_pm c) p) then fitToPath p c else (c, [])) as [c1 pieces].
  assert (E : life c1 = life c) by (destruct Hfit as [[_ ->]|(_ & pm & -> & _)]; done).
  repeat case_match; cbn [fst]; try done; unfold retransmitPacket, transmit; case_match; done.
Qed.

Lemma flush_loop_life now fuel : forall c c', flush_loop fuel now c = Some c' -> life c' = life c.
Proof.
  induction fuel as [|fuel IH]; intros c c'; cbn [flush_loop];
    destruct (lostQueue (loss c)) as [|p rest]; try done; try (by intros [= <-]).
  pose proof (flush_round_life now p rest c) as E. destruct (flush_round now p rest c) as [c1 more]. cbn [fst] in E.
  destruct more; [|by intros [= <-]]. intros H. by rewrite (IH c1 c' H).
Qed.

(** When the loop ends the queue drains. *)
Lemma flush_round_drains e now p rest c c' : Good e [] c' -> issued c' < 2 ^ 32 ->
  queue c = p :: rest -> flush_round now p rest c = (c', false) -> Draining c'.
Proof.
  intros G Hi Hq. pose proof (fit_one p c) as Hfit. cbv zeta in Hfit. unfold flush_round.
  destruct (closeCh (life c)); [intros [= <-]; by left|]. destruct (sp_IsAcked _); [done|].
  destruct (if Current (c_mtu c) <? sp_Size (deref (c_pm c) p) then fitToPath p c else (c, [])) as [c1 pieces].
  destruct Hfit as [[Hl ->]|(Hl & _)].
  2: { by rewrite (proj2 (Nat.ltb_lt _ _) Hl). }
  rewrite (proj2 (Nat.ltb_ge _ _) Hl).
  destruct (0 <? TimeUntilSend now (Pacer (c_cc c))); [intros [= <-]; right; by left|].
  destruct (CCCanSend (c_cc c) (sp_Size (deref (c_pm c) p))) eqn:Ew; cbn [negb].
  { destruct (Resend _ _ _) as [pm [seq ok]]. by destruct ok. }
  intros [= <-]. right. right. exists p, rest. split; [done|]. unfold CCCanSend in Ew.
  pose proof (flight_bound _ _ G Hi). destruct (g_sizes _ _ _ G p) as [[Hs _] _]. unfold maxPacket in Hs.
  apply Z.leb_gt in Ew. rewrite i64_small in Ew by width. lia.
Qed.

Lemma flush_loop_drains e now fuel : forall c c', Good e [] c' -> issued c' < 2 ^ 32 ->
  flush_loop fuel now c = Some c' -> Draining c'.
Proof.
  induction fuel as [|fuel IH]; intros c c' G Hi; cbn [flush_loop];
    destruct (lostQueue (loss c)) as [|p rest] eqn:Hq; try done; try (intros [= <-]; by left).
  destruct (flush_round now p rest c) as [c1 more] eqn:E. destruct more; [by apply IH|].
  intros [= ->]. by eapply flush_round_drains.
Qed.

Lemma flushLost_keeps e now c : 0 <= now -> keeps e (Busy []) Calm c (flushLost now c).
Proof.
  intros Hnow. unfold flushLost. set (c1 := set_queue _ _ _).
  assert (L1 : later c c1) by by split.
  assert (K : forall c2, flush_loop (flush_fuel c1) now c1 = Some c2 -> keeps e (Busy []) (Busy []) c1 c2)
    by (intros c2; by apply flush_loop_keeps).
  apply keeps_open.
  - etransitivity; [exact L1|]. destruct (flush_loop _ _ _) as [c2|]; [by apply K | done].
  - intros Hi Hc' Hc G HA _. cbn [hand_of] in *.
    assert (G1 : Good e [] c1) by (revert G; by apply Good_agrees).
    destruct (flush_loop_total now (flush_fuel c1) c1 (Good_stored _ _ _ G1) (flush_fuel_enough c1)) as [c2 E].
    rewrite E in *. cbn [default] in *. destruct (K c2 eq_refl) as [_ KI].
    destruct KI as (G2 & A2 & _); [by intros _ _ | done | done |].
    split_and!; [done | done|]. intros _. by eapply flush_loop_drains.
Qed.

(** ** Lost packets *)

(** The lost packets have left flight and are queued; then the queue is flushed. *)
Lemma onPacketsLost_queued e now ls c : 0 <= now ->
  total (load (c_pm c)) (filter (is_data (c_pm c)) ls) <= 2 ^ 60 -> inflight (c_cc c) <= 2 ^ 60 ->
  filter (is_data (c_pm c)) ls <> [] ->
  exists c1, onPacketsLost now ls c = flushLost now c1 /\
    keeps e (Busy (filter (is_data (c_pm c)) ls)) (Busy []) c c1 /\
    c_pm c1 = c_pm c /\ queue c1 = queue c ++ filter (is_data (c_pm c)) ls /\ wire c1 = wire c /\
    localCID c1 = localCID c /\ remoteCID c1 = remoteCID c /\ (MTU_ok (c_mtu c) -> MTU_ok (c_mtu c1)).
Proof.
  intros Hnow Hb Hf Hne. unfold onPacketsLost.
  pose proof (sort_lost_fold now (negb (ackedLarge c)) (c_pm c) ls (c_mtu c) Hnow) as Hs.
  destruct (fold_left _ ls (c_mtu c, [])) as [m data]. destruct Hs as [-> Hm].
  set (data := filter (is_data (c_pm c)) ls) in *.
  assert (Hdata : forall p, p ∈ data -> is_data (c_pm c) p) by (intros p [? _]%list_elem_of_filter; done).
  destruct data as [|oldest rest] eqn:Ed; [done|]. rewrite <- Ed in *. destruct (last data) as [newest|] eqn:El; [|rewrite Ed in El; by apply last_None in El].
  set (cc1 := OnPacketLost _ _ _ _).
  match goal with |- context [if ?b then OnPersistentCongestion cc1 else cc1] =>
    set (cc2 := if b then OnPersistentCongestion cc1 else cc1) end.
  eexists. split; [reflexivity|]. split_and!; [|done..].
  apply keeps_open; [by split; cbn; [lia|]|]. intros Hi _ _ G HA _. cbn in Hi. cbn [hand_of] in G.
  assert (0 <= total (load (c_pm c)) data).
  { apply total_nonneg. intros q _. unfold load, data_size. destruct (g_sizes _ _ _ G q) as [[? _] _]. case_match; lia. }
  assert (E : inflight cc2 = Z.max 0 (inflight (c_cc c) - total (load (c_pm c)) data) /\ ptoTimer cc2 = ptoTimer (c_cc c)).
  { destruct (lost_flight now (Some (LastSentSeq (c_pm c))) (sum_sizes (c_pm c) data) (c_cc (set_mtu m c))) as [E1 E2].
    fold cc1 in E1, E2. cbn [c_cc set_mtu] in E1, E2.
    assert (Ec : inflight cc2 = inflight cc1 /\ ptoTimer cc2 = ptoTimer cc1)
      by (unfold cc2; case_match; [apply persistent_flight | done]).
    destruct Ec as [-> ->]. rewrite E1, E2. split; [|done].
    rewrite (sum_sizes_total (header c) (c_pm c) data (g_sizes _ _ _ G) Hdata) by lia.
    pose proof (g_flight _ _ _ G). by rewrite i64_small by width. }
  destruct E as [E1 E2]. split_and!; [| |done].
  - apply (queue_good e data c); try done. by apply Hm, G.
  - unfold Armed. cbn [c_cc set_queue set_loss set_cc]. rewrite E1, E2. intros ?. apply HA. lia.
Qed.

Lemma onPacketsLost_keeps e now ls c : 0 <= now ->
  total (load (c_pm c)) (filter (is_data (c_pm c)) ls) <= 2 ^ 60 ->
  inflight (c_cc c) <= 2 ^ 60 ->
  filter (is_data (c_pm c)) ls <> [] ->
  keeps e (Busy (filter (is_data (c_pm c)) ls)) Calm c (onPacketsLost now ls c).
Proof.
  intros Hnow Hb Hf Hne. destruct (onPacketsLost_queued e now ls c Hnow Hb Hf Hne) as (c1 & -> & K & _).
  eapply keeps_trans; [exact K | by apply flushLost_keeps].
Qed.

Lemma onPacketsLost_probes now ls c : 0 <= now -> filter (is_data (c_pm c)) ls = [] ->
  exists m, onPacketsLost now ls c = set_mtu m c /\ (MTU_ok (c_mtu c) -> MTU_ok m).
Proof.
  intros Hnow E. unfold onPacketsLost.
  pose proof (sort_lost_fold now (negb (ackedLarge c)) (c_pm c) ls (c_mtu c) Hnow) as Hs.
  destruct (fold_left _ ls (c_mtu c, [])) as [m data]. destruct Hs as [-> Hm]. rewrite E. eauto.
Qed.

Lemma onPacketsLost_later now ls c : 0 <= now -> later c (onPacketsLost now ls c).
Proof.
  intros Hnow. unfold onPacketsLost. destruct (fold_left _ _ _) as [m data].
  repeat case_match; try (by split; cbn; [lia|]).
  all: etransitivity; [|eapply (flushLost_keeps true now _ Hnow)]; by split; cbn; [lia|].
Qed.

Lemma report_keeps e ph now pm' ls c : hand_of ph = [] -> 0 <= now ->
  (Good e [] c -> removes ls (c_pm c) pm' /\ packets pm' = packets (c_pm c)) ->
  keeps e ph ph c (report_lost now (pm', ls) c).
Proof.
  intros Hph Hnow H. unfold report_lost.
  assert (L0 : later c (set_pm pm' c)) by by split; cbn; [lia|].
  assert (L : later c (match ls with [] => set_pm pm' c | _ => onPacketsLost now ls (set_pm pm' c) end)).
  { destruct ls; [done|]. etransitivity; [exact L0 | by apply onPacketsLost_later]. }
  apply keeps_open; [exact L|]. rewrite Hph. intros Hi Hc' Hc G HA HD. destruct (H G) as [R Hpk].
  pose proof (lost_good e c pm' ls G R Hpk) as G'. set (hand := filter (is_data pm') ls) in *.
  assert (Hst : forall m, steady c (set_mtu m (set_pm pm' c))).
  { intros m. split; try done. intros q Hq. cbn [c_pm set_mtu set_pm]. unfold deref. by rewrite Hpk. }
  destruct (decide (hand = [])) as [E|Hne].
  - assert (exists m, match ls with [] => set_pm pm' c | _ => onPacketsLost now ls (set_pm pm' c) end
      = set_mtu m (set_pm pm' c) /\ MTU_ok m) as (m & -> & Hm).
    { destruct ls as [|p ls]; [exists (c_mtu c); split; [by destruct c | apply G]|].
      destruct (onPacketsLost_probes now (p :: ls) (set_pm pm' c) Hnow E) as (m & -> & Hm). exists m. split; [done|]. apply Hm, G. }
    rewrite E in G'. split_and!; [destruct G'; by split | done |]. intros Ec.
    apply (steady_draining e [] c); auto.
  - destruct ls as [|p ls]; [done|]. assert (issued c < 2 ^ 32) as Hi0 by (destruct L; lia).
    pose proof (flight_bound _ _ G Hi0) as Hf. pose proof (lost_bound e c pm' (p :: ls) G R Hi0) as Hh. fold hand in Hh.
    destruct (onPacketsLost_keeps e now (p :: ls) (set_pm pm' c) Hnow Hh ltac:(cbn; lia) Hne) as [_ K].
    destruct K as (K1 & K2 & K3); [by intros _ _; split_and! | done | done | by split_and!; auto].
Qed.

(** ** The probe timeout *)

Lemma probe_piece_later now c p : later c (probe_piece now c p).
Proof.
  unfold probe_piece. destruct (Resend _ _ _) as [pm [seq ok]]. destruct ok; [|by split; cbn; [lia|]].
  unfold retransmitPacket, transmit. case_match; by split; cbn; [lia|].
Qed.

Lemma probe_piece_eq now c p :
  (Resend now (c_pm c) p).2 = (nextSeq (c_pm c), true) ->
  let c' := probe_piece now c p in
  c_pm c' = (Resend now (c_pm c) p).1 /\ issued c' = issued c + 1 /\ queue c' = queue c /\
  c_mtu c' = c_mtu c /\ localCID c' = localCID c /\ remoteCID c' = remoteCID c /\
  inflight (c_cc c') = inflight (c_cc c) /\ life c' = life c.
Proof.
  intros E. cbv zeta. unfold probe_piece. destruct (Resend now (c_pm c) p) as [pm [seq ok]].
  cbn [fst snd] in *. injection E as -> ->. unfold retransmitPacket, transmit. case_match; done.
Qed.

(** What sending [p] again leaves as it was. *)
Definition others_stay (p : ptr) (c c' : Connection) : Prop :=
  c_mtu c' = c_mtu c /\
  forall q, q <> p -> q ∈ tracked (c_pm c) -> q ∈ tracked (c_pm c') /\ deref (c_pm c') q = deref (c_pm c) q.

Lemma probe_hand e now c p h : Good e (p :: h) c -> issued c + 1 < 2 ^ 32 -> 0 <= now ->
  let c' := probe_piece now c p in
  Good e h c' /\ others_stay p c c' /\ issued c' = issued c + 1.
Proof.
  intros G Hi Hnow. cbv zeta.
  destruct (g_live _ _ _ G p) as (L1 & L2 & L3); [rewrite elem_of_app; right; left|].
  destruct (Resend_enters now (c_pm c) p (g_pm _ _ _ G) Hnow) as [E En]; [rewrite (g_next _ _ _ G); lia | done..|].
  destruct (probe_piece_eq now c p E) as (E1 & E2 & E3 & E4 & E5 & E6 & E7 & _).
  rewrite <- E1 in En. split_and!; [|split|done].
  - by apply (enter_hand e h c _ p).
  - done.
  - intros q Hq Ht. split; [apply (en_tracked _ _ _ _ En); by right | by apply (en_deref p _ _ _ En)].
Qed.

Lemma probe_again e now c p : Good e [] c -> issued c + 1 < 2 ^ 32 -> 0 <= now ->
  p ∈ tracked (c_pm c) -> is_data (c_pm c) p ->
  let c' := probe_piece now c p in
  Good e [] c' /\ others_stay p c c' /\ issued c' = issued c + 1.
Proof.
  intros G Hi Hnow Hp Hd. cbv zeta. destruct (tracked_fact _ _ (g_pm _ _ _ G) Hp) as [L1 L3].
  destruct (Resend_enters now (c_pm c) p (g_pm _ _ _ G) Hnow) as [E En]; [rewrite (g_next _ _ _ G); lia | done..|].
  destruct (probe_piece_eq now c p E) as (E1 & E2 & E3 & E4 & E5 & E6 & E7 & _).
  rewrite <- E1 in En. split_and!; [|split|done].
  - by apply (enter_again e [] c _ p).
  - done.
  - intros q Hq Ht. split; [apply (en_tracked _ _ _ _ En); by right | by apply (en_deref p _ _ _ En)].
Qed.

Lemma probes_later now l c : later c (fold_left (probe_piece now) l c).
Proof.
  revert c. induction l as [|p l IH]; intros c; [reflexivity|]. cbn.
  etransitivity; [apply probe_piece_later | apply IH].
Qed.

Lemma probe_all_hand e now hand : forall c, Good e hand c -> 0 <= now ->
  issued (fold_left (probe_piece now) hand c) < 2 ^ 32 ->
  let c' := fold_left (probe_piece now) hand c in
  Good e [] c' /\ c_mtu c' = c_mtu c /\
  forall q, q ∉ hand -> q ∈ tracked (c_pm c) -> q ∈ tracked (c_pm c') /\ deref (c_pm c') q = deref (c_pm c) q.
Proof.
  induction hand as [|p hand IH]; intros c G Hnow Hi; cbv zeta; cbn [fold_left] in *; [done|].
  destruct (probes_later now hand (probe_piece now c p)) as [L _].
  assert (E1 : issued (probe_piece now c p) = issued c + 1).
  { destruct (g_live _ _ _ G p) as (L1 & L2 & L3); [rewrite elem_of_app; right; left|].
    unfold probe_piece, Resend. rewrite L2, L3. cbn. unfold retransmitPacket, transmit. case_match; done. }
  destruct (probe_hand e now c p hand G ltac:(lia) Hnow) as (G1 & (M1 & O1) & _).
  destruct (IH _ G1 Hnow Hi) as (G2 & M2 & O2). split_and!; [done | congruence |].
  intros q [Hne Hq]%not_elem_of_cons Ht. destruct (O1 q Hne Ht) as [T1 D1].
  destruct (O2 q Hq T1) as [T2 D2]. split; [done | congruence].
Qed.

Lemma probe_packet_later now c p : later c (probe_packet now c p).
Proof.
  unfold probe_packet. pose proof (fitToPath_later p c) as L. destruct (fitToPath p c) as [c1 pieces]. cbn [fst] in L.
  etransitivity; [exact L | apply probes_later].
Qed.

(** One packet of a probe timeout, split or not. *)
Lemma probe_packet_good e now c p : Good e [] c -> 0 <= now ->
  issued (probe_packet now c p) < 2 ^ 32 -> p ∈ tracked (c_pm c) -> is_data (c_pm c) p ->
  (e = true -> sp_Size (deref (c_pm c) p) <= Current (c_mtu c)) ->
  Good e [] (probe_packet now c p) /\ others_stay p c (probe_packet now c p).
Proof.
  intros G Hnow Hi Hp Hd He. unfold probe_packet in *.
  destruct (fitToPath_split p c) as [E|(pm & pieces & E & Hsz & Hsp)]; rewrite E in *.
  - cbn [fold_left] in *. assert (issued (probe_piece now c p) = issued c + 1) as Hi1.
    { destruct (tracked_fact _ _ (g_pm _ _ _ G) Hp) as [_ L3]. unfold probe_piece, Resend. unfold is_data in Hd.
      rewrite Hd, L3. cbn. unfold retransmitPacket, transmit. case_match; done. }
    destruct (probe_again e now c p G ltac:(lia) Hnow Hp Hd) as (G1 & O1 & _). done.
  - destruct e; [specialize (He eq_refl); lia|].
    pose proof (split_hand_good c pm pieces p G Hp Hd Hsp) as G1.
    destruct (probe_all_hand false now pieces _ G1 Hnow Hi) as (G2 & M2 & O2). split; [done|]. split; [done|].
    intros q Hq Ht. assert (Hqp : q ∉ pieces).
    { intros H. by apply (split_apart p c pm pieces (g_pm _ _ _ G) Hsp q). }
    destruct (O2 q Hqp) as [T D].
    { apply (split_tracked p c pm pieces (g_pm _ _ _ G) Hsp). done. }
    split; [done|]. rewrite D. by apply (split_deref p c pm pieces Hsp).
Qed.

Lemma probe_packets_later now l c : later c (fold_left (probe_packet now) l c).
Proof.
  revert c. induction l as [|p l IH]; intros c; [reflexivity|]. cbn.
  etransitivity; [apply probe_packet_later | apply IH].
Qed.

Lemma probe_packets_good e now l : forall c, Good e [] c -> 0 <= now -> NoDup l ->
  issued (fold_left (probe_packet now) l c) < 2 ^ 32 ->
  (forall p, p ∈ l -> p ∈ tracked (c_pm c) /\ is_data (c_pm c) p /\
     (e = true -> sp_Size (deref (c_pm c) p) <= Current (c_mtu c))) ->
  Good e [] (fold_left (probe_packet now) l c).
Proof.
  induction l as [|p l IH]; intros c G Hnow Hnd Hi Hl; cbn [fold_left] in *; [done|].
  apply NoDup_cons in Hnd as [Hnin Hnd]. destruct (Hl p ltac:(left)) as (Hp & Hd & He).
  destruct (probe_packets_later now l (probe_packet now c p)) as [L _].
  destruct (probe_packet_good e now c p G Hnow ltac:(lia) Hp Hd He) as (G1 & M1 & O1).
  apply IH; try done. intros q Hq. assert (q <> p) by (intros ->; done).
  destruct (Hl q ltac:(by right)) as (Hq1 & Hq2 & Hq3). destruct (O1 q) as [T D]; [done..|].
  unfold is_data in *. by rewrite D, M1.
Qed.

(** A probe timeout leaves the queue, the window and the count alone. *)
Definition quiet (c c' : Connection) : Prop :=
  queue c' = queue c /\ lostTimer (loss c') = lostTimer (loss c) /\ loads (c_pm c) (c_pm c') /\
  cwnd (c_cc c') = cwnd (c_cc c) /\ inflight (c_cc c') = inflight (c_cc c).

#[export] Instance quiet_preorder : PreOrder quiet.
Proof.
  split; [by intros c; split_and!|]. intros a b c (A1 & A2 & A3 & A4 & A5) (B1 & B2 & B3 & B4 & B5).
  split_and!; [congruence | congruence | by etransitivity | congruence | congruence].
Qed.

Lemma quiet_steady c c' : quiet c c' -> steady c c'.
Proof. intros (? & ? & ? & ? & E). split; try done. by rewrite E. Qed.

Lemma fitToPath_quiet p c : quiet c (fitToPath p c).1.
Proof.
  destruct (fitToPath_split p c) as [->|(pm & pieces & -> & _ & Hsp)]; [done|].
  split_and!; try done. by eapply split_loads.
Qed.

Lemma probe_piece_quiet now c p : quiet c (probe_piece now c p).
Proof.
  unfold probe_piece. pose proof (Resend_loads now (c_pm c) p) as HL.
  destruct (Resend now (c_pm c) p) as [pm [seq ok]]. cbn [fst] in HL. destruct ok; [|done].
  unfold retransmitPacket, transmit. case_match; done.
Qed.

Lemma probe_packet_quiet now c p : quiet c (probe_packet now c p).
Proof.
  unfold probe_packet. pose proof (fitToPath_quiet p c) as H. destruct (fitToPath p c) as [c1 pieces]. cbn [fst] in H.
  etransitivity; [exact H|]. clear. revert c1. induction pieces as [|q l IH]; intros c; [done|].
  cbn. etransitivity; [apply probe_piece_quiet | apply IH].
Qed.

Lemma probe_packets_quiet now l c : quiet c (fold_left (probe_packet now) l c).
Proof.
  revert c. induction l as [|p l IH]; intros c; [done|].
  cbn. etransitivity; [apply probe_packet_quiet | apply IH].
Qed.
