(* ===== verification/ConnReach.v ===== *)
(** * Every run of a connection (src/connection.go)

    Each operation of the connection keeps the invariant of [Recovery]; the
    theorems on the reachable states follow. *)

From stdpp Require Import strings.
From S2P Require Import Prelude Constants Cid Frame Packet AckTracker FlowControl Mtud.
From S2P Require Import PacketManager Stream Pacing Congestion Connection Recovery.

(** ** Every operation *)

Section Operations.
Context `{RangeOrder} (e : bool) (now : Z) (Hnow : 0 <= now).

(** The path size a probe timeout works with. *)
Definition probe_limit (c : Connection) : Z :=
  Current (if BlackholePTOs <=? ptoCount (c_cc c) +i 1 then Blackhole now (c_mtu c) else c_mtu c).

(** No tracked packet is larger than the path carries. *)
Definition fits (c : Connection) : Prop :=
  forall p, p ∈ tracked (c_pm c) -> is_data (c_pm c) p -> sp_Size (deref (c_pm c) p) <= probe_limit c.

Lemma onPTO_later c : later c (onPTO now c).
Proof using Type.
  unfold onPTO. etransitivity; [|apply probe_packets_later]. case_match; by split; cbn; [lia|].
Qed.

Lemma onPtoTimeout_later c : later c (onPtoTimeout now c).
Proof using Type.
  unfold onPtoTimeout. set (c0 := set_cc (ptoFired (c_cc c)) c).
  assert (later c c0) as L0 by by split; cbn; [lia|].
  etransitivity; [exact L0|]. etransitivity; [apply onPTO_later|]. by split; cbn; [lia|].
Qed.

Lemma onPtoTimeout_quiet c : quiet c (onPtoTimeout now c).
Proof using Type.
  unfold onPtoTimeout, onPTO. set (c0 := set_cc (ptoFired (c_cc c)) c).
  set (c1 := if BlackholePTOs <=? PTOCount (c_cc c0) then set_mtu (Blackhole now (c_mtu c0)) c0 else c0).
  assert (Q1 : quiet c c1) by (unfold c1; by case_match). clearbody c1.
  etransitivity; [exact Q1|].
  match goal with |- context [fold_left (probe_packet now) ?l c1] =>
    pose proof (probe_packets_quiet now l c1) as Q; set (c2 := fold_left (probe_packet now) l c1) in * end.
  clearbody c2. etransitivity; [exact Q|]. unfold ptoRearm. cbn [c_cc set_cc]. by case_match.
Qed.

(** The packets a probe timeout sends again. *)
Lemma oldest_tracked pm : PM_ok pm -> let l := OldestUnacked (range_packets (sentPackets pm)) ptoProbes pm in
  NoDup l /\ forall p, p ∈ l -> p ∈ tracked pm /\ is_data pm p.
Proof using Type.
  intros Hok. pose proof (eligible_nodup pm (range_packets (sentPackets pm)) Hok (range_packets_perm _)) as Hnd.
  pose proof (eligible_elem pm (range_packets (sentPackets pm)) (range_packets_perm _)) as Hel.
  cbv zeta. unfold OldestUnacked. case_match; [split; [apply NoDup_nil_2 | intros p Hp; by apply not_elem_of_nil in Hp]|].
  split; [eapply sublist_NoDup; [|apply sublist_take]; by rewrite sort_by_seq_perm|].
  intros p Hp. rewrite tracked_elem. apply Hel. apply (elem_of_perm _ _ (sort_by_seq_perm pm _)).
  by eapply elem_of_sublist; [|apply sublist_take].
Qed.

Lemma onPtoTimeout_keeps c : (e = true -> fits c) -> keeps e Calm Calm c (onPtoTimeout now c).
Proof using Hnow.
  intros Hfit. apply keeps_good; [apply onPtoTimeout_later | | |].
  { intros _ _ _. unfold onPtoTimeout, Armed, ptoRearm. cbn [c_cc set_cc]. set (cc := c_cc _). clearbody cc.
    destruct (Z.ltb_spec 0 (inflight cc)); cbn [andb]; [|lia]. intros _. by case_bool_decide. }
  { intros _ _ _. split; [done|]. apply quiet_steady, onPtoTimeout_quiet. }
  intros Hi Hc G. revert Hi.
  unfold onPtoTimeout, onPTO. set (c0 := set_cc (ptoFired (c_cc c)) c).
  set (c1 := if BlackholePTOs <=? PTOCount (c_cc c0) then set_mtu (Blackhole now (c_mtu c0)) c0 else c0).
  set (l := OldestUnacked _ _ _). intros Hi.
  assert (Hr : forall x y, inflight (ptoRearm x y) = inflight y) by (intros; unfold ptoRearm; by case_match).
  assert (Hi2 : issued (fold_left (probe_packet now) l c1) < 2 ^ 32) by exact Hi.
  assert (G0 : Good e [] c0) by (revert G; by apply Good_agrees).
  assert (G1 : Good e [] c1 /\ c_pm c1 = c_pm c /\ Current (c_mtu c1) = probe_limit c).
  { unfold c1, probe_limit, PTOCount, c0, ptoFired. cbn [c_cc set_cc ptoCount with_pto c_mtu c_pm].
    case_match; [|done]. split; [|done]. destruct G0. split; try done. by apply (mtu_apply_ok _ (CBlackhole now)). }
  destruct G1 as (G1 & Ep & Ec).
  assert (G2 : Good e [] (fold_left (probe_packet now) l c1)).
  { destruct (oldest_tracked (c_pm c1) (g_pm _ _ _ G1)) as [Hnd Hl]. fold l in Hnd, Hl.
    apply probe_packets_good; try done. intros p Hp. destruct (Hl p Hp) as [Hs Hpr].
    split_and!; [done | done |]. intros He. rewrite Ec, Ep. rewrite Ep in Hs, Hpr. by apply Hfit. }
  revert G2. apply Good_agrees. split; try done. cbn. by rewrite Hr.
Qed.

Lemma delay_pos c : 0 < lossDelayOf c.
Proof using Type.
  unfold lossDelayOf. pose proof (lossDelay_pos (smoothedRtt (c_cc c)) (latestRtt (c_cc c))).
  unfold LossTimerGranularity, Millisecond in *. lia.
Qed.

Lemma detectLost_keeps ph c : hand_of ph = [] -> keeps e ph ph c (detectLost now c).
Proof using Hnow.
  intros Hph. unfold detectLost, DetectLostPackets. destruct (detectLostLocked _ _ _ _) as [pm' ls] eqn:E.
  apply report_keeps; [done..|]. intros G.
  pose proof (detect_removes (c_pm c) (range_packets (sentPackets (c_pm c))) now (lossDelayOf c) (g_pm _ _ _ G)
    (delay_pos c) (range_packets_perm _)) as D. by rewrite E in D.
Qed.

Lemma lossTimerFired_keeps c : keeps e Calm Calm c (lossTimerFired now c).
Proof using Hnow.
  unfold lossTimerFired, onLossTimer. set (pm0 := MkPM _ _ _ _ _ _ _ _).
  destruct (detectLostLocked _ _ _ _) as [pm' ls] eqn:E.
  apply report_keeps; [done..|]. intros G.
  assert (Hok : PM_ok pm0) by (split; apply (g_pm _ _ _ G)).
  pose proof (detect_removes pm0 (range_packets (sentPackets (c_pm c))) now (lossDelayOf c) Hok
    (delay_pos c) (range_packets_perm _)) as D. rewrite E in D. destruct D as [[] Hp]. by split; [split|].
Qed.

(** [handleAckFrame] up to the call of the controller. *)
Definition count_acked (f : AckFrame) (pm : PacketManager) (acked : list ptr) (c : Connection) : Connection :=
  let '(m, bytes, largest, large) := fold_left (note_acked f pm) acked (c_mtu c, 0, None, false) in
  let sentTime := match largest with Some p => sp_SentTime (deref pm p) | None => 0 end in
  set_cc (OnPacketAcked now bytes sentTime (AckDelay f *i Millisecond) (bool_decide (largest <> None))
    (LargestAcked f) (c_cc c)) (set_ackedLarge large (set_mtu m (set_pm pm c))).

Lemma handleAckFrame_eq f c : handleAckFrame now f c =
  let '(pm, acked) := HandleAckFrame now (c_pm c) f in
  match acked with [] => set_pm pm c | _ => probeMTU now (flushLost now (detectLost now (count_acked f pm acked c))) end.
Proof using Type.
  unfold handleAckFrame, count_acked. destruct (HandleAckFrame now (c_pm c) f) as [pm [|p acked]]; [done|].
  cbn [c_mtu set_pm]. by destruct (fold_left _ _ _) as [[[m bytes] largest] large].
Qed.

Lemma acked_removes f c pm acked : is_u32 (LargestAcked f) -> HandleAckFrame now (c_pm c) f = (pm, acked) -> Good e [] c ->
  removes acked (c_pm c) pm /\ (forall q, is_Some (packets pm !! q) -> is_Some (packets (c_pm c) !! q)) /\
  forall q, sp_IsAcked (deref pm q) = (bool_decide (q ∈ acked) || sp_IsAcked (deref (c_pm c) q)).
Proof using Type.
  intros Hf E G. pose proof (ack_removes now (c_pm c) f (g_pm _ _ _ G) Hf) as R.
  pose proof (fun q => HandleAckFrame_dom_back now (c_pm c) f q (g_pm _ _ _ G)) as D.
  rewrite E in R, D. destruct R. done.
Qed.

Lemma none_acked_keeps f c pm : is_u32 (LargestAcked f) -> HandleAckFrame now (c_pm c) f = (pm, []) ->
  keeps e Calm Calm c (set_pm pm c).
Proof using Type.
  intros Hf E. apply keeps_good; [by split; cbn; [lia|] | auto | |].
  { intros _ G _. destruct (acked_removes f c pm [] Hf E G) as (R1 & _). split; [done|]. split; try done.
    intros q Hq. split; [by apply (rm_stored _ _ _ R1) | apply (rm_load _ _ _ R1)]. }
  cbn [hand_of]. intros Hi _ G. destruct (acked_removes f c pm [] Hf E G) as (R1 & R2 & R3).
  apply (acked_good e c _ []); try done; [apply G|]. rewrite total_nil. cbn. pose proof (g_flight _ _ _ G). lia.
Qed.

Lemma count_acked_keeps f c pm acked : is_u32 (LargestAcked f) -> HandleAckFrame now (c_pm c) f = (pm, acked) ->
  keeps e Calm (Busy []) c (count_acked f pm acked c).
Proof using Type.
  intros Hf E. unfold count_acked.
  destruct (fold_left (note_acked f pm) acked (c_mtu c, 0, None, false)) as [[[m bytes] largest] large] eqn:En.
  apply keeps_good; [by split; cbn; [lia|] | | done |].
  { intros _ _ _. unfold Armed. cbn [c_cc set_cc set_ackedLarge set_mtu set_pm].
    match goal with |- context [OnPacketAcked ?a ?b ?s ?d ?n ?l ?k] => destruct (acked_flight a b s d n l k) as [_ E2] end.
    intros Hp E0%E2. lia. }
  cbn [hand_of]. intros Hi _ G. cbn in Hi. destruct (acked_removes f c pm acked Hf E G) as (R1 & R2 & R3).
  pose proof (removes_perm _ _ _ (g_pm _ _ _ G) R1) as Hp. pose proof (tracked_bound _ _ _ G Hi) as Ht.
  assert (Hs : sizes_ok (header c) pm) by (by eapply removes_sizes; [apply G | exact R1 | done | apply G]).
  assert (Hnn : forall l, 0 <= total (load (c_pm c)) l).
  { intros l. apply total_nonneg. intros q _. unfold load, data_size. destruct (g_sizes _ _ _ G q) as [[? _] _]. case_match; lia. }
  assert (El : total (load pm) acked = total (load (c_pm c)) acked)
    by (apply total_ext; intros q _; by eapply removes_load).
  rewrite (total_perm _ _ _ Hp), total_app in Ht. pose proof (Hnn acked). pose proof (Hnn (tracked pm)).
  pose proof (note_acked_fold (header c) f pm acked (c_mtu c) Hs (g_mtu _ _ _ G) ltac:(lia)) as Hn.
  rewrite En in Hn. destruct Hn as [Hm ->].
  apply (acked_good e c _ acked); try done.
  cbn [c_cc set_cc set_ackedLarge set_mtu set_pm].
  match goal with |- context [OnPacketAcked ?a ?b ?s ?d ?n ?l ?k] => destruct (acked_flight a b s d n l k) as [-> _] end.
  rewrite El. pose proof (flight_bound _ _ G Hi). nowrap. done.
Qed.

Lemma handleAckFrame_keeps f c : is_u32 (LargestAcked f) -> keeps e Calm Calm c (handleAckFrame now f c).
Proof using Hnow.
  intros Hf. rewrite handleAckFrame_eq. destruct (HandleAckFrame now (c_pm c) f) as [pm acked] eqn:E.
  pose proof (count_acked_keeps f c pm acked Hf E) as K. destruct acked as [|p acked]; [by apply (none_acked_keeps f)|].
  eapply keeps_trans; [|apply probeMTU_keeps, Hnow]. eapply keeps_trans; [|apply flushLost_keeps, Hnow].
  eapply keeps_trans; [exact K | by apply detectLost_keeps].
Qed.

Lemma on_found_keeps pkt op c : (forall s, Forall call_small (op s).2) ->
  keeps e Calm Calm c (on_found now pkt op c).
Proof using Hnow.
  intros Hop. unfold on_found. case_match; [by apply on_stream_keeps | apply keeps_refl].
Qed.

Lemma Reset_small s code : Forall call_small (Stream.Reset s code).2.
Proof using Type. unfold Stream.Reset. repeat case_match; cbn; repeat constructor. Qed.

Lemma DeliverData_small s o d : Forall call_small (DeliverData s o d).2.
Proof using Type.
  unfold DeliverData. repeat case_match; cbn; repeat constructor. apply Reset_small.
Qed.

Lemma handleStreamFrame_keeps pkt f c : keeps e Calm Calm c (handleStreamFrame now pkt f c).
Proof using Hnow.
  unfold handleStreamFrame.
  assert (K : keeps e Calm Calm c (stream_for pkt f c).1).
  { unfold stream_for, accept_incoming. repeat case_match; cbn [fst]; try apply keeps_refl. all: irrelevant. }
  destruct (stream_for pkt f c) as [c1 [id|]]; [|done]. cbn [fst] in K. eapply keeps_trans; [exact K|].
  set (c2 := if (0 <? length (Data f))%nat then _ else c1).
  assert (K2 : keeps e Calm Calm c1 c2).
  { unfold c2. destruct (0 <? length (Data f))%nat; [|apply keeps_refl].
    apply on_stream_keeps; [done|]. intros s. apply DeliverData_small. }
  clearbody c2. eapply keeps_trans; [exact K2|]. destruct (IsFin f); [|apply keeps_refl].
  apply on_stream_keeps; [done|]. intros s. constructor.
Qed.

Lemma closeInternal_keeps code reason announce c : keeps e Calm Calm c (closeInternal now code reason announce c).
Proof using Hnow.
  unfold closeInternal. destruct (closeOnce (life c)); [apply keeps_refl|].
  set (c1 := close_begin c). assert (K1 : keeps e Calm Calm c c1) by irrelevant. clearbody c1.
  cbv zeta. set (c2 := if announce then _ else c1). assert (K2 : keeps e Calm Calm c1 c2).
  { unfold c2. destruct announce; [by apply sendFrames_keeps | apply keeps_refl]. }
  clearbody c2. eapply keeps_trans; [exact K1|]. eapply keeps_trans; [exact K2|].
  split; [by split; cbn; [lia|] | by intros _ _ Hc].
Qed.

Lemma handlePathResponse_keeps d c : keeps e Calm Calm c (handlePathResponse d c).
Proof using Type.
  unfold handlePathResponse, completeMigration. repeat case_match; simplify_eq; try apply keeps_refl; irrelevant.
Qed.

Lemma handleFrame_keeps pkt f c : Frame_ok f -> keeps e Calm Calm c (handleFrame now pkt c f).
Proof using Hnow.
  intros Hf. destruct f; cbn [handleFrame]; try apply keeps_refl; try (by apply sendFrames_keeps).
  - by apply handleAckFrame_keeps, Hf.
  - apply handleStreamFrame_keeps.
  - apply on_found_keeps. intros s. constructor.
  - irrelevant.
  - apply on_found_keeps. intros s. constructor.
  - case_match; [irrelevant | apply keeps_refl].
  - apply handlePathResponse_keeps.
  - apply closeInternal_keeps.
  - apply on_found_keeps. intros s. apply Reset_small.
  - apply on_found_keeps. intros s. destruct (streamFC s) as [fc|]; [|constructor].
    destruct (RefreshLimit fc). repeat constructor.
Qed.

Lemma noteReceived_keeps pkt c : keeps e Calm Calm c (noteReceived now pkt c).
Proof using Hnow.
  unfold noteReceived. destruct (AckTracker.add _ _) as [r ooo]. case_match; [|irrelevant].
  destruct (takeAckLocked _ _) as [a frame]. eapply keeps_trans; [|by apply control_keeps]. irrelevant.
Qed.

Lemma HandlePacket_keeps pkt c : Forall Frame_ok (Frames pkt) -> keeps e Calm Calm c (HandlePacket now pkt c).
Proof using Hnow.
  intros Hf. unfold HandlePacket. set (c1 := fold_left _ _ _).
  assert (K : keeps e Calm Calm c c1).
  { eapply keeps_trans; [|apply keeps_fold]; [irrelevant|]. intros c' f Hin. apply handleFrame_keeps.
    by rewrite Forall_forall in Hf; apply Hf. }
  case_match; [|done]. eapply keeps_trans; [exact K | apply noteReceived_keeps].
Qed.

Lemma ackTimerFired_keeps src dst c : keeps e Calm Calm c (ackTimerFired now src dst c).
Proof using Hnow.
  unfold ackTimerFired. case_match; [irrelevant|].
  destruct (takeAckLocked _ _) as [a frame]. eapply keeps_trans; [|by apply control_keeps]. irrelevant.
Qed.

Lemma flushTimer_keeps c : keeps e Calm Calm c (flushLost now c).
Proof using Hnow. eapply keeps_trans; [apply keeps_busy | by apply flushLost_keeps]. Qed.

Lemma onIdleCheck_keeps c : keeps e Calm Calm c (onIdleCheck now c).
Proof using Hnow.
  unfold onIdleCheck, armIdleCheck. destruct (idleExpired now c); [by apply closeInternal_keeps|].
  destruct (closeCh (life c)) eqn:Ec; [apply keeps_refl|].
  apply keeps_agrees; [split; reflexivity | reflexivity.. | by rewrite Ec].
Qed.

Lemma sendControlTo_keeps frames a c : keeps e Calm Calm c (sendControlTo frames a c).
Proof using Type.
  unfold sendControlTo. eapply keeps_trans; [apply add_sent_keeps | apply transmit_keeps].
Qed.

Lemma observeAddr_keeps a rnd c : keeps e Calm Calm c (observeAddr now a rnd c).1.
Proof using Type. unfold observeAddr. repeat case_match; cbn [fst]; first [apply keeps_refl | irrelevant]. Qed.

Lemma migrate_start_keeps a d c : keeps e Calm Calm c (migrate_start now a d c).
Proof using Hnow. unfold migrate_start. eapply keeps_trans; [|by apply sendFrames_keeps]. irrelevant. Qed.

Lemma migrate_finish_keeps a d c c' ok : migrate_finish a d c = Some (c', ok) -> keeps e Calm Calm c c'.
Proof using Type. unfold migrate_finish. repeat case_match; intros [= <- <-]; irrelevant. Qed.

Lemma OpenStream_keeps c : keeps e Calm Calm c (OpenStream c).1.
Proof using Type. unfold OpenStream. repeat case_match; cbn [fst]; first [apply keeps_refl | irrelevant]. Qed.

Lemma AcceptStream_keeps ctx c c' r : AcceptStream ctx c c' r -> keeps e Calm Calm c c'.
Proof using Type. intros []; first [apply keeps_refl | irrelevant]. Qed.
End Operations.

(** ** Runs *)

(** What a read hands to the application. *)
Definition bytes_read (r : read_result) : list byte := match r with RBytes data => data | _ => [] end.

(** The operations of the application on a stream, and the sections of a
    [Write] in progress, with what the call makes its connection do and the bytes
    it hands to the application. *)
Inductive stream_op (now maxDatagram : Z) (s : Stream) : Stream -> list conn_call -> list byte -> Prop :=
  | op_read n : stream_op now maxDatagram s (Read now s n).1.1 (Read now s n).2 (bytes_read (Read now s n).1.2)
  | op_write_start p : stream_op now maxDatagram s s (write_start maxDatagram now s p).2 []
  | op_write_loop data sent : stream_op now maxDatagram s s (write_loop maxDatagram now s data sent).2 []
  | op_write_commit data sent chunk syn grant : 0 < chunk <= MaxDatagramSize - streamChunkOverhead ->
      (forall g, grant = Some g -> 0 <= g <= Z.of_nat (length data)) ->
      stream_op now maxDatagram s (write_commit s data sent chunk syn grant).1.1
        (write_commit s data sent chunk syn grant).2 []
  | op_close : stream_op now maxDatagram s (Stream.Close s).1 (Stream.Close s).2 []
  | op_reset code : is_u32 code -> stream_op now maxDatagram s (Stream.Reset s code).1 (Stream.Reset s code).2 []
  | op_read_deadline t : stream_op now maxDatagram s (SetReadDeadline s t) [] []
  | op_write_deadline t : stream_op now maxDatagram s (SetWriteDeadline s t) [] [].

Lemma stream_op_small now md s s' calls out : stream_op now md s s' calls out -> Forall call_small calls.
Proof.
  destruct 1 as [n|p|data sent|data sent chunk syn grant Hc _| |code Hcode|t|t].
  - unfold Read. repeat case_match; repeat constructor.
  - unfold write_start, write_loop. repeat case_match; repeat constructor.
  - unfold write_loop. repeat case_match; repeat constructor.
  - unfold write_commit. repeat case_match; repeat constructor; unfold MaxDatagramSize, streamChunkOverhead in *; lia.
  - unfold Stream.Close. repeat case_match; repeat constructor; cbn; lia.
  - apply Reset_small.
  - constructor.
  - constructor.
Qed.

(** What a connection does by itself or for its application and multiplexer:
    timers, opening, closing, moving. IDs and codes fit their 32 bits, and the
    reason of a close its 16-bit length. With [exact] set, a probe timeout finds
    no packet larger than the path carries. *)
Inductive own_step (exact : bool) (c : Connection) : Connection -> Prop :=
  | step_ack_timer now src dst : 0 <= now -> is_u32 src -> is_u32 dst ->
      own_step exact c (ackTimerFired now src dst c)
  | step_loss_timer (o : RangeOrder) now : 0 <= now -> own_step exact c (lossTimerFired now c)
  | step_pto (o : RangeOrder) now : 0 <= now -> (exact = true -> fits now c) ->
      own_step exact c (onPtoTimeout now c)
  | step_flush now : 0 <= now -> own_step exact c (flushLost now c)
  | step_idle now : 0 <= now -> own_step exact c (onIdleCheck now c)
  | step_open : own_step exact c (OpenStream c).1
  | step_accept ctx c' r : AcceptStream ctx c c' r -> own_step exact c c'
  | step_ping now : 0 <= now -> own_step exact c (Ping now c)
  | step_syn now : 0 <= now ->
      own_step exact c (sendFrames now [StreamF (MkStreamFrame false true 0 [])] c)
  | step_close now code reason : 0 <= now -> is_u32 code -> Z.of_nat (length reason) < 2 ^ 16 ->
      own_step exact c (CloseWithError now code reason c)
  | step_observe now a random : own_step exact c (observeAddr now a random c).1
  | step_challenge d a : length d = 8%nat ->
      own_step exact c (sendControlTo [PathChallengeFrame d] a c)
  | step_migrate now a d : 0 <= now -> length d = 8%nat -> own_step exact c (migrate_start now a d c)
  | step_migrated a d c' ok : (d, a) ∈ migrations (path c) -> migrate_finish a d c = Some (c', ok) ->
      own_step exact c c'
  | step_abandon a d : (d, a) ∈ migrations (path c) -> own_step exact c (migrate_abandon a d c)
  | step_enqueue pkt : own_step exact c (enqueue pkt c)
  | step_dequeue pkt rest : inbound c = pkt :: rest ->
      own_step exact c (set_inbound rest (inboundDropped c) c)
  | step_establish : own_step exact c (establish c).

(** One operation: a received packet, which is one the decoder accepts, a call
    on a stream, or a step of its own. *)
Inductive conn_step (exact : bool) (c : Connection) : Connection -> Prop :=
  | step_packet (o : RangeOrder) now pkt : 0 <= now -> Packet_ok pkt ->
      conn_step exact c (HandlePacket now pkt c)
  | step_stream now id s s' calls out : 0 <= now -> streams (table c) !! id = Some s ->
      stream_op now (MaxDatagram c) s s' calls out ->
      conn_step exact c (exec_calls now calls (set_stream id s' c))
  | step_own c' : own_step exact c c' -> conn_step exact c c'.

Inductive conn_reach (exact : bool) : Connection -> Prop :=
  | reach_new now local remote laddr raddr initiator hasSend : CID_ok local -> CID_ok remote ->
      conn_reach exact (NewConnection now local remote laddr raddr initiator hasSend)
  | reach_step c c' : conn_reach exact c -> conn_step exact c c' -> conn_reach exact c'.

Lemma conn_step_keeps e c c' : conn_step e c c' -> keeps e Calm Calm c c'.
Proof.
  destruct 1 as [| |c' Hown]; [| |destruct Hown].
  - apply HandlePacket_keeps; [done | by apply ok_frames].
  - eapply keeps_trans; [|apply exec_calls_keeps; [done | by eapply stream_op_small]]. irrelevant.
  - by apply ackTimerFired_keeps.
  - by apply lossTimerFired_keeps.
  - by apply onPtoTimeout_keeps.
  - by apply flushTimer_keeps.
  - by apply onIdleCheck_keeps.
  - apply OpenStream_keeps.
  - by eapply AcceptStream_keeps.
  - unfold Ping. by apply sendFrames_keeps.
  - unfold sendFrames. apply sendPacket_keeps; [done|]. intros _. unfold frames_small. cbn. lia.
  - unfold CloseWithError. by apply (closeInternal_keeps e now).
  - apply observeAddr_keeps.
  - apply sendControlTo_keeps.
  - by apply migrate_start_keeps.
  - by eapply migrate_finish_keeps.
  - unfold migrate_abandon. irrelevant.
  - unfold enqueue. case_match; irrelevant.
  - irrelevant.
  - irrelevant.
Qed.

Lemma CID_ok_len k : CID_ok k -> (Len k <= 20)%nat.
Proof. intros []. unfold Len. done. Qed.

Lemma new_connection_inv e now local remote laddr raddr i h : CID_ok local -> CID_ok remote ->
  Inv e Calm (NewConnection now local remote laddr raddr i h).
Proof.
  intros Hl Hr _ _. split_and!; [|by intros ?|by left].
  assert (Hd : forall p, deref NewPacketManager p = inhabitant)
    by (intros p; apply deref_none, lookup_empty).
  split; try done.
  - apply NoDup_nil_2.
  - intros p Hp. by apply not_elem_of_nil in Hp.
  - intros p. change (c_pm _) with NewPacketManager. rewrite Hd.
    split; [split; [cbn; unfold maxPacket; lia | done]|]. intros [v Hv].
    change (packets NewPacketManager) with (∅ : gmap ptr SentPacket) in Hv. by rewrite lookup_empty in Hv.
  - intros p x _. change (c_pm _) with NewPacketManager. rewrite Hd. intros (f & Hf & _).
    by apply not_elem_of_nil in Hf.
  - split; by apply CID_ok_len.
Qed.

Lemma conn_reach_inv e c : conn_reach e c -> Inv e Calm c.
Proof.
  induction 1 as [|c c' _ IH Hstep]; [by apply new_connection_inv|].
  by apply (conn_step_keeps e c c' Hstep).
Qed.

(** ** Properties *)

Lemma reach_good e c : conn_reach e c -> issued c < 2 ^ 32 -> closeCh (life c) = false ->
  Good e [] c /\ Armed c /\ Draining c.
Proof. intros Hr Hi Hc. destruct (conn_reach_inv e c Hr Hi Hc) as (? & ? & ?). auto. Qed.

(** C7. Data is re-sent until acknowledged. In every run of a connection that
    is still open, every stream byte, stream opening and stream end ever put
    into a data packet is acknowledged, or carried by a packet that is tracked
    (so that loss detection and the probe timeout see it), or carried by one
    in the queue of lost packets, through losses, re-sends under new numbers
    and re-chunking after a black hole. *)
Theorem no_data_forgotten (exact : bool) (c : Connection) :
  conn_reach exact c -> issued c < 2 ^ 32 -> closeCh (life c) = false ->
  forall p x, sp_Probe (deref (c_pm c) p) = false -> carries (deref (c_pm c) p) x ->
  exists q, sp_Probe (deref (c_pm c) q) = false /\ carries (deref (c_pm c) q) x /\
    (sp_IsAcked (deref (c_pm c) q) = true \/
     (exists seq, sentPackets (c_pm c) !! seq = Some q) \/ q ∈ lostQueue (loss c)).
Proof.
  intros Hr Hi Hc p x Hp Hx. destruct (reach_good _ _ Hr Hi Hc) as (G & _).
  destruct (g_items _ _ _ G p x Hp Hx) as (q & Q1 & Q2 & Q3). exists q. split_and!; [done..|].
  rewrite app_nil_r, elem_of_app, tracked_elem in Q3. unfold queue in Q3. naive_solver.
Qed.

(** C17. The bytes in flight are accounted for: in every run of an open
    connection the congestion controller's count is never negative and never
    more than the sizes of the tracked data packets, so that it returns to
    zero when they are all acknowledged or lost and no window is leaked; and it
    is exactly their sum as long as no probe timeout had to split a packet. *)
Theorem inflight_accounted (exact : bool) (c : Connection) :
  conn_reach exact c -> issued c < 2 ^ 32 -> closeCh (life c) = false ->
  0 <= Inflight (c_cc c) <= total (load (c_pm c)) (tracked (c_pm c)) /\
  (exact = true -> Inflight (c_cc c) = total (load (c_pm c)) (tracked (c_pm c))).
Proof.
  intros Hr Hi Hc. destruct (reach_good _ _ Hr Hi Hc) as (G & _).
  pose proof (g_flight _ _ _ G) as Hf. pose proof (g_exact _ _ _ G) as He. by rewrite app_nil_r in *.
Qed.

(** While a data packet is tracked, the probe timer is armed. *)
Lemma tracked_armed c : Good true [] c -> Armed c -> forall p, p ∈ tracked (c_pm c) -> is_data (c_pm c) p ->
  ptoTimer (c_cc c) <> None.
Proof.
  intros G HA p Hp Hd. apply HA. rewrite (g_exact _ _ _ G eq_refl), app_nil_r.
  destruct (tracked_fact _ _ (g_pm _ _ _ G) Hp) as [Hst _].
  assert (0 < load (c_pm c) p).
  { unfold load, data_size. rewrite Hd. destruct (g_sizes _ _ _ G p) as [_ Hs]. rewrite (Hs Hst). unfold header. lia. }
  enough (load (c_pm c) p <= total (load (c_pm c)) (tracked (c_pm c))) by lia.
  apply total_le_elem; [|done].
  intros q _. unfold load, data_size. destruct (g_sizes _ _ _ G q) as [[? _] _]. case_match; lia.
Qed.

(** C10. Recovery does not stall. In every run of an open connection in which no
    probe timeout had to split a packet: while a data packet is tracked the
    probe timer is armed; and while a lost packet that fits the congestion
    window is first in the resend queue, the pacer's timer or the probe timer
    is armed, so that some timer always brings the unacknowledged data back. *)
Theorem recovery_never_stalls (c : Connection) :
  conn_reach true c -> issued c < 2 ^ 32 -> closeCh (life c) = false ->
  (forall seq p, sentPackets (c_pm c) !! seq = Some p -> sp_Probe (deref (c_pm c) p) = false ->
     ptoTimer (c_cc c) <> None) /\
  (forall p rest, lostQueue (loss c) = p :: rest -> sp_Size (deref (c_pm c) p) <= cwnd (c_cc c) ->
     lostTimer (loss c) <> None \/ ptoTimer (c_cc c) <> None).
Proof.
  intros Hr Hi Hc. destruct (reach_good _ _ Hr Hi Hc) as (G & HA & HD). split.
  - intros seq p Hp Hd. apply (tracked_armed c G HA p); [apply tracked_elem; eauto | done].
  - intros p rest Hq Hs. destruct HD as [E|[E|(p' & rest' & E & Hw)]]; unfold queue in *; [congruence | by left |].
    right. apply HA. rewrite Hq in E. injection E as <- <-. lia.
Qed.

(** C22. Flushing the resend queue terminates: in every run of an open
    connection the loop of [flushLost] ends within the fuel it is given, one
    round for each packet and each byte of a packet that can be split, and
    leaves the queue empty, or waiting for the pacer's timer, or blocked by the
    congestion window. *)
Theorem flushLost_terminates (exact : bool) (c : Connection) (now : Z) :
  conn_reach exact c -> issued c < 2 ^ 32 -> closeCh (life c) = false -> 0 <= now ->
  let c0 := set_queue (lostQueue (loss c)) None c in
  exists c', flush_loop (flush_fuel c0) now c0 = Some c' /\ flushLost now c = c' /\
    (issued c' < 2 ^ 32 ->
     lostQueue (loss c') = [] \/ lostTimer (loss c') <> None \/
     exists p rest, lostQueue (loss c') = p :: rest /\
       cwnd (c_cc c') < inflight (c_cc c') + sp_Size (deref (c_pm c') p)).
Proof.
  intros Hr Hi Hc Hnow. cbv zeta. destruct (reach_good _ _ Hr Hi Hc) as (G & HA & HD).
  set (c0 := set_queue _ None c). assert (G0 : Good exact [] c0) by (revert G; by apply Good_agrees).
  destruct (flush_loop_total now (flush_fuel c0) c0 (Good_stored _ _ _ G0) (flush_fuel_enough c0)) as [c' E].
  exists c'. split; [done|]. assert (Ef : flushLost now c = c') by (unfold flushLost; fold c0; by rewrite E).
  split; [done|]. intros Hi'. pose proof (flush_loop_keeps exact now _ c0 c' Hnow E) as [_ K].
  pose proof (flush_loop_life now _ c0 c' E) as Ho. cbn in Ho. rewrite <- Ho in Hc.
  destruct K as (G' & _); [by intros _ _ | done | done |]. by apply (flush_loop_drains exact now _ c0 c' G' Hi' E).
Qed.

(** ** A run

    A dialled connection whose SYN and MTU probe are acknowledged, so that the
    path carries 1472 bytes, and which then writes [n] bytes on a stream. *)

Section Run.
#[local] Existing Instance key_order.

Definition sample_cid (b : byte) : ConnectionID := MkCID (fill MaxCIDLength (replicate 8 b)) 8.
Definition ms (n : Z) : Z := n * Millisecond.

Definition run_new : Connection :=
  NewConnection (ms 1) (sample_cid x01) (sample_cid x02) None (Some "peer"%string) true true.
Definition run_syn : Connection :=
  sendFrames (ms 1) [StreamF (MkStreamFrame false true 0 [])] (establish run_new).

(** A packet with an ACK frame of one range of [count] numbers. *)
Definition ack_of (largest count : Z) : Packet :=
  MkPacket VersionCurrent (sample_cid x01) (sample_cid x02) 0 0 0
    [AckF (MkAckFrame largest 0 count [])] 0 false 60.

Definition run_acked : Connection := HandlePacket (ms 21) (ack_of 0 1) run_syn.
Definition run_probed : Connection := HandlePacket (ms 41) (ack_of 1 1) run_acked.
Definition run_open : Connection := (OpenStream run_probed).1.

Definition run_write (n : nat) : Connection :=
  let r := write_commit (attached 1 0 StreamStateIdle) (replicate n x00) 0 1372 true (Some (Z.of_nat n)) in
  exec_calls (ms 50) r.2 (set_stream 1 r.1.1 run_open).

Lemma sample_cid_ok b : CID_ok (sample_cid b).
Proof. apply (fill_cid_ok (replicate 8 _)), Nat.leb_le; reflexivity. Qed.

Lemma ack_of_ok largest count : is_u32 largest -> is_u32 count -> Packet_ok (ack_of largest count).
Proof.
  intros. split; try done; try apply sample_cid_ok.
  constructor; [|constructor]. split_and!; [done | by cbn | done | constructor | by cbn].
Qed.

Lemma run_acked_reach e : conn_reach e run_acked.
Proof.
  eapply reach_step; [|apply step_packet; [done | by apply ack_of_ok]].
  eapply reach_step; [|by apply step_own, step_syn]. eapply reach_step; [|apply step_own, step_establish].
  apply reach_new; apply sample_cid_ok.
Qed.

Lemma run_write_reach e n : conn_reach e (run_write n).
Proof.
  eapply reach_step; [|eapply (step_stream _ _ (ms 50) 1 (attached 1 0 StreamStateIdle));
    [done | by vm_compute | apply op_write_commit; [done|]]].
  2: { intros g [= <-]. rewrite length_replicate. lia. }
  eapply reach_step; [|apply step_own, step_open].
  eapply reach_step; [|apply step_packet; [done | by apply ack_of_ok]]. apply run_acked_reach.
Qed.

Lemma no_data_forgotten_witness :
  exists q, sp_Probe (deref (c_pm (run_write 3000)) q) = false /\
    carries (deref (c_pm (run_write 3000)) q) (Byte 0 1 2999 x00) /\
    (sp_IsAcked (deref (c_pm (run_write 3000)) q) = true \/
     (exists seq, sentPackets (c_pm (run_write 3000)) !! seq = Some q) \/
     q ∈ lostQueue (loss (run_write 3000))).
Proof.
  apply (no_data_forgotten true (run_write 3000)) with (p := 5%positive);
    [apply run_write_reach | vm_compute; done..|].
  exists (MkStreamFrame false false 2744 (replicate 256 x00)). split.
  - replace (sp_Frames _) with [StreamF (MkStreamFrame false false 2744 (replicate 256 x00))]
      by (vm_compute; reflexivity). apply list_elem_of_here.
  - split_and!; [vm_compute; reflexivity..|]. exists 255%nat. done.
Defined.

Lemma inflight_accounted_witness :
  Inflight (c_cc (run_write 3000)) = 3138 /\
  (true = true -> Inflight (c_cc (run_write 3000))
     = total (load (c_pm (run_write 3000))) (tracked (c_pm (run_write 3000)))).
Proof.
  split; [vm_compute; reflexivity|].
  apply (inflight_accounted true (run_write 3000)); [apply run_write_reach | vm_compute; done..].
Defined.

Lemma recovery_never_stalls_witness : ptoTimer (c_cc (run_write 3000)) <> None.
Proof.
  apply (proj1 (recovery_never_stalls (run_write 3000) (run_write_reach true 3000)
    ltac:(vm_compute; done) ltac:(vm_compute; done)) 2 3%positive); vm_compute; reflexivity.
Defined.

Definition run_lost : Connection := HandlePacket (ms 71) (ack_of 11 1) (run_write 13720).

Lemma run_lost_reach e : conn_reach e run_lost.
Proof.
  apply (reach_step e (run_write 13720)); [apply run_write_reach|].
  apply (step_packet e _ key_order); [by vm_compute | by apply ack_of_ok].
Qed.

Lemma flushLost_terminates_witness :
  lostQueue (loss run_lost) = [8%positive; 9%positive] /\
  exists c', flush_loop (flush_fuel (set_queue (lostQueue (loss run_lost)) None run_lost)) (ms 80)
    (set_queue (lostQueue (loss run_lost)) None run_lost) = Some c'.
Proof.
  split; [vm_compute; reflexivity|].
  destruct (flushLost_terminates true run_lost (ms 80) (run_lost_reach true)) as (c' & E & _);
    [vm_compute; done..|]. exists c'. exact E.
Defined.

(** The same writer when the path shrinks to 1200 bytes: six probe timeouts in
    a row, of which the last four re-send the eight packets in two pieces each,
    and then everything but the last piece is acknowledged. *)
Definition run_shrunk : Connection :=
  fold_left (fun c t => onPtoTimeout (ms t) c) [500; 1200; 2500; 5000; 10000; 20000]
    (run_write 10976).
Definition run_tail : Connection := HandlePacket (ms 20040) (ack_of 28 27) run_shrunk.

Lemma run_tail_reach : conn_reach false run_tail.
Proof.
  unfold run_tail. eapply reach_step; [|apply (step_packet false _ key_order); [by vm_compute | by apply ack_of_ok]].
  unfold run_shrunk. cbn [fold_left].
  do 6 (eapply reach_step; [|apply step_own, (step_pto false _ key_order); [by vm_compute | intros Hf; discriminate Hf]]). apply run_write_reach.
Qed.

(** C30. Where a probe timeout splits packets, recovery can stall: the
    pieces a probe timeout splits a packet into have a header each, but no
    [OnPacketSent] books it, so that acknowledging them takes more off the
    bytes in flight than was put on. There is a run after which the last piece
    is tracked and unacknowledged, while the bytes in flight are zero, the
    probe timer and the loss timer are not armed and the resend queue is
    empty: if that piece was lost, nothing of the connection re-sends it. *)
Theorem rechunk_disarms_recovery : exists c,
  conn_reach false c /\ closeCh (life c) = false /\
  (exists seq p, sentPackets (c_pm c) !! seq = Some p /\
     sp_Probe (deref (c_pm c) p) = false /\ sp_IsAcked (deref (c_pm c) p) = false) /\
  Inflight (c_cc c) = 0 /\ ptoTimer (c_cc c) = None /\ lossTimer (c_pm c) = None /\
  loss c = MkLoss [] None.
Proof.
  exists run_tail. split; [apply run_tail_reach|]. split; [vm_compute; reflexivity|].
  split; [exists 29, 26%positive | ]; split_and!; vm_compute; reflexivity.
Qed.
End Run.
