(* ===== verification/Tiling.v ===== *)
(** * Chunks of a byte stream

    What cutting data into frames produces ([chunk_frames], the loop of
    [sendStreamFrames] and of [fitToPath]): chunks that tile the data, each where
    the one before ends. *)

From S2P Require Import Prelude Frame Stream Connection Recovery.

Definition chunk (f : StreamFrame) : Z * list byte := (Offset f, Data f).

Fixpoint tiled (o : Z) (xs : list (Z * list byte)) : Prop :=
  match xs with
  | [] => True
  | x :: xs => x.1 = o /\ x.2 <> [] /\ tiled (chunk_end x) xs
  end.

Lemma join_cons (l : list byte) ls : mjoin (l :: ls) = l ++ mjoin ls.
Proof. done. Qed.

Lemma chunk_frames_tile k data : (0 < k)%nat -> forall fuel o syn fin, 0 <= o ->
  (length data <= fuel)%nat -> o + Z.of_nat (length data) < 2 ^ 62 ->
  let fs := chunk_frames fuel k o syn fin data in
  tiled o (chunk <$> fs) /\ mjoin (Data <$> fs) = data.
Proof.
  intros Hk fuel. revert data. induction fuel as [|fuel IH]; intros data o syn fin Ho Hl Hb; cbv zeta.
  { destruct data; [done | cbn in Hl; lia]. }
  destruct (decide (data = [])) as [->|Hne]; [done|]. rewrite chunk_frames_cons by done. cbv zeta.
  set (n := Nat.min k (length data)).
  assert (Hlen : (0 < length data)%nat) by (destruct data; [done | cbn; lia]).
  assert (En : length (take n data) = n) by (rewrite length_take; lia).
  rewrite u64_small by width.
  destruct (IH (drop n data) (o + Z.of_nat n) false fin) as [T1 T2]; [lia | rewrite length_drop; lia.. |].
  cbv zeta in T1, T2. split.
  - cbn. unfold chunk_end. cbn. rewrite En. split_and!; [done | | done]. intros E. rewrite E in En. cbn in En. lia.
  - rewrite fmap_cons, join_cons, T2. apply take_drop.
Qed.

Lemma tiled_low o xs x : tiled o xs -> x ∈ xs -> o <= x.1 /\ x.1 < chunk_end x.
Proof.
  revert o. induction xs as [|y xs IH]; intros o Ht Hx; [by apply not_elem_of_nil in Hx|].
  destruct Ht as (E & Hne & Ht). assert (y.1 < chunk_end y) by (unfold chunk_end; destruct y.2; [done | cbn; lia]).
  apply elem_of_cons in Hx as [->|Hx]; [lia|]. destruct (IH _ Ht Hx). lia.
Qed.

(** Two chunks are the same or apart. *)
Lemma tiled_apart o xs x y : tiled o xs -> x ∈ xs -> y ∈ xs ->
  x = y \/ chunk_end x <= y.1 \/ chunk_end y <= x.1.
Proof.
  revert o. induction xs as [|z xs IH]; intros o Ht Hx Hy; [by apply not_elem_of_nil in Hx|].
  destruct Ht as (E & Hne & Ht). apply elem_of_cons in Hx as [->|Hx]; apply elem_of_cons in Hy as [->|Hy]; [by left | | |by eapply IH].
  - right. left. by apply (tiled_low _ xs).
  - right. right. by apply (tiled_low _ xs).
Qed.

Lemma tiled_cover o xs i : tiled o xs -> o <= i < o + Z.of_nat (length (mjoin xs.*2)) ->
  exists x, x ∈ xs /\ x.1 <= i < chunk_end x.
Proof.
  revert o. induction xs as [|x xs IH]; intros o Ht Hi; [cbn in Hi; lia|]. destruct Ht as (E & _ & Ht).
  rewrite fmap_cons, join_cons, length_app in Hi. unfold chunk_end in *.
  destruct (decide (i < o + Z.of_nat (length x.2))); [exists x; split; [left | lia]|].
  destruct (IH _ Ht) as (y & Hy & ?); [lia|]. exists y. split; [by right | done].
Qed.

Lemma tiled_chunk pre o xs x : tiled o xs -> o = Z.of_nat (length pre) -> x ∈ xs ->
  chunk_of (pre ++ mjoin xs.*2) x.1 x.2.
Proof.
  revert pre o. induction xs as [|y xs IH]; intros pre o Ht Ho Hx; [by apply not_elem_of_nil in Hx|].
  destruct Ht as (E & _ & Ht). rewrite fmap_cons, join_cons. apply elem_of_cons in Hx as [->|Hx].
  - rewrite app_assoc. apply chunk_of_app. rewrite E, Ho. apply chunk_of_snoc.
  - rewrite app_assoc. apply (IH (pre ++ y.2) (chunk_end y)); try done. unfold chunk_end. rewrite length_app. lia.
Qed.

(** The chunks lie one behind the other, within what they tile. *)
Lemma tiled_order o xs i j x y : tiled o xs -> xs !! i = Some x -> xs !! j = Some y -> (i < j)%nat ->
  chunk_end x <= y.1.
Proof.
  revert o i j. induction xs as [|z xs IH]; intros o i j Ht Hx Hy Hij; [done|]. destruct Ht as (E & Hne & Ht).
  destruct j as [|j]; [lia|]. cbn in Hy. destruct i as [|i]; cbn in Hx.
  - injection Hx as <-. apply (tiled_low _ xs y Ht). by eapply list_elem_of_lookup_2.
  - apply (IH _ i j Ht); [done | done | lia].
Qed.

Lemma tiled_high o xs x : tiled o xs -> x ∈ xs -> chunk_end x <= o + Z.of_nat (length (mjoin xs.*2)).
Proof.
  revert o. induction xs as [|y xs IH]; intros o Ht Hx; [by apply not_elem_of_nil in Hx|].
  destruct Ht as (E & _ & Ht). rewrite fmap_cons, join_cons, length_app. unfold chunk_end in *.
  apply elem_of_cons in Hx as [->|Hx]; [lia|]. specialize (IH _ Ht Hx). lia.
Qed.
