(* ===== verification/Dispatch.v ===== *)
(** * What received packets and calls do to a connection

    Sending, loss recovery and acknowledgement processing leave the stream
    table, the acknowledgement state, the addresses and the life cycle alone
    ([outside]). On that rest the properties of received packets: when a packet
    is acknowledged, which stream a frame reaches, what moves the connection to
    another address, and what a close leaves behind. *)

From stdpp Require Import strings.
From S2P Require Import Prelude Constants Cid Frame Packet AckTracker FlowControl Mtud.
From S2P Require Import PacketManager AckExchange Stream Pacing Congestion Connection Recovery ConnReach.

(** ** What sending does not touch *)

Definition outside (c : Connection) :=
  (localCID c, remoteCID c, localAddr c, isInitiator c, sendFunc c, sendBatchFunc c, onClose c,
   table c, c_fc c, acks c, life c, (inbound c, inboundDropped c),
   with_bytes 0 (bytesReceived (path c)) (path c)).

Definition same (c c' : Connection) : Prop := outside c' = outside c.

#[export] Instance same_preorder : PreOrder same.
Proof. split; [by intros c | intros a b c H1 H2; unfold same in *; congruence]. Qed.

(** What [same] says of one field. *)
Section Same.
Context {c c' : Connection} (H : same c c').

Lemma same_table : table c' = table c.
Proof using H. by injection H. Qed.
Lemma same_acks : acks c' = acks c.
Proof using H. by injection H. Qed.
Lemma same_life : life c' = life c.
Proof using H. by injection H. Qed.
Lemma same_cids : remoteCID c' = remoteCID c /\ localCID c' = localCID c.
Proof using H. injection H. by split. Qed.
Lemma same_send : sendFunc c' = sendFunc c.
Proof using H. by injection H. Qed.
Lemma same_path : with_bytes 0 (bytesReceived (path c')) (path c') = with_bytes 0 (bytesReceived (path c)) (path c).
Proof using H. exact (f_equal snd H). Qed.
End Same.

Lemma same_fold {A} (f : Connection -> A -> Connection) (l : list A) c :
  (forall c x, same c (f c x)) -> same c (fold_left f l c).
Proof. intros Hf. revert c. induction l as [|x l IH]; intros c; cbn; [done|]. by rewrite <- IH. Qed.

Lemma transmit_same data to c : same c (transmit data to c).
Proof. unfold transmit. by case_match. Qed.

Lemma add_sent_same n c : same c (add_sent n c).
Proof. done. Qed.

Lemma send_same data to n c : same c (transmit data to (add_sent n c)).
Proof. rewrite <- transmit_same. apply add_sent_same. Qed.

Lemma track_same now dst src frames c : same c (track now dst src frames c).
Proof. done. Qed.

Lemma sendPacket_same now dst src frames c : same c (sendPacket now dst src frames c).
Proof.
  unfold sendPacket. destruct (existsb bears_data frames); cbv zeta.
  - destruct (amplifies _ _); [apply track_same|]. rewrite <- send_same. apply track_same.
  - destruct (amplifies _ _); [done | apply send_same].
Qed.

Lemma sendFrames_same now frames c : same c (sendFrames now frames c).
Proof. unfold sendFrames. apply sendPacket_same. Qed.

Lemma prepare_same now dst src frames c : same c (prepareDataPacket now dst src frames c).1.
Proof. unfold prepareDataPacket. by case_match. Qed.

Lemma sendStreamFrames_same now sid rid o data k syn c : same c (sendStreamFrames now sid rid o data k syn c).
Proof.
  unfold sendStreamFrames. generalize (chunk_frames (length data) (Z.to_nat k) o syn false data). intros fs.
  assert (E : forall st, same st.1 (fold_left (prepare_all now rid sid) fs st).1).
  { induction fs as [|f fs IH]; intros [c1 bufs]; [done|]. cbn [fold_left]. rewrite <- IH.
    unfold prepare_all. pose proof (prepare_same now rid sid [StreamF f] c1) as E.
    destruct (prepareDataPacket _ _ _ _ _). exact E. }
  specialize (E (c, [])). destruct (fold_left _ fs _) as [c1 bufs]. rewrite E. unfold writeDatagrams. by case_match.
Qed.

Lemma exec_calls_same now calls c : same c (exec_calls now calls c).
Proof.
  apply same_fold. clear. intros c []; cbn [exec_call]; [|apply sendStreamFrames_same|..];
    apply sendPacket_same.
Qed.

Lemma retransmit_same p seq c : same c (retransmitPacket p seq c).
Proof. unfold retransmitPacket. apply send_same. Qed.

Lemma fitToPath_same p c : same c (fitToPath p c).1.
Proof. unfold fitToPath. repeat case_match; done. Qed.

Lemma flush_round_same now p rest c : same c (flush_round now p rest c).1.
Proof.
  unfold flush_round. destruct (closeCh (life c)); [done|]. destruct (sp_IsAcked _); [done|].
  assert (E : same c (if Current (c_mtu c) <? sp_Size (deref (c_pm c) p) then fitToPath p c else (c, [])).1)
    by (case_match; [apply fitToPath_same | done]).
  destruct (if Current (c_mtu c) <? sp_Size (deref (c_pm c) p) then fitToPath p c else (c, []))
    as [c1 pieces]. cbn [fst] in E.
  repeat case_match; cbn [fst]; try exact E. rewrite <- retransmit_same. exact E.
Qed.

Lemma flush_loop_same now fuel : forall c c', flush_loop fuel now c = Some c' -> same c c'.
Proof.
  induction fuel as [|fuel IH]; intros c c'; cbn [flush_loop];
    destruct (lostQueue (loss c)) as [|p rest]; try done; try (by intros [= <-]).
  pose proof (flush_round_same now p rest c) as E. destruct (flush_round now p rest c) as [c1 more].
  cbn [fst] in E. destruct more; [|by intros [= <-]]. intros H. by rewrite E, (IH c1 c' H).
Qed.

Lemma flushLost_same now c : same c (flushLost now c).
Proof.
  unfold flushLost. destruct (flush_loop _ _ _) as [c'|] eqn:E; [|done].
  apply flush_loop_same in E. exact E.
Qed.

Lemma onPacketsLost_same now ls c : same c (onPacketsLost now ls c).
Proof.
  unfold onPacketsLost. destruct (fold_left _ ls _) as [m data]. repeat case_match; try done;
  by rewrite <- flushLost_same.
Qed.

Lemma report_same now res c : same c (report_lost now res c).
Proof. unfold report_lost. destruct res as [pm [|p l]]; [done|]. by rewrite <- onPacketsLost_same. Qed.

Lemma probeMTU_same now c : same c (probeMTU now c).
Proof.
  unfold probeMTU. repeat case_match; try done. rewrite <- send_same. done.
Qed.

Lemma probe_piece_same now c p : same c (probe_piece now c p).
Proof.
  unfold probe_piece. repeat case_match; try done.
  trans (retransmitPacket p z (bump (set_pm p0 c))); [rewrite <- retransmit_same; done | done].
Qed.

Lemma probe_packet_same now c p : same c (probe_packet now c p).
Proof.
  unfold probe_packet. pose proof (fitToPath_same p c) as E. destruct (fitToPath p c) as [c1 ps].
  rewrite E. apply same_fold. intros. apply probe_piece_same.
Qed.

Section Timers.
Context {o : RangeOrder}.

Lemma onPtoTimeout_same now c : same c (onPtoTimeout now c).
Proof.
  unfold onPtoTimeout, onPTO. cbv zeta.
  match goal with |- same c (set_cc _ ?c1) => trans c1; [|done] end.
  rewrite <- (same_fold (probe_packet now)) by apply probe_packet_same. by case_match.
Qed.

Lemma handleAckFrame_same now f c : same c (handleAckFrame now f c).
Proof.
  unfold handleAckFrame. destruct (HandleAckFrame _ _ _) as [pm [|p l]]; [done|].
  destruct (fold_left _ _ _) as [[[m b] la] lg].
  rewrite <- probeMTU_same, <- flushLost_same. unfold detectLost. rewrite <- report_same. done.
Qed.

End Timers.

(** ** The stream table *)

(** A stream keeps its IDs and its connection. *)
Definition stays (s s' : Stream) : Prop := ID s' = ID s /\ RemoteID s' = RemoteID s /\ conn s' = conn s.

Lemma finishLocked_stays s : stays s (finishLocked s).
Proof. unfold finishLocked. by case_match. Qed.

Lemma Reset_stays s code : stays s (Stream.Reset s code).1.
Proof. unfold Stream.Reset. by case_match. Qed.

Lemma DeliverData_stays s o d : stays s (DeliverData s o d).1.
Proof.
  unfold DeliverData. destruct (placeLocked _ _ _) as [r n]. repeat case_match; [apply (Reset_stays (with_recv s r))| |done].
  apply (finishLocked_stays (with_fc (with_recv s r) _)).
Qed.

Lemma DeliverFin_stays s n : stays s (DeliverFin s n).
Proof. unfold DeliverFin, finishLocked. by case_match. Qed.

Lemma stream_op_stays now md s s' calls out : stream_op now md s s' calls out -> stays s s'.
Proof.
  destruct 1; try done.
  - unfold Read. repeat case_match; done.
  - unfold write_commit. repeat case_match; done.
  - unfold Stream.Close. by case_match.
  - apply Reset_stays.
Qed.

(** The changes of the table: a stream changes, a stream is opened (under an
    RemoteID no other stream has, unless it is 0), every stream is reset, the
    limit or the queue of [AcceptStream] changes. *)
Inductive tstep : StreamTable -> StreamTable -> Prop :=
  | t_change t id s s' : streams t !! id = Some s -> stays s s' ->
      tstep t (MkStreams (<[id := s']> (streams t)) (nextStreamID t) (maxStreams t) (incomingStreams t))
  | t_open t rid st (q : bool) : is_u32 rid ->
      (rid <> 0 -> forall id s, streams t !! id = Some s -> RemoteID s <> rid) ->
      tstep t (MkStreams (<[nextStreamID t := attached (nextStreamID t) rid st]> (streams t))
        (u32 (nextStreamID t + 2)) (maxStreams t)
        (incomingStreams t ++ if q then [nextStreamID t] else []))
  | t_reset t code : tstep t (MkStreams ((fun s => DeliverReset s code) <$> streams t) (nextStreamID t)
      (maxStreams t) (incomingStreams t))
  | t_limit t n : tstep t (MkStreams (streams t) (nextStreamID t) n (incomingStreams t))
  | t_accept t id q : incomingStreams t = id :: q ->
      tstep t (MkStreams (streams t) (nextStreamID t) (maxStreams t) q).

Definition base (initiator : bool) : Z := if initiator then 1 else 2.

(** Every stream is filed under its own ID, knows the connection, and has an
    ID of the connection's parity below the next one; no two streams have the
    same RemoteID but 0; the streams offered to [AcceptStream] exist. *)
Record streams_ok (initiator : bool) (t : StreamTable) : Prop := {
  t_next : nextStreamID t = base initiator + 2 * Z.of_nat (size (streams t));
  t_ids : forall id s, streams t !! id = Some s -> ID s = id /\ conn s = true /\ is_u32 (RemoteID s) /\
    base initiator <= id < nextStreamID t /\ (id - base initiator) mod 2 = 0;
  t_remote : forall i j s s', streams t !! i = Some s -> streams t !! j = Some s' ->
    RemoteID s = RemoteID s' -> RemoteID s <> 0 -> i = j;
  t_queue : forall id, id ∈ incomingStreams t -> is_Some (streams t !! id)
}.

(** Up to 2^30 streams, which is before the 32-bit IDs wrap around. *)
Definition table_ok (initiator : bool) (t : StreamTable) : Prop :=
  Z.of_nat (size (streams t)) < 2 ^ 30 -> streams_ok initiator t.

Lemma tstep_size t t' : tstep t t' -> (size (streams t) <= size (streams t'))%nat.
Proof.
  destruct 1; cbn [streams]; try done; rewrite ?map_size_fmap; try done; rewrite map_size_insert; case_match; cbn; lia.
Qed.

Lemma change_ok i t id s s' : streams t !! id = Some s -> stays s s' -> streams_ok i t ->
  streams_ok i (MkStreams (<[id := s']> (streams t)) (nextStreamID t) (maxStreams t) (incomingStreams t)).
Proof.
  intros Hs (E1 & E2 & E3) [H1 H2 H3 H4].
  assert (Hl : forall j u, <[id := s']> (streams t) !! j = Some u ->
    exists u0, streams t !! j = Some u0 /\ stays u0 u).
  { intros j u [[<- <-]|[_ ?]]%lookup_insert_Some; [by exists s | by exists u]. }
  split; cbn [nextStreamID streams incomingStreams].
  - rewrite map_size_insert, Hs. done.
  - intros j u (u0 & Hu & U1 & U2 & U3)%Hl. rewrite U1, U2, U3. by apply H2.
  - intros j k u u' (u0 & Hu & _ & U2 & _)%Hl (u1 & Hu' & _ & U2' & _)%Hl. rewrite U2, U2'. by apply H3.
  - intros j Hj. rewrite lookup_insert_is_Some'. auto.
Qed.

Lemma open_ok i t rid st (q : bool) : Z.of_nat (size (streams t)) < 2 ^ 30 - 1 -> is_u32 rid ->
  (rid <> 0 -> forall id s, streams t !! id = Some s -> RemoteID s <> rid) -> streams_ok i t ->
  streams_ok i (MkStreams (<[nextStreamID t := attached (nextStreamID t) rid st]> (streams t))
        (u32 (nextStreamID t + 2)) (maxStreams t)
        (incomingStreams t ++ if q then [nextStreamID t] else [])).
Proof.
  intros Hsz Hrid Hnew [H1 H2 H3 H4].
  assert (Hfresh : streams t !! nextStreamID t = None).
  { destruct (streams t !! nextStreamID t) eqn:E; [|done]. apply H2 in E. lia. }
  assert (Hb : 1 <= base i <= 2) by (destruct i; cbn; lia).
  assert (En : u32 (nextStreamID t + 2) = nextStreamID t + 2) by (apply u32_small; width).
  split; cbn [nextStreamID streams incomingStreams]; rewrite ?En.
  - rewrite map_size_insert, Hfresh. lia.
  - intros id s [[<- <-]|[_ Hs]]%lookup_insert_Some.
    + split_and!; try done; try lia. rewrite H1. replace (_ - _) with (Z.of_nat (size (streams t)) * 2) by lia.
      apply Z_mod_mult.
    + destruct (H2 _ _ Hs) as (? & ? & ? & ? & ?). split_and!; try done; lia.
  - intros id j s s' [[<- <-]|[_ Hs]]%lookup_insert_Some [[<- <-]|[_ Hs']]%lookup_insert_Some; cbn [RemoteID attached];
      intros E Hz; [done | | |by eapply H3].
    + by destruct (Hnew Hz _ _ Hs').
    + rewrite E in Hz. by destruct (Hnew Hz _ _ Hs).
  - intros id [Hid|Hid]%elem_of_app; [apply lookup_insert_is_Some'; auto|].
    destruct q; [|by apply not_elem_of_nil in Hid]. apply list_elem_of_singleton in Hid as ->.
    rewrite lookup_insert_eq. done.
Qed.

Lemma tstep_ok i t t' : tstep t t' -> table_ok i t -> table_ok i t'.
Proof.
  intros Ht Hok Hsz. pose proof (tstep_size _ _ Ht) as Hle. specialize (Hok ltac:(lia)).
  destruct Ht as [t id s s' Hs Hst|t rid st q Hr Hn|t code|t n|t id q Eq]; cbn [streams] in *.
  - by eapply change_ok.
  - apply open_ok; try done. rewrite map_size_insert in Hsz.
    destruct (streams t !! nextStreamID t) eqn:E; [|lia]. destruct Hok as [H1 H2 _ _]. apply H2 in E. lia.
  - destruct Hok as [H1 H2 H3 H4]. split; cbn [nextStreamID streams incomingStreams].
    + by rewrite map_size_fmap.
    + intros id s. rewrite lookup_fmap_Some. intros (u & <- & Hu). by apply (H2 _ _ Hu).
    + intros id j s s'. rewrite !lookup_fmap_Some. intros (u & <- & Hu) (u' & <- & Hu'). by apply (H3 _ _ _ _ Hu Hu').
    + intros id Hid. rewrite lookup_fmap, fmap_is_Some. auto.
  - by destruct Hok.
  - destruct Hok as [H1 H2 H3 H4]. split; try done. intros j Hj. apply H4. rewrite Eq. by right.
Qed.

(** What never changes. *)
Definition ident (c : Connection) := (localCID c, remoteCID c, isInitiator c, sendFunc c).

Definition moves (c c' : Connection) : Prop := ident c' = ident c /\ rtc tstep (table c) (table c').

#[export] Instance moves_preorder : PreOrder moves.
Proof.
  split; [intros c; split; [done | apply rtc_refl]|].
  intros a b c [E1 T1] [E2 T2]. split; [congruence | by eapply rtc_trans].
Qed.

Lemma moves_eq c c' : ident c' = ident c -> table c' = table c -> moves c c'.
Proof. intros E T. split; [done | by rewrite T]. Qed.

Lemma moves_once c c' : ident c' = ident c -> tstep (table c) (table c') -> moves c c'.
Proof. intros E T. split; [done | by apply rtc_once]. Qed.

Lemma same_moves c c' : same c c' -> moves c c'.
Proof. intros E. apply moves_eq; [|by apply same_table]. unfold ident. injection E. congruence. Qed.

(** A method call on a stream changes that stream, and what it calls back for
    is sent. *)
Lemma on_stream_eq now id op c : on_stream now id op c = match streams (table c) !! id with
  | None => c | Some s => exec_calls now (op s).2 (set_stream id (op s).1 c) end.
Proof. unfold on_stream. case_match; [|done]. by destruct (op _). Qed.

Lemma on_stream_moves now id op c : (forall s, stays s (op s).1) -> moves c (on_stream now id op c).
Proof.
  intros Hop. rewrite on_stream_eq. destruct (streams (table c) !! id) as [s|] eqn:E; [|done].
  trans (set_stream id (op s).1 c); [|by apply same_moves, exec_calls_same].
  apply moves_once; [done|]. by apply (t_change (table c) id s).
Qed.

Section Moves.
Context {o : RangeOrder}.

Lemma by_remote_none rid t : by_remote rid t = None -> forall id s, streams t !! id = Some s -> RemoteID s <> rid.
Proof.
  unfold by_remote. intros Hf id s Hs E.
  destruct (list_find _ (range_streams (streams t))) as [[i e]|] eqn:El; [done|].
  apply list_find_None in El. rewrite Forall_forall in El. apply (El (id, s)); [|done].
  rewrite range_streams_perm. by apply elem_of_map_to_list.
Qed.

Lemma on_found_moves now pkt op c : (forall s, stays s (op s).1) -> moves c (on_found now pkt op c).
Proof. intros Hop. unfold on_found. case_match; [by apply on_stream_moves | done]. Qed.

Lemma stream_for_moves pkt f c : is_u32 (SourceStreamID pkt) -> moves c (stream_for pkt f c).1.
Proof.
  intros Hr. unfold stream_for. destruct (findStream _ _ c) as [id|] eqn:E; [done|].
  destruct (negb (SourceStreamID pkt =? 0)) eqn:Ez; [|done]. unfold findStream in E. rewrite Ez in E.
  destruct (IsSyn f || _); [|done]. apply moves_once; [done|]. unfold accept_incoming. cbv zeta. cbn [fst].
  destruct (streams (table c) !! _); [done|].
  assert (Hn := by_remote_none _ _ E). cbn [set_table table].
  destruct (length (incomingStreams (table c)) <? incomingCap)%nat; [apply (t_open _ _ _ true) | ]; auto.
  pose proof (t_open (table c) (SourceStreamID pkt) StreamStateOpen false) as H. rewrite app_nil_r in H. auto.
Qed.

Lemma handleStreamFrame_moves now pkt f c : is_u32 (SourceStreamID pkt) -> moves c (handleStreamFrame now pkt f c).
Proof.
  intros Hr. unfold handleStreamFrame. pose proof (stream_for_moves pkt f c Hr) as E.
  destruct (stream_for pkt f c) as [c1 [id|]]; [|done]. cbn [fst] in E. rewrite E.
  trans (if (0 <? length (Data f))%nat
         then on_stream now id (fun s => DeliverData s (Offset f) (Data f)) c1 else c1).
  - case_match; [apply on_stream_moves; intros; apply DeliverData_stays | done].
  - match goal with |- moves ?a _ => generalize a end. intros c2.
    case_match; [apply on_stream_moves; intros; apply DeliverFin_stays | done].
Qed.

Lemma closeInternal_moves now code reason announce c : moves c (closeInternal now code reason announce c).
Proof.
  unfold closeInternal. destruct (closeOnce (life c)); [done|].
  assert (E : moves c (if announce then sendFrames now [ConnectionCloseFrame code 0 reason] (close_begin c)
                       else close_begin c)).
  { destruct announce; [|by apply moves_eq]. unfold sendFrames. trans (close_begin c); [by apply moves_eq|]. apply same_moves, sendPacket_same. }
  etrans; [exact E|]. apply moves_once; [done | apply t_reset].
Qed.

Lemma handleFrame_moves now pkt c f : is_u32 (SourceStreamID pkt) -> moves c (handleFrame now pkt c f).
Proof.
  intros Hr. destruct f; cbn [handleFrame]; try done; try (apply same_moves; unfold sendFrames; apply sendPacket_same).
  - apply same_moves, handleAckFrame_same.
  - by apply handleStreamFrame_moves.
  - by apply on_found_moves.
  - by apply on_found_moves.
  - case_match; [apply moves_once; [done | apply t_limit] | done].
  - unfold handlePathResponse, completeMigration. repeat case_match; simplify_eq; by apply moves_eq.
  - apply closeInternal_moves.
  - apply on_found_moves. intros. apply Reset_stays.
  - apply on_found_moves. intros s. by repeat case_match.
Qed.

Lemma frames_moves now pkt frames c : is_u32 (SourceStreamID pkt) ->
  moves c (fold_left (handleFrame now pkt) frames c).
Proof.
  intros Hr. revert c. induction frames as [|f fs IH]; intros c; cbn; [done|]. rewrite <- IH. by apply handleFrame_moves.
Qed.

Lemma HandlePacket_moves now pkt c : is_u32 (SourceStreamID pkt) -> moves c (HandlePacket now pkt c).
Proof.
  intros Hr. unfold HandlePacket. cbv zeta. etrans; [by apply (moves_eq c (note_arrival now pkt c))|].
  etrans; [by apply (frames_moves now pkt (Frames pkt))|].
  case_match; [|done]. unfold noteReceived. destruct (AckTracker.add _ _) as [r ooo]. cbv zeta.
  case_match; [|by apply moves_eq]. destruct (takeAckLocked _ _) as [a f].
  match goal with |- moves ?a (sendPacket _ _ _ _ ?b) => trans b; [by apply moves_eq|] end.
  apply same_moves, sendPacket_same.
Qed.
End Moves.

Lemma conn_step_moves e c c' : conn_step e c c' -> moves c c'.
Proof.
  destruct 1 as [| |c' Hown]; [| |destruct Hown].
  - by apply HandlePacket_moves, ok_src.
  - trans (set_stream id s' c); [|apply same_moves, exec_calls_same].
    apply moves_once; [done|]. eapply (t_change (table c)); [done | by eapply stream_op_stays].
  - unfold ackTimerFired. cbv zeta. case_match; [by apply moves_eq|]. destruct (takeAckLocked _ _) as [a f].
    match goal with |- moves ?a (sendPacket _ _ _ _ ?b) => trans b; [by apply moves_eq|] end.
    apply same_moves, sendPacket_same.
  - unfold lossTimerFired. apply same_moves, report_same.
  - apply same_moves, onPtoTimeout_same.
  - apply same_moves, flushLost_same.
  - unfold onIdleCheck, armIdleCheck. repeat case_match; [apply closeInternal_moves | done | by apply moves_eq].
  - unfold OpenStream. repeat case_match; try done. apply moves_once; [done|].
    pose proof (t_open (table c) 0 StreamStateIdle false) as T. rewrite app_nil_r in T. by apply T.
  - match goal with H : AcceptStream _ _ _ _ |- _ => destruct H end; try done.
    apply moves_once; [done|]. by eapply (t_accept (table c)).
  - unfold Ping. apply same_moves, sendFrames_same.
  - apply same_moves, sendFrames_same.
  - unfold CloseWithError. apply closeInternal_moves.
  - unfold observeAddr. repeat case_match; try done; by apply moves_eq.
  - unfold sendControlTo. apply same_moves, send_same.
  - unfold migrate_start. match goal with |- moves ?a (sendFrames _ _ ?b) => trans b; [by apply moves_eq|] end.
    apply same_moves, sendFrames_same.
  - unfold migrate_finish in *. repeat case_match; simplify_eq; by apply moves_eq.
  - by apply moves_eq.
  - unfold enqueue. case_match; by apply moves_eq.
  - by apply moves_eq.
  - by apply moves_eq.
Qed.

Lemma tsteps_keep t t' id : rtc tstep t t' -> is_Some (streams t !! id) -> is_Some (streams t' !! id).
Proof.
  induction 1 as [|t t1 t' Ht _ IH]; [done|]. intros Hid. apply IH. clear IH.
  destruct Ht; cbn [streams]; rewrite ?lookup_insert_is_Some', ?lookup_fmap, ?fmap_is_Some; auto.
Qed.

(** No operation takes a stream out of the table, finished or not: what counts
    against [maxStreams] is every stream the connection has ever had. *)
Theorem streams_never_leave (exact : bool) (c c' : Connection) (id : Z) :
  conn_step exact c c' -> is_Some (streams (table c) !! id) -> is_Some (streams (table c') !! id).
Proof. intros [_ Ht]%conn_step_moves. by apply tsteps_keep. Qed.

Lemma reach_table e c : conn_reach e c -> table_ok (isInitiator c) (table c).
Proof.
  induction 1 as [now local remote la ra i h _ _|c c' _ IH [E T]%conn_step_moves].
  - intros _. split; cbn; try done.
    + by destruct i.
    + intros id Hid. by apply not_elem_of_nil in Hid.
  - replace (isInitiator c') with (isInitiator c) by (by injection E).
    clear E. induction T as [|t1 t2 t3 Ht _ IHt]; [done|]. by apply IHt, (tstep_ok _ t1).
Qed.

(** ** The acknowledgement state *)

(** Nothing to acknowledge and no timer, or less than the threshold and a
    timer. *)
Definition ack_ok (a : Acks) : Prop :=
  ackPending a = 0 /\ ackTimer a = None \/
  0 < ackPending a < AckElicitingThreshold /\ is_Some (ackTimer a).

(** Unchanged, or cleared. *)
Definition acks_calm (c c' : Connection) : Prop :=
  acks c' = acks c \/ acks c' = MkAcks (recvd (acks c)) 0 None (largestArrival (acks c)).

#[export] Instance acks_calm_preorder : PreOrder acks_calm.
Proof.
  split; [by left|]. intros a b c [E1|E1] [E2|E2]; unfold acks_calm; rewrite E2, E1; cbn; auto.
Qed.

Lemma same_calm c c' : same c c' -> acks_calm c c'.
Proof. intros E. left. by apply same_acks. Qed.

Lemma on_stream_calm now id op c : acks_calm c (on_stream now id op c).
Proof.
  rewrite on_stream_eq. case_match; [|done]. trans (set_stream id (op s).1 c); [by left|].
  apply same_calm, exec_calls_same.
Qed.

Lemma closeInternal_calm now code reason announce c : acks_calm c (closeInternal now code reason announce c).
Proof.
  unfold closeInternal. destruct (closeOnce (life c)); [done|]. right.
  destruct announce; [|done]. exact (same_acks (sendFrames_same now _ (close_begin c))).
Qed.

Section AckSteps.
Context {o : RangeOrder}.

Lemma handleFrame_calm now pkt c f : acks_calm c (handleFrame now pkt c f).
Proof.
  assert (Hfound : forall op, acks_calm c (on_found now pkt op c)).
  { intros op. unfold on_found. case_match; [apply on_stream_calm | done]. }
  destruct f; cbn [handleFrame]; try apply Hfound; try (by left);
    try (apply same_calm, sendFrames_same).
  - apply same_calm, handleAckFrame_same.
  - unfold handleStreamFrame. assert (E : acks_calm c (stream_for pkt f c).1).
    { unfold stream_for, accept_incoming. repeat case_match; simplify_eq; by left. }
    destruct (stream_for pkt f c) as [c1 [id|]]; [|done]. cbn [fst] in E. etrans; [exact E|].
    repeat case_match; rewrite <- ?on_stream_calm; done.
  - case_match; by left.
  - unfold handlePathResponse, completeMigration. repeat case_match; simplify_eq; by left.
  - unfold CloseConn, CloseWithError. apply closeInternal_calm.
Qed.

Lemma frames_calm now pkt fs c : acks_calm c (fold_left (handleFrame now pkt) fs c).
Proof.
  revert c. induction fs as [|f fs IH]; intros c; cbn; [done|]. rewrite <- IH. apply handleFrame_calm.
Qed.
End AckSteps.

Lemma calm_ok c c' : acks_calm c c' -> ack_ok (acks c) -> ack_ok (acks c').
Proof. intros [-> | ->] H; [done | by left]. Qed.

Lemma ack_delay_bounds srtt : MinAckDelay <= ack_delay srtt <= MaxAckDelay.
Proof. unfold ack_delay, MinAckDelay, MaxAckDelay. cbv zeta. zcases; unfold Millisecond in *; lia. Qed.

(** A control packet takes no number, and goes out if the address is
    validated. *)
Lemma sendControl_wire now dst src f c : bears_data f = false -> sendFunc c = true ->
  addrValidated (path c) = true ->
  wire (sendPacket now dst src [f] c) = wire c ++ [(encoded c 0 dst src [f], peerAddr c)].
Proof.
  intros Hf Hs Hv. unfold sendPacket. cbn [existsb]. rewrite Hf. cbn [orb]. unfold amplifies. rewrite Hv. cbn [negb andb].
  unfold transmit. change (sendFunc (add_sent _ c)) with (sendFunc c). rewrite Hs. done.
Qed.

Lemma takeAck_eq now a : exists delay, is_u16 delay /\
  takeAckLocked now a = (MkAcks (recvd a) 0 None (largestArrival a), AckTracker.frame (recvd a) delay).
Proof.
  unfold takeAckLocked. cbv zeta. eexists. split; [|reflexivity].
  repeat case_match; first [apply u16_range | width].
Qed.

(** What [noteReceived] does, given the invariant. *)
Lemma noteReceived_spec now pkt c (r := AckTracker.add (recvd (acks c)) (Sequence pkt))
    (c' := noteReceived now pkt c) : ack_ok (acks c) ->
  recvd (acks c') = r.1 /\
  ((ackPending (acks c') = 0 /\ ackTimer (acks c') = None /\
    exists delay, is_u16 delay /\ (sendFunc c = true -> addrValidated (path c) = true -> wire c' = wire c ++
      [(encoded c 0 (SourceStreamID pkt) (DestinationStreamID pkt) [AckF (AckTracker.frame r.1 delay)], peerAddr c)])) \/
   (r.2 = false /\ existsb is_edge (Frames pkt) = false /\ ackPending (acks c) = 0 /\
    ackPending (acks c') = 1 /\ wire c' = wire c /\
    exists t, ackTimer (acks c') = Some (t, (SourceStreamID pkt, DestinationStreamID pkt)) /\
      now + MinAckDelay <= t <= now + MaxAckDelay)).
Proof.
  intros Hok. subst c'. unfold noteReceived. fold r. destruct r as [r ooo]. cbn [fst snd]. cbv zeta. cbn [ackPending ackTimer recvd].
  assert (Hp : 0 <= ackPending (acks c) < 2) by (unfold ack_ok, AckElicitingThreshold in Hok; destruct Hok as [[-> _]|[? _]]; lia).
  assert (En : ackPending (acks c) +i 1 = ackPending (acks c) + 1) by (apply i64_small; width).
  rewrite En. destruct (ooo || existsb is_edge (Frames pkt) || (AckElicitingThreshold <=? _)) eqn:Ec.
  - match goal with |- context [takeAckLocked now ?x] => set (a := x) end.
    destruct (takeAck_eq now a) as (d & Hd & Et). rewrite Et.
    set (c0 := set_acks _ c). rewrite (same_acks (sendPacket_same now _ _ _ c0)).
    split; [done|]. left. split_and!; [done..|]. exists d. split; [done|].
    intros. by rewrite sendControl_wire.
  - apply orb_false_iff in Ec as [[-> Hedge]%orb_false_iff Hlt]. apply Z.leb_gt in Hlt.
    split; [done|]. right. unfold AckElicitingThreshold in *.
    destruct Hok as [[Hz Ht]|[? _]]; [|lia]. rewrite Hz, Ht. split_and!; try done.
    eexists. split; [done|]. pose proof (ack_delay_bounds (SmoothedRtt (c_cc c))). lia.
Qed.

Lemma noteReceived_ok now pkt c : ack_ok (acks c) -> ack_ok (acks (noteReceived now pkt c)).
Proof.
  intros Hok. destruct (noteReceived_spec now pkt c Hok) as [_ [(? & ? & _)|(_ & _ & _ & E & _ & t & Et & _)]]; [by left|].
  right. unfold AckElicitingThreshold. rewrite E, Et. split; [lia | done].
Qed.

Lemma HandlePacket_acks (o : RangeOrder) now pkt c : ack_ok (acks c) -> ack_ok (acks (HandlePacket now pkt c)).
Proof.
  intros Hok. unfold HandlePacket. cbv zeta.
  assert (H : ack_ok (acks (fold_left (handleFrame now pkt) (Frames pkt) (note_arrival now pkt c)))).
  { apply (calm_ok (note_arrival now pkt c)); [apply frames_calm | done]. }
  case_match; [by apply noteReceived_ok | done].
Qed.

Lemma ackTimerFired_acks now src dst c : ack_ok (acks (ackTimerFired now src dst c)).
Proof.
  left. unfold ackTimerFired. cbv zeta. cbn [ackPending]. destruct (ackPending (acks c) =? 0) eqn:E; [apply Z.eqb_eq in E; done|].
  match goal with |- context [takeAckLocked now ?x] => destruct (takeAck_eq now x) as (d & _ & ->) end.
  match goal with |- context [sendPacket _ _ _ _ ?x] => by rewrite (same_acks (sendPacket_same now src dst _ x)) end.
Qed.

Lemma reach_acks e c : conn_reach e c -> ack_ok (acks c).
Proof.
  induction 1 as [|c c' _ IH Hstep]; [by left|]. destruct Hstep as [| |c' Hown]; [| |destruct Hown].
  - by apply HandlePacket_acks.
  - by rewrite (same_acks (exec_calls_same _ _ (set_stream id s' c))).
  - apply ackTimerFired_acks.
  - unfold lossTimerFired. by rewrite (same_acks (report_same _ _ c)).
  - by rewrite (same_acks (onPtoTimeout_same _ c)).
  - by rewrite (same_acks (flushLost_same _ c)).
  - revert IH. apply calm_ok. unfold onIdleCheck, armIdleCheck.
    repeat case_match; [apply closeInternal_calm | done | by left].
  - unfold OpenStream. by repeat case_match.
  - match goal with H : AcceptStream _ _ _ _ |- _ => by destruct H end.
  - unfold Ping. by rewrite (same_acks (sendFrames_same _ _ c)).
  - by rewrite (same_acks (sendFrames_same _ _ c)).
  - revert IH. apply calm_ok. unfold CloseWithError. apply closeInternal_calm.
  - unfold observeAddr. by repeat case_match.
  - unfold sendControlTo. by rewrite (same_acks (send_same _ _ _ c)).
  - unfold migrate_start. match goal with |- ack_ok (acks (sendFrames _ _ ?x)) => by rewrite (same_acks (sendFrames_same _ _ x)) end.
  - unfold migrate_finish in *. repeat case_match; by simplify_eq.
  - done.
  - unfold enqueue. by case_match.
  - done.
  - done.
Qed.

(** ** The address *)

Definition place (c : Connection) :=
  (remoteAddr (path c), pendingAddr (path c), pendingChallenge (path c), addrValidated (path c)).

Definition addresses (c : Connection) := (place c, pathChallengeResp (path c), migrations (path c)).

Lemma same_addresses c c' : same c c' -> addresses c' = addresses c.
Proof.
  intros E. pose proof (same_path E) as P. unfold addresses, place.
  pose proof (f_equal remoteAddr P) as E1. pose proof (f_equal pendingAddr P) as E2.
  pose proof (f_equal pendingChallenge P) as E3. pose proof (f_equal addrValidated P) as E4.
  pose proof (f_equal pathChallengeResp P) as E5. pose proof (f_equal migrations P) as E6.
  cbn in E1, E2, E3, E4, E5, E6. congruence.
Qed.

(** The addresses stay, or the pending one answered its challenge. *)
Definition answered (frames : list Frame) (c c' : Connection) : Prop :=
  place c' = place c \/
  exists a, pendingAddr (path c) = Some a /\ PathResponseFrame (pendingChallenge (path c)) ∈ frames /\
    remoteAddr (path c') = Some a /\ pendingAddr (path c') = None /\ addrValidated (path c') = true.

(** What is left for a waiting [InitiatePathMigration] is an answer received. *)
Record path_step (frames : list Frame) (c c' : Connection) : Prop := {
  ps_place : answered frames c c';
  ps_resp : pathChallengeResp (path c') = pathChallengeResp (path c) \/
    exists d, PathResponseFrame d ∈ frames /\ pathChallengeResp (path c') = Some d;
  ps_migrations : migrations (path c') = migrations (path c)
}.

Lemma addresses_step frames c c' : addresses c' = addresses c -> path_step frames c c'.
Proof. intros [= E1 E2 E3 E4 E5 E6]. split; [left; unfold place; congruence | by left | done]. Qed.

Lemma closeInternal_path now code reason announce c : addresses (closeInternal now code reason announce c) = addresses c.
Proof.
  unfold closeInternal. destruct (closeOnce (life c)); [done|]. destruct announce; [|done].
  exact (same_addresses _ _ (sendFrames_same now _ (close_begin c))).
Qed.

Lemma on_stream_path now id op c : addresses (on_stream now id op c) = addresses c.
Proof.
  rewrite on_stream_eq. case_match; [|done].
  exact (same_addresses _ _ (exec_calls_same now _ (set_stream id (op s).1 c))).
Qed.

Section PathSteps.
Context {o : RangeOrder}.

Lemma handleStreamFrame_path now pkt f c : addresses (handleStreamFrame now pkt f c) = addresses c.
Proof.
  unfold handleStreamFrame. assert (E : addresses (stream_for pkt f c).1 = addresses c).
  { unfold stream_for, accept_incoming. repeat case_match; by simplify_eq. }
  destruct (stream_for pkt f c) as [c1 [id|]]; [|done]. cbn [fst] in E.
  repeat case_match; rewrite ?on_stream_path; done.
Qed.

Lemma handleFrame_path now pkt c f : match f with
  | PathResponseFrame data => path_step [f] c (handleFrame now pkt c f)
  | _ => addresses (handleFrame now pkt c f) = addresses c end.
Proof.
  assert (Hfound : forall op, addresses (on_found now pkt op c) = addresses c).
  { intros op. unfold on_found. case_match; [apply on_stream_path | done]. }
  destruct f; cbn [handleFrame]; try apply Hfound; try done; try apply same_addresses, sendFrames_same.
  - apply same_addresses, handleAckFrame_same.
  - apply handleStreamFrame_path.
  - by case_match.
  - unfold handlePathResponse, completeMigration.
    destruct (pendingAddr (path c)) as [a|] eqn:Ea; [destruct (decide _) as [->|]|].
    + split; [|by left | done]. right. exists a. split_and!; try done. apply list_elem_of_here.
    + case_match; [by apply addresses_step|]. split; [by left | | done]. right. eexists. split; [left | done].
    + case_match; [by apply addresses_step|]. split; [by left | | done]. right. eexists. split; [left | done].
  - unfold CloseConn, CloseWithError. apply closeInternal_path.
Qed.

Lemma frames_path now pkt frames c : path_step frames c (fold_left (handleFrame now pkt) frames c).
Proof.
  induction frames as [|f frames IH] using rev_ind; [by apply addresses_step|]. rewrite fold_left_app. cbn [fold_left].
  set (c1 := fold_left (handleFrame now pkt) frames c) in *.
  assert (Hf : path_step [f] c1 (handleFrame now pkt c1 f)).
  { pose proof (handleFrame_path now pkt c1 f). destruct f; try (by apply addresses_step). done. }
  destruct IH as [IH IR IM], Hf as [Hf FR FM]. split; [| |congruence].
  2: { destruct FR as [->|(d & Hd & ->)]; [|right; exists d; split; [apply elem_of_app; by right | done]].
       destruct IR as [->|(d & Hd & ->)]; [by left | right; exists d; split; [apply elem_of_app; by left | done]]. }
  destruct IH as [E0|(a & H1 & H2 & H3 & H4 & H5)], Hf as [E|(b & F1 & F2 & F3 & F4 & F5)];
    unfold place in *; simplify_eq.
  - left. unfold place. congruence.
  - right. exists b. split_and!; try congruence. apply elem_of_app. right. congruence.
  - right. exists a. split_and!; try congruence. apply elem_of_app. by left.
Qed.
End PathSteps.

Lemma noteReceived_path now pkt c : addresses (noteReceived now pkt c) = addresses c.
Proof.
  unfold noteReceived. destruct (AckTracker.add _ _) as [r ooo]. cbv zeta. case_match; [|done].
  destruct (takeAckLocked _ _) as [a f]. exact (same_addresses _ _ (sendPacket_same now _ _ _ (set_acks a c))).
Qed.

Lemma HandlePacket_path (o : RangeOrder) now pkt c : path_step (Frames pkt) c (HandlePacket now pkt c).
Proof.
  unfold HandlePacket. cbv zeta.
  pose proof (frames_path now pkt (Frames pkt) (note_arrival now pkt c)) as H.
  set (c1 := fold_left _ _ _) in *. assert (H0 : path_step (Frames pkt) c c1) by (destruct H; by split).
  clear H. rename H0 into H. case_match; [|done].
  pose proof (noteReceived_path now pkt c1) as E.
  injection E as E1 E2 E3 E4 E5 E6. destruct H as [H HR HM]. split; [|by rewrite E5 | congruence].
  destruct H as [H|(a & H1 & H2 & H3 & H4 & H5)]; [left; rewrite <- H; unfold place; congruence|]. right. exists a.
  rewrite E1, E2, E4. done.
Qed.

Lemma ackTimerFired_path now src dst c : addresses (ackTimerFired now src dst c) = addresses c.
Proof.
  unfold ackTimerFired. cbv zeta. case_match; [done|]. destruct (takeAckLocked _ _) as [a f].
  exact (same_addresses _ _ (sendPacket_same now _ _ _ (set_acks a c))).
Qed.

Lemma addresses_peer c c' : addresses c' = addresses c -> peerAddr c' = peerAddr c.
Proof. by intros [= ? _ _ _ _ _]. Qed.

(** The address stays, and stays validated. *)
Definition settled (c c' : Connection) : Prop :=
  peerAddr c' = peerAddr c /\ (addrValidated (path c) = true -> addrValidated (path c') = true).

Lemma addresses_settled c c' : addresses c' = addresses c -> settled c c'.
Proof. intros [= E _ _ Ev _ _]. unfold settled. by rewrite Ev. Qed.

Lemma same_settled c c' : same c c' -> settled c c'.
Proof. intros H. by apply addresses_settled, same_addresses. Qed.

Lemma conn_step_peer e c c' : conn_step e c c' ->
  settled c c' \/
  (exists (o : RangeOrder) now pkt, c' = HandlePacket now pkt c /\ path_step (Frames pkt) c c') \/
  (exists a d, (d, a) ∈ migrations (path c) /\ migrate_finish a d c = Some (c', true)).
Proof.
  destruct 1 as [| |c' Hown]; [| |destruct Hown]; try (left; done).
  - right. left. exists o, now, pkt. split; [done | apply HandlePacket_path].
  - left. exact (same_settled _ _ (exec_calls_same now calls (set_stream id s' c))).
  - left. apply addresses_settled, ackTimerFired_path.
  - left. unfold lossTimerFired. apply same_settled, report_same.
  - left. apply same_settled, onPtoTimeout_same.
  - left. apply same_settled, flushLost_same.
  - left. unfold onIdleCheck, armIdleCheck. repeat case_match; [apply addresses_settled, closeInternal_path | done..].
  - left. unfold OpenStream. by repeat case_match.
  - left. match goal with H : AcceptStream _ _ _ _ |- _ => by destruct H end.
  - left. unfold Ping. apply same_settled, sendFrames_same.
  - left. apply same_settled, sendFrames_same.
  - left. unfold CloseWithError. apply addresses_settled, closeInternal_path.
  - left. unfold observeAddr. by repeat case_match.
  - left. unfold sendControlTo. apply same_settled, send_same.
  - left. unfold migrate_start. match goal with |- settled _ (sendFrames _ _ ?x) => exact (same_settled _ _ (sendFrames_same now _ x)) end.
  - unfold migrate_finish in *. destruct (pathChallengeResp (path c)) as [r|] eqn:E; [|done].
    destruct (decide (r = d)); simplify_eq; [|by left].
    right. right. exists a, d. by rewrite decide_True.
  - left. unfold enqueue. by case_match.
Qed.

(** Where challenges and answers come from. *)
Definition origin (c c' : Connection) : Prop :=
  (forall a, pendingAddr (path c') = Some a ->
     (pendingAddr (path c) = Some a /\ pendingChallenge (path c') = pendingChallenge (path c)) \/
     exists now d, c' = (observeAddr now (Some a) (Some d) c).1 /\ pendingChallenge (path c') = d) /\
  (forall d a, (d, a) ∈ migrations (path c') ->
     (d, a) ∈ migrations (path c) \/ exists now, c' = migrate_start now a d c) /\
  (forall d, pathChallengeResp (path c') = Some d ->
     pathChallengeResp (path c) = Some d \/
     exists (o : RangeOrder) now pkt, c' = HandlePacket now pkt c /\ PathResponseFrame d ∈ Frames pkt).

Lemma addresses_origin c c' : addresses c' = addresses c -> origin c c'.
Proof. intros [= E1 E2 E3 E4 E5 E6]. unfold origin. rewrite E2, E3, E5, E6. split_and!; auto. Qed.

Lemma same_origin c c' : same c c' -> origin c c'.
Proof. intros H. by apply addresses_origin, same_addresses. Qed.

Lemma leave_elem a d p m : m ∈ leave a d p -> m ∈ migrations p.
Proof.
  unfold leave. induction (migrations p) as [|x l IH]; cbn; [done|]. case_decide; [by right|].
  intros [->|?]%elem_of_cons; [left | right; auto].
Qed.

Lemma packet_origin (o : RangeOrder) now pkt c : origin c (HandlePacket now pkt c).
Proof.
  destruct (HandlePacket_path o now pkt c) as [HP HR HM]. unfold origin. rewrite HM. split_and!; [|auto|].
  - destruct HP as [[= _ E1 E2 _]|(b & _ & _ & _ & E & _)]; [rewrite E1, E2; auto | rewrite E; done].
  - destruct HR as [->|(d & Hd & ->)]; [auto|]. intros d' [= <-]. right. by exists o, now, pkt.
Qed.

Lemma observe_origin now a random c : origin c (observeAddr now a random c).1.
Proof.
  unfold observeAddr. destruct a as [a|]; [|by apply addresses_origin].
  destruct (decide _) eqn:E1; [by apply addresses_origin|]. destruct (bool_decide _ && _) eqn:E2; [by apply addresses_origin|].
  destruct random as [d|]; [|by apply addresses_origin]. split_and!; [|auto..]. intros b [= <-]. right. exists now, d.
  split; [|done]. unfold observeAddr. by rewrite E1, E2.
Qed.

Lemma migrate_origin now a d c : origin c (migrate_start now a d c).
Proof.
  set (c' := migrate_start now a d c). assert (E : exists c1, same c1 c' /\ place c1 = place c /\
    pathChallengeResp (path c1) = pathChallengeResp (path c) /\ migrations (path c1) = migrations (path c) ++ [(d, a)]).
  { unfold c', migrate_start. eexists. split; [apply sendFrames_same|]. done. }
  destruct E as (c1 & Es & [= _ E1 E2 _] & E3 & E4). apply same_addresses in Es. injection Es as _ S2 S3 _ S5 S6.
  unfold origin. rewrite S2, S3, S5, S6, E1, E2, E3, E4. split_and!; [auto | | auto].
  intros d' a' [?|[= -> ->]%list_elem_of_singleton]%elem_of_app; [auto | right; by exists now].
Qed.

Lemma conn_step_origin e c c' : conn_step e c c' -> origin c c'.
Proof.
  destruct 1 as [| |c' Hown]; [| |destruct Hown]; try (by apply addresses_origin).
  - apply packet_origin.
  - apply addresses_origin. exact (same_addresses _ _ (exec_calls_same now calls (set_stream id s' c))).
  - apply addresses_origin, ackTimerFired_path.
  - unfold lossTimerFired. apply same_origin, report_same.
  - apply same_origin, onPtoTimeout_same.
  - apply same_origin, flushLost_same.
  - unfold onIdleCheck, armIdleCheck. repeat case_match; [apply addresses_origin, closeInternal_path | by apply addresses_origin..].
  - apply addresses_origin. unfold OpenStream. by repeat case_match.
  - apply addresses_origin. match goal with H : AcceptStream _ _ _ _ |- _ => by destruct H end.
  - unfold Ping. apply same_origin, sendFrames_same.
  - apply same_origin, sendFrames_same.
  - unfold CloseWithError. apply addresses_origin, closeInternal_path.
  - apply observe_origin.
  - unfold sendControlTo. apply same_origin, send_same.
  - apply migrate_origin.
  - unfold migrate_finish in *. repeat case_match; simplify_eq; (split_and!; [auto | intros ? ? ?%leave_elem; auto | done]).
  - split_and!; [auto | intros ? ? ?%leave_elem; auto | auto].
  - apply addresses_origin. unfold enqueue. by case_match.
  - split_and!; auto.
Qed.

(** Nothing revokes what makes a connection ready to send. *)
Definition ready (c : Connection) : Prop := sendFunc c = true /\ addrValidated (path c) = true.

Lemma conn_step_ready e c c' : conn_step e c c' -> ready c -> ready c'.
Proof.
  intros Hs [H1 H2]. split.
  - destruct (conn_step_moves _ _ _ Hs) as [E _]. injection E. congruence.
  - destruct (conn_step_peer _ _ _ Hs) as [[_ H]|[(o & now & pkt & -> & [[H|(a & _ & _ & _ & _ & H)] _ _])|(a & d & _ & H)]]; auto.
    + injection H. congruence.
    + unfold migrate_finish in H. repeat case_match; simplify_eq. done.
Qed.

(** ** Demultiplexing *)

(** The stream a packet is for: the one with the destination's ID, and if
    there is none, one the peer calls by the source's. *)
Definition addressee (pkt : Packet) (t : StreamTable) (id : Z) : Prop :=
  (id = DestinationStreamID pkt /\ is_Some (streams t !! id)) \/
  (streams t !! DestinationStreamID pkt = None /\ SourceStreamID pkt <> 0 /\
   exists s, streams t !! id = Some s /\ RemoteID s = SourceStreamID pkt).

(** What a STREAM frame does to its stream. *)
Definition deliver (f : StreamFrame) (s : Stream) : Stream :=
  let s := if (0 <? length (Data f))%nat then (DeliverData s (Offset f) (Data f)).1 else s in
  if IsFin f then DeliverFin s (end_of f) else s.

Section Demux.
Context {o : RangeOrder}.

Lemma by_remote_some rid t id : by_remote rid t = Some id -> exists s, streams t !! id = Some s /\ RemoteID s = rid.
Proof.
  unfold by_remote. destruct (list_find _ _) as [[i [k s]]|] eqn:E; [|done]. intros [= <-].
  apply list_find_Some in E as (Hi & Hr & _). exists s. split; [|done].
  apply elem_of_map_to_list. rewrite <- range_streams_perm. by apply list_elem_of_lookup_2 in Hi.
Qed.

Lemma findStream_some pkt c id : findStream (DestinationStreamID pkt) (SourceStreamID pkt) c = Some id ->
  addressee pkt (table c) id.
Proof.
  unfold findStream. destruct (streams (table c) !! _) as [s|] eqn:E; [intros [= <-]; left; by rewrite E|].
  destruct (negb _) eqn:Ez; [|done]. apply negb_true_iff, Z.eqb_neq in Ez.
  intros Hb. right. split_and!; [done | done | by apply by_remote_some].
Qed.

Lemma findStream_none pkt c : findStream (DestinationStreamID pkt) (SourceStreamID pkt) c = None ->
  forall id, ~ addressee pkt (table c) id.
Proof.
  unfold findStream. destruct (streams (table c) !! _) as [s|] eqn:E; [done|]. intros Hf id [[-> [s Hs]]|(_ & Hz & s & Hs & Hr)].
  - congruence.
  - apply Z.eqb_neq in Hz. rewrite Hz in Hf. cbn in Hf. by eapply by_remote_none.
Qed.

Lemma addressee_unique i pkt t j k : streams_ok i t -> addressee pkt t j -> addressee pkt t k -> j = k.
Proof.
  intros Hok [[-> [s Hs]]|(Hn & Hz & s & Hs & Hr)] [[-> [s' Hs']]|(Hn' & _ & s' & Hs' & Hr')]; try congruence.
  apply (t_remote i t Hok j k s s'); congruence.
Qed.

Lemma deliver_table now id f c s : streams (table c) !! id = Some s ->
  let c1 := if (0 <? length (Data f))%nat
            then on_stream now id (fun s => DeliverData s (Offset f) (Data f)) c else c in
  let c2 := if IsFin f then on_stream now id (fun s => (DeliverFin s (end_of f), [])) c1 else c1 in
  streams (table c2) = <[id := deliver f s]> (streams (table c)) /\
  nextStreamID (table c2) = nextStreamID (table c) /\ incomingStreams (table c2) = incomingStreams (table c) /\
  maxStreams (table c2) = maxStreams (table c).
Proof.
  intros Hs. cbv zeta. unfold deliver.
  assert (Hon : forall op c s, streams (table c) !! id = Some s -> table (on_stream now id op c) =
    MkStreams (<[id := (op s).1]> (streams (table c))) (nextStreamID (table c)) (maxStreams (table c))
      (incomingStreams (table c))).
  { clear. intros op c s Hs. rewrite on_stream_eq, Hs. by rewrite (same_table (exec_calls_same now _ _)). }
  destruct (0 <? length (Data f))%nat, (IsFin f).
  - pose proof (Hon (fun s => DeliverData s (Offset f) (Data f)) c s Hs) as E1.
    erewrite Hon; [|rewrite E1; apply lookup_insert_eq]. rewrite E1. cbn. by rewrite insert_insert_eq.
  - by rewrite (Hon _ c s Hs).
  - by rewrite (Hon _ c s Hs).
  - by rewrite insert_id.
Qed.

(** A STREAM frame with an addressee ... *)
Lemma stream_frame_found i now pkt f c id s : streams_ok i (table c) -> addressee pkt (table c) id ->
  streams (table c) !! id = Some s -> let t' := table (handleStreamFrame now pkt f c) in
  streams t' = <[id := deliver f s]> (streams (table c)) /\ incomingStreams t' = incomingStreams (table c).
Proof.
  intros Hok Ha Hs. cbv zeta. unfold handleStreamFrame, stream_for. fold (end_of f).
  destruct (findStream _ _ c) as [j|] eqn:Ef; [|by destruct (findStream_none _ _ Ef id)].
  rewrite <- (addressee_unique _ _ _ _ _ Hok Ha (findStream_some _ _ _ Ef)).
  destruct (deliver_table now id f c s Hs) as (E1 & _ & E3 & _). cbv zeta in E1, E3. by rewrite E1, E3.
Qed.

(** ... without one, and with something to open a stream for ... *)
Lemma stream_frame_opens i now pkt f c (id := nextStreamID (table c)) : streams_ok i (table c) ->
  (forall id, ~ addressee pkt (table c) id) -> SourceStreamID pkt <> 0 -> (IsSyn f = true \/ Data f <> []) ->
  let t' := table (handleStreamFrame now pkt f c) in
  streams (table c) !! id = None /\
  streams t' = <[id := deliver f (attached id (SourceStreamID pkt) StreamStateOpen)]> (streams (table c)) /\
  incomingStreams t' = if (length (incomingStreams (table c)) <? incomingCap)%nat
                       then incomingStreams (table c) ++ [id] else incomingStreams (table c).
Proof.
  intros Hok Hn Hz Hd. cbv zeta. unfold handleStreamFrame, stream_for. fold (end_of f).
  destruct (findStream _ _ c) as [j|] eqn:Ef; [by destruct (Hn j (findStream_some _ _ _ Ef))|].
  assert (Hdo : negb (SourceStreamID pkt =? 0) && (IsSyn f || (0 <? length (Data f))%nat) = true).
  { apply andb_true_iff. split; [by apply negb_true_iff, Z.eqb_neq|]. apply orb_true_iff.
    destruct Hd as [?|Hd]; [by left|]. right. destruct (Data f); [done|]. by apply Nat.ltb_lt; cbn; lia. }
  rewrite Hdo. cbn [accept_incoming]. fold id.
  assert (Hf : streams (table c) !! id = None).
  { destruct (streams (table c) !! id) eqn:E; [|done]. apply (t_ids _ _ Hok) in E. unfold id in E. lia. }
  match goal with |- context [set_table ?t c] => set (c1 := set_table t c) end.
  destruct (deliver_table now id f c1 (attached id (SourceStreamID pkt) StreamStateOpen)) as (E1 & _ & E3 & _).
  { apply lookup_insert_eq. }
  cbv zeta in E1, E3. split; [done|]. rewrite E1, E3. cbn. by rewrite insert_insert_eq.
Qed.

(** ... and with nothing. *)
Lemma stream_frame_ignored now pkt f c : (forall id, ~ addressee pkt (table c) id) ->
  IsSyn f = false -> Data f = [] -> handleStreamFrame now pkt f c = c.
Proof.
  intros Hn Hsyn Hd. unfold handleStreamFrame, stream_for.
  destruct (findStream _ _ c) as [j|] eqn:Ef; [by destruct (Hn j (findStream_some _ _ _ Ef))|].
  rewrite Hsyn, Hd. cbn. by rewrite andb_false_r.
Qed.
End Demux.

(** ** Properties *)

(** C21. The stream table is well formed in every run, up to 2^30 streams: every
    stream is filed under its own ID, the IDs have the parity of the
    connection's role and lie below the next one to be given out (so that no
    opening replaces a stream), no two streams share a peer ID, and what
    [AcceptStream] hands out exists. *)
Theorem stream_table_ok (exact : bool) (c : Connection) : conn_reach exact c ->
  Z.of_nat (StreamCount c) < 2 ^ 30 -> streams_ok (isInitiator c) (table c).
Proof. intros Hr Hs. by apply (reach_table exact). Qed.

(** C14. Frames reach the stream they are for. In every run a STREAM frame is
    delivered to the one stream its packet addresses and changes no other,
    although the code finds streams by walking a map in an order Go leaves
    open; with no such stream, data or a SYN from a stream ID other than 0 opens
    exactly one, under the next ID and the peer's, which [AcceptStream] will return unless sixteen are
    waiting; a bare FIN opens none. *)
Theorem stream_frame_reaches_addressee (o : RangeOrder) (exact : bool) (c : Connection) (now : Z)
    (pkt : Packet) (f : StreamFrame) :
  conn_reach exact c -> Z.of_nat (StreamCount c) < 2 ^ 30 ->
  let t := table c in let t' := table (handleStreamFrame now pkt f c) in
  (forall id s, addressee pkt t id -> streams t !! id = Some s ->
     streams t' = <[id := deliver f s]> (streams t) /\ incomingStreams t' = incomingStreams t) /\
  ((forall id, ~ addressee pkt t id) -> SourceStreamID pkt <> 0 ->
     (IsSyn f = true \/ Data f <> []) ->
     let id := nextStreamID t in
     streams t !! id = None /\
     streams t' = <[id := deliver f (attached id (SourceStreamID pkt) StreamStateOpen)]> (streams t) /\
     incomingStreams t' = if (length (incomingStreams t) <? incomingCap)%nat
                          then incomingStreams t ++ [id] else incomingStreams t) /\
  ((forall id, ~ addressee pkt t id) -> IsSyn f = false -> Data f = [] -> t' = t).
Proof.
  intros Hr Hs. pose proof (reach_table _ _ Hr Hs) as Hok. cbv zeta. split_and!.
  - intros id s. by apply (stream_frame_found (isInitiator c)).
  - by apply (stream_frame_opens (isInitiator c)).
  - intros Hn Hsyn Hd. by rewrite stream_frame_ignored.
Qed.

(** C24. Only an answered challenge moves a connection. Whatever a connection
    does, the address it sends to changes only when a packet answers the
    challenge made for the pending address, and then to that address, or when a
    call of [InitiatePathMigration] takes, off the channel, the answer to the
    challenge it drew itself, and then to the address it was called with. Each
    of these has the origin it should have: an address becomes pending only
    when [observeAddr] sees it and draws a challenge for it, a call waits only
    after it has drawn its challenge and sent it, and what is on the channel is
    the answer of a packet. *)
Theorem address_moves_on_answer (exact : bool) (c c' : Connection) : conn_step exact c c' ->
  (peerAddr c' <> peerAddr c ->
   (exists a (o : RangeOrder) now pkt, c' = HandlePacket now pkt c /\ pendingAddr (path c) = Some a /\
      PathResponseFrame (pendingChallenge (path c)) ∈ Frames pkt /\
      peerAddr c' = Some a /\ pendingAddr (path c') = None) \/
   (exists a d, (d, a) ∈ migrations (path c) /\ pathChallengeResp (path c) = Some d /\
      peerAddr c' = Some a /\ pathChallengeResp (path c') = None)) /\
  (forall a, pendingAddr (path c') = Some a ->
     (pendingAddr (path c) = Some a /\ pendingChallenge (path c') = pendingChallenge (path c)) \/
     exists now d, c' = (observeAddr now (Some a) (Some d) c).1 /\ pendingChallenge (path c') = d) /\
  (forall d a, (d, a) ∈ migrations (path c') ->
     (d, a) ∈ migrations (path c) \/ exists now, c' = migrate_start now a d c) /\
  (forall d, pathChallengeResp (path c') = Some d ->
     pathChallengeResp (path c) = Some d \/
     exists (o : RangeOrder) now pkt, c' = HandlePacket now pkt c /\ PathResponseFrame d ∈ Frames pkt).
Proof.
  intros Hs. destruct (conn_step_origin exact c c' Hs) as (H1 & H2 & H3). split_and!; try done. intros Hne.
  destruct (conn_step_peer exact c c' Hs) as [[? _]|[(o & now & pkt & E & H)|(a & d & Hin & H)]]; [done| |].
  - left. destruct H as [[H|(a & A1 & A2 & A3 & A4 & _)] _ _]; [by injection H|]. by exists a, o, now, pkt.
  - right. exists a, d. unfold migrate_finish in H. repeat case_match; by simplify_eq.
Qed.

(** A packet that elicits an acknowledgement gets it, at once or within the
    delay. *)
Lemma packet_acked (o : RangeOrder) c now pkt : ack_ok (acks c) -> Packet_ok pkt -> sendFunc c = true ->
  addrValidated (path c) = true -> isDataBearing pkt || isNumberedProbe pkt = true ->
  let c1 := fold_left (handleFrame now pkt) (Frames pkt) (note_arrival now pkt c) in
  let c' := HandlePacket now pkt c in
  let r := AckTracker.add (recvd (acks c)) (Sequence pkt) in
  recvd (acks c') = r.1 /\
  ((ackTimer (acks c') = None /\ exists delay, is_u16 delay /\
      wire c' = wire c1 ++ [(encoded c 0 (SourceStreamID pkt) (DestinationStreamID pkt)
        [AckF (AckTracker.frame r.1 delay)], peerAddr c1)]) \/
   (r.2 = false /\ existsb is_edge (Frames pkt) = false /\ ackPending (acks c1) = 0 /\ exists t,
      ackTimer (acks c') = Some (t, (SourceStreamID pkt, DestinationStreamID pkt)) /\
      now + MinAckDelay <= t <= now + MaxAckDelay)).
Proof.
  intros Hok Hpkt Hs Hv He. cbv zeta.
  pose proof (frames_calm now pkt (Frames pkt) (note_arrival now pkt c)) as Hc.
  pose proof (frames_moves now pkt (Frames pkt) (note_arrival now pkt c) (ok_src _ Hpkt)) as [Hi _].
  pose proof (frames_path now pkt (Frames pkt) (note_arrival now pkt c)) as Hp.
  unfold HandlePacket. cbv zeta. set (c1 := fold_left _ _ _) in *. rewrite He.
  assert (Hv1 : addrValidated (path c1) = true).
  { destruct Hp as [[E|(a & _ & _ & _ & _ & E)] _ _]; [|done]. injection E as _ _ _ ->. done. }
  assert (Er : recvd (acks c1) = recvd (acks c)) by (by destruct Hc as [-> | ->]).
  injection Hi as Hi1 Hi2 _ Hi4. rewrite <- Er.
  destruct (noteReceived_spec now pkt c1) as [R1 [(R2 & R3 & d & Hd & R4)|(R2 & R3 & R4 & R5 & R6 & R7)]].
  { by apply (calm_ok (note_arrival now pkt c)). }
  - split; [done|]. left. split; [done|]. exists d. split; [done|].
    rewrite R4 by congruence. unfold encoded, outgoing. by rewrite Hi1, Hi2.
  - split; [done|]. by right.
Qed.

(** C23. When a packet is acknowledged. In every run, for a packet that carries
    stream data, a SYN, a FIN or a numbered probe: its number is recorded, and
    either an ACK of everything recorded goes out at once, or (only for a
    packet in order, with no SYN, FIN or probe, and nothing else pending) one is
    due within [MinAckDelay, MaxAckDelay]. Any other packet, an ACK above all,
    neither elicits an acknowledgement nor delays one. And at all times the
    timer is armed exactly while something is pending, fewer packets than the
    threshold. *)
Theorem ack_policy (o : RangeOrder) (exact : bool) (c : Connection) (now : Z) (pkt : Packet) :
  conn_reach exact c -> Packet_ok pkt -> sendFunc c = true -> addrValidated (path c) = true ->
  let c1 := fold_left (handleFrame now pkt) (Frames pkt) (note_arrival now pkt c) in
  let c' := HandlePacket now pkt c in
  let r := AckTracker.add (recvd (acks c)) (Sequence pkt) in
  ack_ok (acks c') /\
  (isDataBearing pkt || isNumberedProbe pkt = true ->
   recvd (acks c') = r.1 /\
   ((ackTimer (acks c') = None /\ exists delay, is_u16 delay /\
       wire c' = wire c1 ++ [(encoded c 0 (SourceStreamID pkt) (DestinationStreamID pkt)
         [AckF (AckTracker.frame r.1 delay)], peerAddr c1)]) \/
    (r.2 = false /\ existsb is_edge (Frames pkt) = false /\ ackPending (acks c1) = 0 /\ exists t,
       ackTimer (acks c') = Some (t, (SourceStreamID pkt, DestinationStreamID pkt)) /\
       now + MinAckDelay <= t <= now + MaxAckDelay))) /\
  (isDataBearing pkt || isNumberedProbe pkt = false -> wire c' = wire c1 /\ acks_calm c c').
Proof.
  intros Hr Hpkt Hs Hv. cbv zeta. pose proof (reach_acks _ _ Hr) as Hok.
  split; [by apply HandlePacket_acks|]. split; [by apply packet_acked|].
  intros He. unfold HandlePacket. cbv zeta. rewrite He. split; [done | apply (frames_calm now pkt _ (note_arrival now pkt c))].
Qed.

(** C27. A close is complete and happens once: the first call closes the
    connection, resets every stream with its code (so that their readers and
    writers return), sends exactly one CONNECTION_CLOSE if it announces, stops
    every timer, empties the resend queue and the packet manager, and reports to the
    multiplexer; every later call does nothing; no stream can be opened and no
    writer gets credit. *)
Theorem close_tears_down (now code : Z) (reason : list byte) (announce : bool) (c : Connection) :
  closeOnce (life c) = false ->
  let c' := closeInternal now code reason announce c in
  ConnState c' = ConnStateClosed /\ closeCh (life c') = true /\
  closeReported (life c') = closeReported (life c) || onClose c /\
  (forall id, streams (table c') !! id = (fun s => DeliverReset s code) <$> streams (table c) !! id) /\
  (idleTimer (life c'), ackTimer (acks c'), lossTimer (c_pm c'), ptoTimer (c_cc c'), lostTimer (loss c'))
    = (None, None, None, None, None) /\
  lostQueue (loss c') = [] /\ PendingCount (c_pm c') = O /\ ackPending (acks c') = 0 /\
  (announce = false -> wire c' = wire c) /\
  (announce = true -> sendFunc c = true -> addrValidated (path c) = true -> wire c' =
     wire c ++ [(encoded c 0 0 0 [ConnectionCloseFrame code 0 reason], peerAddr c)]) /\
  (forall now code reason announce, closeInternal now code reason announce c' = c') /\
  OpenStream c' = (c', inr ErrConnectionClosed) /\
  forall now size deadline, awaitSendCredit now size deadline c' = CreditNo.
Proof.
  intros Ho. cbv zeta. set (c' := closeInternal now code reason announce c).
  pose (c1 := if announce then sendFrames now [ConnectionCloseFrame code 0 reason] (close_begin c) else close_begin c).
  assert (Ec : c' = close_end code c1) by (unfold c', closeInternal; by rewrite Ho). clearbody c'. subst c'.
  assert (E : same (close_begin c) c1) by (unfold c1; destruct announce; [apply sendFrames_same | done]).
  pose proof (same_life E) as El. pose proof (same_acks E) as Ea. pose proof (same_table E) as Et.
  assert (Eo : onClose c1 = onClose c) by (by injection E).
  assert (Hn : announce = false -> wire c1 = wire c) by (intros ->; done).
  assert (Hw : announce = true -> sendFunc c = true -> addrValidated (path c) = true -> wire c1 =
    wire c ++ [(encoded c 0 0 0 [ConnectionCloseFrame code 0 reason], peerAddr c)]).
  { intros -> Hs Hv. exact (sendControl_wire now 0 0 (ConnectionCloseFrame code 0 reason) (close_begin c) eq_refl Hs Hv). }
  clearbody c1. split_and!; try done.
  - cbn [close_end life closeReported]. by rewrite El, Eo.
  - intros id. cbn [close_end table streams]. rewrite lookup_fmap. by rewrite Et.
  - cbn [close_end life idleTimer acks]. by rewrite El, Ea.
  - cbn [close_end acks]. by rewrite Ea.
Qed.

(** ** Witnesses *)

Lemma stream_table_ok_witness : streams_ok true (table (run_write 3000)).
Proof. apply (stream_table_ok true (run_write 3000)); [apply run_write_reach | by vm_compute]. Defined.

(** A packet of the peer with one frame, from its stream 4. *)
Definition peer_packet (f : Frame) : Packet :=
  MkPacket VersionCurrent (sample_cid x01) (sample_cid x02) 7 0 4 [f] 0 false 60.

Lemma peer_packet_ok f : Frame_ok f -> Packet_ok (peer_packet f).
Proof. intros Hf. split; try done; try apply sample_cid_ok; repeat constructor. done. Qed.

Definition peer_frame : StreamFrame := MkStreamFrame false true 0 [x61; x62].

Lemma stream_frame_reaches_addressee_witness :
  streams (table (handleStreamFrame (H := key_order) (ms 60) (peer_packet (StreamF peer_frame)) peer_frame (run_write 3000)))
    !! 3 = Some (deliver peer_frame (attached 3 4 StreamStateOpen)).
Proof.
  destruct (stream_frame_reaches_addressee key_order true (run_write 3000) (ms 60)
    (peer_packet (StreamF peer_frame)) peer_frame (run_write_reach true 3000)) as (_ & H & _); [by vm_compute|].
  destruct H as (_ & E & _).
  - intros id [[-> [s Hs]]|(_ & _ & s & Hs & Hr)]; [by vm_compute in Hs|].
    assert (Hm : map_Forall (fun _ s => RemoteID s <> 4) (streams (table (run_write 3000))))
      by (apply (bool_decide_unpack _); by vm_compute).
    by apply (Hm _ _ Hs).
  - done.
  - by left.
  - rewrite E. by vm_compute.
Defined.

Definition run_observed : Connection :=
  (observeAddr (ms 60) (Some "moved"%string) (Some (replicate 8 x05)) (run_write 3000)).1.
Definition run_moved : Connection :=
  HandlePacket (H := key_order) (ms 61) (peer_packet (PathResponseFrame (replicate 8 x05))) run_observed.

Lemma address_moves_on_answer_witness : pendingAddr (path run_observed) = Some "moved"%string /\
  peerAddr run_moved = Some "moved"%string /\
  ((exists a (o : RangeOrder) now pkt, run_moved = HandlePacket now pkt run_observed /\
     pendingAddr (path run_observed) = Some a /\
     PathResponseFrame (pendingChallenge (path run_observed)) ∈ Frames pkt /\
     peerAddr run_moved = Some a /\ pendingAddr (path run_moved) = None) \/
   (exists a d, (d, a) ∈ migrations (path run_observed) /\ pathChallengeResp (path run_observed) = Some d /\
      peerAddr run_moved = Some a /\ pathChallengeResp (path run_moved) = None)).
Proof.
  split; [by vm_compute|]. split; [by vm_compute|]. apply (address_moves_on_answer true run_observed run_moved).
  - apply (step_packet true _ key_order); [by vm_compute | by apply peer_packet_ok].
  - by vm_compute.
Defined.

(** [InitiatePathMigration] moves too, once its challenge is answered, and not on
    another answer. *)
Definition run_migrating : Connection := migrate_start (ms 60) "new"%string (replicate 8 x07) (run_write 3000).
Definition run_answered (d : list byte) : Connection :=
  HandlePacket (H := key_order) (ms 61) (peer_packet (PathResponseFrame d)) run_migrating.

Lemma migration_completes :
  (fun r => (peerAddr r.1, r.2)) <$> migrate_finish "new"%string (replicate 8 x07) (run_answered (replicate 8 x07))
    = Some (Some "new"%string, true) /\
  (fun r => (peerAddr r.1, r.2)) <$> migrate_finish "new"%string (replicate 8 x07) (run_answered (replicate 8 x08))
    = Some (Some "peer"%string, false).
Proof. split; by vm_compute. Qed.

Lemma ack_policy_witness :
  recvd (acks (HandlePacket (H := key_order) (ms 60) (peer_packet (StreamF peer_frame)) (run_write 3000)))
    = (AckTracker.add (recvd (acks (run_write 3000))) 7).1.
Proof.
  apply (ack_policy key_order true (run_write 3000) (ms 60) (peer_packet (StreamF peer_frame)));
    [apply run_write_reach | by apply peer_packet_ok | by vm_compute..].
Defined.

Lemma close_tears_down_witness :
  ConnState (closeInternal (ms 60) 3 [] true (run_write 3000)) = ConnStateClosed.
Proof. apply (close_tears_down (ms 60) 3 [] true (run_write 3000)). by vm_compute. Defined.
