(* ===== verification/Lifecycle.v ===== *)
(** * The idle watchdog of a connection (src/connection.go)

    An open connection is watched in every run: whatever it does leaves the
    watchdog armed or closes the connection, and the watchdog closes it
    exactly when nothing has been received for the idle timeout. *)

From stdpp Require Import strings.
From S2P Require Import Prelude Constants Cid Frame Packet AckTracker FlowControl Mtud.
From S2P Require Import PacketManager AckExchange Stream Pacing Congestion Connection Recovery ConnReach.
From S2P Require Import Dispatch.

(** The life cycle stays as it is, or the connection has been closed; the time
    of the last packet stays. *)
Definition lives (c c' : Connection) : Prop :=
  lastActivity (life c') = lastActivity (life c) /\ (life c' = life c \/ closeCh (life c') = true).

#[export] Instance lives_preorder : PreOrder lives.
Proof.
  split; [by split; [|left]|]. intros a b c [A1 H1] [A2 H2]. split; [congruence|].
  destruct H2 as [E2|H2]; [|by right]. rewrite E2. destruct H1 as [E1|H1]; [left; congruence | by right].
Qed.

Lemma lives_eq c c' : life c' = life c -> lives c c'.
Proof. intros E. split; [by rewrite E | by left]. Qed.

Lemma same_lives c c' : same c c' -> lives c c'.
Proof. intros E. apply lives_eq, (same_life E). Qed.

Lemma closeInternal_lives now code reason announce c : lives c (closeInternal now code reason announce c).
Proof.
  unfold closeInternal. destruct (closeOnce (life c)); [done|]. split; [|by right]. destruct announce; [|done].
  cbn [close_end life lastActivity]. by rewrite (same_life (sendFrames_same now _ (close_begin c))).
Qed.

Lemma on_stream_lives now id op c : lives c (on_stream now id op c).
Proof.
  rewrite on_stream_eq. case_match; [|done].
  exact (same_lives _ _ (exec_calls_same now _ (set_stream id (op s).1 c))).
Qed.

Section Packets.
Context {o : RangeOrder}.

Lemma handleStreamFrame_lives now pkt f c : lives c (handleStreamFrame now pkt f c).
Proof.
  unfold handleStreamFrame. assert (E : life (stream_for pkt f c).1 = life c).
  { unfold stream_for, accept_incoming. repeat case_match; by simplify_eq. }
  destruct (stream_for pkt f c) as [c1 [id|]]; cbn [fst] in E; [|by apply lives_eq].
  transitivity c1; [by apply lives_eq|].
  repeat case_match; try apply on_stream_lives; [|done]. etransitivity; apply on_stream_lives.
Qed.

Lemma handleFrame_lives now pkt c f : lives c (handleFrame now pkt c f).
Proof.
  assert (Hfound : forall op, lives c (on_found now pkt op c)).
  { intros op. unfold on_found. case_match; [apply on_stream_lives | done]. }
  destruct f; cbn [handleFrame]; try apply Hfound; try (by apply lives_eq); try apply same_lives, sendFrames_same.
  - apply same_lives, handleAckFrame_same.
  - apply handleStreamFrame_lives.
  - case_match; by apply lives_eq.
  - apply lives_eq. unfold handlePathResponse, completeMigration. repeat case_match; by simplify_eq.
  - unfold CloseConn, CloseWithError. apply closeInternal_lives.
Qed.

Lemma noteReceived_life now pkt c : life (noteReceived now pkt c) = life c.
Proof.
  unfold noteReceived. destruct (AckTracker.add _ _) as [r ooo]. cbv zeta. case_match; [|done].
  destruct (takeAckLocked _ _) as [a f]. exact (same_life (sendPacket_same now _ _ _ (set_acks a c))).
Qed.

Lemma HandlePacket_lives now pkt c : lives (note_arrival now pkt c) (HandlePacket now pkt c).
Proof.
  unfold HandlePacket. cbv zeta.
  transitivity (fold_left (handleFrame now pkt) (Frames pkt) (note_arrival now pkt c)).
  - generalize (note_arrival now pkt c). induction (Frames pkt) as [|f fs IH]; intros c0; [done|].
    cbn [fold_left]. etransitivity; [apply handleFrame_lives | apply IH].
  - case_match; [apply lives_eq, noteReceived_life | done].
Qed.
End Packets.

(** An open connection has not begun to close and its watchdog is armed. *)
Definition watched (c : Connection) : Prop := closeCh (life c) = false ->
  is_Some (idleTimer (life c)) /\ closeOnce (life c) = false /\
  connState (life c) <> ConnStateClosing /\ connState (life c) <> ConnStateClosed.

Lemma lives_watched c c' : lives c c' -> watched c -> watched c'.
Proof.
  intros [_ [E|H]] Hw Ho; [|congruence]. rewrite E in *. auto.
Qed.

Lemma conn_step_lives e c c' : conn_step e c c' ->
  lives c c' \/ (exists now pkt, lives (note_arrival now pkt c) c') \/
  (exists now, c' = armIdleCheck now c) \/ c' = establish c.
Proof.
  destruct 1 as [| |c' Hown]; [| |destruct Hown]; eauto 6 using HandlePacket_lives; try (by left; apply lives_eq);
    try (unfold onIdleCheck; case_match; [left; apply closeInternal_lives | eauto]); left.
  - exact (same_lives _ _ (exec_calls_same now calls (set_stream id s' c))).
  - apply lives_eq. unfold ackTimerFired. cbv zeta. case_match; [done|]. destruct (takeAckLocked _ _) as [a f].
    exact (same_life (sendPacket_same now _ _ _ (set_acks a c))).
  - unfold lossTimerFired. apply same_lives, report_same.
  - apply same_lives, onPtoTimeout_same.
  - apply same_lives, flushLost_same.
  - apply lives_eq. unfold OpenStream. by repeat case_match.
  - apply lives_eq. match goal with H : AcceptStream _ _ _ _ |- _ => by destruct H end.
  - unfold Ping. apply same_lives, sendFrames_same.
  - apply same_lives, sendFrames_same.
  - unfold CloseWithError. apply closeInternal_lives.
  - apply lives_eq. unfold observeAddr. by repeat case_match.
  - unfold sendControlTo. apply same_lives, send_same.
  - unfold migrate_start. match goal with |- lives _ (sendFrames _ _ ?x) => exact (same_lives _ _ (sendFrames_same now _ x)) end.
  - apply lives_eq. unfold migrate_finish in *. repeat case_match; by simplify_eq.
  - apply lives_eq. unfold enqueue. by case_match.
Qed.

Lemma conn_step_watched e c c' : conn_step e c c' -> watched c -> watched c'.
Proof.
  intros [H|[(now & pkt & H)|[[now ->]| ->]]]%conn_step_lives Hw; [by eapply lives_watched..| |].
  - unfold armIdleCheck. destruct (closeCh (life c)) eqn:E; [done|]. intros _.
    destruct (Hw E) as (_ & Ho & Hs). split; [by eexists | by split].
  - intros Ho. destruct (Hw Ho) as (Ht & Hc & _). by split_and!.
Qed.

Lemma reach_watched e c : conn_reach e c -> watched c.
Proof.
  induction 1 as [now local remote la ra i h _ _|c c' _ IH Hs]; [|by eapply conn_step_watched].
  intros _. by split_and!.
Qed.

(** C28. The idle timeout works. In every run the watchdog of an open connection
    is armed; the timeout is at least [MaxIdleTimeout] and three probe
    timeouts; every received packet restarts it; when the watchdog runs before
    the timeout it arms itself again for a second later and changes nothing
    else; once nothing has been received for the timeout it closes the
    connection without sending anything, and resets every stream. *)
Theorem idle_watchdog (o : RangeOrder) (exact : bool) (c : Connection) (now : Z) :
  conn_reach exact c -> closeCh (life c) = false ->
  let c' := onIdleCheck now c in let l := life c in
  is_Some (idleTimer l) /\
  MaxIdleTimeout <= idleTimeout c /\ 3 *i PTO (c_cc c) <= idleTimeout c /\
  (forall pkt, lastActivity (life (HandlePacket now pkt c)) = now) /\
  (timeSub now (lastActivity l) < idleTimeout c ->
     c' = set_life (MkLife (connState l) (lastActivity l) (Some (now + idleCheckInterval)) (closeOnce l) (closeCh l)
       (closeReported l)) c) /\
  (idleTimeout c <= timeSub now (lastActivity l) ->
     ConnState c' = ConnStateClosed /\ closeCh (life c') = true /\ idleTimer (life c') = None /\ wire c' = wire c /\
     forall id, streams (table c') !! id = (fun s => DeliverReset s ErrorConnectionTimeout) <$> streams (table c) !! id).
Proof.
  intros Hr Ho. cbv zeta. destruct (reach_watched _ _ Hr Ho) as (Ht & Hc & Hs1 & Hs2). unfold onIdleCheck, idleExpired.
  rewrite decide_False by (by intros [?|?]). split_and!; [done | | | | |].
  - unfold idleTimeout. case_match; lia.
  - unfold idleTimeout. case_match; lia.
  - intros pkt. apply (HandlePacket_lives now pkt c).
  - intros Hl. rewrite (proj2 (Z.leb_gt _ _)) by done. unfold armIdleCheck. by rewrite Ho.
  - intros Hl. rewrite (proj2 (Z.leb_le _ _)) by done. unfold closeInternal. rewrite Hc. split_and!; try done.
    intros id. cbn [close_end table streams]. apply lookup_fmap.
Qed.

Lemma idle_watchdog_witness : ConnState (onIdleCheck (ms 40000) run_acked) = ConnStateClosed.
Proof.
  destruct (idle_watchdog key_order true run_acked (ms 40000) (run_acked_reach true))
    as (_ & _ & _ & _ & _ & H); [by vm_compute|]. apply H. apply Z.leb_le. by vm_compute.
Defined.
