(* ===== verification/Wire.v ===== *)
(** * What a connection puts on the wire

    Every datagram a connection hands to the socket, first sends, re-sends,
    pieces of split packets, probes, acknowledgements and control packets
    alike, is the encoding of a well-formed packet with the connection's IDs
    ([Sound]), so that the peer's decoder accepts it and reads back what was
    meant; and it is no larger than MaxDatagramSize unless it announces a close. *)

From stdpp Require Import strings.
From S2P Require Import Prelude Constants Cid Frame Packet AckTracker FlowControl Mtud.
From S2P Require Import PacketManager AckExchange Stream Pacing Congestion Connection Recovery ConnReach.
From S2P Require Import Dispatch.

(** The operations of its own leave the tracker alone, and count no arrivals. *)
Lemma own_acks e c c' : own_step e c c' -> recvd (acks c') = recvd (acks c) /\
  (ackPending (acks c) = 0 -> ackPending (acks c') = 0).
Proof.
  intros Hstep. assert (Hcalm : acks_calm c c' -> recvd (acks c') = recvd (acks c) /\
    (ackPending (acks c) = 0 -> ackPending (acks c') = 0)) by (intros [-> | ->]; done).
  destruct Hstep; try done; try (apply Hcalm, same_calm, sendFrames_same).
  - clear Hcalm. unfold ackTimerFired. cbv zeta. case_match; [done|].
    match goal with |- context [takeAckLocked now ?x] => destruct (takeAck_eq now x) as (d & Hd & ->) end.
    match goal with |- context [sendPacket _ _ _ _ ?x] => by rewrite (same_acks (sendPacket_same now _ _ _ x)) end.
  - apply Hcalm, same_calm, report_same.
  - apply Hcalm, same_calm, onPtoTimeout_same.
  - apply Hcalm, same_calm, flushLost_same.
  - unfold onIdleCheck, armIdleCheck in *. repeat case_match; [apply Hcalm, closeInternal_calm | done..].
  - unfold OpenStream in *. by repeat case_match.
  - match goal with H : AcceptStream _ _ _ _ |- _ => by destruct H end.
  - apply Hcalm, closeInternal_calm.
  - unfold observeAddr in *. by repeat case_match.
  - apply Hcalm, same_calm, send_same.
  - unfold migrate_start in *. match goal with |- context [sendFrames _ _ ?x] => by rewrite (same_acks (sendFrames_same now _ x)) end.
  - unfold migrate_finish in *. by repeat case_match; simplify_eq.
  - unfold enqueue in *. by case_match.
Qed.

(** ** The size of a datagram *)

(** The largest header a packet has: 18 bytes and two connection IDs. *)
Definition maxHeader : Z := 58.

(** The frame fits a datagram with any header. How long a probe is depends on
    its header, and a close carries a reason of any length. *)
Definition slim (f : Frame) : Prop :=
  match f with
  | MTUProbeFrame _ | ConnectionCloseFrame _ _ _ => True
  | _ => maxHeader + Z.of_nat (FrameLen f) <= MaxDatagramSize
  end.

Definition probe_free (frames : list Frame) : Prop := forall n, MTUProbeFrame n ∉ frames.

(** The datagram with these frames is no larger than any path is assumed to
    carry, unless it announces a close. *)
Definition within (data : list byte) (frames : list Frame) : Prop :=
  Z.of_nat (length data) <= MaxDatagramSize \/ exists code ft reason, ConnectionCloseFrame code ft reason ∈ frames.

(** How much stream data has room beside any header. *)
Definition room : Z := MaxDatagramSize - maxHeader - Z.of_nat streamFrameHeaderLen.

Lemma room_eq : room = 1402.
Proof. done. Qed.

Lemma stream_slim f : slim (StreamF f) <-> Z.of_nat (length (Data f)) <= room.
Proof. unfold slim, room. cbn [FrameLen]. unfold StreamFrame_Len. lia. Qed.

Lemma encoded_within c seq dst src frames : CID_ok (localCID c) -> CID_ok (remoteCID c) -> Forall slim frames ->
  (length frames <= 1)%nat -> probe_free frames -> within (encoded c seq dst src frames) frames.
Proof.
  intros H1%CID_ok_len H2%CID_ok_len Hs Hl Hp. unfold within. rewrite length_encoded.
  destruct frames as [|f [|]]; cbn in Hl; [left; unfold MaxDatagramSize; cbn; lia | | lia].
  apply Forall_inv in Hs. unfold slim, maxHeader in Hs. change (sum_list (FrameLen <$> [f])) with (FrameLen f + 0)%nat.
  destruct f as [| | | | | | | |size| | |code ft reason| | | | |]; try (left; lia).
  - destruct (Hp size). by left.
  - right. exists code, ft, reason. by left.
Qed.

Section Sending.

(** What may be said of every STREAM frame and the stream IDs it is sent with;
    it must hold of the bare SYN that opens a connection, and of the pieces of a
    frame if it holds of the frame. And what may be said of every ACK frame. *)
Context (Q : Z -> Z -> StreamFrame -> Prop) (A : AckFrame -> Prop).
Context (Q_syn : Q 0 0 (MkStreamFrame false true 0 [])).
Context (Q_split : forall dst src f g k, is_u64 (Offset f) -> Q dst src f ->
  g ∈ chunk_frames (length (Data f)) k (Offset f) (IsSyn f) (IsFin f) (Data f) -> Q dst src g).

Definition licensed (dst src : Z) (f : Frame) : Prop :=
  match f with StreamF sf => Q dst src sf | AckF af => A af | _ => True end.

(** Frames and stream IDs that can be encoded, one frame to a packet. *)
Definition sendable (dst src : Z) (frames : list Frame) : Prop :=
  Forall (fun f => (Frame_ok f /\ slim f) /\ licensed dst src f) frames /\ (length frames <= 1)%nat /\
  is_u32 dst /\ is_u32 src.

Definition packet_ok (v : SentPacket) : Prop :=
  sendable (sp_DestinationStreamID v) (sp_SourceStreamID v) (sp_Frames v) /\
  (sp_Probe v = true -> sp_Size v <= MaxDatagramSize) /\ (sp_Probe v = false -> probe_free (sp_Frames v)).

(** The datagram encodes a packet of this connection. *)
Definition on_wire (c : Connection) (d : datagram) : Prop :=
  exists pkt, Packet_ok pkt /\ d.1 = MarshalPacket pkt /\ Version pkt = VersionCurrent /\
    DestinationCID pkt = remoteCID c /\ SourceCID pkt = localCID c /\ within d.1 (Frames pkt) /\
    Forall (licensed (DestinationStreamID pkt) (SourceStreamID pkt)) (Frames pkt).

Record Sound (c : Connection) : Prop := {
  so_wire : Forall (on_wire c) (wire c);
  so_store : forall p, packet_ok (deref (c_pm c) p);
  so_next : is_u32 (nextSeq (c_pm c));
  so_mtu : MTU_ok (c_mtu c);
  so_cids : CID_ok (localCID c) /\ CID_ok (remoteCID c)
}.

Definition sounds (c c' : Connection) : Prop := Sound c -> Sound c'.

#[export] Instance sounds_preorder : PreOrder sounds.
Proof. split; [intros c H; exact H | intros a b c H1 H2 H; auto]. Qed.

Lemma sounds_fold {X} (f : Connection -> X -> Connection) (l : list X) c :
  (forall c x, x ∈ l -> sounds c (f c x)) -> sounds c (fold_left f l c).
Proof.
  revert c. induction l as [|x l IH]; intros c Hf; [done|]. cbn.
  etrans; [apply (Hf c x), list_elem_of_here|]. apply IH. intros. apply Hf. by right.
Qed.

(** Only these fields matter. *)
Lemma sound_eq c c' : localCID c' = localCID c -> remoteCID c' = remoteCID c -> wire c' = wire c ->
  c_pm c' = c_pm c -> c_mtu c' = c_mtu c -> sounds c c'.
Proof. intros E1 E2 E3 E4 E5 []. split; unfold on_wire; by rewrite ?E1, ?E2, ?E3, ?E4, ?E5. Qed.

Ltac unmoved := apply sound_eq; reflexivity.

(** The packet manager changes, but no packet's frames do. *)
Definition keeps_frames (pm pm' : PacketManager) : Prop :=
  (is_u32 (nextSeq pm) -> is_u32 (nextSeq pm')) /\
  ((forall p, packet_ok (deref pm p)) -> forall p, packet_ok (deref pm' p)).

#[export] Instance keeps_frames_preorder : PreOrder keeps_frames.
Proof. split; [intros pm; split; auto | intros a b c [H1 H2] [H3 H4]; split; auto]. Qed.

Lemma frames_eq pm pm' : packets pm' = packets pm -> nextSeq pm' = nextSeq pm -> keeps_frames pm pm'.
Proof. intros E1 E2. unfold keeps_frames, deref. by rewrite E1, E2. Qed.

Lemma set_pm_sounds pm c : keeps_frames (c_pm c) pm -> sounds c (set_pm pm c).
Proof. intros [H1 H2] []. split; auto. Qed.

Lemma set_mtu_sounds m c : (MTU_ok (c_mtu c) -> MTU_ok m) -> sounds c (set_mtu m c).
Proof. intros H []. split; auto. Qed.

Lemma deref_insert pm p v q : packets pm !!! q = deref pm q ->
  (<[p := v]> (packets pm)) !!! q = if decide (p = q) then v else deref pm q.
Proof.
  intros _. unfold deref. rewrite !lookup_total_alt. case_decide as E; [subst; by rewrite lookup_insert_eq|].
  by rewrite lookup_insert_ne.
Qed.

(** Writing a packet with sendable frames through a pointer. *)
Lemma insert_frames pm pm' p v : packets pm' = <[p := v]> (packets pm) ->
  ((forall p, packet_ok (deref pm p)) -> packet_ok v) ->
  (is_u32 (nextSeq pm) -> is_u32 (nextSeq pm')) -> keeps_frames pm pm'.
Proof.
  intros E Hv Hn. split; [done|]. intros H q. unfold deref at 1. rewrite E, deref_insert by done.
  case_decide; auto.
Qed.

(** ** Sending *)

Lemma outgoing_ok c seq dst src frames : Sound c -> is_u32 seq -> sendable dst src frames ->
  Packet_ok (outgoing c seq dst src frames).
Proof.
  intros Hs Hq (H1 & H2 & H3 & H4). split; try done; try apply Hs.
  - eapply Forall_impl; [exact H1|]. by intros f [[? _] _].
  - destruct frames as [|f [|]]; cbn in H2 |- *; [done | done | lia].
Qed.

Lemma sendable_within c seq dst src frames : Sound c -> sendable dst src frames -> probe_free frames ->
  within (encoded c seq dst src frames) frames.
Proof.
  intros Hs (H1 & H2 & _) Hp. destruct (so_cids _ Hs). apply encoded_within; try done.
  eapply Forall_impl; [exact H1|]. by intros f [[_ ?] _].
Qed.

Lemma sendable_licensed dst src frames : sendable dst src frames -> Forall (licensed dst src) frames.
Proof. intros [H _]. eapply Forall_impl; [exact H|]. by intros f [_ ?]. Qed.

Lemma transmit_sounds seq dst src frames to c0 c :
  (Sound c -> is_u32 seq /\ sendable dst src frames /\ within (encoded c0 seq dst src frames) frames) ->
  localCID c0 = localCID c -> remoteCID c0 = remoteCID c ->
  sounds c (transmit (encoded c0 seq dst src frames) to c).
Proof.
  intros Hok E1 E2 Hs. unfold transmit. case_match; [|done]. destruct (Hok Hs) as (Hq & Hf & Hw).
  pose proof (outgoing_ok c seq dst src frames Hs Hq Hf) as Hp. destruct Hs. split; try done.
  cbn [wire set_wire]. apply Forall_app. split; [done|]. apply Forall_singleton.
  exists (outgoing c seq dst src frames). split_and!; try done; [|by apply sendable_licensed].
  unfold encoded, outgoing. cbn [fst]. by rewrite E1, E2.
Qed.

Lemma send_sounds seq dst src frames to n c0 c :
  (Sound c -> is_u32 seq /\ sendable dst src frames /\ within (encoded c0 seq dst src frames) frames) ->
  localCID c0 = localCID c -> remoteCID c0 = remoteCID c ->
  sounds c (transmit (encoded c0 seq dst src frames) to (add_sent n c)).
Proof.
  intros Hok E1 E2. trans (add_sent n c); [unmoved|]. apply transmit_sounds; try done.
  intros Hs. apply Hok. revert Hs. unmoved.
Qed.

Lemma register_frames now pm size frames dst src probe : sendable dst src frames ->
  (probe = true -> size <= MaxDatagramSize) -> (probe = false -> probe_free frames) ->
  keeps_frames pm (register now pm (fresh_packet size frames dst src probe)).
Proof.
  intros Hs Hp Hpf. unfold register. cbn [NextSequence alloc].
  match goal with |- keeps_frames pm (SendPacket now ?x ?p) => trans x; [|set (pm1 := x); set (q := p)] end.
  - eapply insert_frames; [done | | intros; apply u32_range]. intros _. done.
  - eapply insert_frames; [done | | done]. intros H. apply (H q).
Qed.

Lemma track_sounds now dst src frames c : sendable dst src frames -> probe_free frames ->
  sounds c (track now dst src frames c).
Proof.
  intros Hs Hp. unfold track. cbv zeta.
  match goal with |- sounds c (set_cc _ (bump ?x)) => trans x; [|unmoved] end.
  by apply set_pm_sounds, register_frames.
Qed.

Lemma sendPacket_sounds now dst src frames c : sendable dst src frames -> probe_free frames ->
  sounds c (sendPacket now dst src frames c).
Proof.
  intros Hf Hp. unfold sendPacket. destruct (existsb bears_data frames); cbv zeta.
  - intros Hs. pose proof (so_next _ Hs) as Hn. pose proof (track_sounds now dst src frames c Hf Hp Hs) as Ht.
    destruct (amplifies _ _); [done|]. apply send_sounds; try done. intros _. split_and!; try done.
    by apply sendable_within.
  - destruct (amplifies _ _); [done|]. apply send_sounds; try done. intros Hs. split_and!; try done.
    by apply sendable_within.
Qed.

Lemma one_sendable dst src f : is_u32 dst -> is_u32 src -> Frame_ok f -> licensed dst src f -> slim f ->
  sendable dst src [f].
Proof. intros. split_and!; try done. by repeat constructor. Qed.

Lemma one_probe_free f : (forall n, f <> MTUProbeFrame n) -> probe_free [f].
Proof. intros H n E%list_elem_of_singleton. by destruct (H n). Qed.

(** A control frame without stream IDs. *)
Lemma sendFrames_sounds now f c : Frame_ok f -> licensed 0 0 f -> slim f -> (forall n, f <> MTUProbeFrame n) ->
  sounds c (sendFrames now [f] c).
Proof. intros Hf Hl Hs Hp. unfold sendFrames. by apply sendPacket_sounds, one_probe_free, Hp; apply one_sendable. Qed.

Lemma prepare_sounds now dst src frames c : sendable dst src frames -> probe_free frames ->
  sounds c (prepareDataPacket now dst src frames c).1 /\
  (Sound c -> forall buf, (prepareDataPacket now dst src frames c).2 = Some buf -> forall a, on_wire c (buf, a)).
Proof.
  intros Hf Hp. unfold prepareDataPacket. cbv zeta. split.
  - etrans; [by apply (track_sounds now dst src frames)|]. case_match; cbn [fst]; unmoved.
  - intros Hs buf. case_match; [done|]. intros [= <-] a.
    exists (outgoing c (nextSeq (c_pm c)) dst src frames). split_and!; try done;
      [|by apply sendable_within | by apply sendable_licensed].
    apply outgoing_ok; [done | apply Hs | done].
Qed.

Lemma on_wire_same c c' d : same c c' -> on_wire c d <-> on_wire c' d.
Proof. intros E. destruct (same_cids E) as [E1 E2]. unfold on_wire. by rewrite E1, E2. Qed.

Lemma prepare_all_sounds now rid sid fs c bufs : (forall f, f ∈ fs -> sendable rid sid [StreamF f]) ->
  Sound c -> (forall b, b ∈ bufs -> forall a, on_wire c (b, a)) ->
  let '(c', bufs') := fold_left (prepare_all now rid sid) fs (c, bufs) in
  Sound c' /\ forall b, b ∈ bufs' -> forall a, on_wire c' (b, a).
Proof.
  revert c bufs. induction fs as [|f fs IH]; intros c bufs Hf Hs Hb; [done|]. cbn [fold_left].
  destruct (prepare_sounds now rid sid [StreamF f] c) as [P1 P2]; [apply Hf, list_elem_of_here | by apply one_probe_free |].
  pose proof (prepare_same now rid sid [StreamF f] c) as E.
  unfold prepare_all at 2. destruct (prepareDataPacket now rid sid [StreamF f] c) as [c1 buf]. cbn [fst snd] in *.
  apply IH; [intros; apply Hf; by right | by apply P1 |].
  intros b Hin a. apply (on_wire_same _ _ _ E). destruct buf as [b0|]; [|by apply Hb].
  apply elem_of_app in Hin as [?|Hin%list_elem_of_singleton]; [by apply Hb|]. subst. by apply P2.
Qed.

Lemma chunks_ok k fuel o syn fin data f : is_u64 o -> Z.of_nat k < 2 ^ 16 ->
  f ∈ chunk_frames fuel k o syn fin data -> Frame_ok (StreamF f).
Proof.
  intros Ho Hk. revert o syn data Ho. induction fuel as [|fuel IH]; intros o syn data Ho; cbn [chunk_frames];
    [by intros ?%not_elem_of_nil|]. destruct data as [|b data]; [by intros ?%not_elem_of_nil|].
  intros [->|Hin]%elem_of_cons; [|by eapply IH, Hin; apply u64_range].
  split; [done|]. cbn [Data]. rewrite length_take. lia.
Qed.

Lemma chunks_slim k fuel o syn fin data f : Z.of_nat k <= room ->
  f ∈ chunk_frames fuel k o syn fin data -> slim (StreamF f).
Proof.
  intros Hk. revert o syn data. induction fuel as [|fuel IH]; intros o syn data; cbn [chunk_frames];
    [by intros ?%not_elem_of_nil|]. destruct data as [|b data]; [by intros ?%not_elem_of_nil|].
  intros [->|Hin]%elem_of_cons; [|by eapply IH, Hin].
  apply stream_slim. cbn [Data]. rewrite length_take. lia.
Qed.

(** A chunk of a write, and a piece of a packet that was split. *)
Lemma chunk_sendable k fuel dst src o syn fin data f : is_u32 dst -> is_u32 src -> is_u64 o ->
  Z.of_nat k <= room -> f ∈ chunk_frames fuel k o syn fin data -> Q dst src f ->
  sendable dst src [StreamF f].
Proof.
  intros Hd Hs Ho Hk Hin HQ. apply one_sendable; try done; [|by eapply chunks_slim].
  eapply chunks_ok; [exact Ho | | exact Hin]. rewrite room_eq in Hk. lia.
Qed.

Lemma sendStreamFrames_sounds now sid rid o data chunk syn c : is_u32 sid -> is_u32 rid -> is_u64 o ->
  0 <= chunk <= room -> (forall f, f ∈ chunk_frames (length data) (Z.to_nat chunk) o syn false data -> Q rid sid f) ->
  sounds c (sendStreamFrames now sid rid o data chunk syn c).
Proof.
  intros Hsid Hrid Ho Hk HQ Hs. unfold sendStreamFrames.
  pose proof (prepare_all_sounds now rid sid (chunk_frames (length data) (Z.to_nat chunk) o syn false data) c []) as H.
  destruct (fold_left _ _ _) as [c1 bufs]. destruct H as [H1 H2]; [|done | by intros b ?%not_elem_of_nil |].
  { intros f Hf. eapply chunk_sendable; try done; [|by apply HQ]. lia. }
  unfold writeDatagrams. case_match; [|done]. destruct H1. split; try done. cbn [wire set_wire].
  apply Forall_app. split; [done|]. apply Forall_forall. intros d Hd. apply list_elem_of_fmap in Hd as (b & -> & Hb).
  apply H2, Hb.
Qed.

(** The calls of streams: what they can encode, and what they send. *)
Definition call_fits (call : conn_call) : Prop :=
  match call with
  | SendStreamFrame id rid o data _ _ => is_u32 id /\ is_u32 rid /\ is_u64 o /\
      Z.of_nat (length data) <= room
  | SendStreamFrames id rid o _ chunk _ => is_u32 id /\ is_u32 rid /\ is_u64 o /\
      0 <= chunk <= room
  | SendResetStream id rid code => is_u32 id /\ is_u32 rid /\ is_u32 code
  | SendWindowUpdate id rid _ | SendStreamDataBlocked id rid _ => is_u32 id /\ is_u32 rid
  end.

Definition call_licensed (call : conn_call) : Prop :=
  match call with
  | SendStreamFrame id rid o data fin syn => Q rid id (MkStreamFrame fin syn o data)
  | SendStreamFrames id rid o data chunk syn =>
      forall f, f ∈ chunk_frames (length data) (Z.to_nat chunk) o syn false data -> Q rid id f
  | _ => True
  end.

Definition call_ok (call : conn_call) : Prop := call_fits call /\ call_licensed call.

Lemma short_data (data : list byte) : Z.of_nat (length data) <= room ->
  Z.of_nat (length data) < 2 ^ 16.
Proof. rewrite room_eq. lia. Qed.

Lemma exec_calls_sounds now calls c : Forall call_ok calls -> sounds c (exec_calls now calls c).
Proof.
  intros Hc. apply sounds_fold. intros c1 call Hin. rewrite Forall_forall in Hc. destruct (Hc _ Hin) as [Hf HQ].
  destruct call; cbn in Hf, HQ |- *; destruct Hf as (H1 & H2 & Hf) || destruct Hf as (H1 & H2).
  - destruct Hf as [Ho Hl]. apply sendPacket_sounds; [|by apply one_probe_free].
    apply one_sendable; try done; [|by apply stream_slim]. split; [done|]. by apply short_data.
  - destruct Hf. by apply sendStreamFrames_sounds.
  - apply sendPacket_sounds; [by apply one_sendable | by apply one_probe_free].
  - apply sendPacket_sounds; [|by apply one_probe_free]. apply one_sendable; try done. apply u32_range.
  - apply sendPacket_sounds; [|by apply one_probe_free]. apply one_sendable; try done. split; [done | apply u64_range].
Qed.

(** ** Re-sending *)

Lemma retransmit_sounds p seq c : (Sound c -> is_u32 seq) -> sp_Probe (deref (c_pm c) p) = false ->
  sounds c (retransmitPacket p seq c).
Proof.
  intros Hq Hp Hs. unfold retransmitPacket. revert Hs. apply send_sounds; try done. intros Hs.
  destruct (so_store _ Hs p) as (H1 & _ & H2). split_and!; auto. by apply sendable_within; auto.
Qed.

Lemma Resend_frames now pm p : keeps_frames pm (Resend now pm p).1.
Proof.
  unfold Resend. case_match; [done|]. cbn [fst]. eapply insert_frames; [done | | intros; apply u32_range].
  intros Hok. apply (Hok p).
Qed.

Lemma Resend_seq now pm p pm' seq ok : Resend now pm p = (pm', (seq, ok)) -> is_u32 (nextSeq pm) -> is_u32 seq.
Proof. unfold Resend. case_match; intros [= <- <- <-] Hn; [width | done]. Qed.

Lemma Resend_data now pm p pm' seq : Resend now pm p = (pm', (seq, true)) -> sp_Probe (deref pm' p) = false.
Proof.
  unfold Resend. destruct (sp_IsAcked _ || sp_Probe _) eqn:E; [done|]. intros [= <- <-].
  apply orb_false_iff in E as [_ E]. unfold deref at 1. cbn. by rewrite lookup_total_insert_eq.
Qed.

Lemma alloc_all_frames vs pm : Forall packet_ok vs -> keeps_frames pm (alloc_all vs pm).1.
Proof.
  intros Hv. unfold alloc_all. set (f := fun _ _ => _).
  enough (H : forall ps, keeps_frames pm (fold_left f vs (pm, ps)).1) by apply H. revert pm.
  induction Hv as [|v vs Hv _ IH]; intros pm ps; [done|]. cbn [fold_left]. unfold f at 2. cbn [alloc fst snd].
  etrans; [|apply IH]. eapply insert_frames; done.
Qed.

Lemma fitToPath_sounds p c : sounds c (fitToPath p c).1.
Proof.
  intros Hs. pose proof (so_store _ Hs p) as [(Hf & Hl1 & Hd & Hsrc) _]. revert Hs.
  unfold fitToPath. destruct (sp_Frames _) as [|[| | |f| | | | | | | | | | | | |] [|]]; try done.
  apply Forall_inv in Hf as [[[Ho Hl] Hsl] HQ]. cbv zeta.
  destruct (_ || (Z.of_nat (length (Data f)) <=? _)) eqn:Ec; [done|]. apply orb_false_iff in Ec as [_ Ec%Z.leb_gt].
  match goal with |- context [alloc_all ?vs ?pm] => pose proof (alloc_all_frames vs pm) as H1;
    destruct (alloc_all vs pm) as [pm1 ps] end.
  apply set_pm_sounds. etrans; [by apply (frames_eq (c_pm c) (Drop (c_pm c) p))|]. apply H1.
  rewrite Forall_forall. intros v (g & -> & Hg)%list_elem_of_fmap.
  split_and!; [|done | by intros _; apply one_probe_free].
  eapply chunk_sendable; try done; [|by eapply Q_split]. apply stream_slim in Hsl. lia.
Qed.

Lemma flush_round_sounds now p rest c : sounds c (flush_round now p rest c).1.
Proof.
  unfold flush_round. destruct (closeCh (life c)); [unmoved|]. destruct (sp_IsAcked _); [unmoved|].
  assert (E : sounds c (if Current (c_mtu c) <? sp_Size (deref (c_pm c) p) then fitToPath p c else (c, [])).1)
    by (case_match; [apply fitToPath_sounds | done]).
  destruct (if Current (c_mtu c) <? sp_Size (deref (c_pm c) p) then fitToPath p c else (c, []))
    as [c1 pieces]. cbn [fst] in E. etrans; [exact E|]. clear E.
  destruct (1 <? length pieces)%nat; [unmoved|]. destruct (0 <? _); [unmoved|]. destruct (negb _); [done|].
  cbv zeta. set (c2 := set_queue rest _ c1). pose proof (Resend_frames now (c_pm c2) p) as Hr.
  destruct (Resend now (c_pm c2) p) as [pm [seq ok]] eqn:Er. cbn [fst] in Hr.
  assert (E : sounds c1 (set_pm pm c2)) by (trans c2; [unmoved | by apply set_pm_sounds]).
  destruct ok; cbn [negb fst]; [|done]. intros Hs.
  assert (Hq : is_u32 seq) by (apply (Resend_seq _ _ _ _ _ _ Er); apply Hs).
  apply retransmit_sounds; [done | exact (Resend_data _ _ _ _ _ Er) |]. apply (sound_eq (set_pm pm c2)); try reflexivity. by apply E.
Qed.

Lemma flush_loop_sounds now fuel : forall c c', flush_loop fuel now c = Some c' -> sounds c c'.
Proof.
  induction fuel as [|fuel IH]; intros c c'; cbn [flush_loop];
    destruct (lostQueue (loss c)) as [|p rest]; try done; try (by intros [= <-]).
  pose proof (flush_round_sounds now p rest c) as E. destruct (flush_round now p rest c) as [c1 more].
  cbn [fst] in E. destruct more; [|by intros [= <-]]. intros H. etrans; [exact E | by apply IH].
Qed.

Lemma flushLost_sounds now c : sounds c (flushLost now c).
Proof.
  unfold flushLost. destruct (flush_loop _ _ _) as [c'|] eqn:E; cbn [default]; [|unmoved].
  apply flush_loop_sounds in E. etrans; [|exact E]. unmoved.
Qed.

Lemma onPacketsLost_sounds now ls c : 0 <= now -> sounds c (onPacketsLost now ls c).
Proof.
  intros Hnow. unfold onPacketsLost.
  pose proof (sort_lost_fold now (negb (ackedLarge c)) (c_pm c) ls (c_mtu c) Hnow) as H.
  destruct (fold_left _ ls _) as [m data]. destruct H as [_ Hm].
  etrans; [apply (set_mtu_sounds m c Hm)|]. destruct data as [|oldest rest]; [done|].
  destruct (last (oldest :: rest)); [|done]. etrans; [|apply flushLost_sounds]. unmoved.
Qed.

Lemma report_sounds now pm ls c : 0 <= now -> keeps_frames (c_pm c) pm ->
  sounds c (report_lost now (pm, ls) c).
Proof.
  intros Hnow Hk. unfold report_lost. etrans; [by apply set_pm_sounds|].
  destruct ls; [done|]. by apply onPacketsLost_sounds.
Qed.

Lemma detect_frames order now delay pm : keeps_frames pm (detectLostLocked order now delay pm).1.
Proof. unfold detectLostLocked. repeat case_match; by apply frames_eq. Qed.

Lemma probeMTU_sounds now c : 0 <= now -> sounds c (probeMTU now c).
Proof.
  intros Hnow Hs. unfold probeMTU. destruct (negb _); [done|].
  pose proof (NextProbe_size now (c_mtu c) (so_mtu _ Hs) Hnow) as H.
  destruct (NextProbe now (c_mtu c)) as [m size]. destruct H as (Hm & _ & Hsz).
  assert (Hs1 : Sound (set_mtu m c)) by (by apply set_mtu_sounds).
  destruct (Z.eqb_spec size 0) as [|Hnz]; [done|]. destruct Hsz as [|Hsz]; [done|].
  set (c1 := set_mtu m c) in *. cbv zeta.
  set (hdr := Z.of_nat (length (encoded c1 _ 0 0 [MTUProbeFrame 1])) - 1).
  assert (He : hdr = Z.of_nat (18 + Len (remoteCID c) + Len (localCID c))).
  { unfold hdr. rewrite length_encoded. cbn. lia. }
  assert (Hh : 0 <= hdr <= 100).
  { destruct (so_cids _ Hs) as [H1%CID_ok_len H2%CID_ok_len]. lia. }
  unfold SafeDatagramSize, MaxDatagramSize in Hsz.
  assert (Hf : sendable 0 0 [MTUProbeFrame (size - hdr)]) by (apply one_sendable; try done; cbn; lia).
  set (n := Z.of_nat _). assert (Hn : n <= MaxDatagramSize).
  { unfold n. rewrite length_encoded. cbn. unfold MTUProbeFrame_Len, id, MaxDatagramSize.
    destruct (Z.ltb_spec (size - hdr) 1); lia. }
  apply send_sounds; try done.
  { intros _. split_and!; [apply Hs1 | done | by left]. }
  apply (sound_eq (set_pm (register now (c_pm c1) (fresh_packet n [MTUProbeFrame (size - hdr)] 0 0 true)) c1)); try reflexivity.
  revert Hs1. by apply set_pm_sounds, register_frames.
Qed.

Lemma probe_piece_sounds now c p : sounds c (probe_piece now c p).
Proof.
  unfold probe_piece. pose proof (Resend_frames now (c_pm c) p) as Hr.
  destruct (Resend now (c_pm c) p) as [pm [seq ok]] eqn:Er. cbn [fst] in Hr.
  intros Hs. assert (Hq : is_u32 seq) by (apply (Resend_seq _ _ _ _ _ _ Er); apply Hs).
  pose proof (set_pm_sounds pm c Hr Hs) as Hs1. destruct ok; [|done]. cbv zeta.
  match goal with |- Sound (set_cc _ ?c1) => apply (sound_eq c1); try reflexivity end.
  apply retransmit_sounds; [done | exact (Resend_data _ _ _ _ _ Er) |]. by apply (sound_eq (set_pm pm c)).
Qed.

Lemma probe_packet_sounds now c p : sounds c (probe_packet now c p).
Proof.
  unfold probe_packet. pose proof (fitToPath_sounds p c) as E. destruct (fitToPath p c) as [c1 ps].
  etrans; [exact E|]. apply sounds_fold. intros. apply probe_piece_sounds.
Qed.

Section Received.
Context {o : RangeOrder} (now : Z) (Hnow : 0 <= now).

Lemma onPtoTimeout_sounds c : sounds c (onPtoTimeout now c).
Proof using Hnow Q_split.
  unfold onPtoTimeout, onPTO. cbv zeta.
  match goal with |- sounds c (set_cc _ ?c1) => trans c1; [|unmoved] end.
  etrans; [|apply sounds_fold; intros; apply probe_packet_sounds].
  case_match; [|unmoved]. etrans; [|apply set_mtu_sounds].
  - unmoved.
  - intros Hm. by apply (mtu_apply_ok _ (CBlackhole now)).
Qed.

Lemma take_frames l st : keeps_frames st.1 (fold_left take_seq l st).1.
Proof.
  revert st. induction l as [|x l IH]; intros st; [done|]. cbn [fold_left]. etrans; [|apply IH].
  destruct st as [pm acked]. unfold take_seq. cbn [fst]. case_match; [|done].
  etrans; [|by apply (frames_eq (store pm p (set_acked (deref pm p))))].
  eapply insert_frames; [done | | done]. intros Hok. apply (Hok p).
Qed.

Lemma HandleAckFrame_frames pm f : keeps_frames pm (HandleAckFrame now pm f).1.
Proof.
  unfold HandleAckFrame. pose proof (take_frames (ack_sequences f) (pm, [])) as H.
  destruct (fold_left _ _ _) as [pm' acked]. cbn [fst] in H. case_match; [|done].
  etrans; [exact H|]. by apply frames_eq.
Qed.

Lemma note_acked_mtu f pm acked st : (forall p, packet_ok (deref pm p)) -> MTU_ok st.1.1.1 ->
  MTU_ok (fold_left (note_acked f pm) acked st).1.1.1.
Proof.
  intros Hok. revert st. induction acked as [|p acked IH]; intros st Hm; [done|]. cbn [fold_left]. apply IH.
  destruct st as [[[m b] la] lg]. unfold note_acked. destruct (Hok p) as (_ & Hp & _). cbv zeta.
  destruct (sp_Probe (deref pm p)); [|case_match]; cbn [fst].
  - apply (mtu_apply_ok m (CProbeAcked _)); [done | by apply Hp].
  - by apply (mtu_apply_ok m (CDataAcked _)).
  - done.
Qed.

Lemma count_acked_sounds f c pm acked : HandleAckFrame now (c_pm c) f = (pm, acked) ->
  sounds c (count_acked now f pm acked c).
Proof.
  intros E. pose proof (HandleAckFrame_frames (c_pm c) f) as Hk. rewrite E in Hk. cbn [fst] in Hk.
  intros Hs. pose proof (set_pm_sounds pm c Hk Hs) as Hs1. unfold count_acked.
  pose proof (note_acked_mtu f pm acked (c_mtu c, 0, None, false) (so_store _ Hs1) (so_mtu _ Hs1)) as Hm.
  destruct (fold_left _ _ _) as [[[m b] la] lg]. cbn [fst] in Hm.
  apply (sound_eq (set_mtu m (set_pm pm c))); try reflexivity. by apply set_mtu_sounds.
Qed.

Lemma detectLost_sounds c : sounds c (detectLost now c).
Proof using Hnow Q_split.
  unfold detectLost, DetectLostPackets.
  pose proof (detect_frames (range_packets (sentPackets (c_pm c))) now (lossDelayOf c) (c_pm c)) as Hd.
  destruct (detectLostLocked _ _ _ _) as [pm' ls]. by apply report_sounds.
Qed.

Lemma handleAckFrame_sounds f c : sounds c (handleAckFrame now f c).
Proof using Hnow Q_split.
  rewrite handleAckFrame_eq. pose proof (HandleAckFrame_frames (c_pm c) f) as Hk.
  destruct (HandleAckFrame now (c_pm c) f) as [pm acked] eqn:E. cbn [fst] in Hk.
  pose proof (count_acked_sounds f c pm acked E) as Hc. destruct acked as [|p l]; [by apply set_pm_sounds|].
  etrans; [exact Hc|]. etrans; [apply detectLost_sounds|]. etrans; [apply flushLost_sounds | by apply probeMTU_sounds].
Qed.
End Received.

(** ** Every operation *)

Definition ids_ok (t : StreamTable) : Prop := is_u32 (nextStreamID t) /\
  map_Forall (fun _ s => is_u32 (ID s) /\ is_u32 (RemoteID s)) (streams t).

Lemma tstep_ids t t' : tstep t t' -> ids_ok t -> ids_ok t'.
Proof.
  intros Ht [Hn Hs]. destruct Ht as [t id s s' Hl (E1 & E2 & _)|t rid st q Hr _|t code|t n|t id q _]; try by split.
  - split; [done|]. apply map_Forall_insert_2; [|done]. rewrite E1, E2. apply (Hs _ _ Hl).
  - split; [apply u32_range|]. by apply map_Forall_insert_2.
  - split; [done|]. intros id s. cbn [streams]. rewrite lookup_fmap_Some. intros (u & <- & Hu). apply (Hs _ _ Hu).
Qed.

Lemma moves_ids c c' : moves c c' -> ids_ok (table c) -> ids_ok (table c').
Proof. intros [_ T]. induction T as [|t1 t2 t3 Ht _ IH]; [done|]. intros H. by apply IH, (tstep_ids t1). Qed.

Definition fit (c c' : Connection) : Prop := ids_ok (table c) -> sounds c c'.

Lemma on_stream_fit now id op c :
  (forall s, is_u32 (ID s) -> is_u32 (RemoteID s) -> Forall call_ok (op s).2) -> fit c (on_stream now id op c).
Proof.
  intros Hop [_ Hs]. rewrite on_stream_eq. destruct (streams (table c) !! id) as [s|] eqn:E; [|done].
  trans (set_stream id (op s).1 c); [unmoved|]. apply exec_calls_sounds. destruct (Hs _ _ E). auto.
Qed.

Ltac each_call :=
  repeat case_match; cbn [snd]; repeat first [apply Forall_nil_2 | apply Forall_cons_2]; unfold call_ok; cbn [call_fits call_licensed]; auto.

Lemma Reset_calls s code : is_u32 (ID s) -> is_u32 (RemoteID s) -> is_u32 code ->
  Forall call_ok (Stream.Reset s code).2.
Proof. intros. unfold Stream.Reset. each_call. Qed.

Lemma DeliverData_calls s off d : is_u32 (ID s) -> is_u32 (RemoteID s) -> Forall call_ok (DeliverData s off d).2.
Proof.
  intros. unfold DeliverData. destruct (placeLocked _ _ _) as [r n].
  destruct (flowControlViolation r); [|case_match; cbn [snd]; constructor].
  apply (Reset_calls (with_recv s r)); done.
Qed.

Lemma stream_op_calls now md s s' calls out : stream_op now md s s' calls out -> is_u32 (ID s) -> is_u32 (RemoteID s) ->
  Forall call_fits calls.
Proof.
  intros Hop H1 H2. destruct Hop as [n|p|data sent|data sent chunk syn grant Hc _| |code Hcode|t|t].
  - unfold Read. each_call.
  - unfold write_start, write_loop. each_call.
  - unfold write_loop. each_call.
  - unfold write_commit, MaxDatagramSize, streamChunkOverhead in *. each_call; split_and!; try done; try apply u64_range;
      rewrite ?room_eq; lia.
  - unfold Stream.Close. each_call; split_and!; try done; apply u64_range.
  - eapply Forall_impl; [by apply Reset_calls|]. by intros call [? _].
  - constructor.
  - constructor.
Qed.

Lemma closeInternal_sounds now code reason announce c : is_u32 code -> Z.of_nat (length reason) < 2 ^ 16 ->
  sounds c (closeInternal now code reason announce c).
Proof.
  intros Hc Hr. unfold closeInternal. destruct (closeOnce (life c)); [done|]. intros Hs.
  assert (Hs1 : Sound (if announce then sendFrames now [ConnectionCloseFrame code 0 reason] (close_begin c) else close_begin c)).
  { assert (Hb : Sound (close_begin c)) by (by apply (sound_eq c)). destruct announce; [|done].
    by apply sendFrames_sounds. }
  match goal with H : Sound ?x |- Sound (close_end code ?x) => destruct H end. by split.
Qed.

Section Frames.
Context {o : RangeOrder} (now : Z) (Hnow : 0 <= now).

Lemma on_found_fit pkt op c :
  (forall s, is_u32 (ID s) -> is_u32 (RemoteID s) -> Forall call_ok (op s).2) -> fit c (on_found now pkt op c).
Proof. intros Hop. unfold on_found. case_match; [by apply on_stream_fit | by intros _]. Qed.

Lemma handleStreamFrame_fit pkt f c : is_u32 (SourceStreamID pkt) -> fit c (handleStreamFrame now pkt f c).
Proof.
  intros Hr Hi. unfold handleStreamFrame. pose proof (stream_for_moves pkt f c Hr) as Hm.
  assert (E : sounds c (stream_for pkt f c).1).
  { unfold stream_for, accept_incoming. repeat case_match; simplify_eq; cbn [fst]; unmoved. }
  destruct (stream_for pkt f c) as [c1 [id|]]; [|done]. cbn [fst] in *.
  pose proof (moves_ids _ _ Hm Hi) as Hi1. etrans; [exact E|].
  assert (E2 : fit c1 (on_stream now id (fun s => DeliverData s (Offset f) (Data f)) c1)).
  { apply on_stream_fit. intros. by apply DeliverData_calls. }
  assert (Hi2 : ids_ok (table (on_stream now id (fun s => DeliverData s (Offset f) (Data f)) c1))).
  { apply (moves_ids c1); [|done]. apply on_stream_moves. intros. apply DeliverData_stays. }
  assert (E3 : forall c, fit c (on_stream now id
    (fun s => (DeliverFin s (u64 (Offset f + Z.of_nat (length (Data f)))), [])) c)).
  { intros c2. apply on_stream_fit. intros. constructor. }
  repeat case_match; try done; [etrans; [by apply E2 | by apply E3] | by apply E3 | by apply E2].
Qed.

Lemma handleFrame_fit pkt c f : Packet_ok pkt -> Frame_ok f -> fit c (handleFrame now pkt c f).
Proof using Hnow Q_split.
  intros Hp Hf Hi. destruct f; cbn [handleFrame]; try done; try (by apply sendFrames_sounds).
  - by apply handleAckFrame_sounds.
  - apply handleStreamFrame_fit; [apply Hp | done].
  - apply on_found_fit; [intros; constructor | done].
  - unmoved.
  - apply on_found_fit; [intros; constructor | done].
  - case_match; unmoved.
  - unfold handlePathResponse, completeMigration. repeat case_match; simplify_eq; unmoved.
  - unfold CloseConn, CloseWithError. apply closeInternal_sounds; [by compute | done].
  - apply on_found_fit; [|done]. intros. apply Reset_calls; try done. apply Hf.
  - apply sendFrames_sounds; try done. apply u64_range.
  - apply on_found_fit; [|done]. intros. each_call.
Qed.

Lemma frames_fit pkt frames c : Packet_ok pkt -> Forall Frame_ok frames ->
  fit c (fold_left (handleFrame now pkt) frames c).
Proof using Hnow Q_split.
  intros Hp Hf. revert c. induction Hf as [|f frames Hf _ IH]; intros c Hi; [done|]. cbn [fold_left].
  etrans; [by apply (handleFrame_fit pkt c f)|]. apply IH. apply (moves_ids c); [|done].
  apply handleFrame_moves, Hp.
Qed.
End Frames.

Definition tracking (c : Connection) : Prop := exists S, tracks (recvd (acks c)) S.

Lemma ack_frame_ok r S d : tracks r S -> is_u16 d -> Frame_ok (AckF (AckTracker.frame r d)).
Proof.
  intros HT Hd. destruct (decide (S = ∅)) as [->|Hne]; [|by eapply frame_fits].
  unfold AckTracker.frame. rewrite (tracks_any _ _ HT), bool_decide_eq_false_2 by auto. cbn.
  split_and!; try done; try width.
Qed.

Lemma ack_slim r S d : tracks r S -> slim (AckF (AckTracker.frame r d)).
Proof.
  intros HT. assert (H : (length (AckRanges (AckTracker.frame r d)) <= 5)%nat).
  { destruct (decide (S = ∅)) as [->|Hne]; [|destruct (frame_spec _ _ HT Hne d) as (_ & _ & ? & _); lia].
    unfold AckTracker.frame. rewrite (tracks_any _ _ HT), bool_decide_eq_false_2 by auto. cbn. lia. }
  unfold slim, maxHeader, MaxDatagramSize. cbn [FrameLen]. unfold AckFrame_Len. lia.
Qed.

Lemma ack_sendable r S d dst src : tracks r S -> is_u16 d -> is_u32 dst -> is_u32 src -> A (AckTracker.frame r d) ->
  sendable dst src [AckF (AckTracker.frame r d)].
Proof. intros. apply one_sendable; try done; [by eapply ack_frame_ok | by eapply ack_slim]. Qed.

Lemma noteReceived_recvd now pkt c : recvd (acks (noteReceived now pkt c)) = (AckTracker.add (recvd (acks c)) (Sequence pkt)).1.
Proof.
  unfold noteReceived. destruct (AckTracker.add _ _) as [r ooo]. cbv zeta. case_match; [|done].
  match goal with |- context [takeAckLocked now ?x] => destruct (takeAck_eq now x) as (d & _ & ->) end.
  match goal with |- context [sendPacket _ _ _ _ ?x] => by rewrite (same_acks (sendPacket_same now _ _ _ x)) end.
Qed.

(** Whatever the delay, the ACK frame of the tracker may be sent. *)
Definition acks_right (c : Connection) : Prop := forall d, A (AckTracker.frame (recvd (acks c)) d).

Lemma noteReceived_sounds now pkt c : Packet_ok pkt -> tracking c -> acks_right (noteReceived now pkt c) ->
  sounds c (noteReceived now pkt c).
Proof.
  intros Hp [S HT] HA. unfold acks_right in HA. rewrite noteReceived_recvd in HA. unfold noteReceived. destruct (add_spec _ _ HT (Sequence pkt) (ok_seq _ Hp)) as [HT' _].
  destruct (AckTracker.add _ _) as [r ooo]. cbv zeta. case_match; [|unmoved].
  match goal with |- context [takeAckLocked now ?x] => destruct (takeAck_eq now x) as (d & Hd & ->) end.
  match goal with |- sounds c (sendPacket _ _ _ _ ?x) => trans x; [unmoved|] end.
  apply sendPacket_sounds; [|by apply one_probe_free].
  eapply ack_sendable; [exact HT' | done | apply Hp | apply Hp | apply HA].
Qed.

Lemma calm_tracking c c' : acks_calm c c' -> tracking c -> tracking c'.
Proof. intros [E|E] [S HT]; exists S; by rewrite E. Qed.

(** The invariant of every run. *)
Record Healthy (c : Connection) : Prop := {
  h_sound : Sound c;
  h_ids : ids_ok (table c);
  h_recvd : tracking c
}.

Lemma HandlePacket_healthy (o : RangeOrder) now pkt c : 0 <= now -> Packet_ok pkt ->
  (isDataBearing pkt || isNumberedProbe pkt = true -> acks_right (HandlePacket now pkt c)) -> Healthy c ->
  Sound (HandlePacket now pkt c) /\ tracking (HandlePacket now pkt c).
Proof.
  intros Hnow Hp HA [Hs Hi Ht]. unfold HandlePacket in *. cbv zeta in *. set (c0 := note_arrival now pkt c).
  assert (Hs0 : Sound c0) by (by apply (sound_eq c)).
  pose proof (frames_fit now Hnow pkt (Frames pkt) c0 Hp (ok_frames _ Hp) Hi Hs0) as Hs1.
  pose proof (calm_tracking _ _ (frames_calm now pkt (Frames pkt) c0) Ht) as Ht1.
  set (c1 := fold_left _ _ _) in *. case_match; [|done]. split; [by apply noteReceived_sounds; auto|].
  destruct Ht1 as [S HT]. exists ({[Sequence pkt]} ∪ S). rewrite noteReceived_recvd.
  apply (add_spec _ _ HT (Sequence pkt) (ok_seq _ Hp)).
Qed.

Lemma ackTimerFired_sound now src dst c : is_u32 src -> is_u32 dst ->
  (ackPending (acks c) <> 0 -> acks_right c) -> Healthy c -> Sound (ackTimerFired now src dst c).
Proof.
  intros Hsrc Hdst HA [Hs _ [S HT]]. unfold ackTimerFired. cbv zeta.
  destruct (Z.eqb_spec (ackPending (acks c)) 0) as [E|E]; cbn [ackPending].
  { rewrite E. by apply (sound_eq c). }
  rewrite (proj2 (Z.eqb_neq _ _) E).
  match goal with |- context [takeAckLocked now ?x] => destruct (takeAck_eq now x) as (d & Hd & ->) end.
  apply sendPacket_sounds; [|by apply one_probe_free | by apply (sound_eq c)]. eapply ack_sendable; [exact HT | done.. | by apply HA].
Qed.

Lemma packet_step_healthy (o : RangeOrder) now pkt c : 0 <= now -> Packet_ok pkt ->
  (isDataBearing pkt || isNumberedProbe pkt = true -> acks_right (HandlePacket now pkt c)) ->
  Healthy c -> Healthy (HandlePacket now pkt c).
Proof.
  intros Hnow Hp HA Hh. destruct (HandlePacket_healthy o now pkt c Hnow Hp HA Hh). split; [done | | done].
  apply (moves_ids c); [by apply HandlePacket_moves, ok_src | apply Hh].
Qed.

Lemma stream_step_healthy now id s s' calls out c : streams (table c) !! id = Some s ->
  stream_op now (MaxDatagram c) s s' calls out -> Forall call_licensed calls -> Healthy c ->
  Healthy (exec_calls now calls (set_stream id s' c)).
Proof.
  intros Hl Hop HQ [Hs Hi Ht]. pose proof (exec_calls_same now calls (set_stream id s' c)) as E. split.
  - assert (Hs1 : Sound (set_stream id s' c)) by (by apply (sound_eq c)). revert Hs1. apply exec_calls_sounds.
    apply Forall_and. split; [|done]. destruct Hi as [_ Hi]. destruct (Hi id s) as [? ?]; [done|].
    by eapply stream_op_calls.
  - apply (moves_ids c); [|done]. trans (set_stream id s' c); [|by apply same_moves].
    apply moves_once; [done|]. eapply (t_change (table c)); [done | by eapply stream_op_stays].
  - apply (calm_tracking c); [|done]. left. exact (same_acks E).
Qed.

Lemma own_sound e c c' : own_step e c c' ->
  (ackPending (acks c) <> 0 -> acks_right c) -> Healthy c -> Sound c'.
Proof.
  intros Hstep HA Hh. pose proof (h_sound _ Hh) as Hs. revert Hs.
  destruct Hstep; try unmoved; try (by apply sendFrames_sounds).
  - intros _. by apply ackTimerFired_sound.
  - unfold lossTimerFired, onLossTimer.
    match goal with |- context [detectLostLocked ?a ?b ?d ?pm] => pose proof (detect_frames a b d pm) as Hd;
      destruct (detectLostLocked a b d pm) as [pm' ls] end.
    apply report_sounds; [done|]. etrans; [|exact Hd]. by apply frames_eq.
  - by apply onPtoTimeout_sounds.
  - apply flushLost_sounds.
  - unfold onIdleCheck, armIdleCheck. repeat case_match; [by apply closeInternal_sounds | done | unmoved].
  - unfold OpenStream. repeat case_match; try done. unmoved.
  - match goal with H : AcceptStream _ _ _ _ |- _ => destruct H end; try done. unmoved.
  - by apply closeInternal_sounds.
  - unfold observeAddr. repeat case_match; try done. all: unmoved.
  - unfold sendControlTo. apply send_sounds; try done. intros Hs. assert (sendable 0 0 [PathChallengeFrame d]) by by apply one_sendable.
    split_and!; try done. by apply sendable_within, one_probe_free.
  - unfold migrate_start. intros Hs. apply sendFrames_sounds; try done. revert Hs. unmoved.
  - unfold migrate_finish in *. repeat case_match; simplify_eq; unmoved.
  - unfold enqueue. case_match; unmoved.
Qed.

Lemma own_step_healthy e c c' : own_step e c c' ->
  (ackPending (acks c) <> 0 -> acks_right c) -> Healthy c -> Healthy c'.
Proof.
  intros Hs HA Hh. split; [by eapply own_sound | |].
  - apply (moves_ids c); [by eapply conn_step_moves, step_own | apply Hh].
  - destruct (h_recvd _ Hh) as [S HT]. exists S. by rewrite (proj1 (own_acks _ _ _ Hs)).
Qed.

Lemma new_healthy now local remote la ra i h : CID_ok local -> CID_ok remote ->
  Healthy (NewConnection now local remote la ra i h).
Proof.
  intros Hl Hr. split.
  - split; try done. intros p. unfold deref. cbn. rewrite lookup_total_empty.
    split_and!; [|done | intros _ n; apply not_elem_of_nil]. split_and!; [constructor | exact (Nat.le_0_l 1) | done | done].
  - split; [by destruct i | apply map_Forall_empty].
  - exists ∅. apply newTracker_tracks.
Qed.

End Sending.

Lemma healthy_impl (Q Q' : Z -> Z -> StreamFrame -> Prop) (A A' : AckFrame -> Prop) c :
  (forall dst src f, Q dst src f -> Q' dst src f) -> (forall f, A f -> A' f) -> Healthy Q A c -> Healthy Q' A' c.
Proof.
  intros HQ HA [[H1 H2 H3 H4 H5] Hi Ht].
  assert (HL : forall dst src f, licensed Q A dst src f -> licensed Q' A' dst src f) by (intros ? ? [] ?; cbn; auto; by apply HQ).
  split; [split; try done | done | done].
  - eapply Forall_impl; [exact H1|]. intros d (pkt & ? & ? & ? & ? & ? & ? & Hf). exists pkt. split_and!; try done.
    eapply Forall_impl; [exact Hf|]. intros f. apply HL.
  - intros p. destruct (H2 p) as [(Hf & ?) ?]. split; [split; [|done] | done].
    eapply Forall_impl; [exact Hf|]. intros f [? ?]. auto.
Qed.

(** Without saying anything of the frames, every run. *)
Definition any_frame (dst src : Z) (f : StreamFrame) : Prop := True.
Definition any_ack (f : AckFrame) : Prop := True.

Lemma reach_healthy e c : conn_reach e c -> Healthy any_frame any_ack c.
Proof.
  induction 1 as [now local remote la ra i h Hl Hr|c c' _ IH Hstep]; [by apply new_healthy|].
  destruct Hstep as [o now pkt Hnow Hp|now id s s' calls out Hnow Hl Hop|c' Hown].
  - by apply packet_step_healthy.
  - eapply stream_step_healthy; try done. apply Forall_true. by intros [].
  - by eapply own_step_healthy.
Qed.

Lemma wire_within exact c data to pkt : conn_reach exact c -> (data, to) ∈ wire c ->
  UnmarshalPacket data = Ok pkt -> within data (Frames pkt).
Proof.
  intros Hr Hin Hu. pose proof (so_wire _ _ _ (h_sound _ _ _ (reach_healthy _ _ Hr))) as Hw.
  rewrite Forall_forall in Hw. destruct (Hw _ Hin) as (p & Hp & E & _ & _ & _ & H & _). cbn [fst] in E, H. subst data.
  rewrite unmarshal_marshal in Hu by done. by injection Hu as <-.
Qed.

(** ** Property *)

(** C9. Everything a connection sends can be read: in every run, every datagram
    handed to the socket (new data, re-sends, pieces of split packets, probes,
    acknowledgements, control packets) is accepted by the decoder as a packet
    of the current version with the connection's IDs, and decoding gives
    back exactly the packet that was encoded. It is no larger than the largest
    datagram the discovery of the path's MTU ever tries, unless it announces a
    close. *)
Theorem wire_decodes (exact : bool) (c : Connection) (data : list byte) (to : option addr) :
  conn_reach exact c -> (data, to) ∈ wire c ->
  exists pkt, UnmarshalPacket data = Ok (received (length data) pkt) /\ data = MarshalPacket pkt /\
    Packet_ok pkt /\ Version pkt = VersionCurrent /\
    DestinationCID pkt = remoteCID c /\ SourceCID pkt = localCID c /\
    (Z.of_nat (length data) <= MaxDatagramSize \/
     exists code ft reason, ConnectionCloseFrame code ft reason ∈ Frames pkt).
Proof.
  intros Hr Hin. pose proof (so_wire _ _ _ (h_sound _ _ _ (reach_healthy _ _ Hr))) as Hw.
  rewrite Forall_forall in Hw. destruct (Hw _ Hin) as (pkt & Hp & E & H1 & H2 & H3 & H4 & _). cbn [fst] in E, H4. subst data.
  exists pkt. split_and!; try done. by apply unmarshal_marshal.
Qed.

(** The first datagram of the sample run, its SYN. *)
Lemma wire_decodes_witness : exists pkt,
  UnmarshalPacket (encoded run_new 0 0 0 [StreamF (MkStreamFrame false true 0 [])])
    = Ok (received 46 pkt) /\ Frames pkt = [StreamF (MkStreamFrame false true 0 [])].
Proof.
  destruct (wire_decodes true (run_write 3000) (encoded run_new 0 0 0 [StreamF (MkStreamFrame false true 0 [])])
    (Some "peer"%string)) as (pkt & E & _).
  - apply run_write_reach.
  - apply (list_elem_of_lookup_2 _ 0). vm_compute. reflexivity.
  - exists pkt. split; [exact E|]. destruct pkt. vm_compute in E. by injection E.
Defined.
