(* ===== verification/History.v ===== *)
(** * What a connection has sent stays sent

    The log of the wire only grows, and a connection's own operations put nothing
    into its queue of received packets. *)

From stdpp Require Import strings.
From S2P Require Import Prelude Constants Cid Frame Packet AckTracker FlowControl Mtud.
From S2P Require Import PacketManager AckExchange Stream Pacing Congestion Connection Recovery ConnReach.
From S2P Require Import Dispatch Wire.

(** ** The wire *)

Definition logs (c c' : Connection) : Prop := wire c `prefix_of` wire c' /\ inbound c' = inbound c.

#[export] Instance logs_preorder : PreOrder logs.
Proof.
  split; [by intros c; split|]. intros a b c [H1 E1] [H2 E2]. split; [by etrans | congruence].
Qed.

(** Where both are the same. *)
Lemma logs_eq c c' : (wire c', inbound c') = (wire c, inbound c) -> logs c c'.
Proof. intros [= E1 E2]. unfold logs. by rewrite E1, E2. Qed.

(** A state that differs in no more than fields the wire is not among, or the
    result of an operation known to log. *)
Ltac logged L :=
  lazymatch goal with
  | |- logs _ (transmit _ _ (add_sent _ ?x)) => trans x; [apply logs_eq; reflexivity | apply L]
  | |- logs _ (flushLost _ ?x) => trans x; [apply logs_eq; reflexivity | apply L]
  | |- logs _ (retransmitPacket _ _ ?x) => trans x; [apply logs_eq; reflexivity | apply L]
  | |- logs _ (exec_calls _ _ ?x) => trans x; [apply logs_eq; reflexivity | apply L]
  | |- logs _ (sendPacket _ _ _ _ ?x) => trans x; [apply logs_eq; reflexivity | apply L]
  | |- logs _ _ => apply logs_eq; reflexivity
  end.

Lemma logs_fold {X} (f : Connection -> X -> Connection) (l : list X) c :
  (forall c x, logs c (f c x)) -> logs c (fold_left f l c).
Proof. intros Hf. revert c. induction l as [|x l IH]; intros c; cbn; [done|]. etrans; [apply Hf | apply IH]. Qed.

Lemma transmit_logs data to c : logs c (transmit data to c).
Proof. unfold transmit. case_match; [|done]. split; [by apply prefix_app_r | done]. Qed.

Lemma send_logs data to n c : logs c (transmit data to (add_sent n c)).
Proof. exact (transmit_logs data to (add_sent n c)). Qed.

Lemma sendPacket_logs now dst src frames c : logs c (sendPacket now dst src frames c).
Proof.
  unfold sendPacket. cbv zeta. destruct (existsb bears_data frames).
  - destruct (amplifies _ _); [by apply logs_eq|]. exact (send_logs _ _ _ (track now dst src frames c)).
  - destruct (amplifies _ _); [done | apply send_logs].
Qed.

Lemma sendFrames_logs now frames c : logs c (sendFrames now frames c).
Proof. unfold sendFrames. apply sendPacket_logs. Qed.

Lemma sendStreamFrames_logs now sid rid o data k syn c : logs c (sendStreamFrames now sid rid o data k syn c).
Proof.
  unfold sendStreamFrames. generalize (chunk_frames (length data) (Z.to_nat k) o syn false data). intros fs.
  assert (E : forall st, (wire (fold_left (prepare_all now rid sid) fs st).1, inbound (fold_left (prepare_all now rid sid) fs st).1) = (wire st.1, inbound st.1)).
  { induction fs as [|f fs IH]; intros [c1 bufs]; [done|]. cbn [fold_left]. rewrite IH.
    unfold prepare_all, prepareDataPacket. cbv zeta. by destruct (amplifies _ _). }
  specialize (E (c, [])). destruct (fold_left _ fs _) as [c1 bufs]. cbn [fst] in E. apply logs_eq in E. etrans; [exact E|].
  unfold writeDatagrams. case_match; [|done]. split; [by apply prefix_app_r | done].
Qed.

Lemma exec_calls_logs now calls c : logs c (exec_calls now calls c).
Proof.
  apply logs_fold. clear. intros c []; cbn [exec_call]; unfold sendStreamFrame, sendFrames;
    first [apply sendStreamFrames_logs | apply sendPacket_logs].
Qed.

Lemma fitToPath_logs p c : logs c (fitToPath p c).1.
Proof. apply logs_eq. unfold fitToPath. by repeat case_match. Qed.

Lemma retransmit_logs p seq c : logs c (retransmitPacket p seq c).
Proof. unfold retransmitPacket. apply send_logs. Qed.

Lemma flush_round_logs now p rest c : logs c (flush_round now p rest c).1.
Proof.
  unfold flush_round. destruct (closeCh (life c)); [by apply logs_eq|]. destruct (sp_IsAcked _); [by apply logs_eq|].
  assert (E : logs c (if Current (c_mtu c) <? sp_Size (deref (c_pm c) p) then fitToPath p c else (c, [])).1)
    by (case_match; [apply fitToPath_logs | done]).
  destruct (if Current (c_mtu c) <? sp_Size (deref (c_pm c) p) then fitToPath p c else (c, [])) as [c1 pieces]. cbn [fst] in E.
  etrans; [exact E|]. clear E. repeat case_match; cbn [fst]; logged retransmit_logs.
Qed.

Lemma flush_loop_logs now fuel : forall c c', flush_loop fuel now c = Some c' -> logs c c'.
Proof.
  induction fuel as [|fuel IH]; intros c c'; cbn [flush_loop];
    destruct (lostQueue (loss c)) as [|p rest]; try done; try (by intros [= <-]).
  pose proof (flush_round_logs now p rest c) as E. destruct (flush_round now p rest c) as [c1 more].
  cbn [fst] in E. destruct more; [|by intros [= <-]]. intros H. etrans; [exact E | by apply IH].
Qed.

Lemma flushLost_logs now c : logs c (flushLost now c).
Proof.
  unfold flushLost. destruct (flush_loop _ _ _) as [c'|] eqn:E; [|by apply logs_eq]. apply flush_loop_logs in E. exact E.
Qed.

Lemma onPacketsLost_logs now ls c : logs c (onPacketsLost now ls c).
Proof.
  unfold onPacketsLost. destruct (fold_left _ ls _) as [m data]. repeat case_match; logged flushLost_logs.
Qed.

Lemma report_logs now res c : logs c (report_lost now res c).
Proof.
  unfold report_lost. destruct res as [pm [|p l]]; [by apply logs_eq|]. exact (onPacketsLost_logs now (p :: l) (set_pm pm c)).
Qed.

Lemma probeMTU_logs now c : logs c (probeMTU now c).
Proof.
  unfold probeMTU. repeat case_match; logged send_logs.
Qed.

Lemma probe_packet_logs now c p : logs c (probe_packet now c p).
Proof.
  unfold probe_packet. pose proof (fitToPath_logs p c) as E. destruct (fitToPath p c) as [c1 ps]. cbn [fst] in E.
  etrans; [exact E|]. apply logs_fold. clear. intros c p. unfold probe_piece.
  destruct (Resend now (c_pm c) p) as [pm [seq [|]]]; [|logged retransmit_logs].
  exact (retransmit_logs p seq (bump (set_pm pm c))).
Qed.

Section Handling.
Context {o : RangeOrder}.

Lemma onPtoTimeout_logs now c : logs c (onPtoTimeout now c).
Proof.
  unfold onPtoTimeout, onPTO. cbv zeta.
  match goal with |- logs c (set_cc _ (fold_left _ _ ?x)) => trans x; [case_match; by apply logs_eq|] end.
  match goal with |- logs ?x (set_cc _ (fold_left ?f ?l ?x)) => exact (logs_fold f l x (probe_packet_logs now)) end.
Qed.

Lemma handleAckFrame_logs now f c : logs c (handleAckFrame now f c).
Proof.
  rewrite handleAckFrame_eq. destruct (HandleAckFrame _ _ _) as [pm acked]. destruct acked as [|p l]; [by apply logs_eq|].
  etrans; [|apply probeMTU_logs]. etrans; [|apply flushLost_logs]. etrans; [|apply report_logs].
  unfold count_acked. destruct (fold_left _ _ _) as [[[m b] la] lg]. by apply logs_eq.
Qed.

Lemma on_stream_logs now id op c : logs c (on_stream now id op c).
Proof.
  rewrite on_stream_eq. case_match; [logged exec_calls_logs | done].
Qed.

Lemma on_found_logs now pkt op c : logs c (on_found now pkt op c).
Proof. unfold on_found. case_match; [apply on_stream_logs | done]. Qed.

Lemma closeInternal_logs now code reason announce c : logs c (closeInternal now code reason announce c).
Proof.
  unfold closeInternal. case_match; [done|]. cbv zeta. destruct announce; [|by apply logs_eq].
  exact (sendFrames_logs now [ConnectionCloseFrame code 0 reason] (close_begin c)).
Qed.

Lemma path_response_logs data c : logs c (handlePathResponse data c).
Proof. unfold handlePathResponse, completeMigration. repeat case_match; simplify_eq; by apply logs_eq. Qed.

Lemma handleFrame_logs now pkt c f : logs c (handleFrame now pkt c f).
Proof.
  destruct f; cbn [handleFrame];
    lazymatch goal with
    | |- logs ?x ?x => reflexivity
    | |- logs _ (sendFrames _ _ _) => apply sendFrames_logs
    | |- logs _ (on_found _ _ _ _) => apply on_found_logs
    | |- logs _ (handleAckFrame _ _ _) => apply handleAckFrame_logs
    | |- logs _ (CloseConn _ _) => unfold CloseConn; apply closeInternal_logs
    | |- logs _ (handlePathResponse _ _) => apply path_response_logs
    | |- logs _ (set_fc _ _) => apply logs_eq; reflexivity
    | |- logs _ (if _ then _ else _) => case_match; by apply logs_eq
    | |- _ => idtac
    end.
  unfold handleStreamFrame. assert (E : logs c (stream_for pkt f c).1).
  { apply logs_eq. unfold stream_for, accept_incoming. by repeat case_match; simplify_eq. }
  destruct (stream_for pkt f c) as [c1 [id|]]; cbn [fst] in E; [|exact E]. etrans; [exact E|].
  etrans; [|case_match; [apply on_stream_logs | reflexivity]]. case_match; [apply on_stream_logs | done].
Qed.

Lemma noteReceived_logs now pkt c : logs c (noteReceived now pkt c).
Proof.
  unfold noteReceived. destruct (AckTracker.add _ _) as [r ooo]. cbv zeta. case_match; [|by apply logs_eq].
  destruct (takeAckLocked _ _) as [a f]. exact (sendPacket_logs now _ _ _ (set_acks a c)).
Qed.

Lemma HandlePacket_logs now pkt c : logs c (HandlePacket now pkt c).
Proof.
  unfold HandlePacket. cbv zeta. etrans; [|case_match; [apply noteReceived_logs | reflexivity]].
  exact (logs_fold (handleFrame now pkt) (Frames pkt) (note_arrival now pkt c) (handleFrame_logs now pkt)).
Qed.
End Handling.

(** ** Any operation *)

Lemma own_logs e c c' : own_step e c c' -> wire c `prefix_of` wire c' /\
  (inbound c' = inbound c \/ (exists pkt, inbound c = pkt :: inbound c') \/ exists pkt, inbound c' = inbound c ++ [pkt]).
Proof.
  assert (L : logs c c' -> wire c `prefix_of` wire c' /\ (inbound c' = inbound c \/
    (exists pkt, inbound c = pkt :: inbound c') \/ exists pkt, inbound c' = inbound c ++ [pkt])) by (intros []; auto).
  destruct 1 as [now src dst _ _ _|o now _|o now _ _|now _|now _| |ctx c' r Ha|now _|now _|now code reason _ _ _|now a random
    |d a _|now a d _ _|a d c' ok _ Hm|a d _|pkt|pkt rest E|].
  1-15, 18: apply L; clear L.
  - unfold ackTimerFired. cbv zeta. case_match; [by apply logs_eq|]. destruct (takeAckLocked _ _) as [x f]. logged sendPacket_logs.
  - unfold lossTimerFired. apply report_logs.
  - apply onPtoTimeout_logs.
  - apply flushLost_logs.
  - unfold onIdleCheck. case_match; [apply closeInternal_logs|]. unfold armIdleCheck. repeat case_match; by apply logs_eq.
  - unfold OpenStream. repeat case_match; by apply logs_eq.
  - destruct Ha; by apply logs_eq.
  - unfold Ping. apply sendFrames_logs.
  - apply sendFrames_logs.
  - unfold CloseWithError. apply closeInternal_logs.
  - unfold observeAddr. repeat case_match; by apply logs_eq.
  - unfold sendControlTo. cbv zeta. apply send_logs.
  - unfold migrate_start, sendFrames. cbv zeta. logged sendPacket_logs.
  - unfold migrate_finish in Hm. repeat case_match; simplify_eq; by apply logs_eq.
  - by apply logs_eq.
  - by apply logs_eq.
  - unfold enqueue. case_match; cbn; eauto.
  - rewrite E. cbn. eauto.
Qed.

Lemma stream_call_logs now id s calls c : logs c (exec_calls now calls (set_stream id s c)).
Proof. etrans; [|apply exec_calls_logs]. by apply logs_eq. Qed.

Lemma conn_step_wire e c c' : conn_step e c c' -> wire c `prefix_of` wire c'.
Proof.
  destruct 1 as [o now pkt _ _|now id s s' calls out _ _ _|c' H]; [apply HandlePacket_logs | apply stream_call_logs | by apply own_logs in H as [? _]].
Qed.
