(* ===== verification/Ledger.v ===== *)
(** * What the sender's books say of the wire (src/connection.go, src/packet_manager.go)

    Everything a connection does to the packets it has sent is a sequence of a
    few steps on its packet manager, the packets it still has to send again and
    the log of the wire ([ledger_step]): a packet is tracked, tracked again under
    a new number, put on the wire, split, acknowledged, or declared lost. Two
    facts follow that link an acknowledgement to what it acknowledges: a numbered
    packet on the wire carries the frames tracked under its number, and no part
    of an acknowledged packet was ever sent in smaller pieces. *)

From stdpp Require Import strings.
From S2P Require Import Prelude Constants Cid Frame Packet AckTracker FlowControl Mtud.
From S2P Require Import PacketManager AckExchange Stream Pacing Congestion Connection Recovery ConnReach.
From S2P Require Import Tiling Dispatch Wire.

Lemma nodup_submseteq {A} (l k : list A) : l ⊆+ k -> NoDup k -> NoDup l.
Proof. intros [r ->]%submseteq_Permutation Hn. by apply NoDup_app in Hn as [? _]. Qed.

(** ** Chunks of stream data *)

(** A packet carries the chunk [x] of the stream [src]. *)
Definition chunk_in (v : SentPacket) (src : Z) (x : Z * list byte) : Prop :=
  exists f, StreamF f ∈ sp_Frames v /\ Data f <> [] /\ sp_SourceStreamID v = src /\ x = chunk f.

(** Every chunk of the stream ever put into a packet. *)
Definition chunks_of (pm : PacketManager) (src : Z) (x : Z * list byte) : Prop := exists p, chunk_in (deref pm p) src x.

(** Put into a packet that is re-sent when it is lost. *)
Definition data_chunk (pm : PacketManager) (src : Z) (x : Z * list byte) : Prop :=
  exists p, sp_Probe (deref pm p) = false /\ chunk_in (deref pm p) src x.

Definition overlap (x y : Z * list byte) : Prop := x.1 < chunk_end y /\ y.1 < chunk_end x.
Definition inside (x y : Z * list byte) : Prop := y.1 <= x.1 /\ chunk_end x <= chunk_end y.

Lemma chunk_pos v src x : chunk_in v src x -> x.1 < chunk_end x.
Proof. intros (f & _ & Hd & _ & ->). unfold chunk_end. cbn. destruct (Data f); [done|]. cbn. lia. Qed.

Lemma same_load_chunk v v' src x : same_load v v' -> chunk_in v src x <-> chunk_in v' src x.
Proof. intros (_ & E1 & _ & _ & E2). unfold chunk_in. by rewrite E1, E2. Qed.

Lemma no_chunk_none pm p src x : packets pm !! p = None -> ~ chunk_in (deref pm p) src x.
Proof. intros E (f & Hf & _). rewrite deref_none in Hf by done. by apply not_elem_of_nil in Hf. Qed.

(** The packets [p] with their chunks [C], of which [L] are still in use: two
    chunks of a stream are apart or one is inside the other, a chunk in use is
    inside all it overlaps, and two packets in use are apart. *)
Record tree (C : ptr -> Z -> Z * list byte -> Prop) (L : ptr -> Prop) : Prop := {
  tr_pos : forall p src x, C p src x -> x.1 < chunk_end x;
  tr_one : forall p src x y, C p src x -> C p src y -> x = y;
  tr_lam : forall p q src x y, C p src x -> C q src y -> overlap x y -> inside x y \/ inside y x;
  tr_leaf : forall p q src x y, L p -> C p src x -> C q src y -> overlap x y -> inside x y;
  tr_apart : forall p q src x y, L p -> L q -> p <> q -> C p src x -> C q src y -> ~ overlap x y
}.

Lemma tree_mono C C' (L L' : ptr -> Prop) : (forall p src x, C' p src x <-> C p src x) -> (forall p, L' p -> L p) ->
  tree C L -> tree C' L'.
Proof.
  intros HC HL [H0 H1 H2 H3 H4]. split; setoid_rewrite HC; eauto.
Qed.

(** A packet whose chunk lies beyond those of its stream. *)
Lemma tree_add C C' (L L' : ptr -> Prop) p0 : tree C L ->
  (forall p src x, p <> p0 -> C' p src x <-> C p src x) -> (forall p, L' p -> p = p0 \/ L p) ->
  (forall src x, ~ C p0 src x) -> (forall src x, C' p0 src x -> x.1 < chunk_end x) ->
  (forall src x y, C' p0 src x -> C' p0 src y -> x = y) ->
  (forall p src x y, C' p0 src x -> C p src y -> chunk_end y <= x.1) -> tree C' L'.
Proof.
  intros [H0 H1 H2 H3 H4] HC HL Hno Hpos Hone Hbeyond.
  assert (Hold : forall p src x, p <> p0 -> C' p src x -> C p src x) by (intros; by apply HC).
  assert (Hnew : forall q src x y, q <> p0 -> C' p0 src x -> C' q src y -> overlap x y \/ overlap y x -> False).
  { intros q src x y Hq Hx Hy%Hold Ho; [|done]. specialize (Hbeyond q src x y Hx Hy). unfold overlap in Ho. lia. }
  assert (Hself : forall src x y, C' p0 src x -> C' p0 src y -> inside x y).
  { intros src x y Hx Hy. rewrite (Hone src x y Hx Hy). unfold inside. lia. }
  split.
  - intros p src x Hx. destruct (decide (p = p0)) as [->|Hp]; [by apply (Hpos src) | eauto].
  - intros p src x y Hx Hy. destruct (decide (p = p0)) as [->|Hp]; eauto.
  - intros p q src x y Hx Hy Ho. destruct (decide (p = p0)) as [->|Hp], (decide (q = p0)) as [->|Hq]; eauto.
    + exfalso. eauto.
    + exfalso. eauto.
  - intros p q src x y Hp' Hx Hy Ho. destruct (decide (p = p0)) as [->|Hp], (decide (q = p0)) as [->|Hq]; eauto.
    + exfalso. eauto.
    + exfalso. eauto.
    + destruct (HL p Hp'); [done | eauto].
  - intros p q src x y Hp' Hq' Hne Hx Hy Ho.
    destruct (decide (p = p0)) as [->|Hp], (decide (q = p0)) as [->|Hq]; eauto.
    destruct (HL p Hp'), (HL q Hq'); try done. eapply (H4 p q); eauto.
Qed.

(** A packet in use is replaced by pieces of it. *)
Lemma tree_split C C' (L L' P : ptr -> Prop) p0 : tree C L -> (forall p, P p \/ ~ P p) ->
  (forall p src x, ~ P p -> C' p src x <-> C p src x) -> (forall p src x, P p -> ~ C p src x) ->
  L p0 -> ~ L' p0 -> (forall p, L' p -> P p \/ L p) ->
  (forall p src x, P p -> C' p src x -> x.1 < chunk_end x /\ exists y, C p0 src y /\ inside x y) ->
  (forall p src x y, P p -> C' p src x -> C' p src y -> x = y) ->
  (forall p q src x y, P p -> P q -> p <> q -> C' p src x -> C' q src y -> ~ overlap x y) -> tree C' L'.
Proof.
  intros [H0 H1 H2 H3 H4] Hdec HC Hno Hp0 Hp0' HL Hin Hone Hap.
  assert (Hold : forall p src x, ~ P p -> C' p src x -> C p src x) by (intros; by apply HC).
  assert (Hsub : forall p q src x z, P p -> ~ P q -> C' p src x -> C' q src z -> overlap x z -> inside x z).
  { intros p q src x z Hp Hq Hx Hz%Hold Ho; [|done]. destruct (Hin p src x Hp Hx) as (Hpos & y & Hy & Hi).
    assert (inside y z) by (apply (H3 p0 q src); try done; unfold overlap, inside in *; lia). unfold inside in *. lia. }
  assert (Hfar : forall p q src x z, P p -> ~ P q -> L q -> q <> p0 -> C' p src x -> C' q src z -> ~ overlap x z).
  { intros p q src x z Hp Hq HLq Hne Hx Hz%Hold Ho; [|done]. destruct (Hin p src x Hp Hx) as (Hpos & y & Hy & Hi).
    apply (H4 p0 q src y z); try done. unfold overlap, inside in *. lia. }
  assert (Hsym : forall x y, overlap x y -> overlap y x) by (unfold overlap; lia).
  assert (Hrefl : forall x, inside x x) by (unfold inside; lia).
  assert (Hlive : forall q, L' q -> ~ P q -> L q /\ q <> p0).
  { intros q Hq Hnp. split; [by destruct (HL q Hq)|]. intros ->. done. }
  assert (Hpp : forall p q src x y, P p -> P q -> C' p src x -> C' q src y -> overlap x y -> inside x y).
  { intros p q src x y Hp Hq Hx Hy Ho. destruct (decide (p = q)) as [<-|Hne]; [by rewrite (Hone p src x y)|].
    destruct (Hap p q src x y); done. }
  split.
  - intros p src x Hx. destruct (Hdec p) as [Hp|Hp]; [by apply (Hin p src) | eauto].
  - intros p src x y Hx Hy. destruct (Hdec p); eauto.
  - intros p q src x y Hx Hy Ho. destruct (Hdec p) as [Hp|Hp], (Hdec q) as [Hq|Hq]; eauto.
  - intros p q src x y HLp Hx Hy Ho. destruct (Hdec p) as [Hp|Hp], (Hdec q) as [Hq|Hq]; eauto.
    + destruct (Hlive p HLp Hp). destruct (Hfar q p src y x); eauto.
    + destruct (Hlive p HLp Hp). eauto.
  - intros p q src x y HLp HLq Hne Hx Hy Ho. destruct (Hdec p) as [Hp|Hp], (Hdec q) as [Hq|Hq].
    + by apply (Hap p q src x y).
    + destruct (Hlive q HLq Hq). by apply (Hfar p q src x y).
    + destruct (Hlive p HLp Hp). apply (Hfar q p src y x); eauto.
    + destruct (Hlive p HLp Hp), (Hlive q HLq Hq). apply (H4 p q src x y); eauto.
Qed.

(** ** The steps *)

(** A packet that is acknowledged when it arrives. *)
Definition elicits (pkt : Packet) : bool := isDataBearing pkt || isNumberedProbe pkt.

Definition matches (pkt : Packet) (v : SentPacket) : Prop :=
  Frames pkt = sp_Frames v /\ DestinationStreamID pkt = sp_DestinationStreamID v /\
  SourceStreamID pkt = sp_SourceStreamID v.

(** [waiting]: the packets that are to be sent again. *)
Record Books := MkBooks {
  b_pm : PacketManager;
  waiting : list ptr;
  b_wire : list datagram
}.

Definition books (hand : list ptr) (c : Connection) : Books := MkBooks (c_pm c) (queue c ++ hand) (wire c).

(** Only [p] is tracked under a number it was not tracked under before, the next. *)
Definition numbers (p : ptr) (pm pm' : PacketManager) : Prop := forall s q, sentPackets pm' !! s = Some q ->
  (s = nextSeq pm /\ q = p) \/ sentPackets pm !! s = Some q.

(** The data of [v] lies behind all of its stream's. *)
Definition beyond (pm : PacketManager) (v : SentPacket) : Prop := forall src x y,
  chunk_in v src x -> chunks_of pm src y -> chunk_end y <= x.1.

(** A packet has one frame at most, and is a probe exactly when it bears no data. *)
Definition marked (v : SentPacket) : Prop :=
  (length (sp_Frames v) <= 1)%nat /\ sp_Probe v = negb (existsb bears_data (sp_Frames v)).

(** [piece] makes packets of the chunks of [v]. *)
Definition cuts (v : SentPacket) (piece : StreamFrame -> SentPacket) : Prop := forall g,
  sp_Frames (piece g) = [StreamF g] /\ sp_SourceStreamID (piece g) = sp_SourceStreamID v /\
  sp_IsAcked (piece g) = false /\ sp_Probe (piece g) = false.

Section Steps.
Context (heeded : AckFrame -> Prop).

Inductive ledger_step : Books -> Books -> Prop :=
  | ls_track pm pm' p v w wi : packets pm !! p = None -> enters p v pm pm' -> numbers p pm pm' ->
      marked v -> beyond pm v -> ledger_step (MkBooks pm w wi) (MkBooks pm' w wi)
  | ls_resend pm pm' p w w' wi : p ∈ tracked pm ++ w -> enters p (deref pm p) pm pm' -> numbers p pm pm' ->
      w' ⊆+ w -> p ∉ w' -> ledger_step (MkBooks pm w wi) (MkBooks pm' w' wi)
  | ls_emit pm w wi p pkt to : Packet_ok pkt -> sentPackets pm !! Sequence pkt = Some p ->
      matches pkt (deref pm p) ->
      ledger_step (MkBooks pm w wi) (MkBooks pm w (wi ++ [(MarshalPacket pkt, to)]))
  | ls_control pm w wi pkt to : Packet_ok pkt -> elicits pkt = false ->
      ledger_step (MkBooks pm w wi) (MkBooks pm w (wi ++ [(MarshalPacket pkt, to)]))
  | ls_split pm pm' w w' wi p sf k syn fin piece pieces : p ∈ tracked pm ++ w ->
      sp_Frames (deref pm p) = [StreamF sf] -> 0 <= Offset sf -> chunk_end (chunk sf) < 2 ^ 62 -> (0 < k)%nat ->
      cuts (deref pm p) piece ->
      allocates (piece <$> chunk_frames (length (Data sf)) k (Offset sf) syn fin (Data sf)) (Drop pm p) pm' pieces ->
      w' ⊆+ pieces ++ w -> p ∉ w' -> ledger_step (MkBooks pm w wi) (MkBooks pm' w' wi)
  | ls_ack pm w wi now f : heeded f -> is_u32 (LargestAcked f) ->
      ledger_step (MkBooks pm w wi) (MkBooks (HandleAckFrame now pm f).1 w wi)
  | ls_lost pm pm' ls w w' wi : removes ls pm pm' -> packets pm' = packets pm ->
      largestAcked pm' = largestAcked pm /\ (forall s q, sentPackets pm' !! s = Some q -> sentPackets pm !! s = Some q) ->
      w' ⊆+ w ++ ls ->
      ledger_step (MkBooks pm w wi) (MkBooks pm' w' wi).

(** ** The invariant *)

Definition in_use (b : Books) (p : ptr) : Prop :=
  p ∈ tracked (b_pm b) ++ waiting b \/ sp_IsAcked (deref (b_pm b) p) = true.

(** A packet that elicits an acknowledgement has a number that was given out,
    and carries what is tracked under it. *)
Definition stamped (pm : PacketManager) (d : datagram) : Prop := exists pkt, Packet_ok pkt /\
  d.1 = MarshalPacket pkt /\ (elicits pkt = true -> Sequence pkt < nextSeq pm /\
    (exists p, is_Some (packets pm !! p) /\ matches pkt (deref pm p)) /\
    forall p, sentPackets pm !! Sequence pkt = Some p -> matches pkt (deref pm p)).

Record Orderly (b : Books) : Prop := {
  or_pm : PM_ok (b_pm b);
  or_nodup : NoDup (tracked (b_pm b) ++ waiting b);
  or_wait : forall p, p ∈ waiting b -> is_Some (packets (b_pm b) !! p) /\ sp_IsAcked (deref (b_pm b) p) = false;
  or_tree : tree (fun p => chunk_in (deref (b_pm b) p)) (in_use b);
  or_wire : Forall (stamped (b_pm b)) (b_wire b)
}.

Lemma matches_load pkt v v' : same_load v v' -> matches pkt v -> matches pkt v'.
Proof. intros (_ & E1 & _ & E2 & E3) (M1 & M2 & M3). unfold matches. rewrite E1, E2, E3. done. Qed.

Lemma stamped_keeps pm pm' d : PM_ok pm -> loads pm pm' -> nextSeq pm <= nextSeq pm' ->
  (forall s q, sentPackets pm' !! s = Some q -> s < nextSeq pm -> sentPackets pm !! s = Some q) ->
  stamped pm d -> stamped pm' d.
Proof.
  intros Hok HL Hn Hs (pkt & H1 & H2 & H3). exists pkt. split_and!; try done. intros He.
  destruct (H3 He) as (Hlt & (p & Hp & Hm) & Ht). split_and!; [lia | |].
  - exists p. destruct (HL p Hp) as [? HE]. split; [done | by eapply matches_load].
  - intros q Hq%Hs; [|done]. pose proof (proj1 (pm_tracked _ Hok _ _ Hq)) as Hst. destruct (HL q Hst) as [_ HE].
    eapply matches_load; [exact HE | auto].
Qed.

Lemma chunk_stored pm p src x : chunk_in (deref pm p) src x -> is_Some (packets pm !! p).
Proof. intros Hx. destruct (packets pm !! p) eqn:E; [by eauto|]. by destruct (no_chunk_none pm p src x E). Qed.

(** Packets that stay as they were carry what they carried. *)
Lemma loads_chunk pm pm' p src x : loads pm pm' -> is_Some (packets pm !! p) ->
  chunk_in (deref pm' p) src x <-> chunk_in (deref pm p) src x.
Proof. intros HL Hp. destruct (HL p Hp) as [_ HE]. symmetry. by apply same_load_chunk. Qed.

Lemma loads_chunks pm pm' src x : loads pm pm' -> chunks_of pm src x -> chunks_of pm' src x.
Proof. intros HL [p Hp]. exists p. apply (loads_chunk pm); [done | by eapply chunk_stored | done]. Qed.

Lemma loads_data pm pm' src x : loads pm pm' -> data_chunk pm src x -> data_chunk pm' src x.
Proof.
  intros HL (p & Hp & Hx). pose proof (chunk_stored _ _ _ _ Hx) as Hs. exists p. split; [|by apply (loads_chunk pm)].
  destruct (HL p Hs) as [_ (_ & _ & E & _)]. congruence.
Qed.

(** If moreover nothing is new. *)
Lemma loads_back pm pm' p src x : loads pm pm' -> (is_Some (packets pm' !! p) -> is_Some (packets pm !! p)) ->
  chunk_in (deref pm' p) src x <-> chunk_in (deref pm p) src x.
Proof.
  intros HL Hb. split; intros Hx; pose proof (chunk_stored _ _ _ _ Hx) as Hs.
  - by apply (loads_chunk pm pm'), Hx; auto.
  - by apply (loads_chunk pm pm').
Qed.

Lemma track_orderly pm pm' p v w wi : packets pm !! p = None -> enters p v pm pm' -> numbers p pm pm' ->
  marked v -> beyond pm v -> Orderly (MkBooks pm w wi) -> Orderly (MkBooks pm' w wi).
Proof.
  intros Hp En Hnum [Hlen _] Hb [O1 O2 O3 O4 O5]. cbn in *. pose proof (enters_loads p v pm pm' En (or_intror Hp)) as HL.
  pose proof (en_load _ _ _ _ En) as Hv.
  assert (Hpw : p ∉ w) by (intros [[? ?] _]%O3; congruence).
  assert (Hpt : p ∉ tracked pm) by (intros [[? ?] _]%tracked_fact; [congruence | done]).
  assert (Hd : forall q, q <> p -> deref pm' q = deref pm q) by (intros; by apply (en_deref p v pm pm')).
  split; cbn.
  - apply En.
  - rewrite (en_perm_new p v pm pm' O1 En Hpt). cbn. apply NoDup_cons. split; [|done]. rewrite elem_of_app. tauto.
  - intros q Hq. destruct (O3 q Hq) as [S1 S2]. rewrite Hd by (intros ->; done). split; [by apply HL | done].
  - eapply (tree_add _ _ _ _ p O4); cbn.
    + intros q src x Hq. by rewrite Hd.
    + intros q. unfold in_use. cbn. rewrite !elem_of_app, (en_tracked _ _ _ _ En).
      destruct (decide (q = p)) as [->|Hq]; [by left|]. rewrite Hd by done. tauto.
    + intros src x. by apply no_chunk_none.
    + intros src x. apply chunk_pos.
    + intros src x y (f & Hf & _ & _ & ->) (g & Hg & _ & _ & ->). destruct Hv as (_ & Hfr & _). rewrite Hfr in *.
      destruct (sp_Frames v) as [|a [|]]; [by apply not_elem_of_nil in Hf | | cbn in Hlen; lia].
      apply list_elem_of_singleton in Hf as <-. by apply list_elem_of_singleton in Hg as [= <-].
    + intros q src x y Hx Hy. apply (Hb src x y); [by apply (same_load_chunk v _) in Hx | by exists q].
  - eapply Forall_impl; [exact O5|]. intros d. apply stamped_keeps; try done; [rewrite (en_next _ _ _ _ En); lia|].
    intros s q Hq Hs. destruct (Hnum s q Hq) as [[-> _]|?]; [lia | done].
Qed.

Lemma resend_orderly pm pm' p w w' wi : p ∈ tracked pm ++ w -> enters p (deref pm p) pm pm' -> numbers p pm pm' ->
  w' ⊆+ w -> p ∉ w' -> Orderly (MkBooks pm w wi) -> Orderly (MkBooks pm' w' wi).
Proof.
  intros Hp En Hnum Hw Hpw [O1 O2 O3 O4 O5]. cbn in *.
  pose proof (enters_loads p _ pm pm' En (or_introl eq_refl)) as HL.
  assert (Hst : is_Some (packets pm !! p)).
  { apply elem_of_app in Hp as [Hp|Hp]; [by apply (tracked_fact pm) in Hp as [? _] | by apply O3]. }
  assert (Hd : forall q, q <> p -> deref pm' q = deref pm q) by (intros; by apply (en_deref p _ pm pm' En)).
  apply NoDup_app in O2 as (N1 & N2 & N3).
  split; cbn.
  - apply En.
  - apply NoDup_app. split_and!; [apply tracked_nodup, En | | by eapply nodup_submseteq].
    intros q Hq Hq'. apply (en_tracked _ _ _ _ En) in Hq as [->|Hq]; [done|]. apply (N2 q Hq). by eapply elem_of_submseteq.
  - intros q Hq. destruct (O3 q) as [S1 S2]; [by eapply elem_of_submseteq|].
    rewrite Hd by (intros ->; done). split; [by apply HL | done].
  - revert O4. apply tree_mono.
    + intros q src x. apply loads_back; [done|]. intros Hq. destruct (decide (q = p)) as [->|Hne]; [done|].
      by rewrite <- (en_others _ _ _ _ En).
    + intros q. unfold in_use. cbn. rewrite !elem_of_app, (en_tracked _ _ _ _ En).
      destruct (decide (q = p)) as [->|Hq].
      * rewrite (en_acked _ _ _ _ En). intros _. left. by apply elem_of_app.
      * rewrite Hd by done. intros [[[?|?]|?]|?]; auto. left. right. by eapply elem_of_submseteq.
  - eapply Forall_impl; [exact O5|]. intros d. apply stamped_keeps; try done; [rewrite (en_next _ _ _ _ En); lia|].
    intros s q Hq Hs. destruct (Hnum s q Hq) as [[-> _]|?]; [lia | done].
Qed.

Lemma wire_orderly pm w wi d : stamped pm d -> Orderly (MkBooks pm w wi) -> Orderly (MkBooks pm w (wi ++ [d])).
Proof. intros Hd [O1 O2 O3 O4 O5]. split; try done. apply Forall_app. by rewrite Forall_singleton. Qed.

Lemma lost_orderly pm pm' ls w w' wi : removes ls pm pm' -> packets pm' = packets pm ->
  (forall s q, sentPackets pm' !! s = Some q -> sentPackets pm !! s = Some q) -> w' ⊆+ w ++ ls ->
  Orderly (MkBooks pm w wi) -> Orderly (MkBooks pm' w' wi).
Proof.
  intros R Hpk Hs Hw [O1 O2 O3 O4 O5]. cbn in *.
  assert (Hd : forall q, deref pm' q = deref pm q) by (intros q; unfold deref; by rewrite Hpk).
  assert (HL : loads pm pm') by (intros q Hq; by rewrite Hpk, Hd).
  assert (Hin : forall q, q ∈ w' -> q ∈ w \/ q ∈ ls) by (intros q Hq; apply elem_of_app; by eapply elem_of_submseteq).
  apply NoDup_app in O2 as (N1 & N2 & N3).
  assert (Hlw : forall q, q ∈ ls -> q ∈ w -> False) by (intros q Hq%(rm_out _ _ _ R); by apply N2).
  split; cbn.
  - apply R.
  - apply NoDup_app. split_and!; [apply tracked_nodup, R | |].
    + intros q [Hq Hq']%(rm_tracked _ _ _ R) [?|?]%Hin; [by apply (N2 q) | done].
    + eapply nodup_submseteq; [exact Hw|]. apply NoDup_app. split_and!; [done | by eauto | apply R].
  - intros q [Hq|Hq]%Hin; rewrite Hpk, Hd; [by apply O3|]. by apply (tracked_fact pm), (rm_out _ _ _ R).
  - revert O4. apply tree_mono; [by intros; rewrite Hd|]. intros q. unfold in_use. cbn. rewrite !elem_of_app, Hd.
    intros [[[? _]%(rm_tracked _ _ _ R)|[?|Hl]%Hin]|?]; auto. left. left. by apply (rm_out _ _ _ R).
  - eapply Forall_impl; [exact O5|]. intros d. apply stamped_keeps; try done; [rewrite (rm_next _ _ _ R); lia|]. auto.
Qed.

Lemma ack_orderly now f pm w wi : is_u32 (LargestAcked f) ->
  Orderly (MkBooks pm w wi) -> Orderly (MkBooks (HandleAckFrame now pm f).1 w wi).
Proof.
  intros Hf [O1 O2 O3 O4 O5]. cbn in *. pose proof (ack_removes now pm f O1 Hf) as HR.
  pose proof (HandleAckFrame_spec now pm f O1 Hf) as Hs.
  pose proof (fun q => HandleAckFrame_dom_back now pm f q O1) as Hback.
  destruct (HandleAckFrame now pm f) as [pm' acked]. cbn [fst] in *. destruct HR as [R Ha]. destruct Hs as (_ & Hs & _).
  assert (HL : loads pm pm') by (intros q Hq; split; [by apply R | apply (rm_load _ _ _ R)]).
  apply NoDup_app in O2 as (N1 & N2 & N3).
  assert (Hw : forall q, q ∈ w -> q ∉ acked) by (intros q Hq Hin%(rm_out _ _ _ R); by apply (N2 q)).
  split; cbn.
  - apply R.
  - apply NoDup_app. split_and!; [apply tracked_nodup, R | | done]. intros q [Hq _]%(rm_tracked _ _ _ R). by apply N2.
  - intros q Hq. destruct (O3 q Hq) as [? E]. split; [by apply R|]. rewrite Ha, E, bool_decide_eq_false_2 by auto. done.
  - revert O4. apply tree_mono; [intros; apply loads_back; auto|]. intros q. unfold in_use. cbn.
    rewrite !elem_of_app, Ha. intros [[[? _]%(rm_tracked _ _ _ R)|?]|Hq]; auto. apply orb_true_iff in Hq as [Hq|?]; auto.
    left. left. apply (rm_out _ _ _ R). by apply bool_decide_eq_true in Hq.
  - eapply Forall_impl; [exact O5|]. intros d. apply stamped_keeps; try done; [rewrite (rm_next _ _ _ R); lia|].
    intros s q. rewrite Hs. by case_decide.
Qed.

(** The pieces of a packet and their chunks. *)
Lemma piece_chunks pm pm' p sf k syn fin piece pieces : sp_Frames (deref pm p) = [StreamF sf] -> 0 <= Offset sf ->
  chunk_end (chunk sf) < 2 ^ 62 -> (0 < k)%nat -> cuts (deref pm p) piece ->
  allocates (piece <$> chunk_frames (length (Data sf)) k (Offset sf) syn fin (Data sf)) (Drop pm p) pm' pieces ->
  exists fs, tiled (Offset sf) (chunk <$> fs) /\ mjoin (Data <$> fs) = Data sf /\
    Forall2 (fun q g => is_Some (packets pm' !! q) /\ sp_IsAcked (deref pm' q) = false /\ forall src x,
      chunk_in (deref pm' q) src x <-> src = sp_SourceStreamID (deref pm p) /\ x = chunk g) pieces fs.
Proof.
  intros Hf H0 He Hk Hcut Hal. unfold chunk_end in He. cbn in He.
  set (fs := chunk_frames _ _ _ _ _ _) in *. exists fs.
  destruct (chunk_frames_tile k (Data sf) Hk (length (Data sf)) (Offset sf) syn fin H0 ltac:(lia) He) as [Ht Hj].
  fold fs in Ht, Hj. split_and!; [done.. |]. pose proof (al_values _ _ _ _ Hal) as Hv. apply Forall2_fmap_r in Hv.
  eapply Forall2_impl; [|exact (fun q g H => H)].
  apply Forall2_same_length_lookup_2; [by eapply Forall2_length|]. intros i q g Hq Hg.
  pose proof (Forall2_lookup_lr _ _ _ _ _ _ Hv Hq Hg) as E. cbn in E.
  assert (Ed : deref pm' q = piece g) by (unfold deref; by rewrite lookup_total_alt, E).
  destruct (Hcut g) as (C1 & C2 & C3 & _). rewrite Ed. split_and!; [by eauto | done|]. intros src x. unfold chunk_in. rewrite C1, C2.
  split.
  - intros (f & [= ->]%list_elem_of_singleton & _ & <- & ->). done.
  - intros [-> ->]. exists g. split_and!; try done; [left|].
    apply (tiled_low _ _ (chunk g)) in Ht as [_ Hlt]; [|by eapply list_elem_of_fmap_2, list_elem_of_lookup_2].
    unfold chunk_end in Hlt. cbn in Hlt. intros E0. rewrite E0 in Hlt. cbn in Hlt. lia.
Qed.

(** Chunks that tile the data of a frame lie within it, one beside the other. *)
Lemma tile_inside sf fs g : tiled (Offset sf) (chunk <$> fs) -> mjoin (Data <$> fs) = Data sf -> g ∈ fs ->
  Data sf <> [] /\ (chunk g).1 < chunk_end (chunk g) /\ inside (chunk g) (chunk sf).
Proof.
  intros Ht Hj Hg. apply (list_elem_of_fmap_2 chunk) in Hg. destruct (tiled_low _ _ _ Ht Hg). pose proof (tiled_high _ _ _ Ht Hg) as Hh.
  replace ((chunk <$> fs).*2) with (Data <$> fs) in Hh by (by rewrite <- list_fmap_compose). rewrite Hj in Hh.
  unfold inside, chunk_end in *. cbn in *. split_and!; [|done|lia|lia]. intros E. rewrite E in Hh. cbn in Hh. lia.
Qed.

Lemma tile_beside o fs i j g h : tiled o (chunk <$> fs) -> fs !! i = Some g -> fs !! j = Some h -> i <> j ->
  ~ overlap (chunk g) (chunk h).
Proof.
  intros Ht Hg Hh Hne Ho. apply (f_equal (fmap chunk)) in Hg, Hh. rewrite <- list_lookup_fmap in Hg, Hh. cbn in Hg, Hh.
  unfold overlap in Ho. destruct (lt_eq_lt_dec i j) as [[Hlt|Heq]|Hlt]; [|done|].
  - pose proof (tiled_order _ _ i j _ _ Ht Hg Hh Hlt). lia.
  - pose proof (tiled_order _ _ j i _ _ Ht Hh Hg Hlt). lia.
Qed.

Lemma split_orderly pm pm' w w' wi p sf k syn fin piece pieces : p ∈ tracked pm ++ w ->
  sp_Frames (deref pm p) = [StreamF sf] -> 0 <= Offset sf -> chunk_end (chunk sf) < 2 ^ 62 -> (0 < k)%nat ->
  cuts (deref pm p) piece ->
  allocates (piece <$> chunk_frames (length (Data sf)) k (Offset sf) syn fin (Data sf)) (Drop pm p) pm' pieces ->
  w' ⊆+ pieces ++ w -> p ∉ w' -> Orderly (MkBooks pm w wi) -> Orderly (MkBooks pm' w' wi).
Proof.
  intros Hp Hf H0 He Hk Hcut Hal Hw Hpw [O1 O2 O3 O4 O5]. cbn in *.
  destruct (piece_chunks pm pm' p sf k syn fin piece pieces Hf H0 He Hk Hcut Hal) as (fs & Ht & Hj & Hpc).
  pose proof Hal as [A1 A2 A3 A4 A5 _ A7]. cbn [Drop with_sent packets nextSeq] in A2, A5, A7.
  assert (Ht' : forall q, q ∈ tracked pm' <-> q ∈ tracked pm /\ q <> p).
  { intros q. unfold tracked at 1. rewrite A3. by apply (Drop_tracked pm p q). }
  assert (Hd : forall q, q ∉ pieces -> deref pm' q = deref pm q) by (intros q Hq; apply deref_same, A7, Hq).
  assert (Hold : forall q, is_Some (packets pm !! q) -> q ∉ pieces) by (intros q [? ?] Hq%A5; congruence).
  assert (HL : loads pm pm') by (intros q Hq; rewrite A7, Hd by auto; done).
  assert (Hst : is_Some (packets pm !! p)).
  { apply elem_of_app in Hp as [Hp|Hp]; [by apply (tracked_fact pm) in Hp as [? _] | by apply O3]. }
  assert (Hone : forall q, q ∈ pieces -> exists g, g ∈ fs /\ is_Some (packets pm' !! q) /\ sp_IsAcked (deref pm' q) = false /\
    forall src x, chunk_in (deref pm' q) src x <-> src = sp_SourceStreamID (deref pm p) /\ x = chunk g)
    by (intros q Hq; exact (Forall2_elem_l _ _ _ _ Hpc Hq)).
  assert (Hin : forall q, q ∈ w' -> q ∈ pieces \/ q ∈ w) by (intros q Hq; apply elem_of_app; by eapply elem_of_submseteq).
  apply NoDup_app in O2 as (N1 & N2 & N3).
  split; cbn.
  - by apply A1, Drop_ok.
  - apply NoDup_app. split_and!; [by apply tracked_nodup, A1, Drop_ok | |].
    + intros q [Hq _]%Ht' [Hq'|?]%Hin; [|by apply (N2 q)]. by apply (tracked_fact pm) in Hq as [Hq%Hold _].
    + eapply nodup_submseteq; [exact Hw|]. apply NoDup_app. split_and!; [done | | done]. intros q Hq Hq'.
      by apply (Hold q); [apply O3|].
  - intros q [(g & _ & ? & ? & _)%Hone|Hq]%Hin; [done|]. destruct (O3 q Hq) as [S1 S2]. rewrite Hd by auto. by split; [apply HL|].
  - eapply (tree_split _ _ _ _ (.∈ pieces) p O4); cbn.
    + intros q. destruct (decide (q ∈ pieces)); auto.
    + intros q src x Hq. by rewrite Hd.
    + intros q src x Hq. apply no_chunk_none. auto.
    + left. done.
    + unfold in_use. cbn. rewrite elem_of_app, Ht', Hd by auto. intros [[[_ ?]|?]|Ha]; [done.. |].
      apply elem_of_app in Hp as [Hp|Hp]; [apply (tracked_fact pm) in Hp as [_ Hp]; [congruence | done]|].
      apply O3 in Hp as [_ Hp]. congruence.
    + intros q. unfold in_use. cbn. rewrite !elem_of_app, Ht'.
      destruct (decide (q ∈ pieces)) as [|Hq]; [by left|]. rewrite Hd by done. intros [[[? _]|[?|?]%Hin]|?]; auto.
    + intros q src x (g & Hg & _ & _ & Hc)%Hone Hx. apply Hc in Hx as [-> ->].
      destruct (tile_inside sf fs g Ht Hj Hg) as (Hne & Hpos & Hi). split; [done|]. exists (chunk sf). split; [|done].
      exists sf. split_and!; try done. rewrite Hf. left.
    + intros q src x y (g & _ & _ & _ & Hc)%Hone [_ ->]%Hc [_ ->]%Hc. done.
    + intros q r src x y Hq Hr Hne Hx Hy Ho. apply list_elem_of_lookup in Hq as [i Hi], Hr as [j Hj'].
      destruct (Forall2_lookup_l _ _ _ _ _ Hpc Hi) as (g & Hg & _ & _ & Hcg).
      destruct (Forall2_lookup_l _ _ _ _ _ Hpc Hj') as (h & Hh & _ & _ & Hch).
      apply Hcg in Hx as [_ ->]. apply Hch in Hy as [_ ->]. apply (tile_beside _ _ i j _ _ Ht Hg Hh); [intros ->; congruence | done].
  - eapply Forall_impl; [exact O5|]. intros d. apply stamped_keeps; try done; [rewrite A2; lia|].
    intros s q. rewrite A3. cbn [Drop with_sent sentPackets]. rewrite untrack_lookup by done. by case_decide.
Qed.

Lemma step_orderly b b' : ledger_step b b' -> Orderly b -> Orderly b'.
Proof.
  destruct 1 as [| |pm w wi p pkt to Hok Hs Hm|pm w wi pkt to Hok He| | |]; intros Hb.
  - by eapply track_orderly.
  - by eapply resend_orderly.
  - apply wire_orderly; [|done]. exists pkt. split_and!; try done. intros _.
    destruct (pm_tracked _ (or_pm _ Hb) _ _ Hs) as (Hst & _ & _ & _ & Hlt). cbn in *. split_and!; [lia | by eauto|].
    intros q Hq. congruence.
  - apply wire_orderly; [|done]. exists pkt. split_and!; try done. by rewrite He.
  - by eapply split_orderly.
  - by apply ack_orderly.
  - eapply lost_orderly; naive_solver.
Qed.

Lemma steps_orderly b b' : rtc ledger_step b b' -> Orderly b -> Orderly b'.
Proof. induction 1; eauto using step_orderly. Qed.

(** Packets stay in the store, and datagrams on the wire. *)
Lemma allocates_loads vs pm p pm' pieces : allocates vs (Drop pm p) pm' pieces -> loads pm pm'.
Proof.
  intros Ha q [v Hq]. assert (Hn : q ∉ pieces).
  { intros H%(al_fresh _ _ _ _ Ha). cbn in H. congruence. }
  pose proof (al_others _ _ _ _ Ha q Hn) as E. cbn in E. rewrite (deref_same _ _ _ E), E. by eauto.
Qed.

Lemma step_loads b b' : ledger_step b b' -> PM_ok (b_pm b) -> loads (b_pm b) (b_pm b').
Proof.
  destruct 1 as [pm pm' p v w wi Hp En _ _ _|pm pm' p w w' wi _ En _ _ _| | | |pm w wi now f _ Hf|pm pm' ls w w' wi _ E _ _];
    cbn; intros Hok; try done.
  - apply (enters_loads p v); auto.
  - apply (enters_loads p (deref pm p)); auto.
  - by eapply allocates_loads.
  - pose proof (ack_removes now pm f Hok Hf) as HR. destruct (HandleAckFrame now pm f) as [pm' acked]. destruct HR as [R _].
    intros q Hq. split; [by apply R | apply (rm_load _ _ _ R)].
  - intros q Hq. unfold deref. by rewrite E.
Qed.

Lemma step_pm b b' : ledger_step b b' -> PM_ok (b_pm b) -> PM_ok (b_pm b').
Proof.
  destruct 1 as [pm pm' p v w wi _ En _ _ _|pm pm' p w w' wi _ En _ _ _| | |pm pm' w w' wi p sf k syn fin piece pieces _ _ _ _ _ _ Hal _ _|
    pm w wi now f _ Hf|pm pm' ls w w' wi R _ _ _]; cbn; intros Hok; try done.
  - apply En.
  - apply En.
  - by apply (al_ok _ _ _ _ Hal), Drop_ok.
  - pose proof (ack_removes now pm f Hok Hf) as HR. destruct (HandleAckFrame now pm f) as [pm' acked]. apply HR.
  - apply R.
Qed.

Lemma steps_loads b b' : rtc ledger_step b b' -> PM_ok (b_pm b) -> loads (b_pm b) (b_pm b').
Proof.
  induction 1 as [|b1 b2 b3 H1 _ IH]; intros Hb; [done|]. etrans; [by apply step_loads|].
  apply IH. by eapply step_pm.
Qed.

(** What the packets of the store are. *)
Definition bearing (pm : PacketManager) : Prop := forall p, is_Some (packets pm !! p) -> marked (deref pm p).

Lemma marked_load v v' : same_load v v' -> marked v -> marked v'.
Proof. intros (_ & E1 & E2 & _) [H1 H2]. unfold marked. by rewrite E1, E2. Qed.

Lemma bearing_loads pm pm' : loads pm pm' -> (forall q, is_Some (packets pm' !! q) -> is_Some (packets pm !! q)) ->
  bearing pm -> bearing pm'.
Proof. intros HL Hb H q Hq. destruct (HL q (Hb q Hq)) as [_ HE]. by apply (marked_load _ _ HE), H, Hb. Qed.

Lemma enters_bearing p v pm pm' : enters p v pm pm' -> marked v -> bearing pm -> bearing pm'.
Proof.
  intros En Hv H q Hq. destruct (decide (q = p)) as [->|Hne]; [by apply (marked_load v); [apply En|]|].
  rewrite (en_deref p v pm pm' En q Hne). apply H. by rewrite <- (en_others _ _ _ _ En).
Qed.

Lemma step_bearing b b' : ledger_step b b' -> PM_ok (b_pm b) -> (forall p, p ∈ waiting b -> is_Some (packets (b_pm b) !! p)) ->
  bearing (b_pm b) -> bearing (b_pm b').
Proof.
  intros Hstep Hok Hw. pose proof (step_loads _ _ Hstep Hok) as HL. revert Hok Hw HL.
  destruct Hstep as [pm pm' p v w wi _ En _ Hm _|pm pm' p w w' wi Hp En _ _ _| | |pm pm' w w' wi p sf k syn fin piece pieces
    _ _ H0 He Hk Hcut Hal _ _|pm w wi now f _ Hf|pm pm' ls w w' wi _ E _ _]; cbn; intros Hok Hw HL; try done.
  - by apply (enters_bearing p v).
  - intros H. apply (enters_bearing p (deref pm p) pm); try done. apply H.
    apply elem_of_app in Hp as [Hp|Hp]; [by apply (tracked_fact pm) in Hp as [? _] | auto].
  - intros H q Hq. destruct (decide (q ∈ pieces)) as [Hin|Hin].
    + apply list_elem_of_lookup in Hin as [i Hi].
      destruct (Forall2_lookup_l _ _ _ _ _ (al_values _ _ _ _ Hal) Hi) as (v & Hv & Eq).
      apply list_elem_of_lookup_2, list_elem_of_fmap in Hv as (g & -> & Hg). destruct (Hcut g) as (C1 & _ & _ & C4).
      assert (Ed : deref pm' q = piece g) by (unfold deref; by rewrite lookup_total_alt, Eq).
      unfold marked. rewrite Ed, C1, C4. cbn. split; [lia|]. unfold stream_bears.
      destruct (chunks_sizes k Hk (length (Data sf)) (Offset sf) syn fin (Data sf)) as (Hsz & _); [done|].
      pose proof (Hsz g Hg). by destruct (Data g); [cbn in *; lia|].
    + pose proof (al_others _ _ _ _ Hal q Hin) as Eq. cbn in Eq. rewrite (deref_same pm pm' q Eq). apply H. by rewrite <- Eq.
  - apply bearing_loads; [done|]. intros q. by apply HandleAckFrame_dom_back.
  - apply bearing_loads; [done|]. by rewrite E.
Qed.

Lemma steps_bearing b b' : rtc ledger_step b b' -> Orderly b -> bearing (b_pm b) -> bearing (b_pm b').
Proof.
  induction 1 as [|b1 b2 b3 H1 _ IH]; intros Hb H; [done|]. apply IH; [by eapply step_orderly|].
  apply (step_bearing b1); [done | apply Hb | apply Hb | done].
Qed.

(** What is acknowledged stays so. *)
Lemma step_acked b b' p : ledger_step b b' -> Orderly b -> sp_IsAcked (deref (b_pm b) p) = true ->
  sp_IsAcked (deref (b_pm b') p) = true.
Proof.
  intros Hstep Hb Ha. pose proof (or_pm _ Hb) as Hok. pose proof (or_wait _ Hb) as Hw.
  assert (Hst : is_Some (packets (b_pm b) !! p)).
  { destruct (packets (b_pm b) !! p) eqn:E; [by eauto|]. rewrite (deref_none _ _ E) in Ha. done. }
  destruct Hstep as [pm pm' q v w wi Hq En _ _ _|pm pm' q w w' wi Hq En _ _ _| | |pm pm' w w' wi q sf k syn fin piece pieces
    _ _ _ _ _ _ Hal _ _|pm w wi now f _ Hf|pm pm' ls w w' wi _ E _ _]; cbn in *; try done.
  - rewrite (en_deref _ _ _ _ En p); [done|]. intros ->. destruct Hst. congruence.
  - rewrite (en_deref _ _ _ _ En p); [done|]. intros ->.
    apply elem_of_app in Hq as [[_ Hq]%(tracked_fact pm)|[_ Hq]%Hw]; [congruence | done | congruence].
  - rewrite (deref_same pm pm' p); [done|]. apply (al_others _ _ _ _ Hal). intros Hin%(al_fresh _ _ _ _ Hal). cbn in Hin. destruct Hst. congruence.
  - pose proof (ack_removes now pm f Hok Hf) as HR. destruct (HandleAckFrame now pm f) as [pm' acked]. destruct HR as [_ HR].
    cbn. rewrite HR, Ha. apply orb_true_r.
  - unfold deref. by rewrite E.
Qed.

Lemma steps_acked b b' p : rtc ledger_step b b' -> Orderly b -> sp_IsAcked (deref (b_pm b) p) = true ->
  sp_IsAcked (deref (b_pm b') p) = true.
Proof. induction 1; eauto using step_orderly, step_acked. Qed.

Lemma step_wire b b' : ledger_step b b' -> forall d, d ∈ b_wire b -> d ∈ b_wire b'.
Proof. destruct 1; cbn; try done; intros d Hd; apply elem_of_app; by left. Qed.

Lemma steps_wire b b' : rtc ledger_step b b' -> forall d, d ∈ b_wire b -> d ∈ b_wire b'.
Proof. induction 1; eauto using step_wire. Qed.

End Steps.

(** ** What is acknowledged has arrived *)

Lemma marshal_inj pkt pkt' : Packet_ok pkt -> Packet_ok pkt' -> MarshalPacket pkt = MarshalPacket pkt' ->
  Sequence pkt = Sequence pkt' /\ Frames pkt = Frames pkt' /\ DestinationStreamID pkt = DestinationStreamID pkt' /\
  SourceStreamID pkt = SourceStreamID pkt'.
Proof.
  intros H1%unmarshal_marshal H2%unmarshal_marshal E. rewrite E, H2 in H1. injection H1. intros. split_and!; congruence.
Qed.


(** A packet of the wire [W] whose data has landed where it should. *)
Definition delivered (W : list datagram) (landed : Z -> Z * list byte -> Prop) (s : Z) : Prop := exists d pkt,
  d ∈ W /\ Packet_ok pkt /\ d.1 = MarshalPacket pkt /\ elicits pkt = true /\ Sequence pkt = s /\
  forall g, StreamF g ∈ Frames pkt -> Data g <> [] -> landed (SourceStreamID pkt) (chunk g).

(** ACK frames that report only such packets, the largest included. *)
Definition truthful (W : list datagram) (landed : Z -> Z * list byte -> Prop) (f : AckFrame) : Prop :=
  delivered W landed (LargestAcked f) /\ forall s, s ∈ ack_sequences f -> delivered W landed s.

Definition acked_landed (landed : Z -> Z * list byte -> Prop) (b : Books) : Prop := forall p src x,
  sp_IsAcked (deref (b_pm b) p) = true -> chunk_in (deref (b_pm b) p) src x -> landed src x.

Section Landed.
Context (W : list datagram) (landed : Z -> Z * list byte -> Prop).

Lemma acked_enters p v pm pm' w w' wi : (v = deref pm p \/ packets pm !! p = None) -> enters p v pm pm' ->
  acked_landed landed (MkBooks pm w wi) -> acked_landed landed (MkBooks pm' w' wi).
Proof.
  intros Hv En Ha q src x. cbn. destruct (decide (q = p)) as [->|Hq]; [by rewrite (en_acked _ _ _ _ En)|].
  rewrite (en_deref p v pm pm' En q Hq). apply Ha.
Qed.

(** The datagram of a number on the wire is that of the packet tracked under it. *)
Lemma delivered_stamp b s : Orderly b -> (forall d, d ∈ W -> d ∈ b_wire b) -> delivered W landed s ->
  s < nextSeq (b_pm b) /\ forall q, sentPackets (b_pm b) !! s = Some q ->
  exists pkt, matches pkt (deref (b_pm b) q) /\
    forall g, StreamF g ∈ Frames pkt -> Data g <> [] -> landed (SourceStreamID pkt) (chunk g).
Proof.
  intros Hb HW (d & pkt & Hd & Hpk & Ed & Hel & <- & Hl). pose proof (or_wire _ Hb) as Hw. rewrite Forall_forall in Hw.
  destruct (Hw d (HW d Hd)) as (pkt' & Hpk' & Ed' & Hst).
  destruct (marshal_inj pkt pkt' Hpk Hpk' ltac:(congruence)) as (E1 & E2 & E3 & E4).
  assert (Hel' : elicits pkt' = true) by (rewrite <- Hel; unfold elicits, isDataBearing, isNumberedProbe; by rewrite E1, E2).
  destruct (Hst Hel') as (Hlt & _ & Hm). rewrite <- E1 in Hlt, Hm. split; [done|]. intros q Hq. exists pkt'. split; [by apply Hm|].
  rewrite <- E2, <- E4. done.
Qed.

Lemma delivered_lands b s q src x : Orderly b -> (forall d, d ∈ W -> d ∈ b_wire b) -> delivered W landed s ->
  sentPackets (b_pm b) !! s = Some q -> chunk_in (deref (b_pm b) q) src x -> landed src x.
Proof.
  intros Hb HW Hs Hq (g & Hg & Hne & <- & ->). destruct (delivered_stamp b s Hb HW Hs) as [_ H].
  destruct (H q Hq) as (pkt & (M1 & _ & M3) & Hl). rewrite <- M3. apply Hl; [by rewrite M1 | done].
Qed.

Lemma step_landed b b' : ledger_step (truthful W landed) b b' -> Orderly b -> (forall d, d ∈ W -> d ∈ b_wire b) ->
  acked_landed landed b -> acked_landed landed b'.
Proof.
  destruct 1 as [pm pm' p v w wi Hp En _ _ _|pm pm' p w w' wi _ En _ _ _| | |
    pm pm' w w' wi p sf k syn fin piece pieces Hp Hf H0 He Hk Hcut Hal _ _|pm w wi now f Hh Hf|pm pm' ls w w' wi _ E _ _];
    intros Hb HW Ha; try done.
  - by apply (acked_enters p v pm pm' w); auto.
  - by apply (acked_enters p (deref pm p) pm pm' w); auto.
  - destruct (piece_chunks pm pm' p sf k syn fin piece pieces Hf H0 He Hk Hcut Hal) as (fs & _ & _ & Hpc).
    intros q src x. cbn. destruct (decide (q ∈ pieces)) as [Hq|Hq].
    + destruct (Forall2_elem_l _ _ _ _ Hpc Hq) as (g & _ & _ & -> & _). done.
    + rewrite (deref_same pm pm' q); [apply Ha | exact (al_others _ _ _ _ Hal q Hq)].
  - pose proof (or_pm _ Hb) as Hok. cbn in Hok. pose proof (ack_removes now pm f Hok Hf) as HR.
    pose proof (HandleAckFrame_spec now pm f Hok Hf) as Hs. intros q src x. cbn.
    destruct (HandleAckFrame now pm f) as [pm' acked]. destruct HR as [R Hack]. destruct Hs as (_ & _ & Hin & _). cbn.
    rewrite Hack. rewrite <- (same_load_chunk _ _ _ _ (rm_load _ _ _ R q)). intros [Hq%bool_decide_eq_true|?]%orb_true_iff; [|by apply Ha].
    apply Hin in Hq as (s & Hs & Hq). by apply (delivered_lands (MkBooks pm w wi) s q src x Hb HW (proj2 Hh s Hs)).
  - intros q src x. cbn. unfold deref. rewrite E. apply Ha.
Qed.

(** Only numbers that were given out are acknowledged. *)
Definition in_order (pm : PacketManager) : Prop := largestAcked pm < nextSeq pm.

Lemma step_in_order b b' : ledger_step (truthful W landed) b b' -> Orderly b -> (forall d, d ∈ W -> d ∈ b_wire b) ->
  in_order (b_pm b) -> in_order (b_pm b').
Proof.
  intros Hstep Hb HW. pose proof (fun s H1 H2 H3 => proj1 (delivered_stamp b s H1 H2 H3)) as Hg.
  destruct Hstep as [pm pm' p v w wi _ En _ _ _|pm pm' p w w' wi _ En _ _ _| | |pm pm' w w' wi p sf k syn fin piece pieces
    _ _ _ _ _ _ Hal _ _|pm w wi now f [Hh _] Hf|pm pm' ls w w' wi R _ [E _] _]; unfold in_order; cbn in *; try done.
  - rewrite (en_largest _ _ _ _ En), (en_next _ _ _ _ En). lia.
  - rewrite (en_largest _ _ _ _ En), (en_next _ _ _ _ En). lia.
  - by rewrite (al_largest _ _ _ _ Hal), (al_next _ _ _ _ Hal).
  - specialize (Hg _ Hb HW Hh). cbn in Hg. pose proof (HandleAckFrame_spec now pm f (or_pm _ Hb) Hf) as Hs.
    destruct (HandleAckFrame now pm f) as [pm' acked]. cbn [fst].
    destruct Hs as (_ & _ & _ & _ & _ & -> & -> & _). case_decide; lia.
  - by rewrite E, (rm_next _ _ _ R).
Qed.

Lemma steps_in_order b b' : rtc (ledger_step (truthful W landed)) b b' -> Orderly b ->
  (forall d, d ∈ W -> d ∈ b_wire b) -> in_order (b_pm b) -> in_order (b_pm b').
Proof.
  induction 1 as [|b1 b2 b3 H1 _ IH]; intros Hb HW Ha; [done|]. apply IH; [by eapply step_orderly | |by eapply step_in_order].
  intros d Hd. by eapply step_wire, HW.
Qed.

Lemma steps_landed b b' : rtc (ledger_step (truthful W landed)) b b' -> Orderly b ->
  (forall d, d ∈ W -> d ∈ b_wire b) -> acked_landed landed b -> acked_landed landed b'.
Proof.
  induction 1 as [|b1 b2 b3 H1 _ IH]; intros Hb HW Ha; [done|]. apply IH; [by eapply step_orderly | |by eapply step_landed].
  intros d Hd. by eapply step_wire, HW.
Qed.
End Landed.
