(* ===== verification/Bookkeeping.v ===== *)
(** * Every operation keeps the books (src/connection.go)

    Until it closes, each operation of a connection is a sequence of the steps of
    [Ledger]. *)

From stdpp Require Import strings.
From S2P Require Import Prelude Constants Cid Frame Packet AckTracker FlowControl Mtud.
From S2P Require Import PacketManager AckExchange Stream Pacing Congestion Connection Recovery ConnReach.
From S2P Require Import Tiling Dispatch Wire Ledger.

(** Offsets that do not wrap around. *)
Definition unwrapped (dst src : Z) (f : StreamFrame) : Prop :=
  Data f <> [] -> 0 <= Offset f /\ chunk_end (chunk f) < 2 ^ 62.

Lemma unwrapped_syn : unwrapped 0 0 (MkStreamFrame false true 0 []).
Proof. done. Qed.

Lemma unwrapped_chunks dst src k fuel : forall o syn fin data g, 0 <= o -> o + Z.of_nat (length data) < 2 ^ 62 ->
  g ∈ chunk_frames fuel k o syn fin data -> unwrapped dst src g.
Proof.
  induction fuel as [|fuel IH]; intros o syn fin data g Ho Hl; cbn [chunk_frames]; [by intros ?%not_elem_of_nil|].
  destruct data as [|b data]; [by intros ?%not_elem_of_nil|]. set (d := b :: data) in *. clearbody d.
  set (n := Nat.min k (length d)). intros [->|Hg]%elem_of_cons.
  - intros _. split; [done|]. unfold chunk_end. cbn. rewrite length_take. lia.
  - eapply IH, Hg; rewrite u64_small by width; rewrite ?length_drop; lia.
Qed.

Lemma unwrapped_split dst src f g k : is_u64 (Offset f) -> unwrapped dst src f ->
  g ∈ chunk_frames (length (Data f)) k (Offset f) (IsSyn f) (IsFin f) (Data f) -> unwrapped dst src g.
Proof.
  intros _ Hf. destruct (Data f) as [|b l] eqn:E; [by intros ?%not_elem_of_nil|]. rewrite <- E.
  destruct Hf as [H0 H1]; [congruence|]. by apply unwrapped_chunks.
Qed.

Notation sound := (Sound unwrapped any_ack).

Section Runs.
Context (heeded : AckFrame -> Prop).

(** An operation, or a part of one, between two phases. *)
Record run (ph ph' : phase) (c c' : Connection) : Prop := {
  run_keeps : keeps false ph ph' c c';
  run_sounds : sound c -> sound c';
  run_steps : Inv false ph c -> sound c -> issued c' < 2 ^ 32 -> closeCh (life c') = false ->
    rtc (ledger_step heeded) (books (hand_of ph) c) (books (hand_of ph') c')
}.

Lemma run_trans h1 h2 h3 a b c : run h1 h2 a b -> run h2 h3 b c -> run h1 h3 a c.
Proof.
  intros [K1 S1 R1] [K2 S2 R2]. split; [by eapply keeps_trans | auto|]. intros HI HS Hi Hc.
  destruct K1 as [L1 I1], K2 as [[L2 L2'] I2].
  assert (closeCh (life b) = false) by (destruct (closeCh (life b)); [by rewrite L2' in Hc | done]).
  etrans; [apply R1; auto; lia | apply R2; auto].
Qed.

(** It is enough to look at the states the invariant speaks of. *)
Lemma run_open ph ph' c c' : keeps false ph ph' c c' -> (sound c -> sound c') ->
  (Good false (hand_of ph) c -> sound c -> issued c < 2 ^ 32 -> issued c' < 2 ^ 32 -> closeCh (life c) = false ->
   rtc (ledger_step heeded) (books (hand_of ph) c) (books (hand_of ph') c')) -> run ph ph' c c'.
Proof.
  intros K S R. split; [done | done |]. intros HI HS Hi Hc. pose proof K as [[L1 L2] _].
  assert (Hc0 : closeCh (life c) = false) by (destruct (closeCh (life c)); [by rewrite L2 in Hc | done]).
  destruct (HI ltac:(lia) Hc0) as (G & _). apply R; try done. lia.
Qed.

Lemma run_still ph c c' : keeps false ph ph c c' -> (sound c -> sound c') ->
  books (hand_of ph) c' = books (hand_of ph) c -> run ph ph c c'.
Proof. intros K S E. apply run_open; [done..|]. intros. by rewrite E. Qed.

(** A change of other state. *)
Ltac silent := apply run_still; [irrelevant | apply sound_eq; reflexivity | done].

Lemma run_refl ph c : run ph ph c c.
Proof. apply run_still; [apply keeps_refl | done..]. Qed.

Lemma run_fold {A} ph (f : Connection -> A -> Connection) (l : list A) c :
  (forall c x, x ∈ l -> run ph ph c (f c x)) -> run ph ph c (fold_left f l c).
Proof.
  revert c. induction l as [|x l IH]; intros c Hf; [apply run_refl|]. cbn.
  eapply run_trans; [apply Hf; left|]. apply IH. intros. apply Hf. by right.
Qed.

(** ** Sending *)

Lemma register_tracks now pm size frames dst src probe : PM_ok pm -> 0 <= now -> nextSeq pm + 1 < 2 ^ 32 ->
  let v := fresh_packet size frames dst src probe in let pm' := register now pm v in
  exists p, packets pm !! p = None /\ enters p (v (nextSeq pm)) pm pm' /\
    sentPackets pm' = <[nextSeq pm := p]> (sentPackets pm).
Proof.
  intros Hok Hnow Hn. cbv zeta. destruct (register_enters now pm size frames dst src probe Hok Hnow Hn) as (p & Hp & En).
  exists p. split_and!; [done | done |]. set (pm' := register now pm _) in *.
  assert (E : sentPackets pm' = <[nextSeq pm := fresh (dom (packets pm))]> (sentPackets pm)).
  { unfold pm', register, NextSequence, alloc, SendPacket, deref, store. cbn -[fresh].
    rewrite !lookup_total_insert_eq. done. }
  rewrite E. f_equal. assert (Ht : fresh (dom (packets pm)) ∈ tracked pm').
  { apply tracked_elem. exists (nextSeq pm). rewrite E. apply lookup_insert_eq. }
  apply (en_tracked _ _ _ _ En) in Ht as [->|[[v Hv] _]%tracked_fact]; [done | | done].
  exfalso. apply (is_fresh (dom (packets pm))). by eapply elem_of_dom_2.
Qed.

(** Stream data of a new packet lies behind all its stream has sent. *)
Definition new_data (c : Connection) (src : Z) (frames : list Frame) : Prop := forall f x,
  StreamF f ∈ frames -> Data f <> [] -> chunks_of (c_pm c) src x -> chunk_end x <= Offset f.

(** A packet enters the books, and may be put on the wire. *)
Lemma register_step now c size frames dst src probe w wi : Good false [] c -> 0 <= now -> issued c + 1 < 2 ^ 32 ->
  (length frames <= 1)%nat -> probe = negb (existsb bears_data frames) -> new_data c src frames ->
  let pm' := register now (c_pm c) (fresh_packet size frames dst src probe) in
  ledger_step heeded (MkBooks (c_pm c) w wi) (MkBooks pm' w wi) /\
  exists p, sentPackets pm' !! nextSeq (c_pm c) = Some p /\
    sp_Frames (deref pm' p) = frames /\ sp_DestinationStreamID (deref pm' p) = dst /\ sp_SourceStreamID (deref pm' p) = src.
Proof.
  intros G Hnow Hi Hl Hprobe Hnew. cbv zeta. pose proof (g_next _ _ _ G) as Hn.
  destruct (register_tracks now (c_pm c) size frames dst src probe (g_pm _ _ _ G) Hnow ltac:(lia)) as (p & Hp & En & Es).
  set (pm' := register _ _ _) in *. split.
  - apply (ls_track _ _ _ p _ _ _ Hp En); [|done|].
    + intros s q. rewrite Es. intros [[<- <-]|[_ ?]]%lookup_insert_Some; auto.
    + intros s x y (f & Hf & Hd & <- & ->) Hy. by apply (Hnew f y).
  - exists p. rewrite Es, lookup_insert_eq. pose proof (en_load _ _ _ _ En) as (_ & E1 & _ & E2 & E3). done.
Qed.

(** The datagram of a packet with a tracked number. *)
Definition emitted (c : Connection) (data : list byte) : Prop := exists pkt p, Packet_ok pkt /\ data = MarshalPacket pkt /\
  sentPackets (c_pm c) !! Sequence pkt = Some p /\ matches pkt (deref (c_pm c) p).

Lemma emit_steps h c bufs to : (forall b, b ∈ bufs -> emitted c b) ->
  rtc (ledger_step heeded) (books h c) (MkBooks (c_pm c) (queue c ++ h) (wire c ++ ((fun b => (b, to)) <$> bufs))).
Proof.
  unfold books. generalize (wire c) as wi. induction bufs as [|b bufs IH]; intros wi Hb; [by rewrite app_nil_r|].
  destruct (Hb b ltac:(left)) as (pkt & p & H1 & -> & H2 & H3).
  eapply rtc_l; [by apply (ls_emit _ _ _ _ p pkt to)|]. specialize (IH (wi ++ [(MarshalPacket pkt, to)])).
  rewrite <- (app_assoc wi) in IH. apply IH. intros. apply Hb. by right.
Qed.

Lemma outgoing_sound c seq dst src frames : sound c -> is_u32 seq -> sendable unwrapped any_ack dst src frames ->
  Packet_ok (outgoing c seq dst src frames).
Proof. apply outgoing_ok. Qed.

Lemma control_run now dst src f c : 0 <= now -> sendable unwrapped any_ack dst src [f] -> bears_data f = false ->
  (forall n, f <> MTUProbeFrame n) -> run Calm Calm c (sendPacket now dst src [f] c).
Proof.
  intros Hnow Hs Hf Hp.
  apply run_open; [by apply control_keeps; cbn; rewrite ?Hf | by apply sendPacket_sounds, one_probe_free|].
  intros G HS _ _ _. unfold sendPacket. cbn [existsb]. rewrite Hf. cbn [orb]. cbv zeta.
  destruct (amplifies _ _); [reflexivity|]. unfold transmit. case_match; [|reflexivity].
  apply rtc_once, (ls_control _ (c_pm c) (queue c ++ []) (wire c) (outgoing c 0 dst src [f])).
  - by apply outgoing_sound.
  - unfold elicits, isDataBearing, isNumberedProbe. cbn. by rewrite Hf.
Qed.

(** Sending: tracking the packet, if it has data, and transmitting it, if the
    limit and the socket allow. *)
Lemma sendPacket_run now dst src f c : 0 <= now -> sendable unwrapped any_ack dst src [f] -> frames_small [f] ->
  (forall n, f <> MTUProbeFrame n) -> (bears_data f = true -> new_data c src [f]) ->
  run Calm Calm c (sendPacket now dst src [f] c).
Proof.
  intros Hnow Hs Hsm Hpf Hnew. destruct (bears_data f) eqn:Ef; [|by apply control_run]. apply run_open.
  { by apply sendPacket_keeps. }
  { by apply sendPacket_sounds, one_probe_free. }
  intros G HS Hi0 Hi Hc. revert Hi. unfold sendPacket. cbn [existsb]. rewrite Ef. cbn [orb]. cbv zeta. intros Hi.
  assert (Hi' : issued c + 1 < 2 ^ 32) by (revert Hi; unfold transmit; repeat case_match; done).
  unfold track in *. set (size := Z.of_nat _) in *.
  destruct (register_step now c size [f] dst src false (queue c ++ []) (wire c) G Hnow Hi' ltac:(cbn; lia) ltac:(cbn; by rewrite Ef) (Hnew eq_refl))
    as [Hstep (p & Hp & E1 & E2 & E3)]. set (pm' := register _ _ _) in *.
  eapply rtc_l; [exact Hstep|]. destruct (amplifies _ _); [reflexivity|].
  unfold transmit. case_match; [|reflexivity]. apply rtc_once.
  apply (ls_emit _ pm' (queue c ++ []) (wire c) p (outgoing c (nextSeq (c_pm c)) dst src [f])); [|done|done].
  by apply outgoing_sound; [|apply HS|].
Qed.

(** Everything the stream has sent lies below [o]. *)
Definition sent_below (c : Connection) (src o : Z) : Prop := forall x, chunks_of (c_pm c) src x -> chunk_end x <= o.

Lemma prepare_step now rid sid f c (c' := (prepareDataPacket now rid sid [StreamF f] c).1) : Good false [] c -> sound c ->
  0 <= now -> issued c + 1 < 2 ^ 32 -> sendable unwrapped any_ack rid sid [StreamF f] -> frames_small [StreamF f] ->
  sent_below c sid (Offset f) -> Data f <> [] ->
  Good false [] c' /\ issued c' = issued c + 1 /\ ledger_step heeded (books [] c) (books [] c') /\
  sent_below c' sid (chunk_end (chunk f)) /\ data_chunk (c_pm c') sid (chunk f) /\ (forall b, emitted c b -> emitted c' b) /\
  forall b, (prepareDataPacket now rid sid [StreamF f] c).2 = Some b -> emitted c' b.
Proof.
  intros G HS Hnow Hi Hs Hsm Hbelow Hd. destruct (track_good false now rid sid [StreamF f] c Hnow Hsm Hi G) as [G1 _].
  set (size := Z.of_nat (length (encoded c (nextSeq (c_pm c)) rid sid [StreamF f]))) in *.
  set (pm' := register now (c_pm c) (fresh_packet size [StreamF f] rid sid false)).
  assert (E : c_pm c' = pm' /\ issued c' = issued c + 1 /\ queue c' = queue c /\ wire c' = wire c /\ Good false [] c').
  { unfold c', prepareDataPacket. cbv zeta. case_match; cbn [fst]; split_and!; try done; revert G1; by apply Good_agrees. }
  destruct E as (E1 & E2 & E3 & E4 & G').
  assert (Hnew : new_data c sid [StreamF f]) by (intros g x [= ->]%list_elem_of_singleton _ Hx; by apply Hbelow).
  destruct (register_step now c size [StreamF f] rid sid false (queue c ++ []) (wire c) G Hnow Hi ltac:(cbn; lia)
    ltac:(cbn; unfold stream_bears; by destruct (Data f)) Hnew)
    as [Hstep (p & Hp & F1 & F2 & F3)]. fold pm' in Hstep, Hp, F1, F2, F3.
  destruct (register_tracks now (c_pm c) size [StreamF f] rid sid false (g_pm _ _ _ G) Hnow) as (q & Hq & En & Es);
    [rewrite (g_next _ _ _ G); lia|]. fold pm' in En, Es.
  split_and!; [done | done | unfold books; by rewrite E1, E3, E4 | | | |].
  - intros x [r Hr]. rewrite E1 in Hr. destruct (decide (r = q)) as [->|Hne].
    + destruct Hr as (g & Hg & _ & _ & ->). pose proof (en_load _ _ _ _ En) as (_ & Fr & _). rewrite Fr in Hg.
      apply list_elem_of_singleton in Hg as [= ->]. done.
    + rewrite (en_deref q _ _ _ En r Hne) in Hr. etrans; [apply Hbelow; by exists r|].
      unfold chunk_end. cbn. lia.
  - exists q. rewrite E1. pose proof (en_load _ _ _ _ En) as (_ & L1 & L2 & _ & L3). rewrite L2. split; [done|].
    exists f. rewrite L1, L3. split_and!; [left | done..].
  - intros b (pkt & r & H1 & H2 & H3 & H4). exists pkt, r. rewrite E1. split_and!; try done.
    + rewrite Es, lookup_insert_ne; [done|]. apply (pm_tracked _ (g_pm _ _ _ G)) in H3 as (_ & _ & _ & _ & ?). lia.
    + apply (pm_tracked _ (g_pm _ _ _ G)) in H3 as (Hst & _). rewrite (en_deref q _ _ _ En r); [done|].
      intros ->. destruct Hst. congruence.
  - intros b. unfold prepareDataPacket. cbv zeta. case_match; [done|]. intros [= <-].
    exists (outgoing c (nextSeq (c_pm c)) rid sid [StreamF f]), p. rewrite E1. split_and!; try done.
    by apply outgoing_sound; [|apply HS|].
Qed.

Lemma prepare_issued now rid sid frames c : issued (prepareDataPacket now rid sid frames c).1 = issued c + 1.
Proof. unfold prepareDataPacket. cbv zeta. by case_match. Qed.

Lemma prepare_all_later now rid sid fs : forall c bufs,
  issued c <= issued (fold_left (prepare_all now rid sid) fs (c, bufs)).1.
Proof.
  induction fs as [|f fs IH]; intros c bufs; [done|]. cbn [fold_left]. unfold prepare_all at 2.
  pose proof (prepare_issued now rid sid [StreamF f] c) as E.
  destruct (prepareDataPacket now rid sid [StreamF f] c) as [c1 buf]. cbn [fst] in E. etrans; [|apply IH]. lia.
Qed.

Lemma prepare_all_steps now rid sid fs : forall c bufs o, Good false [] c -> sound c -> 0 <= now ->
  tiled o (chunk <$> fs) ->
  (forall f, f ∈ fs -> sendable unwrapped any_ack rid sid [StreamF f] /\ frames_small [StreamF f]) ->
  sent_below c sid o -> (forall b, b ∈ bufs -> emitted c b) ->
  let '(c', bufs') := fold_left (prepare_all now rid sid) fs (c, bufs) in
  issued c' < 2 ^ 32 -> rtc (ledger_step heeded) (books [] c) (books [] c') /\ (forall b, b ∈ bufs' -> emitted c' b) /\
  forall f, f ∈ fs -> data_chunk (c_pm c') sid (chunk f).
Proof.
  induction fs as [|f fs IH]; intros c bufs o G HS Hnow Ht Hf Hb Hbufs.
  { intros _. split_and!; [done | done | by intros f ?%not_elem_of_nil]. }
  cbn [fold_left]. destruct Ht as (Eo & Hne & Ht). cbn in Eo, Hne. destruct (Hf f ltac:(left)) as [Hs Hsm].
  pose proof (prepare_step now rid sid f c G HS Hnow) as P.
  pose proof (prepare_sounds unwrapped any_ack now rid sid [StreamF f] c Hs ltac:(by apply one_probe_free)) as [HS1 _]. specialize (HS1 HS).
  pose proof (prepare_issued now rid sid [StreamF f] c) as Hcount.
  unfold prepare_all at 2. destruct (prepareDataPacket now rid sid [StreamF f] c) as [c1 buf]. cbn [fst snd] in *.
  set (bufs1 := match buf with Some b => bufs ++ [b] | None => bufs end).
  destruct (fold_left _ fs (c1, bufs1)) as [c' bufs'] eqn:Efold. intros Hi.
  assert (L : issued c1 <= issued c') by (pose proof (prepare_all_later now rid sid fs c1 bufs1) as H; by rewrite Efold in H).
  destruct P as (G1 & _ & Hstep & Hb1 & Hch & Hk & Hnew); try done; [lia | by rewrite Eo |].
  specialize (IH c1 bufs1 _ G1 HS1 Hnow Ht ltac:(intros; apply Hf; by right) Hb1). rewrite Efold in IH.
  destruct IH as (IH1 & IH2 & IH3); [|done|split_and!; [by eapply rtc_l | done |]].
  2: { intros g [->|Hg]%elem_of_cons; [|auto]. refine (loads_data (c_pm c1) _ _ _ _ Hch).
       exact (steps_loads _ _ _ IH1 (g_pm _ _ _ G1)). }
  intros b Hin. unfold bufs1 in Hin. destruct buf as [b0|]; [|by apply Hk, Hbufs].
  apply elem_of_app in Hin as [?|Hin%list_elem_of_singleton]; [by apply Hk, Hbufs | subst; by apply Hnew].
Qed.

(** A range of stream data cut into frames: every byte of it is in a packet. *)
Lemma sendStreamFrames_steps now sid rid o data k syn c (c' := sendStreamFrames now sid rid o data k syn c) :
  Good false [] c -> sound c -> 0 <= now -> is_u32 sid -> is_u32 rid -> 0 <= o ->
  o + Z.of_nat (length data) < 2 ^ 62 -> 0 < k <= room -> sent_below c sid o -> issued c' < 2 ^ 32 ->
  rtc (ledger_step heeded) (books [] c) (books [] c') /\
  forall i, o <= i < o + Z.of_nat (length data) -> exists x, data_chunk (c_pm c') sid x /\ x.1 <= i < chunk_end x.
Proof.
  intros G HS Hnow Hsid Hrid Ho Hlen Hk Hb. unfold c', sendStreamFrames.
  set (fs := chunk_frames (length data) (Z.to_nat k) o syn false data).
  assert (Hf : forall f, f ∈ fs -> sendable unwrapped any_ack rid sid [StreamF f] /\ frames_small [StreamF f]).
  { intros f Hin. split.
    - eapply chunk_sendable; [done | done | | | exact Hin | exact (unwrapped_chunks rid sid _ _ _ _ _ _ f Ho Hlen Hin)]; [width|lia].
    - destruct (chunks_sizes (Z.to_nat k) ltac:(lia) (length data) o syn false data ltac:(lia)) as (Hs & _).
      specialize (Hs f Hin). rewrite room_eq in Hk.
      unfold frames_small. cbn. unfold StreamFrame_Len, streamFrameHeaderLen, id. lia. }
  destruct (chunk_frames_tile (Z.to_nat k) data ltac:(lia) (length data) o syn false Ho ltac:(lia) Hlen) as [Ht Hj].
  fold fs in Ht, Hj. pose proof (prepare_all_steps now rid sid fs c [] o G HS Hnow Ht Hf Hb) as P.
  destruct (fold_left _ fs (c, [])) as [c1 bufs]. intros Hi.
  destruct P as (P1 & P2 & P3); [by intros b ?%not_elem_of_nil | revert Hi; unfold writeDatagrams; by case_match |]. split.
  - etrans; [exact P1|]. unfold writeDatagrams. case_match; [|reflexivity]. exact (emit_steps [] c1 bufs (peerAddr c1) P2).
  - intros i Hin. destruct (tiled_cover o (chunk <$> fs) i Ht) as (x & (f & -> & Hfs)%list_elem_of_fmap & Hx).
    { rewrite <- list_fmap_compose. change (snd ∘ chunk) with Data. by rewrite Hj. }
    exists (chunk f). split; [|done]. unfold writeDatagrams. case_match; by apply P3.
Qed.

Lemma sendStreamFrames_run now sid rid o data k syn c : 0 <= now -> is_u32 sid -> is_u32 rid -> 0 <= o ->
  o + Z.of_nat (length data) < 2 ^ 62 -> 0 < k <= room -> sent_below c sid o ->
  run Calm Calm c (sendStreamFrames now sid rid o data k syn c).
Proof.
  intros Hnow Hsid Hrid Ho Hlen Hk Hb. apply run_open.
  - apply sendStreamFrames_keeps; [done | rewrite room_eq in Hk; lia].
  - apply sendStreamFrames_sounds; try done; [width | lia |].
    intros f Hin. exact (unwrapped_chunks rid sid _ _ _ _ _ _ f Ho Hlen Hin).
  - intros G HS _ Hi _. by apply sendStreamFrames_steps.
Qed.

(** ** Re-sending *)

Lemma resend_step now pm p w w' wi (pm' := (Resend now pm p).1) : PM_ok pm -> 0 <= now -> nextSeq pm + 1 < 2 ^ 32 ->
  live pm p -> p ∈ tracked pm ++ w -> w' ⊆+ w -> p ∉ w' ->
  ledger_step heeded (MkBooks pm w wi) (MkBooks pm' w' wi) /\ (Resend now pm p).2 = (nextSeq pm, true) /\
  sentPackets pm' !! nextSeq pm = Some p.
Proof.
  intros Hok Hnow Hn (Hst & Hpr & Hac) Hp Hw Hpw.
  destruct (Resend_enters now pm p Hok Hnow Hn Hst Hac Hpr) as [E En].
  assert (Es : sentPackets pm' = <[nextSeq pm := p]> (untrack pm p)) by (unfold pm', Resend; by rewrite Hac, Hpr).
  split_and!; [|done|by rewrite Es, lookup_insert_eq]. apply (ls_resend _ pm pm' p); try done.
  intros s q. rewrite Es. intros [[<- <-]|[_ Hq]]%lookup_insert_Some; [by left|]. right.
  rewrite untrack_lookup in Hq by done. by case_decide.
Qed.

Lemma retransmit_steps h p seq c : sound c -> is_u32 seq -> sentPackets (c_pm c) !! seq = Some p ->
  rtc (ledger_step heeded) (books h c) (books h (retransmitPacket p seq c)).
Proof.
  intros HS Hq Hp. unfold retransmitPacket, transmit. cbv zeta. case_match; [|reflexivity]. set (v := deref (c_pm c) p).
  refine (emit_steps h c [encoded c seq (sp_DestinationStreamID v) (sp_SourceStreamID v) (sp_Frames v)] (peerAddr c) _).
  intros b ->%list_elem_of_singleton. exists (outgoing c seq (sp_DestinationStreamID v) (sp_SourceStreamID v) (sp_Frames v)), p.
  split_and!; try done. apply outgoing_sound; [done | done |]. apply (so_store _ _ _ HS p).
Qed.

Lemma chunks_many k o syn fin data : (0 < k < length data)%nat ->
  (1 < length (chunk_frames (length data) k o syn fin data))%nat.
Proof.
  intros Hk. destruct (chunks_sizes k ltac:(lia) (length data) o syn fin data ltac:(lia)) as (H1 & H2 & _).
  destruct (chunk_frames _ _ _ _ _ _) as [|f [|g fs]]; cbn in H2 |- *; [lia | | lia].
  specialize (H1 f ltac:(left)). unfold id in *. lia.
Qed.

Lemma fit_step p c : sound c -> fitToPath p c = (c, [p]) \/ exists pm pieces, fitToPath p c = (set_pm pm c, pieces) /\
  split_into p c pm pieces /\ (forall q, q ∈ pieces -> packets (c_pm c) !! q = None) /\
  forall w w' wi, p ∈ tracked (c_pm c) ++ w -> w' ⊆+ pieces ++ w -> p ∉ w' ->
    ledger_step heeded (MkBooks (c_pm c) w wi) (MkBooks pm w' wi).
Proof.
  intros HS. destruct (fitToPath_cases p c) as [|(sf & k & pm & pieces & Ef & _ & Hk & _ & Ea & Efit)]; [by left|].
  right. exists pm, pieces. set (v := deref (c_pm c) p) in *.
  pose proof (alloc_all_spec (piece_packet c v <$> chunk_frames (length (Data sf)) k (Offset sf) (IsSyn sf) (IsFin sf) (Data sf))
    (Drop (c_pm c) p)) as Hal. rewrite Ea in Hal. split_and!; [done | | exact (al_fresh _ _ _ _ Hal) |].
  { destruct (fitToPath_split p c) as [E|(pm1 & ps & E & _ & Hsp)]; rewrite Efit in E; injection E as E1 E2; [|congruence].
    pose proof (Forall2_length _ _ _ (al_values _ _ _ _ Hal)) as Hl. rewrite length_fmap, E2 in Hl.
    pose proof (chunks_many k (Offset sf) (IsSyn sf) (IsFin sf) (Data sf)). cbn in Hl. lia. }
  destruct (so_store _ _ _ HS p) as [(Hf & _) _]. fold v in Hf. rewrite Ef in Hf. apply Forall_inv in Hf as [_ Hu].
  assert (Hne : Data sf <> []) by (intros E; rewrite E in Hk; cbn in Hk; lia). destruct (Hu Hne) as [H0 H1].
  intros w w' wi Hp Hw Hpw. by apply (ls_split _ (c_pm c) pm w w' wi p sf k (IsSyn sf) (IsFin sf) (piece_packet c v) pieces); try lia.
Qed.

Lemma flush_round_run now p rest c : 0 <= now -> queue c = p :: rest ->
  run (Busy []) (Busy []) c (flush_round now p rest c).1.
Proof.
  intros Hnow Hq. apply run_open; [by apply flush_round_keeps | apply flush_round_sounds, unwrapped_split|].
  cbn [hand_of]. intros G HS Hi0 Hi Hc. revert Hi. pose proof G as [Gp Gn Gnd Gl _ _ _ _ _ _]. rewrite app_nil_r in *.
  rewrite Hq in *. pose proof (Gl p ltac:(left)) as Hlive. pose proof Hlive as (Hst & Hpr & Ha).
  apply NoDup_app in Gnd as (_ & _ & [Hpn _]%NoDup_cons).
  assert (Hin : p ∈ tracked (c_pm c) ++ queue c ++ []) by (rewrite Hq, !elem_of_app; right; left; left).
  assert (Hsub : rest ++ [] ⊆+ queue c ++ []) by (rewrite Hq, !app_nil_r; by apply submseteq_cons).
  unfold flush_round. rewrite Hc, Ha.
  assert (Hfit : exists c1 pieces, (if Current (c_mtu c) <? sp_Size (deref (c_pm c) p) then fitToPath p c else (c, [])) = (c1, pieces) /\
    ((length pieces <= 1)%nat /\ c1 = c \/ (1 < length pieces)%nat /\ exists pm, c1 = set_pm pm c /\
      ledger_step heeded (books [] c) (MkBooks pm ((pieces ++ rest) ++ []) (wire c)))).
  { case_match; [|exists c, []; cbn; auto with lia].
    destruct (fit_step p c HS) as [->|(pm & pieces & -> & Hm & Hfr & Hstep)]; [exists c, [p]; cbn; auto|].
    exists (set_pm pm c), pieces. split; [done|]. right. split; [apply Hm|]. exists pm. split; [done|]. apply Hstep; [done| |].
    - rewrite <- app_assoc. by apply submseteq_app.
    - rewrite app_nil_r, elem_of_app. intros [Hf%Hfr|?]; [destruct Hst; congruence | done]. }
  destruct Hfit as (c1 & pieces & -> & [[Hl ->]|(Hm & pm & -> & Hstep)]).
  2: { rewrite (proj2 (Nat.ltb_lt _ _) Hm). intros _. by apply rtc_once. }
  rewrite (proj2 (Nat.ltb_ge _ _) Hl). destruct (0 <? TimeUntilSend now (Pacer (c_cc c))).
  { intros _. unfold books. change (queue (fst _)) with (p :: rest). by rewrite Hq. }
  destruct (negb (CCCanSend _ _)); [reflexivity|]. change (c_pm (set_queue rest (lostTimer (loss c)) c)) with (c_pm c).
  set (c2 := set_queue rest (lostTimer (loss c)) c). intros Hi.
  destruct (resend_step now (c_pm c) p (queue c ++ []) (rest ++ []) (wire c) Gp Hnow) as (Hstep & E & Hs); try done.
  { rewrite Gn. revert Hi. unfold Resend. rewrite Ha, Hpr. cbn. unfold retransmitPacket, transmit. case_match; done. }
  { by rewrite app_nil_r. }

  destruct (Resend now (c_pm c) p) as [pm [seq ok]] eqn:Er. cbn [fst snd] in *. injection E as -> ->. cbn [negb fst].
  eapply rtc_l; [exact Hstep|]. set (c3 := set_cc _ (bump (set_pm pm c2))).
  refine (retransmit_steps [] p (nextSeq (c_pm c)) c3 _ _ _); [|apply Gp|done].
  assert (HS2 : sound c2) by (by apply (sound_eq unwrapped any_ack c)).
  apply (sound_eq unwrapped any_ack (set_pm pm c2)); try reflexivity. revert HS2. apply set_pm_sounds.
  pose proof (Resend_frames unwrapped any_ack now (c_pm c) p) as Hk. by rewrite Er in Hk.
Qed.
Lemma flush_loop_run now fuel : forall c c', 0 <= now -> flush_loop fuel now c = Some c' -> run (Busy []) (Busy []) c c'.
Proof.
  induction fuel as [|fuel IH]; intros c c' Hnow; cbn [flush_loop];
    destruct (lostQueue (loss c)) as [|p rest] eqn:Hq; try done; try (intros [= <-]; apply run_refl).
  pose proof (flush_round_run now p rest c Hnow Hq) as R. destruct (flush_round now p rest c) as [c1 more].
  cbn [fst] in R. destruct more; [|by intros [= <-]]. intros E. eapply run_trans; [exact R | by apply IH].
Qed.

Lemma flushLost_run now c : 0 <= now -> run (Busy []) Calm c (flushLost now c).
Proof.
  intros Hnow. split; [by apply flushLost_keeps | apply flushLost_sounds, unwrapped_split |].
  unfold flushLost. set (c1 := set_queue _ _ _).
  assert (R1 : run (Busy []) (Busy []) c c1).
  { apply run_still; [|by apply sound_eq | done]. apply keeps_good; [done | done | done|]. intros _ _. by apply Good_agrees. }
  intros HI HS Hi Hc. destruct (flush_loop (flush_fuel c1) now c1) as [c2|] eqn:E; cbn [default] in *.
  - apply flush_loop_run in E; [|done]. by apply (run_steps _ _ _ _ (run_trans _ _ _ _ _ _ R1 E)).
  - by apply (run_steps _ _ _ _ R1).
Qed.

(** ** Lost packets *)

Lemma removes_sub ls pm pm' s q : PM_ok pm -> removes ls pm pm' -> packets pm' = packets pm ->
  sentPackets pm' !! s = Some q -> sentPackets pm !! s = Some q.
Proof.
  intros Hok R Hp Hs. assert (Ht : q ∈ tracked pm) by (apply (rm_tracked _ _ _ R), tracked_elem; eauto).
  apply tracked_elem in Ht as [t Ht]. destruct (pm_tracked _ Hok _ _ Ht) as (_ & E & _).
  destruct (pm_tracked _ (rm_ok _ _ _ R) _ _ Hs) as (_ & E' & _). unfold deref in *. rewrite Hp in E'. congruence.
Qed.

Lemma report_run ph now pm' ls c : hand_of ph = [] -> 0 <= now ->
  (Good false [] c -> removes ls (c_pm c) pm' /\ packets pm' = packets (c_pm c)) ->
  largestAcked pm' = largestAcked (c_pm c) -> (sound c -> sound (report_lost now (pm', ls) c)) -> run ph ph c (report_lost now (pm', ls) c).
Proof.
  intros Hph Hnow H Hlg HS'. pose proof (report_keeps false ph now pm' ls c Hph Hnow H) as K.
  split; [done | done |]. rewrite Hph. intros HI HS Hi Hc. pose proof K as [[L1 L2] _].
  assert (Hc0 : closeCh (life c) = false) by (destruct (closeCh (life c)); [by rewrite L2 in Hc | done]).
  destruct (HI ltac:(lia) Hc0) as (G & HA & _). rewrite Hph in G. destruct (H G) as [R Hpk].
  assert (Hlost : forall w', w' ⊆+ queue c ++ ls -> ledger_step heeded (books [] c) (MkBooks pm' w' (wire c))).
  { intros w' Hw. unfold books. rewrite app_nil_r. apply (ls_lost _ _ _ ls); try done.
    split; [done|]. intros s q. by apply (removes_sub ls); [apply G|..]. }
  pose proof (lost_good false c pm' ls G R Hpk) as G'. set (data := filter (is_data pm') ls) in *.
  unfold report_lost in *. destruct (decide (data = [])) as [E|Hne].
  - apply rtc_once. destruct ls as [|p ls]; [apply Hlost; by rewrite !app_nil_r|].
    destruct (onPacketsLost_probes now (p :: ls) (set_pm pm' c) Hnow E) as (m & -> & _). apply Hlost.
    unfold queue. cbn. rewrite app_nil_r. apply submseteq_inserts_r. reflexivity.
  - assert (Er : match ls with [] => set_pm pm' c | _ => onPacketsLost now ls (set_pm pm' c) end
      = onPacketsLost now ls (set_pm pm' c)) by (by destruct ls). rewrite Er in *.
    assert (Hi0 : issued c < 2 ^ 32) by lia. pose proof (flight_bound _ _ G Hi0). pose proof (lost_bound false c pm' ls G R Hi0) as Hlb.
    destruct (onPacketsLost_queued false now ls (set_pm pm' c) Hnow) as (c1 & E1 & [_ K1] & E2 & E3 & E4 & E5 & E6 & Hm); [exact Hlb | cbn; lia | exact Hne |].
    rewrite E1 in *. eapply rtc_l; [apply (Hlost ((queue c ++ data) ++ []))|].
    { rewrite app_nil_r. apply submseteq_app; [done|]. apply sublist_submseteq, sublist_filter. }
    assert (HI1 : Inv false (Busy []) c1) by (apply K1; intros _ _; by split_and!).
    pose proof (run_steps _ _ _ _ (flushLost_run now c1 Hnow) HI1) as P. cbn [hand_of] in P.
    unfold books at 1 in P. rewrite E2, E3, E4 in P. apply P; [|done|done].
    assert (HS1 : sound (set_pm pm' c)).
    { revert HS. by apply set_pm_sounds, frames_eq; [|apply R]. }
    apply (sound_eq unwrapped any_ack (set_mtu (c_mtu c1) (set_pm pm' c))); try done. revert HS1. by apply set_mtu_sounds.
Qed.
(** ** Probes *)

Lemma probe_piece_steps now h h' c p : Good false h c -> sound c -> 0 <= now -> issued c + 1 < 2 ^ 32 -> live (c_pm c) p ->
  p ∈ tracked (c_pm c) ++ queue c ++ h -> h' ⊆+ h -> p ∉ queue c ++ h' ->
  rtc (ledger_step heeded) (books h c) (books h' (probe_piece now c p)).
Proof.
  intros G HS Hnow Hi Hl Hp Hh Hn. pose proof (g_pm _ _ _ G) as Hok.
  destruct (resend_step now (c_pm c) p (queue c ++ h) (queue c ++ h') (wire c) Hok Hnow) as (Hstep & E & Hs); try done.
  { rewrite (g_next _ _ _ G). lia. }
  { by apply submseteq_app. }
  eapply rtc_l; [exact Hstep|]. unfold probe_piece. pose proof (Resend_frames unwrapped any_ack now (c_pm c) p) as Hk.
  destruct (Resend now (c_pm c) p) as [pm [seq ok]]. cbn [fst snd] in *. injection E as -> ->. cbv zeta.
  refine (retransmit_steps h' p (nextSeq (c_pm c)) (bump (set_pm pm c)) _ _ _); [|apply Hok|done].
  apply (sound_eq unwrapped any_ack (set_pm pm c)); try reflexivity. revert HS. by apply set_pm_sounds.
Qed.

Lemma probe_issued now c p : live (c_pm c) p -> issued (probe_piece now c p) = issued c + 1.
Proof.
  intros (_ & Hpr & Ha). unfold probe_piece, Resend. rewrite Hpr, Ha. cbn. unfold retransmitPacket, transmit. by case_match.
Qed.

Lemma probe_hand_steps now hand : forall c, Good false hand c -> sound c -> 0 <= now ->
  issued (fold_left (probe_piece now) hand c) < 2 ^ 32 ->
  rtc (ledger_step heeded) (books hand c) (books [] (fold_left (probe_piece now) hand c)).
Proof.
  induction hand as [|p hand IH]; intros c G HS Hnow Hi; cbn [fold_left] in *; [done|].
  assert (Hl : live (c_pm c) p) by (apply (g_live _ _ _ G); rewrite elem_of_app; right; left).
  destruct (probes_later now hand (probe_piece now c p)) as [L _]. rewrite (probe_issued now c p Hl) in L.
  destruct (probe_hand false now c p hand G ltac:(lia) Hnow) as (G1 & _).
  etrans; [apply (probe_piece_steps now (p :: hand) hand c p); try done|].
  - lia.
  - rewrite !elem_of_app. right. right. left.
  - by apply submseteq_cons.
  - pose proof (g_nodup _ _ _ G) as Hn. apply NoDup_app in Hn as (_ & _ & Hn).
    rewrite <- Permutation_middle in Hn. by apply NoDup_cons in Hn as [? _].
  - apply IH; try done. revert HS. apply probe_piece_sounds.
Qed.

Lemma probe_packet_steps now c p : Good false [] c -> sound c -> 0 <= now -> issued (probe_packet now c p) < 2 ^ 32 ->
  p ∈ tracked (c_pm c) -> is_data (c_pm c) p ->
  rtc (ledger_step heeded) (books [] c) (books [] (probe_packet now c p)).
Proof.
  intros G HS Hnow Hi Hp Hd. unfold probe_packet in *. destruct (tracked_fact _ _ (g_pm _ _ _ G) Hp) as [Hst Ha].
  assert (Hl : live (c_pm c) p) by done.
  assert (Hq : p ∉ queue c ++ []).
  { pose proof (g_nodup _ _ _ G) as Hn. apply NoDup_app in Hn as (_ & Hn & _). by apply Hn. }
  destruct (fit_step p c HS) as [E|(pm & pieces & E & Hsp & Hfr & Hstep)]; pose proof (fitToPath_sounds unwrapped any_ack unwrapped_split p c HS) as HS1;
    rewrite E in *; cbn [fold_left fst] in *.
  - rewrite (probe_issued now c p Hl) in Hi. apply probe_piece_steps; try done. rewrite elem_of_app. by left.
  - eapply rtc_l; [apply (Hstep (queue c ++ []) (queue c ++ pieces))|].
    + rewrite elem_of_app. by left.
    + rewrite app_nil_r. by rewrite (Permutation_app_comm pieces).
    + rewrite app_nil_r in Hq. rewrite elem_of_app. intros [?|H%Hfr]; [done|]. destruct Hst. congruence.
    + apply (probe_hand_steps now pieces (set_pm pm c)); try done. by apply (split_hand_good c pm pieces p).
Qed.
Lemma probe_packets_steps now l : forall c, Good false [] c -> sound c -> 0 <= now -> NoDup l ->
  issued (fold_left (probe_packet now) l c) < 2 ^ 32 ->
  (forall p, p ∈ l -> p ∈ tracked (c_pm c) /\ is_data (c_pm c) p) ->
  rtc (ledger_step heeded) (books [] c) (books [] (fold_left (probe_packet now) l c)).
Proof.
  induction l as [|p l IH]; intros c G HS Hnow Hnd Hi Hl; cbn [fold_left] in *; [done|].
  apply NoDup_cons in Hnd as [Hnin Hnd]. destruct (Hl p ltac:(left)) as (Hp & Hd).
  destruct (probe_packets_later now l (probe_packet now c p)) as [L _].
  destruct (probe_packet_good false now c p G Hnow ltac:(lia) Hp Hd) as (G1 & M1 & O1); [done|].
  etrans; [apply (probe_packet_steps now c p); try done; lia|]. apply IH; try done.
  - revert HS. apply probe_packet_sounds, unwrapped_split.
  - intros q Hq. assert (q <> p) by (intros ->; done). destruct (Hl q ltac:(by right)) as (Hq1 & Hq2).
    destruct (O1 q) as [T D]; [done..|]. unfold is_data in *. by rewrite D.
Qed.

Lemma onPtoTimeout_run (o : RangeOrder) now c : 0 <= now -> run Calm Calm c (onPtoTimeout now c).
Proof.
  intros Hnow. apply run_open; [by apply onPtoTimeout_keeps | by apply onPtoTimeout_sounds, Hnow; apply unwrapped_split|].
  intros G HS _ Hi Hc. revert Hi. unfold onPtoTimeout, onPTO. set (c0 := set_cc (ptoFired (c_cc c)) c).
  set (c1 := if BlackholePTOs <=? PTOCount (c_cc c0) then set_mtu (Blackhole now (c_mtu c0)) c0 else c0).
  assert (H1 : Good false [] c1 /\ sound c1 /\ books [] c1 = books [] c).
  { assert (G0 : Good false [] c0) by (revert G; by apply Good_agrees).
    assert (HS0 : sound c0) by (by apply (sound_eq unwrapped any_ack c)).
    assert (Hm : MTU_ok (Blackhole now (c_mtu c0))) by (apply (mtu_apply_ok _ (CBlackhole now)); [apply G0 | done]).
    unfold c1. case_match; [|done]. split_and!; [destruct G0; by split | |done]. revert HS0. by apply set_mtu_sounds. }
  destruct H1 as (G1 & HS1 & E). clearbody c1. destruct (oldest_tracked (c_pm c1) (g_pm _ _ _ G1)) as [Hnd Hl].
  set (l := OldestUnacked _ _ _) in *. intros Hi. cbn [hand_of]. rewrite <- E.
  exact (probe_packets_steps now l c1 G1 HS1 Hnow Hnd Hi Hl).
Qed.

Lemma probeMTU_run now c : 0 <= now -> run Calm Calm c (probeMTU now c).
Proof.
  intros Hnow. apply run_open; [by apply probeMTU_keeps | by apply probeMTU_sounds|].
  intros G HS _ Hi Hc. pose proof (probeMTU_sounds unwrapped any_ack now c Hnow HS) as HS'. revert Hi HS'.
  unfold probeMTU. destruct (negb _); [done|]. destruct (NextProbe now (c_mtu c)) as [m size]. destruct (size =? 0); [done|].
  cbv zeta. set (c1 := set_mtu m c). set (hdr := _ - 1). set (n := Z.of_nat _). cbn [hand_of]. intros Hi HS'.
  assert (Hi' : issued c + 1 < 2 ^ 32) by (revert Hi; unfold transmit; by case_match).
  destruct (register_step now c n [MTUProbeFrame (size - hdr)] 0 0 true (queue c ++ []) (wire c) G Hnow Hi')
    as [Hstep (p & Hp & E1 & E2 & E3)]; [cbn; lia | done | by intros f x ?%list_elem_of_singleton|].
  eapply rtc_l; [exact Hstep|]. set (pm' := register _ _ _) in *.
  assert (Hs : sendable unwrapped any_ack 0 0 [MTUProbeFrame (size - hdr)]).
  { pose proof (so_store _ _ _ HS' p) as [Hs _]. revert Hs. unfold transmit. case_match; cbn [c_pm set_wire add_sent set_path bump set_pm];
      fold c1; change (register now (c_pm c1) _) with pm'; by rewrite E1, E2, E3. }
  unfold transmit. case_match; [|reflexivity]. apply rtc_once.
  apply (ls_emit _ pm' (queue c ++ []) (wire c) p (outgoing c (nextSeq (c_pm c)) 0 0 [MTUProbeFrame (size - hdr)])); try done.
  by apply outgoing_sound; [|apply HS|].
Qed.
(** ** Acknowledgements *)

Lemma detect_largest order now delay pm pm' ls : detectLostLocked order now delay pm = (pm', ls) ->
  largestAcked pm' = largestAcked pm.
Proof. unfold detectLostLocked. repeat case_match; intros; by simplify_eq. Qed.

Lemma detectLost_run (o : RangeOrder) ph now c : hand_of ph = [] -> 0 <= now -> run ph ph c (detectLost now c).
Proof.
  intros Hph Hnow. pose proof (detectLost_sounds unwrapped any_ack unwrapped_split now Hnow c) as HS. revert HS.
  unfold detectLost, DetectLostPackets. destruct (detectLostLocked _ _ _ _) as [pm' ls] eqn:E. intros HS.
  apply report_run; [done | done | | by eapply detect_largest | done]. intros G.
  pose proof (detect_removes (c_pm c) (range_packets (sentPackets (c_pm c))) now (lossDelayOf c) (g_pm _ _ _ G)
    (delay_pos c) (range_packets_perm _)) as D. by rewrite E in D.
Qed.

Lemma lossTimerFired_run (o : RangeOrder) now c : 0 <= now -> run Calm Calm c (lossTimerFired now c).
Proof.
  intros Hnow. unfold lossTimerFired, onLossTimer. set (pm0 := MkPM _ _ _ _ _ _ _ _).
  pose proof (detect_frames unwrapped any_ack (range_packets (sentPackets (c_pm c))) now (lossDelayOf c) pm0) as Hd.
  destruct (detectLostLocked _ _ _ _) as [pm' ls] eqn:E. cbn [fst] in Hd. apply report_run; [done | done | | exact (detect_largest _ _ _ _ _ _ E) |].
  - intros G. assert (Hok : PM_ok pm0) by (split; apply (g_pm _ _ _ G)).
    pose proof (detect_removes pm0 (range_packets (sentPackets (c_pm c))) now (lossDelayOf c) Hok
      (delay_pos c) (range_packets_perm _)) as D. rewrite E in D. destruct D as [[] Hp]. by split; [split|].
  - apply report_sounds; [apply unwrapped_split | done|]. etrans; [|exact Hd]. by apply frames_eq.
Qed.

Lemma handleAckFrame_run (o : RangeOrder) now f c : 0 <= now -> is_u32 (LargestAcked f) -> heeded f ->
  run Calm Calm c (handleAckFrame now f c).
Proof.
  intros Hnow Hf Hh. rewrite handleAckFrame_eq. destruct (HandleAckFrame now (c_pm c) f) as [pm acked] eqn:E.
  assert (Hstep : ledger_step heeded (books [] c) (MkBooks pm (queue c ++ []) (wire c))).
  { unfold books. replace pm with (HandleAckFrame now (c_pm c) f).1 by (by rewrite E). by apply ls_ack. }
  pose proof (HandleAckFrame_frames unwrapped any_ack now (c_pm c) f) as Hk. rewrite E in Hk. cbn [fst] in Hk.
  assert (R : run Calm (Busy []) c (count_acked now f pm acked c)).
  { apply run_open; [by apply count_acked_keeps | by apply count_acked_sounds|]. intros _ _ _ _ _. apply rtc_once. cbn [hand_of].
    unfold books at 2, count_acked. destruct (fold_left _ _ _) as [[[m b] la] lg]. exact Hstep. }
  destruct acked as [|p acked].
  - apply run_open; [by apply (none_acked_keeps false now f) | by apply set_pm_sounds | intros; by apply rtc_once].
  - eapply run_trans; [|by apply probeMTU_run]. eapply run_trans; [|by apply flushLost_run].
    eapply run_trans; [exact R | by apply detectLost_run].
Qed.

(** ** Calls of streams *)

(** Bytes of a stream, if the call sends any, are new. *)
Definition call_new (c : Connection) (call : conn_call) : Prop :=
  match call with
  | SendStreamFrame _ _ _ data _ _ => data = []
  | SendStreamFrames id _ o data chunk _ =>
      0 <= o /\ o + Z.of_nat (length data) < 2 ^ 62 /\ 0 < chunk /\ sent_below c id o
  | _ => True
  end.

Definition call_plain (call : conn_call) : Prop :=
  match call with SendStreamFrame _ _ _ data _ _ => data = [] | SendStreamFrames _ _ _ _ _ _ => False | _ => True end.

Lemma bare_run now dst src f c : 0 <= now -> sendable unwrapped any_ack dst src [StreamF f] -> Data f = [] ->
  run Calm Calm c (sendPacket now dst src [StreamF f] c).
Proof.
  intros Hnow Hs Hd. apply sendPacket_run; [done | done | | done |].
  - unfold frames_small. cbn. unfold StreamFrame_Len, streamFrameHeaderLen, id. rewrite Hd. cbn. lia.
  - intros _ g x [= ->]%list_elem_of_singleton Hne. done.
Qed.

Lemma exec_call_run now c call : 0 <= now -> call_ok unwrapped call -> call_new c call ->
  run Calm Calm c (exec_call now c call).
Proof.
  intros Hnow [Hf HQ] Hnew. destruct call; cbn in Hf, HQ, Hnew |- *; destruct Hf as (H1 & H2 & Hf) || destruct Hf as (H1 & H2).
  - destruct Hf as [Ho Hl]. apply bare_run; [done | | done].
    apply one_sendable; try done; [|by apply stream_slim]. split; [done | by apply short_data].
  - destruct Hnew as (N1 & N2 & N3 & N4), Hf as [_ Hf]. apply sendStreamFrames_run; try done. lia.
  - apply control_run; [done | by apply one_sendable | done | done].
  - apply control_run; [done | | done | done]. apply one_sendable; try done. apply u32_range.
  - apply control_run; [done | | done | done]. apply one_sendable; try done. split; [done | apply u64_range].
Qed.

Lemma plain_calls_run now calls c : 0 <= now -> Forall (call_ok unwrapped) calls -> Forall call_plain calls ->
  run Calm Calm c (exec_calls now calls c).
Proof.
  intros Hnow Hok Hp. rewrite Forall_forall in Hok, Hp. apply run_fold. intros c' call Hin.
  apply exec_call_run; [done | by apply Hok|]. specialize (Hp call Hin). by destruct call.
Qed.

Lemma on_stream_run now id op c : 0 <= now -> (forall s, Forall call_plain (op s).2) ->
  (forall s, is_u32 (ID s) -> is_u32 (RemoteID s) -> Forall (call_ok unwrapped) (op s).2) ->
  ids_ok (table c) -> run Calm Calm c (on_stream now id op c).
Proof.
  intros Hnow Hp Hok [_ Hi]. rewrite on_stream_eq. destruct (streams (table c) !! id) as [s|] eqn:E; [|apply run_refl].
  eapply run_trans; [|apply plain_calls_run; [done | | apply Hp]].
  - silent.
  - destruct (Hi _ _ E). auto.
Qed.

Lemma on_found_run (o : RangeOrder) now pkt op c : 0 <= now -> (forall s, Forall call_plain (op s).2) ->
  (forall s, is_u32 (ID s) -> is_u32 (RemoteID s) -> Forall (call_ok unwrapped) (op s).2) ->
  ids_ok (table c) -> run Calm Calm c (on_found now pkt op c).
Proof. intros. unfold on_found. case_match; [by apply on_stream_run | apply run_refl]. Qed.

Lemma Reset_plain s code : Forall call_plain (Stream.Reset s code).2.
Proof. unfold Stream.Reset. repeat case_match; cbn; repeat constructor. Qed.

Lemma DeliverData_plain s o d : Forall call_plain (DeliverData s o d).2.
Proof. unfold DeliverData. repeat case_match; cbn; repeat constructor. apply Reset_plain. Qed.

(** ** Received packets *)

Lemma handleStreamFrame_run (o : RangeOrder) now pkt f c : 0 <= now -> is_u32 (SourceStreamID pkt) -> ids_ok (table c) ->
  run Calm Calm c (handleStreamFrame now pkt f c).
Proof.
  intros Hnow Hr Hi. unfold handleStreamFrame. pose proof (stream_for_moves pkt f c Hr) as Hm.
  assert (R : run Calm Calm c (stream_for pkt f c).1).
  { unfold stream_for, accept_incoming. repeat case_match; simplify_eq; cbn [fst]; try apply run_refl.
    all: silent. }
  destruct (stream_for pkt f c) as [c1 [id|]]; [|done]. cbn [fst] in *. pose proof (moves_ids _ _ Hm Hi) as Hi1.
  set (c2 := if (0 <? length (Data f))%nat then _ else c1).
  assert (R2 : run Calm Calm c1 c2 /\ ids_ok (table c2)).
  { unfold c2. case_match; [|split; [apply run_refl | done]]. split.
    - apply on_stream_run; try done; [intros; apply DeliverData_plain | intros; by apply DeliverData_calls].
    - apply (moves_ids c1); [|done]. apply on_stream_moves. intros. apply DeliverData_stays. }
  destruct R2 as [R2 Hi2]. clearbody c2. eapply run_trans; [exact R|]. eapply run_trans; [exact R2|].
  case_match; [|apply run_refl]. apply on_stream_run; try done; intros; constructor.
Qed.

Lemma closeInternal_run now code reason announce c : 0 <= now -> is_u32 code -> Z.of_nat (length reason) < 2 ^ 16 ->
  run Calm Calm c (closeInternal now code reason announce c).
Proof.
  intros Hnow Hc Hr. split; [by apply closeInternal_keeps | by apply closeInternal_sounds|].
  unfold closeInternal. destruct (closeOnce (life c)); [done|]. by intros _ _ _ [=].
Qed.

Lemma sendFrames_run now f c : 0 <= now -> Frame_ok f -> licensed unwrapped any_ack 0 0 f -> bears_data f = false ->
  slim f -> (forall n, f <> MTUProbeFrame n) -> run Calm Calm c (sendFrames now [f] c).
Proof. intros. unfold sendFrames. apply control_run; try done. by apply one_sendable. Qed.

Lemma handleFrame_run (o : RangeOrder) now pkt c f : 0 <= now -> Packet_ok pkt -> Frame_ok f ->
  (forall af, f = AckF af -> heeded af) -> ids_ok (table c) -> run Calm Calm c (handleFrame now pkt c f).
Proof.
  intros Hnow Hp Hf Hh Hi. destruct f; cbn [handleFrame]; try apply run_refl; try (by apply sendFrames_run).
  - apply handleAckFrame_run; [done | apply Hf | by apply Hh].
  - apply handleStreamFrame_run; [done | apply Hp | done].
  - apply on_found_run; try done; intros; constructor.
  - silent.
  - apply on_found_run; try done; intros; constructor.
  - case_match; [|apply run_refl]. silent.
  - apply run_still; [apply handlePathResponse_keeps | |]; unfold handlePathResponse, completeMigration.
    + repeat case_match; simplify_eq; try done; apply sound_eq; reflexivity.
    + repeat case_match; by simplify_eq.
  - unfold CloseConn, CloseWithError. by apply closeInternal_run.
  - apply on_found_run; try done; intros; [apply Reset_plain | apply Reset_calls; try done; apply Hf].
  - apply sendFrames_run; try done. apply u64_range.
  - apply on_found_run; try done; intros s; (destruct (streamFC s) as [fc|]; [|constructor]); destruct (RefreshLimit fc).
    + by apply Forall_singleton.
    + intros. by apply Forall_singleton.
Qed.

Lemma frames_run (o : RangeOrder) now pkt frames c : 0 <= now -> Packet_ok pkt -> Forall Frame_ok frames ->
  (forall af, AckF af ∈ frames -> heeded af) -> ids_ok (table c) ->
  run Calm Calm c (fold_left (handleFrame now pkt) frames c).
Proof.
  intros Hnow Hp Hf. revert c. induction Hf as [|f frames Hf _ IH]; intros c Hh Hi; [apply run_refl|]. cbn [fold_left].
  eapply run_trans; [apply handleFrame_run; try done; intros af ->; apply Hh; left|].
  apply IH; [intros; apply Hh; by right|]. apply (moves_ids c); [|done]. apply handleFrame_moves, Hp.
Qed.

Notation healthy := (Healthy unwrapped any_ack).

Lemma noteReceived_run now pkt c : 0 <= now -> Packet_ok pkt -> tracking c -> run Calm Calm c (noteReceived now pkt c).
Proof.
  intros Hnow Hp [S HT]. unfold noteReceived. destruct (add_spec _ _ HT (Sequence pkt) (ok_seq _ Hp)) as [HT' _].
  destruct (AckTracker.add _ _) as [r ooo]. cbv zeta. case_match; [|silent].
  match goal with |- context [takeAckLocked now ?x] => destruct (takeAck_eq now x) as (d & Hd & ->) end.
  eapply run_trans; [|apply control_run; [done | | done | done]]; [silent|].
  eapply ack_sendable; [exact HT' | done | apply Hp | apply Hp | done].
Qed.

Lemma HandlePacket_run (o : RangeOrder) now pkt c : 0 <= now -> Packet_ok pkt -> healthy c ->
  (forall af, AckF af ∈ Frames pkt -> heeded af) -> run Calm Calm c (HandlePacket now pkt c).
Proof.
  intros Hnow Hp [_ Hi Ht] Hh. unfold HandlePacket. cbv zeta. set (c0 := note_arrival now pkt c).
  assert (R0 : run Calm Calm c c0) by silent.
  assert (Ht1 : tracking (fold_left (handleFrame now pkt) (Frames pkt) c0)).
  { exact (calm_tracking _ _ (frames_calm now pkt (Frames pkt) c0) Ht). }
  pose proof (frames_run o now pkt (Frames pkt) c0 Hnow Hp (ok_frames _ Hp) Hh Hi) as R1.
  pose proof (run_trans _ _ _ _ _ _ R0 R1) as R. case_match; [|done]. eapply run_trans; [exact R|]. by apply noteReceived_run.
Qed.

Lemma ackTimerFired_run now src dst c : 0 <= now -> is_u32 src -> is_u32 dst -> healthy c ->
  run Calm Calm c (ackTimerFired now src dst c).
Proof.
  intros Hnow Hsrc Hdst [_ _ [S HT]]. unfold ackTimerFired. cbv zeta. case_match; [silent|].
  match goal with |- context [takeAckLocked now ?x] => destruct (takeAck_eq now x) as (d & Hd & ->) end.
  eapply run_trans; [|apply control_run; [done | | done | done]]; [silent|].
  by eapply ack_sendable.
Qed.

(** ** The other operations *)

Lemma flushTimer_run now c : 0 <= now -> run Calm Calm c (flushLost now c).
Proof.
  intros Hnow. pose proof (flushLost_run now c Hnow) as [_ S R]. split; [by apply flushTimer_keeps | done|].
  intros HI. apply R. by apply (keeps_busy false c).
Qed.

Lemma own_step_run e c c' : own_step e c c' -> healthy c -> run Calm Calm c c'.
Proof.
  intros Hstep Hh. destruct Hstep; try silent; try (unfold Ping; by apply sendFrames_run).
  - by apply ackTimerFired_run.
  - by apply lossTimerFired_run.
  - by apply onPtoTimeout_run.
  - by apply flushTimer_run.
  - unfold onIdleCheck, armIdleCheck. repeat case_match; [by apply closeInternal_run | apply run_refl |].
    apply run_still; [|by apply sound_eq | done]. apply keeps_agrees; [split; reflexivity | reflexivity.. | congruence].
  - unfold OpenStream. repeat case_match; cbn [fst]; try apply run_refl. silent.
  - match goal with H : AcceptStream _ _ _ _ |- _ => destruct H end; try apply run_refl. silent.
  - unfold sendFrames. apply bare_run; [done | | done]. by apply one_sendable.
  - unfold CloseWithError. by apply closeInternal_run.
  - unfold observeAddr. repeat case_match; cbn [fst]; try apply run_refl. all: silent.
  - unfold sendControlTo. apply run_open; [apply sendControlTo_keeps | |].
    + apply send_sounds; [|done..]. intros Hs. assert (sendable unwrapped any_ack 0 0 [PathChallengeFrame d]) by by apply one_sendable.
      split_and!; try done. by eapply sendable_within, one_probe_free.
    + intros G HS _ _ _. unfold transmit. cbv zeta. case_match; [|reflexivity].
      apply rtc_once, (ls_control _ (c_pm c) (queue c ++ []) (wire c) (outgoing c 0 0 0 [PathChallengeFrame d])); [|done].
      apply outgoing_sound; [done | done | by apply one_sendable].
  - unfold migrate_start. eapply run_trans; [|by apply sendFrames_run]. silent.
  - unfold migrate_finish in *. repeat case_match; simplify_eq; silent.
  - unfold enqueue. case_match; silent.
Qed.

End Runs.
