(* ===== verification/EndToEnd.v ===== *)
(** * Two connections and the network between them

    Each end of a pair of connections runs as it likes, and receives datagrams
    that the other end has sent: any of them, in any order, any number of times
    or never. What an application reads from a stream is then a beginning of
    what the other application wrote on the stream it belongs to, and at the
    end of file all of it. *)

From stdpp Require Import strings functions.
From S2P Require Import Prelude Constants Cid Frame Packet AckTracker FlowControl Mtud.
From S2P Require Import PacketManager AckExchange Stream Pacing Congestion Connection Recovery ConnReach.
From S2P Require Import Dispatch Wire.

(** ** What a stream has heard

    The peer has written [src] and closed at the lengths [fins]; the
    application has read [seen]. *)

Definition finished (s : Stream) : Prop := state s = StreamStateClosed \/ state s = StreamStateHalfClosedRemote.

Record heard (src : list byte) (fins : list Z) (seen : list byte) (s : Stream) : Prop := {
  hd_recv : recv_ok src seen (recv s);
  hd_fin : finSeen s = true -> finalSize s ∈ fins;
  hd_done : finReceived s = true -> exists n, n ∈ fins /\ n <= recvOffset (recv s);
  hd_closed : finished s -> finReceived s = true
}.

Lemma recv_ok_app src post seen r : recv_ok src seen r -> recv_ok (src ++ post) seen r.
Proof.
  intros [H1 H2 H3 H4 H5]. split; try done; rewrite ?length_app; try lia.
  - rewrite take_app_le; [done | lia].
  - intros o c Hc. by apply chunk_of_app, H3.
Qed.

Lemma heard_grow src post fins more seen s : heard src fins seen s -> heard (src ++ post) (fins ++ more) seen s.
Proof.
  intros [H1 H2 H3 H4]. split; [by apply recv_ok_app | | | done].
  - intros Hf. apply elem_of_app. left. auto.
  - intros Hf. destruct (H3 Hf) as (n & Hn & Hl). exists n. split; [|done]. apply elem_of_app. by left.
Qed.

(** Changes that concern neither what was received nor what was written. *)
Definition quiet (s s' : Stream) : Prop :=
  stays s s' /\ BytesWritten s' = BytesWritten s /\ recv s' = recv s /\ finSeen s' = finSeen s /\
  finReceived s' = finReceived s /\ finalSize s' = finalSize s /\ (finished s' -> finished s).

Lemma quiet_refl s : quiet s s.
Proof. done. Qed.

Lemma heard_ext src fins seen s s' : recv s' = recv s -> finSeen s' = finSeen s -> finReceived s' = finReceived s ->
  finalSize s' = finalSize s -> (finished s' -> finished s) -> heard src fins seen s -> heard src fins seen s'.
Proof. intros E1 E2 E3 E4 Hf [H1 H2 H3 H4]. split; rewrite ?E1, ?E2, ?E3, ?E4; auto. Qed.

Lemma quiet_heard src fins seen s s' : quiet s s' -> heard src fins seen s -> heard src fins seen s'.
Proof. intros (_ & _ & E1 & E2 & E3 & E4 & Hf). by apply heard_ext. Qed.

Lemma Reset_quiet s code : quiet s (Stream.Reset s code).1.
Proof. unfold Stream.Reset. case_match; [done|]. repeat split. by intros [?|?]. Qed.

Lemma DeliverReset_quiet s code : quiet s (DeliverReset s code).
Proof. repeat split. by intros [?|?]. Qed.

Lemma with_fc_quiet s fc : quiet s (with_fc s fc).
Proof. repeat split. done. Qed.

Lemma finish_heard src fins seen s : heard src fins seen s -> heard src fins seen (finishLocked s).
Proof.
  intros Hs. unfold finishLocked.
  destruct (negb (finSeen s) || finReceived s || (recvOffset (recv s) <? finalSize s)) eqn:E; [done|].
  apply orb_false_iff in E as [[Ef%negb_false_iff Er]%orb_false_iff Hge%Z.ltb_ge].
  destruct Hs as [H1 H2 H3 H4]. split; cbn; auto. intros _. exists (finalSize s). auto.
Qed.

Lemma fin_heard src fins seen s n : n ∈ fins -> heard src fins seen s -> heard src fins seen (DeliverFin s n).
Proof. intros Hn [H1 H2 H3 H4]. apply finish_heard. by split. Qed.

Lemma data_heard src fins seen s o d : Z.of_nat (length src) < 2 ^ 62 -> chunk_of src o d ->
  heard src fins seen s -> heard src fins seen (DeliverData s o d).1.
Proof.
  intros Hsrc Hc Hs. destruct Hs as [H1 H2 H3 H4].
  pose proof (placeLocked_ok src Hsrc seen (recv s) o d H1 Hc) as Hr.
  pose proof (placeLocked_mono src Hsrc seen (recv s) o d H1 Hc) as Hm.
  unfold DeliverData. destruct (placeLocked (recv s) o d) as [r a]. cbn [fst] in Hr, Hm.
  assert (Hs' : heard src fins seen (with_recv s r)).
  { split; cbn; auto. intros Hf. destruct (H3 Hf) as (n & Hn & Hl). exists n. split; [done | lia]. }
  destruct (flowControlViolation r); [exact (quiet_heard _ _ _ _ _ (Reset_quiet _ _) Hs')|].
  destruct (0 <? a); [|done]. apply finish_heard, (quiet_heard _ _ _ (with_recv s r)); [apply with_fc_quiet | done].
Qed.

Lemma deliver_heard src fins seen s f : Z.of_nat (length src) < 2 ^ 62 -> chunk_of src (Offset f) (Data f) ->
  (IsFin f = true -> Offset f + Z.of_nat (length (Data f)) ∈ fins) ->
  heard src fins seen s -> heard src fins seen (deliver f s).
Proof.
  intros Hsrc Hc Hf Hs. unfold deliver, end_of. destruct Hc as (H0 & Hl & Hd).
  rewrite u64_small by width.
  assert (Hs1 : heard src fins seen (if (0 <? length (Data f))%nat then (DeliverData s (Offset f) (Data f)).1 else s))
    by (case_match; [by apply data_heard | done]).
  destruct (IsFin f); [|done]. apply fin_heard; auto.
Qed.

(** ** What a stream's own operations do *)

Lemma read_heard now s n src fins seen : heard src fins seen s ->
  heard src fins (seen ++ bytes_read (Read now s n).1.2) (Read now s n).1.1.
Proof.
  intros Hs. destruct (Read now s n) as [[s' r] calls] eqn:E. cbn [fst snd]. destruct r as [data|e|].
  - destruct (read_eq _ _ _ _ _ _ E) as (Hd & E1 & E2 & E3 & E4 & E5). destruct Hs as [[Ho Hp Hh Hb Hc] H2 H3 H4].
    unfold finished in *. split; unfold finished; rewrite ?E1, ?E2, ?E3, ?E4, ?E5; auto. split; cbn; try done.
    rewrite <- Hp, <- app_assoc, Hd. f_equal. apply take_drop_length.
  - cbn. rewrite app_nil_r. unfold Read in E. repeat case_match; by simplify_eq.
  - cbn. rewrite app_nil_r. unfold Read in E. repeat case_match; by simplify_eq.
Qed.

Lemma stream_op_heard now md s s' calls out src fins seen : stream_op now md s s' calls out ->
  heard src fins seen s -> heard src fins (seen ++ out) s'.
Proof.
  intros Hop Hs. destruct Hop as [n|p|data sent|data sent chunk syn grant Hc Hg| |code Hcode|t|t];
    rewrite ?app_nil_r; try done.
  - by apply read_heard.
  - revert Hs. unfold write_commit. destruct grant as [g|]; [|done]. case_decide; [done|]. case_match; [done|].
    cbn [fst]. apply heard_ext; try done. unfold finished. cbn. case_match; [|done]. by intros [?|?].
  - unfold Stream.Close. case_decide; [done|]. cbn [fst]. case_decide as Hst.
    + destruct Hs as [H1 H2 H3 H4]. split; cbn; auto. intros _. apply H4. by right.
    + revert Hs. apply heard_ext; try done. by intros [?|?].
  - exact (quiet_heard _ _ _ _ _ (Reset_quiet s code) Hs).
  - revert Hs. by apply heard_ext.
  - revert Hs. by apply heard_ext.
Qed.

(** What it hands to the connection: stream data and ends. *)
Definition sent_bytes (calls : list conn_call) : list byte := mjoin (calls_data calls).*2.

Definition fin_of (call : conn_call) : option Z :=
  match call with SendStreamFrame _ _ o d true _ => Some (o + Z.of_nat (length d)) | _ => None end.

Definition fins_of (calls : list conn_call) : list Z := omap fin_of calls.

(** A STREAM frame with bytes of [src] at their place, and an end that was
    set. *)
Definition says (src : list byte) (fins : list Z) (f : StreamFrame) : Prop :=
  chunk_of src (Offset f) (Data f) /\ (IsFin f = true -> Offset f + Z.of_nat (length (Data f)) ∈ fins).

(** The pieces of a chunk. *)
Lemma chunk_frames_say src fins k fuel : forall o syn fin data f, Z.of_nat (length src) < 2 ^ 62 ->
  chunk_of src o data -> (fin = true -> o + Z.of_nat (length data) ∈ fins) ->
  f ∈ chunk_frames fuel k o syn fin data -> says src fins f.
Proof.
  induction fuel as [|fuel IH]; intros o syn fin data f Hsrc Hc Hf; cbn [chunk_frames]; [by intros ?%not_elem_of_nil|].
  destruct data as [|b data]; [by intros ?%not_elem_of_nil|]. set (d := b :: data) in *. clearbody d. clear b data.
  pose proof Hc as (H0 & Hl & Hd). set (n := Nat.min k (length d)). intros [->|Hin]%elem_of_cons.
  - split; cbn [Offset Data IsFin].
    + split_and!; [done | rewrite length_take; lia |]. rewrite Hd at 1. rewrite take_take, length_take. done.
    + intros [-> E%Nat.eqb_eq]%andb_true_iff. rewrite E, firstn_all. auto.
  - apply IH in Hin; [done | done | |].
    + rewrite u64_small by width. apply chunk_of_drop; [done | lia].
    + intros Ht. rewrite u64_small by width. rewrite length_drop. specialize (Hf Ht).
      replace (o + Z.of_nat n + Z.of_nat (length d - n)) with (o + Z.of_nat (length d)) by lia. done.
Qed.

Lemma commit_sends s data sent chunk syn grant w : conn s = true -> 0 < chunk ->
  (forall g, grant = Some g -> 0 <= g <= Z.of_nat (length data)) -> BytesWritten s = Z.of_nat (length w) ->
  let '(s', _, calls) := write_commit s data sent chunk syn grant in
  Z.of_nat (length (w ++ sent_bytes calls)) < 2 ^ 62 -> BytesWritten s' = Z.of_nat (length (w ++ sent_bytes calls)) /\
  (calls = [] \/ exists d syn', calls = [SendStreamFrames (ID s) (RemoteID s) (Z.of_nat (length w)) d chunk syn']).
Proof.
  intros Hconn Hc Hg Hw. unfold write_commit. destruct grant as [g|]; [|rewrite app_nil_r; auto].
  specialize (Hg g eq_refl). case_decide; [rewrite app_nil_r; auto|].
  assert (Hb : 0 <= clamp_window s g <= g).
  { unfold clamp_window, SendWindowAvailable. destruct (streamFC s); zcases; lia. }
  destruct (Z.eqb_spec (clamp_window s g) 0) as [E|E]; [rewrite app_nil_r; auto|].
  pose proof (commit_size data chunk (clamp_window s g) Hc ltac:(lia)) as Hk. cbv zeta in Hk |- *.
  set (g' := if (clamp_window s g <? _) && _ then _ else _) in *. clearbody g'. rewrite Hconn, Hw.
  cbn [BytesWritten]. unfold sent_bytes. cbn. rewrite app_nil_r. intros Hlen.
  assert (El : Z.of_nat (length (w ++ take (Z.to_nat g') data)) = Z.of_nat (length w) + g').
  { rewrite length_app, length_take. lia. }
  rewrite El in *. split; [nowrap; lia|]. right. rewrite u64_small by width. eauto.
Qed.

(** An operation that sends no stream data. *)
Ltac plain := cbn; rewrite ?app_nil_r; intros _ _; split; [done | by repeat constructor].

Lemma stream_op_sends now md s s' calls out w fins (Q : Z -> Z -> StreamFrame -> Prop) :
  stream_op now md s s' calls out -> conn s = true -> BytesWritten s = Z.of_nat (length w) ->
  let w' := w ++ sent_bytes calls in let fins' := fins ++ fins_of calls in
  Z.of_nat (length w') < 2 ^ 62 -> (forall f, says w' fins' f -> Q (RemoteID s) (ID s) f) ->
  BytesWritten s' = Z.of_nat (length w') /\ Forall (call_licensed Q) calls.
Proof.
  intros Hop Hconn Hw. cbv zeta.
  destruct Hop as [n|p|data sent|data sent chunk syn grant Hc Hg| |code Hcode|t|t].
  - unfold Read. repeat case_match; plain.
  - unfold write_start, write_loop. repeat case_match; plain.
  - unfold write_loop. repeat case_match; plain.
  - pose proof (commit_sends s data sent chunk syn grant w Hconn ltac:(lia) Hg Hw) as H.
    destruct (write_commit s data sent chunk syn grant) as [[s' pc] calls]. cbn [fst snd]. intros Hlen HQ.
    destruct (H Hlen) as [H1 [->|(d & syn' & ->)]]; [auto|]. split; [done|]. apply Forall_singleton. cbn [call_licensed].
    intros f Hf. apply HQ. refine (chunk_frames_say _ _ _ _ _ _ _ _ f Hlen _ _ Hf); [|done].
    unfold sent_bytes. cbn. rewrite app_nil_r. apply chunk_of_snoc.
  - unfold Stream.Close. case_decide; cbn; rewrite ?app_nil_r; [auto|]. rewrite Hconn. cbn. rewrite app_nil_r.
    intros Hlen HQ. split; [done|]. apply Forall_singleton. cbn. apply HQ. rewrite Hw, u64_small by width.
    split; cbn.
    + split_and!; [lia | cbn; lia | done].
    + intros _. rewrite Z.add_0_r. apply elem_of_app. right. apply list_elem_of_here.
  - unfold Stream.Reset. repeat case_match; plain.
  - plain.
  - plain.
Qed.

(** ** The model *)

(** An end: its connection and, for each of its streams, what the application
    has written on it, the lengths at which it closed it, and what it has read
    from it. *)
Record End := MkEnd {
  conn_at : Connection;
  wrote : Z -> list byte;
  closes : Z -> list Z;
  got : Z -> list byte
}.

(** A step of an end: one of the [arriving] datagrams is received, the
    application calls a stream, or the connection does something else. *)
Inductive end_step (exact : bool) (arriving : list datagram) (e : End) : End -> Prop :=
  | end_recv (o : RangeOrder) now data to pkt : 0 <= now -> (data, to) ∈ arriving -> UnmarshalPacket data = Ok pkt ->
      end_step exact arriving e (MkEnd (HandlePacket now pkt (conn_at e)) (wrote e) (closes e) (got e))
  | end_stream now id s s' calls out : 0 <= now -> streams (table (conn_at e)) !! id = Some s ->
      stream_op now (MaxDatagram (conn_at e)) s s' calls out ->
      end_step exact arriving e (MkEnd (exec_calls now calls (set_stream id s' (conn_at e)))
        (<[id := wrote e id ++ sent_bytes calls]> (wrote e)) (<[id := closes e id ++ fins_of calls]> (closes e))
        (<[id := got e id ++ out]> (got e)))
  | end_own c' : own_step exact (conn_at e) c' ->
      end_step exact arriving e (MkEnd c' (wrote e) (closes e) (got e)).

(** Both ends start with a new connection; each receives what the other has put
    on the wire. *)
Inductive duo_reach (exact : bool) : (bool -> End) -> Prop :=
  | duo_new (now : bool -> Z) cid1 cid2 (laddr raddr : bool -> option addr) (hasSend : bool -> bool) :
      CID_ok cid1 -> CID_ok cid2 ->
      duo_reach exact (fun x => MkEnd (NewConnection (now x) (if x then cid1 else cid2) (if x then cid2 else cid1)
        (laddr x) (raddr x) x (hasSend x)) (fun _ => []) (fun _ => []) (fun _ => []))
  | duo_step d x e' : duo_reach exact d -> end_step exact (wire (conn_at (d (negb x)))) (d x) e' ->
      duo_reach exact (<[x := e']> d).

Notation streams_at e := (streams (table (conn_at e))).

(** Stream [i] of the peer [p] is the other end of stream [j] of [e]: [j] was
    opened by its data, or [i] by the data of [j]. *)
Definition feeds (e p : End) (i j : Z) : Prop := exists s, streams_at e !! j = Some s /\
  ((i <> 0 /\ RemoteID s = i) \/ (RemoteID s = 0 /\ exists s', streams_at p !! i = Some s' /\ RemoteID s' = j)).

(** Before IDs and offsets wrap around. *)
Definition small (e : End) : Prop :=
  Z.of_nat (size (streams_at e)) < 2 ^ 30 /\ forall i, Z.of_nat (length (wrote e i)) < 2 ^ 62.

(** ** The invariant *)

(** What an end may send: data of a stream at its place, under the stream's
    IDs, and the connection's SYN. *)
Definition sent_right (e : End) (dst src : Z) (f : StreamFrame) : Prop :=
  (dst = 0 /\ src = 0 /\ Data f = []) \/
  exists s, streams_at e !! src = Some s /\ RemoteID s = dst /\ says (wrote e src) (closes e src) f.

(** The books of an end are those of its streams. *)
Definition booked (e : End) : Prop := forall i,
  match streams_at e !! i with
  | Some s => BytesWritten s = Z.of_nat (length (wrote e i))
  | None => wrote e i = [] /\ closes e i = [] /\ got e i = []
  end.

Record paired (e p : End) : Prop := {
  p_remote : forall j s, streams_at e !! j = Some s -> RemoteID s <> 0 ->
    exists s', streams_at p !! RemoteID s = Some s' /\ RemoteID s' = 0;
  p_heard : forall j s, streams_at e !! j = Some s -> heard [] [] (got e j) s \/
    exists i, feeds e p i j /\ heard (wrote p i) (closes p i) (got e j) s
}.

(** *** Growth of the sender *)

Definition grows (e e' : End) : Prop :=
  (forall i s, streams_at e !! i = Some s -> exists s', streams_at e' !! i = Some s' /\ RemoteID s' = RemoteID s) /\
  (size (streams_at e) <= size (streams_at e'))%nat /\
  forall i, (exists post, wrote e' i = wrote e i ++ post) /\ exists more, closes e' i = closes e i ++ more.

Lemma grows_small e e' : grows e e' -> small e' -> small e.
Proof.
  intros (_ & Hs & Hw) [S1 S2]. split; [lia|]. intros i. destruct (Hw i) as [[post E] _]. specialize (S2 i).
  rewrite E, length_app in S2. lia.
Qed.

Lemma grows_sent e e' dst src f : grows e e' -> sent_right e dst src f -> sent_right e' dst src f.
Proof.
  intros (Hk & _ & Hw) [H|(s & Hs & Hr & Hc & Hf)]; [by left|]. right. destruct (Hk _ _ Hs) as (s' & Hs' & E).
  exists s'. split_and!; [done | congruence |]. destruct (Hw src) as [[post ->] [more ->]]. split; [by apply chunk_of_app|].
  intros Hfin. apply elem_of_app. left. auto.
Qed.

Lemma grows_feeds e p p' i j : grows p p' -> feeds e p i j -> feeds e p' i j.
Proof.
  intros (Hk & _) (s & Hs & [?|(Hr & s' & Hs' & E)]); exists s; (split; [done|]); [by left|]. right. split; [done|].
  destruct (Hk _ _ Hs') as (s2 & ? & ?). exists s2. split; [done | congruence].
Qed.

Lemma grows_paired e p p' : grows p p' -> paired e p -> paired e p'.
Proof.
  intros Hg [H1 H2]. split.
  - intros j s Hs Hr. destruct (H1 j s Hs Hr) as (s' & Hs' & E). destruct Hg as (Hk & _).
    destruct (Hk _ _ Hs') as (s2 & ? & ?). exists s2. split; [done | congruence].
  - intros j s Hs. destruct (H2 j s Hs) as [?|(i & Hi & Hh)]; [by left|]. right. exists i.
    split; [by eapply grows_feeds|]. destruct Hg as (_ & _ & Hw). destruct (Hw i) as [[post ->] [more ->]].
    by apply heard_grow.
Qed.

Lemma tsteps_size t t' : rtc tstep t t' -> (size (streams t) <= size (streams t'))%nat.
Proof. induction 1 as [|t t1 t' Ht _ IH]; [done|]. etrans; [by apply tstep_size | done]. Qed.

Lemma next_fresh b t : streams_ok b t -> streams t !! nextStreamID t = None.
Proof. intros [_ Hi _ _]. destruct (streams t !! nextStreamID t) eqn:E; [|done]. apply Hi in E. lia. Qed.

Lemma tstep_persists b t t' i s : streams_ok b t -> tstep t t' -> streams t !! i = Some s ->
  exists s', streams t' !! i = Some s' /\ RemoteID s' = RemoteID s.
Proof.
  intros Hok Ht Hs. destruct Ht as [t id u u' Hu (_ & E & _)|t rid st q _ _|t code|t n|t id q _]; cbn [streams]; try (by exists s).
  - destruct (decide (i = id)) as [->|Hne]; [|exists s; by rewrite lookup_insert_ne].
    exists u'. rewrite lookup_insert_eq. split; [done | congruence].
  - exists s. rewrite lookup_insert_ne; [done|]. intros E. rewrite <- E, (next_fresh _ _ Hok) in Hs. done.
  - exists (DeliverReset s code). by rewrite lookup_fmap, Hs.
Qed.

Lemma tsteps_persist b t t' i s : rtc tstep t t' -> table_ok b t -> Z.of_nat (size (streams t')) < 2 ^ 30 ->
  streams t !! i = Some s -> exists s', streams t' !! i = Some s' /\ RemoteID s' = RemoteID s.
Proof.
  intros Ht. revert s. induction Ht as [t|t t1 t' H1 Hr IH]; intros s Hok Hsz Hs; [by exists s|].
  pose proof (tsteps_size _ _ Hr). pose proof (tstep_size _ _ H1).
  destruct (tstep_persists b t t1 i s) as (s1 & Hs1 & E1); [by apply Hok; lia | done | done |].
  destruct (IH s1) as (s2 & ? & ?); [by eapply tstep_ok | done | done |]. exists s2. split; [done | congruence].
Qed.

Lemma end_step_conn exact arriving e e' : end_step exact arriving e e' -> conn_step exact (conn_at e) (conn_at e').
Proof.
  destruct 1 as [o now data to pkt Hnow _ Hu|now id s s' calls out Hnow Hl Hop|c' Hown]; cbn [conn_at].
  - apply (step_packet _ _ o); [done|]. pose proof (unmarshal_safe data) as H. rewrite Hu in H. apply H.
  - by eapply step_stream.
  - by apply step_own.
Qed.

Lemma end_step_grows exact arriving e e' : end_step exact arriving e e' -> conn_reach exact (conn_at e) ->
  small e' -> grows e e'.
Proof.
  intros Hs Hr [Hsz _]. destruct (conn_step_moves _ _ _ (end_step_conn _ _ _ _ Hs)) as [_ Ht]. split_and!.
  - intros i s. by apply (tsteps_persist _ _ _ _ _ Ht (reach_table _ _ Hr)).
  - by apply tsteps_size.
  - intros i. destruct Hs as [| now id s s' calls out _ _ _|]; cbn [wrote closes];
      [split; exists []; by rewrite app_nil_r| |split; exists []; by rewrite app_nil_r].
    destruct (decide (i = id)) as [->|Hne]; [rewrite !fn_lookup_insert; split; by eexists|].
    rewrite !fn_lookup_insert_ne by done. split; exists []; by rewrite app_nil_r.
Qed.

(** *** Quiet operations *)

(** The end with another connection state. *)
Definition on (c : Connection) (e : End) : End := MkEnd c (wrote e) (closes e) (got e).

Definition quietly (m m' : gmap Z Stream) : Prop := forall i,
  match m !! i, m' !! i with
  | Some s, Some s' => quiet s s'
  | None, None => True
  | _, _ => False
  end.

Lemma quietly_refl m : quietly m m.
Proof. intros i. by destruct (m !! i). Qed.

Lemma quietly_insert m id s s' : m !! id = Some s -> quiet s s' -> quietly m (<[id := s']> m).
Proof.
  intros Hs Hq i. destruct (decide (i = id)) as [->|Hne]; [by rewrite lookup_insert_eq, Hs|].
  rewrite lookup_insert_ne by done. by destruct (m !! i).
Qed.

Lemma quietly_fmap m f : (forall s, quiet s (f s)) -> quietly m (f <$> m).
Proof. intros Hf i. rewrite lookup_fmap. by destruct (m !! i); cbn. Qed.

Lemma quietly_back m m' i s' : quietly m m' -> m' !! i = Some s' -> exists s, m !! i = Some s /\ quiet s s'.
Proof. intros H E. specialize (H i). rewrite E in H. destruct (m !! i) as [s|]; [by exists s | done]. Qed.

Lemma quietly_booked c c' e : quietly (streams (table c)) (streams (table c')) -> booked (on c e) -> booked (on c' e).
Proof.
  intros Hq Hb i. specialize (Hq i). specialize (Hb i). cbn [conn_at wrote closes got on] in *.
  destruct (streams (table c) !! i) as [s|], (streams (table c') !! i) as [s'|]; try done.
  destruct Hq as (_ & -> & _). done.
Qed.

Lemma quietly_paired c c' e p : quietly (streams (table c)) (streams (table c')) -> paired (on c e) p -> paired (on c' e) p.
Proof.
  intros Hq [H1 H2]. split; cbn [conn_at got on].
  - intros j s' Hs' Hr. destruct (quietly_back _ _ _ _ Hq Hs') as (s & Hs & (_ & E & _) & _).
    rewrite E in *. by apply (H1 j s).
  - intros j s' Hs'. destruct (quietly_back _ _ _ _ Hq Hs') as (s & Hs & Hqs).
    destruct (H2 j s Hs) as [H|(i & (u & Hu & Hf) & Hh)]; [left; by eapply quiet_heard|]. right. exists i.
    split; [|by eapply quiet_heard]. cbn [conn_at on] in Hu. simplify_eq. exists s'. split; [done|].
    destruct Hqs as ((_ & E & _) & _). by rewrite E.
Qed.

Lemma on_stream_quietly now id op c : (forall s, quiet s (op s).1) ->
  quietly (streams (table c)) (streams (table (on_stream now id op c))).
Proof.
  intros Hop. rewrite on_stream_eq. destruct (streams (table c) !! id) as [s|] eqn:E; [|apply quietly_refl].
  rewrite (same_table (exec_calls_same now _ (set_stream id (op s).1 c))). by apply (quietly_insert _ _ s).
Qed.

Lemma closeInternal_quietly now code reason announce c :
  quietly (streams (table c)) (streams (table (closeInternal now code reason announce c))).
Proof.
  unfold closeInternal. destruct (closeOnce (life c)); [apply quietly_refl|]. cbn [close_end table streams].
  assert (E : table (if announce then sendFrames now [ConnectionCloseFrame code 0 reason] (close_begin c)
    else close_begin c) = table c).
  { destruct announce; [|done]. exact (same_table (sendFrames_same now _ (close_begin c))). }
  rewrite E. apply quietly_fmap. intros s. apply DeliverReset_quiet.
Qed.

Lemma same_quietly c c' : same c c' -> quietly (streams (table c)) (streams (table c')).
Proof. intros E. rewrite (same_table E). apply quietly_refl. Qed.

(** Every frame but a STREAM frame. *)
Lemma handleFrame_quietly (o : RangeOrder) now pkt c f : (forall sf, f <> StreamF sf) ->
  quietly (streams (table c)) (streams (table (handleFrame now pkt c f))).
Proof.
  intros Hne. assert (Hfound : forall op, (forall s, quiet s (op s).1) ->
    quietly (streams (table c)) (streams (table (on_found now pkt op c)))).
  { intros op Hop. unfold on_found. case_match; [by apply on_stream_quietly | apply quietly_refl]. }
  destruct f; cbn [handleFrame]; try apply quietly_refl; try (apply same_quietly, sendFrames_same).
  - apply same_quietly, handleAckFrame_same.
  - by destruct (Hne f).
  - apply Hfound. intros s. apply with_fc_quiet.
  - apply Hfound. intros s. apply DeliverReset_quiet.
  - case_match; apply quietly_refl.
  - unfold handlePathResponse, completeMigration. repeat case_match; simplify_eq; apply quietly_refl.
  - unfold CloseConn, CloseWithError. apply closeInternal_quietly.
  - apply Hfound. intros s. apply Reset_quiet.
  - apply Hfound. intros s. repeat case_match; [apply with_fc_quiet | done].
Qed.

(** *** Received stream data *)

Lemma deliver_keeps f s : stays s (deliver f s) /\ BytesWritten (deliver f s) = BytesWritten s.
Proof.
  assert (Hfin : forall s n, stays s (DeliverFin s n) /\ BytesWritten (DeliverFin s n) = BytesWritten s)
    by (intros u n; unfold DeliverFin, finishLocked; by case_match).
  assert (Hdata : stays s (DeliverData s (Offset f) (Data f)).1 /\
    BytesWritten (DeliverData s (Offset f) (Data f)).1 = BytesWritten s).
  { split; [apply DeliverData_stays|]. unfold DeliverData, Stream.Reset, finishLocked.
    destruct (placeLocked _ _ _) as [r n]. by repeat case_match. }
  unfold deliver. set (s1 := if (0 <? length (Data f))%nat then _ else s).
  assert (H1 : stays s s1 /\ BytesWritten s1 = BytesWritten s) by (unfold s1; by case_match).
  destruct (IsFin f); [|done]. destruct H1 as [(? & ? & ?) ?], (Hfin s1 (end_of f)) as [(? & ? & ?) ?].
  repeat split; congruence.
Qed.

Lemma feeds_unique b e p i i' j : streams_ok b (table (conn_at p)) -> j <> 0 -> feeds e p i j -> feeds e p i' j -> i = i'.
Proof.
  intros Hok Hj (s & Hs & H) (s' & Hs' & H'). simplify_eq.
  destruct H as [[Hi E]|[E (u & Hu & Eu)]], H' as [[Hi' E']|[E' (u' & Hu' & Eu')]]; try congruence.
  apply (t_remote _ _ Hok i i' u u'); [done | done | congruence | congruence].
Qed.

Lemma fed_heard b e p i j s : streams_ok b (table (conn_at p)) -> j <> 0 -> paired e p -> feeds e p i j ->
  streams_at e !! j = Some s -> heard (wrote p i) (closes p i) (got e j) s.
Proof.
  intros Hok Hj [_ Hh] Hf Hs. destruct (Hh j s Hs) as [H|(i' & Hf' & H)].
  - by apply (heard_grow [] (wrote p i) [] (closes p i)).
  - by rewrite (feeds_unique _ _ _ _ _ _ Hok Hj Hf Hf').
Qed.

Section Received.
Context (e p : End) (b : bool) (Hp : streams_ok b (table (conn_at p))).
Context (Hlen : forall i, Z.of_nat (length (wrote p i)) < 2 ^ 62).

Lemma opened_linked c c' id rid st : streams (table c) !! id = None ->
  streams (table c') = <[id := attached id rid st]> (streams (table c)) ->
  (rid <> 0 -> exists s, streams_at p !! rid = Some s /\ RemoteID s = 0) ->
  st = StreamStateOpen \/ st = StreamStateIdle ->
  booked (on c e) -> paired (on c e) p -> booked (on c' e) /\ paired (on c' e) p.
Proof using Type.
  intros Hid Hs Hrid Hst Hb [H1 H2]. pose proof (Hb id) as Hbid. cbn [conn_at wrote closes got on] in Hbid.
  rewrite Hid in Hbid. destruct Hbid as (Ew & _ & Eg). split; [|split]; unfold booked; cbn [conn_at wrote closes got on]; rewrite Hs.
  - intros i. specialize (Hb i). destruct (decide (i = id)) as [->|Hne]; [rewrite lookup_insert_eq, Ew; done|].
    by rewrite lookup_insert_ne.
  - intros j s [[<- <-]|[_ Hj]]%lookup_insert_Some; [done | by apply (H1 j)].
  - intros j s [[<- <-]|[Hne Hj]]%lookup_insert_Some.
    + left. rewrite Eg. split; [by split | done | done |]. by destruct Hst as [-> | ->]; intros [?|?].
    + destruct (H2 j s Hj) as [H|(i & (u & Hu & Hf) & H)]; [by left|]. right. exists i. split; [|done].
      exists u. split; [|done]. cbn [conn_at on] in *. rewrite Hs. by rewrite lookup_insert_ne.
Qed.

Lemma delivered_linked c c' id s f i : streams (table c) !! id = Some s -> id <> 0 ->
  streams (table c') = <[id := deliver f s]> (streams (table c)) -> feeds (on c e) p i id ->
  says (wrote p i) (closes p i) f ->
  booked (on c e) -> paired (on c e) p -> booked (on c' e) /\ paired (on c' e) p.
Proof using Hp Hlen.
  intros Hid Hz Hs Hf [Hc Hfin] Hb Hpair. destruct (deliver_keeps f s) as [(_ & Er & _) Ew].
  pose proof (fed_heard b _ _ _ _ _ Hp Hz Hpair Hf Hid) as Hh. destruct Hpair as [H1 H2].
  assert (Hfeeds : forall k j, feeds (on c e) p k j -> feeds (on c' e) p k j).
  { intros k j (u & Hu & H). cbn [conn_at on] in Hu. unfold feeds. cbn [conn_at on]. rewrite Hs.
    destruct (decide (j = id)) as [->|Hne]; [|exists u; by rewrite lookup_insert_ne].
    rewrite lookup_insert_eq. rewrite Hid in Hu. injection Hu as <-. exists (deliver f s). by rewrite Er. }
  split; [|split]; unfold booked; cbn [conn_at wrote closes got on]; rewrite Hs.
  - intros j. specialize (Hb j). cbn [conn_at wrote closes got on] in Hb.
    destruct (decide (j = id)) as [->|Hne]; [|by rewrite lookup_insert_ne]. rewrite lookup_insert_eq, Ew. by rewrite Hid in Hb.
  - intros j u [[<- <-]|[_ Hj]]%lookup_insert_Some; [rewrite Er; by apply (H1 id) | by apply (H1 j)].
  - intros j u [[<- <-]|[Hne Hj]]%lookup_insert_Some.
    + right. exists i. split; [by apply Hfeeds|]. by apply deliver_heard.
    + destruct (H2 j u Hj) as [H|(k & Hk & H)]; [by left|]. right. exists k. split; [by apply Hfeeds | done].
Qed.

(** The peer's streams that call one of ours by its ID are of our opening. *)
Definition answered (c : Connection) : Prop := forall i s, streams_at p !! i = Some s -> RemoteID s <> 0 ->
  exists s', streams (table c) !! RemoteID s = Some s' /\ RemoteID s' = 0.

Lemma addressee_fed pkt c f id bc : streams_ok bc (table c) -> answered c ->
  sent_right p (DestinationStreamID pkt) (SourceStreamID pkt) f -> addressee pkt (table c) id ->
  id <> 0 /\ SourceStreamID pkt <> 0 /\ feeds (on c e) p (SourceStreamID pkt) id.
Proof using Hp.
  intros Hok Ha Hf Hid. assert (Hz : id <> 0).
  { destruct Hid as [[_ [s Hs]]|(_ & _ & s & Hs & _)]; apply (t_ids _ _ Hok) in Hs; unfold base in Hs; destruct bc; lia. }
  split; [done|]. destruct Hid as [[-> [s Hs]]|(_ & Hsrc & s & Hs & Hr)].
  - destruct Hf as [(E & _)|(u & Hu & Hr & _)]; [done|]. split.
    { apply (t_ids _ _ Hp) in Hu. unfold base in Hu. destruct b; lia. }
    destruct (Ha _ _ Hu) as (s' & Hs' & Hr'); [congruence|]. exists s'. rewrite Hr in Hs'. split; [done|].
    right. split; [done|]. by exists u.
  - split; [done|]. exists s. split; [done|]. by left.
Qed.

(** What a STREAM frame of the peer does: nothing, if it is bare and its stream is
    unknown, or it reaches the stream that its stream feeds, which it may open. *)
Lemma stream_frame_lands (o : RangeOrder) now pkt f c bc (src := SourceStreamID pkt)
    (c' := handleStreamFrame now pkt f c) : streams_ok bc (table c) -> answered c ->
  sent_right p (DestinationStreamID pkt) src f ->
  (Data f = [] /\ c' = c) \/ exists id s, id <> 0 /\ says (wrote p src) (closes p src) f /\
    streams (table c') = <[id := deliver f s]> (streams (table c)) /\
    ((streams (table c) !! id = Some s /\ feeds (on c e) p src id) \/
     (streams (table c) !! id = None /\ s = attached id src StreamStateOpen /\ src <> 0 /\
      exists u, streams_at p !! src = Some u /\ RemoteID u = 0)).
Proof using Hp.
  intros Hok Ha Hf. unfold c'. destruct (findStream (DestinationStreamID pkt) (SourceStreamID pkt) c) as [id|] eqn:Efind.
  - apply findStream_some in Efind as Hid. destruct (addressee_fed _ _ _ _ _ Hok Ha Hf Hid) as (Hz & Hsrc & Hfeeds).
    destruct Hf as [(_ & E & _)|(u & Hu & Hr & Hsay)]; [done|].
    assert (exists s, streams (table c) !! id = Some s) as [s Hs] by (destruct Hfeeds as (s & Hs & _); by exists s).
    destruct (stream_frame_found bc now pkt f c id s Hok Hid Hs) as [E _]. right. exists id, s. split_and!; try done. by left.
  - pose proof (findStream_none _ _ Efind) as Hnone. destruct (decide (SourceStreamID pkt = 0)) as [Hz|Hz].
    { left. split; [|unfold handleStreamFrame, stream_for; by rewrite Efind, Hz].
      destruct Hf as [(_ & _ & E)|(u & Hu & _)]; [done|]. exfalso. unfold src in Hu. rewrite Hz in Hu.
      apply (t_ids _ _ Hp) in Hu. unfold base in Hu. destruct b; lia. }
    destruct (decide (IsSyn f = true \/ Data f <> [])) as [Hopen|Hno].
    + destruct (stream_frame_opens bc now pkt f c Hok Hnone Hz Hopen) as (Hfresh & Es & _). cbv zeta in Es.
      destruct Hf as [(_ & E & _)|(u & Hu & Hr & Hsay)]; [done|]. right. do 2 eexists. split_and!; [|done|exact Es|].
      * pose proof (t_next _ _ Hok) as En. unfold base in En. destruct bc; lia.
      * right. split_and!; try done. exists u. split; [done|].
        destruct (decide (RemoteID u = 0)) as [|Hne]; [done|]. destruct (Ha _ _ Hu Hne) as (s' & Hs' & _).
        destruct (Hnone (DestinationStreamID pkt)). left. split; [done|]. rewrite <- Hr. by exists s'.
    + assert (IsSyn f = false) by (destruct (IsSyn f); [destruct Hno; by left | done]).
      assert (Data f = []) by (destruct (Data f); [done | destruct Hno; by right]).
      left. split; [done|]. by apply stream_frame_ignored.
Qed.

Lemma opened_feeds c c' id src s : streams (table c') = <[id := s]> (streams (table c)) -> RemoteID s = src -> src <> 0 ->
  feeds (on c' e) p src id.
Proof using Type. intros Es Hr Hz. exists s. cbn. rewrite Es, lookup_insert_eq. split; [done | by left]. Qed.

Lemma handleStreamFrame_linked (o : RangeOrder) now pkt f c bc : streams_ok bc (table c) -> answered c ->
  sent_right p (DestinationStreamID pkt) (SourceStreamID pkt) f ->
  booked (on c e) -> paired (on c e) p ->
  booked (on (handleStreamFrame now pkt f c) e) /\ paired (on (handleStreamFrame now pkt f c) e) p.
Proof using Hp Hlen.
  intros Hok Ha Hf Hb Hpair.
  destruct (stream_frame_lands o now pkt f c bc Hok Ha Hf) as [[_ ->]|(id & s & Hz & Hsay & Es & [[Hs Hfeeds]|(Hfresh & -> & Hsrc & u & Hu & Hr)])];
    [done | by eapply (delivered_linked c _ id s f)|].
  set (s := attached id (SourceStreamID pkt) StreamStateOpen) in *.
  set (c1 := set_table (MkStreams (<[id := s]> (streams (table c))) 0 0 []) c).
  destruct (opened_linked c c1 id (SourceStreamID pkt) StreamStateOpen) as [Hb1 Hp1]; try done; [by exists u | by left|].
  apply (delivered_linked c1 _ id s f (SourceStreamID pkt)); try done.
  - apply lookup_insert_eq.
  - rewrite Es. cbn. by rewrite insert_insert_eq.
  - by apply (opened_feeds c c1 id (SourceStreamID pkt) s).
Qed.

Lemma answered_moves c c' bc : moves c c' -> table_ok bc (table c) -> Z.of_nat (size (streams (table c'))) < 2 ^ 30 ->
  answered c -> answered c'.
Proof using Type.
  intros [_ Ht] Hok Hsz Ha i s Hs Hr. destruct (Ha i s Hs Hr) as (s1 & H1 & E1).
  destruct (tsteps_persist _ _ _ _ _ Ht Hok Hsz H1) as (s2 & ? & ?). exists s2. split; [done | congruence].
Qed.

(** Frame by frame: what holds of the frames handled so far and the connection
    they lead to. *)
Lemma frames_induct (o : RangeOrder) now pkt bc (P : list Frame -> Connection -> Prop) : is_u32 (SourceStreamID pkt) ->
  (forall before c f, streams_ok bc (table c) -> answered c ->
    licensed (sent_right p) any_ack (DestinationStreamID pkt) (SourceStreamID pkt) f -> booked (on c e) -> paired (on c e) p ->
    P before c -> P (before ++ [f]) (handleFrame now pkt c f)) ->
  forall frames, Forall (licensed (sent_right p) any_ack (DestinationStreamID pkt) (SourceStreamID pkt)) frames ->
  forall before c, let c' := fold_left (handleFrame now pkt) frames c in
  table_ok bc (table c) -> Z.of_nat (size (streams (table c'))) < 2 ^ 30 -> answered c ->
  booked (on c e) -> paired (on c e) p -> P before c -> booked (on c' e) /\ paired (on c' e) p /\ P (before ++ frames) c'.
Proof using Hp Hlen.
  intros Hu HP frames Hf. induction Hf as [|f frames Hf _ IH]; intros before c; cbn [fold_left]; [by rewrite app_nil_r|]. cbv zeta.
  intros Hok Hsz Ha Hb Hpair HPc. set (c1 := handleFrame now pkt c f) in *.
  pose proof (handleFrame_moves now pkt c f Hu) as Hm. fold c1 in Hm.
  pose proof (frames_moves now pkt frames c1 Hu) as Hm'.
  destruct Hm as [E1 T1], Hm' as [E2 T2]. pose proof (tsteps_size _ _ T1). pose proof (tsteps_size _ _ T2).
  assert (Hok1 : table_ok bc (table c1)) by (clear -T1 Hok; induction T1; [done | by apply IHT1, (tstep_ok _ x)]).
  assert (Hokc : streams_ok bc (table c)) by (apply Hok; lia).
  assert (HJ : booked (on c1 e) /\ paired (on c1 e) p).
  { unfold c1. assert ((exists sf, f = StreamF sf) \/ forall sf, f <> StreamF sf) as [[sf ->]|Hne] by (destruct f; eauto).
    - by apply (handleStreamFrame_linked o now pkt sf c bc).
    - pose proof (handleFrame_quietly o now pkt c f Hne) as Hq.
      split; [by apply (quietly_booked c) | by apply (quietly_paired c)]. }
  destruct HJ as [Hb1 Hp1]. rewrite cons_middle, app_assoc.
  apply IH; try done; [apply (answered_moves c c1 bc); [by split | done | lia | done]|]. by apply HP.
Qed.

Lemma frames_linked (o : RangeOrder) now pkt frames bc : is_u32 (SourceStreamID pkt) ->
  Forall (licensed (sent_right p) any_ack (DestinationStreamID pkt) (SourceStreamID pkt)) frames ->
  forall c, let c' := fold_left (handleFrame now pkt) frames c in
  table_ok bc (table c) -> Z.of_nat (size (streams (table c'))) < 2 ^ 30 -> answered c ->
  booked (on c e) -> paired (on c e) p -> booked (on c' e) /\ paired (on c' e) p.
Proof using Hp Hlen.
  intros Hu Hf c c' Hok Hsz Ha Hb Hpair.
  destruct (frames_induct o now pkt bc (fun _ _ => True) Hu ltac:(done) frames Hf [] c Hok Hsz Ha Hb Hpair I) as (? & ? & _). done.
Qed.

Lemma noteReceived_table now pkt c : table (noteReceived now pkt c) = table c.
Proof using Type.
  unfold noteReceived. destruct (AckTracker.add _ _) as [r ooo]. cbv zeta. case_match; [|done].
  destruct (takeAckLocked _ _) as [a f]. exact (same_table (sendPacket_same now _ _ _ (set_acks a c))).
Qed.

Lemma packet_linked (o : RangeOrder) now pkt c bc (c' := HandlePacket now pkt c) : is_u32 (SourceStreamID pkt) ->
  Forall (licensed (sent_right p) any_ack (DestinationStreamID pkt) (SourceStreamID pkt)) (Frames pkt) ->
  table_ok bc (table c) -> Z.of_nat (size (streams (table c'))) < 2 ^ 30 -> answered c ->
  booked (on c e) -> paired (on c e) p -> booked (on c' e) /\ paired (on c' e) p.
Proof using Hp Hlen.
  intros Hu Hf Hok. unfold c'. assert (E : table (HandlePacket now pkt c) =
    table (fold_left (handleFrame now pkt) (Frames pkt) (note_arrival now pkt c)))
    by (unfold HandlePacket; cbv zeta; case_match; [apply noteReceived_table | done]).
  intros Hsz Ha Hb Hpair.
  destruct (frames_linked o now pkt (Frames pkt) bc Hu Hf (note_arrival now pkt c)) as [H1 H2];
    [done | by rewrite <- E | done | exact Hb | by apply (quietly_paired c); [apply quietly_refl|] |].
  split; [unfold booked in *; cbn [conn_at on] in *; by rewrite E|].
  revert H2. apply quietly_paired. rewrite E. apply quietly_refl.
Qed.
End Received.

(** *** The other steps of the receiver *)

Lemma own_table exact c c' : own_step exact c c' -> quietly (streams (table c)) (streams (table c')) \/
  streams (table c') = <[nextStreamID (table c) := attached (nextStreamID (table c)) 0 StreamStateIdle]> (streams (table c)).
Proof.
  destruct 1; try (left; apply quietly_refl).
  - left. unfold ackTimerFired. cbv zeta. case_match; [apply quietly_refl|]. destruct (takeAckLocked _ _) as [a f].
    exact (same_quietly _ _ (sendPacket_same now _ _ _ (set_acks a c))).
  - left. unfold lossTimerFired. apply same_quietly, report_same.
  - left. apply same_quietly, onPtoTimeout_same.
  - left. apply same_quietly, flushLost_same.
  - left. unfold onIdleCheck, armIdleCheck. repeat case_match; [apply closeInternal_quietly | apply quietly_refl..].
  - unfold OpenStream. repeat case_match; [left; apply quietly_refl.. | by right].
  - left. match goal with H : AcceptStream _ _ _ _ |- _ => destruct H end; apply quietly_refl.
  - left. unfold Ping. apply same_quietly, sendFrames_same.
  - left. apply same_quietly, sendFrames_same.
  - left. unfold CloseWithError. apply closeInternal_quietly.
  - left. unfold observeAddr. repeat case_match; apply quietly_refl.
  - left. unfold sendControlTo. apply same_quietly, send_same.
  - left. unfold migrate_start. match goal with |- context [sendFrames _ _ ?x] => exact (same_quietly _ _ (sendFrames_same now _ x)) end.
  - left. unfold migrate_finish in *. repeat case_match; simplify_eq; apply quietly_refl.
  - left. unfold enqueue. case_match; apply quietly_refl.
Qed.

Lemma own_linked exact e p c c' bc : own_step exact c c' -> streams_ok bc (table c) ->
  booked (on c e) -> paired (on c e) p -> booked (on c' e) /\ paired (on c' e) p.
Proof.
  intros [Hq|Hs]%own_table Hok Hb Hpair.
  - split; [by apply (quietly_booked c) | by apply (quietly_paired c)].
  - apply (opened_linked e p c c' (nextStreamID (table c)) 0 StreamStateIdle); try done; [by eapply next_fresh | by right].
Qed.

Lemma stream_linked now e p id s s' calls out c' : streams_at e !! id = Some s -> ID s = id -> conn s = true ->
  stream_op now (MaxDatagram (conn_at e)) s s' calls out ->
  streams (table c') = <[id := s']> (streams_at e) ->
  let e' := MkEnd c' (<[id := wrote e id ++ sent_bytes calls]> (wrote e))
    (<[id := closes e id ++ fins_of calls]> (closes e)) (<[id := got e id ++ out]> (got e)) in
  small e' -> booked e -> paired e p ->
  booked e' /\ paired e' p /\ Forall (call_licensed (sent_right e')) calls.
Proof.
  intros Hs Hid Hconn Hop Ec e' [_ Hsm] Hb [H1 H2]. destruct (stream_op_stays _ _ _ _ _ _ Hop) as (Ei & Er & _).
  pose proof (Hb id) as Hw. rewrite Hs in Hw. specialize (Hsm id). cbn [wrote e'] in Hsm. rewrite fn_lookup_insert in Hsm.
  assert (Hfeeds : forall k j, feeds e p k j -> feeds e' p k j).
  { intros k j (u & Hu & H). unfold feeds. cbn [conn_at e']. rewrite Ec.
    destruct (decide (j = id)) as [->|Hne]; [|exists u; by rewrite lookup_insert_ne].
    rewrite lookup_insert_eq. rewrite Hs in Hu. injection Hu as <-. exists s'. by rewrite Er. }
  destruct (stream_op_sends _ _ _ _ _ _ (wrote e id) (closes e id) (sent_right e') Hop Hconn Hw Hsm) as [Hw' Hcalls].
  { intros f Hf. right. exists s'. cbn [conn_at wrote closes e']. rewrite Hid, Ec, lookup_insert_eq, !fn_lookup_insert.
    by split_and!. }
  split_and!; [| |done]; [|split]; unfold booked; cbn [conn_at wrote closes got e']; rewrite Ec.
  - intros j. specialize (Hb j). destruct (decide (j = id)) as [->|Hne]; [by rewrite lookup_insert_eq, fn_lookup_insert|].
    by rewrite lookup_insert_ne, !fn_lookup_insert_ne.
  - intros j u [[<- <-]|[_ Hj]]%lookup_insert_Some; [rewrite Er; by apply (H1 id) | by apply (H1 j)].
  - intros j u [[<- <-]|[Hne Hj]]%lookup_insert_Some.
    + rewrite fn_lookup_insert. destruct (H2 id s Hs) as [H|(k & Hk & H)]; [left; by eapply stream_op_heard|].
      right. exists k. split; [by apply Hfeeds | by eapply stream_op_heard].
    + rewrite fn_lookup_insert_ne by done. destruct (H2 j u Hj) as [H|(k & Hk & H)]; [by left|].
      right. exists k. split; [by apply Hfeeds | done].
Qed.

(** *** Every run *)

Lemma sent_syn e : sent_right e 0 0 (MkStreamFrame false true 0 []).
Proof. by left. Qed.

Lemma sent_split e : small e -> forall dst src f g k, is_u64 (Offset f) -> sent_right e dst src f ->
  g ∈ chunk_frames (length (Data f)) k (Offset f) (IsSyn f) (IsFin f) (Data f) -> sent_right e dst src g.
Proof.
  intros [_ Hsm] dst src f g k _ [(_ & _ & E)|(s & Hs & Hr & Hc & Hf)] Hg.
  { rewrite E in Hg. by apply not_elem_of_nil in Hg. }
  right. exists s. split_and!; [done | done |].
  exact (chunk_frames_say _ _ _ _ _ _ _ _ g (Hsm src) Hc Hf Hg).
Qed.

(** One end, with what it may send, its books and its half of the pairing. *)
Record linked (e p : End) : Prop := {
  k_healthy : Healthy (sent_right e) any_ack (conn_at e);
  k_booked : booked e;
  k_paired : paired e p
}.

Lemma wire_packet Q A c data to pkt : Healthy Q A c -> (data, to) ∈ wire c ->
  UnmarshalPacket data = Ok pkt -> Packet_ok pkt /\
  Forall (licensed Q A (DestinationStreamID pkt) (SourceStreamID pkt)) (Frames pkt).
Proof.
  intros Hh Hin Hu. pose proof (so_wire _ _ _ (h_sound _ _ _ Hh)) as Hw. rewrite Forall_forall in Hw.
  destruct (Hw _ Hin) as (p0 & Hp & E & _ & _ & _ & _ & Hf). cbn [fst] in E. subst data.
  rewrite unmarshal_marshal in Hu by done. injection Hu as <-. split; [|done]. by destruct Hp.
Qed.

Lemma step_linked exact e p e' : conn_reach exact (conn_at e) -> conn_reach exact (conn_at p) ->
  end_step exact (wire (conn_at p)) e e' -> small e -> small p -> small e' -> grows e e' ->
  linked e p -> linked p e -> linked e' p.
Proof.
  intros Re Rp Hstep Se Sp Se' Hg [Ke Kb Kp] [Pe Pb Pp].
  pose proof (reach_table _ _ Re (proj1 Se)) as Oe. pose proof (reach_table _ _ Rp (proj1 Sp)) as Op.
  assert (Ke' : Healthy (sent_right e') any_ack (conn_at e)) by (eapply healthy_impl; [| |exact Ke]; [intros; by eapply grows_sent | done]).
  destruct Hstep as [o now data to pkt Hnow Hin Hu|now id s s' calls out Hnow Hs Hop|c' Hown].
  - destruct (wire_packet _ _ _ data to pkt Pe Hin Hu) as [Hok Hf].
    destruct (packet_linked e p _ Op (proj2 Sp) o now pkt (conn_at e) _ (ok_src _ Hok) Hf
      (reach_table _ _ Re) (proj1 Se') (p_remote _ _ Pp)) as [Hb Hpair]; [by destruct e | by destruct e |].
    split; [|done..]. apply packet_step_healthy; try done. by apply sent_split.
  - destruct (t_ids _ _ Oe id s Hs) as (Hid & Hconn & _).
    pose proof (same_table (exec_calls_same now calls (set_stream id s' (conn_at e)))) as Et.
    destruct (stream_linked now e p id s s' calls out _ Hs Hid Hconn Hop ltac:(by rewrite Et) Se' Kb Kp) as (Hb & Hpair & Hc).
    split; [|done..]. by eapply stream_step_healthy.
  - destruct (own_linked exact e p (conn_at e) c' _ Hown Oe) as [Hb Hpair]; [by destruct e | by destruct e |].
    split; [|done..]. eapply own_step_healthy; try done; [apply sent_syn | by apply sent_split].
Qed.

Lemma step_prior exact d x e' : (forall y, conn_reach exact (conn_at (d y))) ->
  end_step exact (wire (conn_at (d (negb x)))) (d x) e' -> (forall y, small (<[x := e']> d y)) ->
  small e' /\ grows (d x) e' /\ forall y, small (d y).
Proof.
  intros Rd Hstep Hs. pose proof (Hs x) as Se'. pose proof (Hs (negb x)) as Sp.
  rewrite fn_lookup_insert in Se'. rewrite fn_lookup_insert_ne in Sp by (by destruct x).
  pose proof (end_step_grows _ _ _ _ Hstep (Rd x) Se') as Hg. pose proof (grows_small _ _ Hg Se') as Se.
  split_and!; [done | done |]. intros y. by destruct x, y.
Qed.

(** What holds of both ends, each seen with its peer, after a step of one. *)
Lemma both_ends (P : End -> End -> Prop) (d : bool -> End) x e' : P e' (d (negb x)) -> P (d (negb x)) e' ->
  forall y, P (<[x := e']> d y) (<[x := e']> d (negb y)).
Proof.
  intros H1 H2 y. assert (Hx : x <> negb x) by (by destruct x). destruct (decide (y = x)) as [->|Hne].
  - by rewrite fn_lookup_insert, fn_lookup_insert_ne.
  - assert (y = negb x) as -> by (by destruct x, y). by rewrite negb_involutive, fn_lookup_insert, fn_lookup_insert_ne.
Qed.

Lemma duo_linked exact d : duo_reach exact d -> (forall x, conn_reach exact (conn_at (d x))) /\
  ((forall x, small (d x)) -> forall x, linked (d x) (d (negb x))).
Proof.
  induction 1 as [now cid1 cid2 laddr raddr hasSend H1 H2|d x e' _ [Rd IH] Hstep].
  - split; [intros x; apply reach_new; by destruct x|]. intros _ x. split.
    + apply new_healthy; by destruct x.
    + by intros i.
    + by split.
  - assert (Re' : conn_reach exact (conn_at e')) by (eapply reach_step; [apply Rd | by eapply end_step_conn]).
    split. { intros y. destruct (decide (y = x)) as [->|Hne]; [by rewrite fn_lookup_insert | by rewrite fn_lookup_insert_ne]. }
    intros Hs. destruct (step_prior _ _ _ _ Rd Hstep Hs) as (Se' & Hg & Sd).
    pose proof (IH Sd x) as Le. pose proof (IH Sd (negb x)) as Lp. rewrite negb_involutive in Lp.
    apply both_ends; [by eapply (step_linked exact (d x))|]. destruct Lp; split; [done | done | by eapply grows_paired].
Qed.

(** ** Property *)

Lemma heard_eof src fins seen s now n : heard src fins seen s -> (Read now s n).1.2 = RError EOF ->
  (forall m, m ∈ fins -> m = Z.of_nat (length src)) -> seen = src.
Proof.
  intros [[Ho Hp _ _ _] _ Hd Hc] He Hf. unfold Read in He. case_decide as Hbuf; [|repeat case_match; done].
  cbn [fst snd] in He. assert (Hfin : finReceived s = true).
  { destruct (finReceived s); [done|]. repeat case_decide; try done; [by apply Hc; left|].
    by destruct (expired now (readDeadline s)). }
  destruct (Hd Hfin) as (m & Hm & Hle). rewrite (Hf m Hm) in Hle.
  rewrite Hbuf, app_nil_r, take_ge in Hp by lia. done.
Qed.

(** What [e] has read from its stream [j] is a beginning of what [p] has written
    on its stream [i], and all of it at the end of file if [p] wrote nothing after
    closing. *)
Definition intact (e p : End) (i j : Z) : Prop :=
  let w := wrote p i in let r := got e j in
  r `prefix_of` w /\
  forall s now n, streams_at e !! j = Some s -> (Read now s n).1.2 = RError EOF ->
    (forall m, m ∈ closes p i -> m = Z.of_nat (length w)) -> r = w.

Lemma duo_intact exact d x i j :
  duo_reach exact d -> (forall y, small (d y)) -> feeds (d x) (d (negb x)) i j -> intact (d x) (d (negb x)) i j.
Proof.
  intros Hr Hs Hf. destruct (duo_linked _ _ Hr) as [Rd Ld]. destruct (Ld Hs x) as [_ _ Hp].
  pose proof (reach_table _ _ (Rd (negb x)) (proj1 (Hs (negb x)))) as Op.
  pose proof (reach_table _ _ (Rd x) (proj1 (Hs x))) as Oe. destruct Hf as (s & Hj & Hf). pose proof (t_ids _ _ Oe j s Hj) as Hid.
  assert (Hh : heard (wrote (d (negb x)) i) (closes (d (negb x)) i) (got (d x) j) s).
  { apply (fed_heard (isInitiator (conn_at (d (negb x)))) (d x)); try done; [|by exists s].
    destruct Hid as (_ & _ & _ & Hb & _). unfold base in Hb. destruct (isInitiator (conn_at (d x))); lia. }
  unfold intact. cbv zeta. split.
  - pose proof (ro_prefix _ _ _ (hd_recv _ _ _ _ Hh)) as E. exists (recvBuf (recv s) ++ drop (Z.to_nat (recvOffset (recv s))) (wrote (d (negb x)) i)).
    rewrite app_assoc, E. symmetry. apply take_drop.
  - intros u now n Hu. rewrite Hj in Hu. injection Hu as <-. by apply heard_eof.
Qed.

(** C1. Streams carry bytes end to end. Two connections, each receiving any of
    the datagrams the other has sent, in any order, any number of times or
    never, and otherwise doing whatever a connection does (timers, losses and
    re-sends, splitting, opening, resetting, closing): what an application has
    read from a stream is a beginning of what the other application has written
    on the stream it is connected to, and when it is told the end of file, and
    the other application wrote nothing after closing, it is all of it. *)
Theorem end_to_end_integrity (exact : bool) (d : bool -> End) (x : bool) (i j : Z) :
  duo_reach exact d -> (forall y, small (d y)) -> feeds (d x) (d (negb x)) i j ->
  let w := wrote (d (negb x)) i in let r := got (d x) j in
  r `prefix_of` w /\
  forall s now n, streams_at (d x) !! j = Some s -> (Read now s n).1.2 = RError EOF ->
    (forall m, m ∈ closes (d (negb x)) i -> m = Z.of_nat (length w)) -> r = w.
Proof. apply duo_intact. Qed.

(** ** Witness: three bytes and the end of file cross. *)

(** Which end a run leaves in which state. *)
Ltac at_end := rewrite ?fn_lookup_insert, ?fn_lookup_insert_ne by done; first [reflexivity | apply fn_lookup_insert].

Section Sample.
#[local] Existing Instance key_order.

Definition receive (e : End) (data : list byte) : End :=
  match UnmarshalPacket data with
  | Ok pkt => MkEnd (HandlePacket (ms 60) pkt (conn_at e)) (wrote e) (closes e) (got e)
  | _ => e
  end.

Lemma receive_step exact arriving e k : (k < length arriving)%nat ->
  match UnmarshalPacket (nth k arriving.*1 []) with Ok _ => true | _ => false end = true ->
  end_step exact arriving e (receive e (nth k arriving.*1 [])).
Proof.
  intros Hk Hu. unfold receive. destruct (UnmarshalPacket _) as [pkt| | |] eqn:E; try done.
  assert (Hin : nth k arriving.*1 [] ∈ arriving.*1) by (apply nth_elem_of; by rewrite length_fmap).
  apply list_elem_of_fmap in Hin as ([data to] & E1 & Hin). cbn in E1. rewrite E1 in *.
  by apply (end_recv exact arriving e key_order (ms 60) data to pkt).
Qed.

Definition use (id : Z) (s' : Stream) (calls : list conn_call) (out : list byte) (e : End) : End :=
  MkEnd (exec_calls (ms 50) calls (set_stream id s' (conn_at e))) (<[id := wrote e id ++ sent_bytes calls]> (wrote e))
    (<[id := closes e id ++ fins_of calls]> (closes e)) (<[id := got e id ++ out]> (got e)).

Definition duo0 (x : bool) : End :=
  MkEnd (NewConnection (ms 1) (if x then sample_cid x01 else sample_cid x02) (if x then sample_cid x02 else sample_cid x01)
    None (Some "peer"%string) x true) (fun _ => []) (fun _ => []) (fun _ => []).

Definition abc : list byte := [x61; x62; x63].

(** The first end opens a stream, writes and closes it ... *)
Definition dialer1 : End := on (OpenStream (establish (conn_at (duo0 true)))).1 (duo0 true).
Definition opened : Stream := attached 1 0 StreamStateIdle.
Definition commit := write_commit opened abc 0 1372 true (Some 3).
Definition dialer2 : End := use 1 commit.1.1 commit.2 [] dialer1.
Definition dialer3 : End := use 1 (Stream.Close commit.1.1).1 (Stream.Close commit.1.1).2 [] dialer2.

(** ... and the second reads it. *)
Definition acceptor1 : End := receive (duo0 false) (nth 0 (wire (conn_at dialer3)).*1 []).
Definition incoming2 : Stream := default opened (streams_at acceptor1 !! 2).
Definition read2 := Read (ms 50) incoming2 10.
Definition acceptor2 : End := use 2 read2.1.1 read2.2 (bytes_read read2.1.2) acceptor1.
Definition acceptor3 : End := receive acceptor2 (nth 1 (wire (conn_at dialer3)).*1 []).

Definition duo3 : bool -> End :=
  <[false := acceptor3]> (<[false := acceptor2]> (<[false := acceptor1]>
    (<[true := dialer3]> (<[true := dialer2]> (<[true := dialer1]>
      (<[true := on (establish (conn_at (duo0 true))) (duo0 true)]> duo0)))))).

Lemma use_step exact arriving id s s' calls out e : streams_at e !! id = Some s ->
  stream_op (ms 50) (MaxDatagram (conn_at e)) s s' calls out -> end_step exact arriving e (use id s' calls out e).
Proof. intros Hs Hop. by apply (end_stream exact arriving e (ms 50) id s s' calls out). Qed.

Lemma duo_at exact d x e p e' : d x = e -> d (negb x) = p -> duo_reach exact d ->
  end_step exact (wire (conn_at p)) e e' -> duo_reach exact (<[x := e']> d).
Proof. intros <- <-. apply duo_step. Qed.

(** Before anything is received. *)
Lemma duo_written : duo_reach true (<[true := dialer3]> (<[true := dialer2]> (<[true := dialer1]>
  (<[true := on (establish (conn_at (duo0 true))) (duo0 true)]> duo0)))).
Proof.
  apply (duo_at true _ true dialer2 (duo0 false)); [at_end | at_end | |].
  2: { apply (use_step true (wire (conn_at (duo0 false))) 1 commit.1.1 _ _ [] dialer2).
    - vm_compute. reflexivity.
    - apply op_close. }
  apply (duo_at true _ true dialer1 (duo0 false)); [at_end | at_end | |].
  2: { apply (use_step true (wire (conn_at (duo0 false))) 1 opened commit.1.1 commit.2 [] dialer1).
    - vm_compute. reflexivity.
    - unfold commit. apply (op_write_commit _ _ opened abc 0 1372 true (Some 3)); [done|]. intros g [= <-]. cbn. lia. }
  apply (duo_at true _ true (on (establish (conn_at (duo0 true))) (duo0 true)) (duo0 false)); [at_end | at_end | |].
  2: { apply (end_own true _ (on (establish (conn_at (duo0 true))) (duo0 true))), step_open. }
  apply (duo_at true _ true (duo0 true) (duo0 false)); [done | done | |apply (end_own true _ (duo0 true)), step_establish].
  apply (duo_new true (fun _ => ms 1) (sample_cid x01) (sample_cid x02) (fun _ => None) (fun _ => Some "peer"%string) (fun _ => true));
    apply sample_cid_ok.
Qed.

Lemma duo3_reach : duo_reach true duo3.
Proof.
  unfold duo3.
  apply (duo_at true _ false acceptor2 dialer3); [at_end | at_end | |apply (receive_step true _ acceptor2 1); [vm_compute; lia | by vm_compute]].
  apply (duo_at true _ false acceptor1 dialer3); [at_end | at_end | |].
  2: { apply (use_step true (wire (conn_at dialer3)) 2 incoming2 read2.1.1 read2.2 (bytes_read read2.1.2) acceptor1).
    - vm_compute. reflexivity.
    - unfold read2. apply (op_read (ms 50) (MaxDatagram (conn_at acceptor1)) incoming2 10). }
  apply (duo_at true _ false (duo0 false) dialer3); [at_end | at_end | |apply (receive_step true _ (duo0 false) 0); [vm_compute; lia | by vm_compute]].
  apply duo_written.
Qed.

Lemma receive_wrote e data : wrote (receive e data) = wrote e.
Proof. unfold receive. by case_match. Qed.

Lemma use_wrote id s' calls out e i : i <> id -> wrote (use id s' calls out e) i = wrote e i.
Proof. intros Hi. cbn. by apply fn_lookup_insert_ne. Qed.

Lemma duo3_true : duo3 true = dialer3.
Proof. unfold duo3. by rewrite ?fn_lookup_insert_ne, fn_lookup_insert by done. Qed.

Lemma duo3_false : duo3 false = acceptor3.
Proof. apply fn_lookup_insert. Qed.

Lemma duo3_small y : small (duo3 y).
Proof.
  destruct y; rewrite ?duo3_true, ?duo3_false; (split; [by vm_compute|]); intros i.
  - destruct (decide (i = 1)) as [->|Hne]; [by vm_compute|]. unfold dialer3, dialer2. by rewrite !use_wrote.
  - unfold acceptor3, acceptor2, acceptor1. rewrite receive_wrote.
    destruct (decide (i = 2)) as [->|Hne]; [by vm_compute|]. rewrite use_wrote, receive_wrote by done. done.
Qed.

Lemma end_to_end_integrity_witness : got (duo3 false) 2 = wrote (duo3 true) 1 /\ wrote (duo3 true) 1 = abc.
Proof.
  split; [|by vm_compute].
  destruct (end_to_end_integrity true duo3 false 1 2 duo3_reach duo3_small) as [_ H].
  - cbn [negb]. rewrite duo3_true, duo3_false. exists (default opened (streams_at acceptor3 !! 2)).
    split; [by vm_compute | left; split; [done | by vm_compute]].
  - cbn [negb] in H. apply (H (default opened (streams_at acceptor3 !! 2)) (ms 70) 10%nat).
    + rewrite duo3_false. by vm_compute.
    + by vm_compute.
    + rewrite duo3_true. intros m Hm. apply list_elem_of_singleton. revert Hm.
      replace (closes dialer3 1) with [3] by (by vm_compute). replace (wrote dialer3 1) with abc by (by vm_compute). done.
Defined.
End Sample.
