(* ===== verification/Delivery.v ===== *)
(** * What is acknowledged has been delivered

    The two connections of [EndToEnd], seen from a sender that is still open: the
    data of a packet it counts as acknowledged is at the peer, read or held for
    the reader. It follows that once a stream has nothing left to acknowledge,
    everything written on it has reached the other application or the buffer it
    reads from. *)

From stdpp Require Import strings functions.
From S2P Require Import Prelude Constants Cid Frame Packet AckTracker FlowControl Mtud.
From S2P Require Import PacketManager AckExchange Stream Pacing Congestion Connection Recovery ConnReach.
From S2P Require Import Tiling Dispatch Wire Ledger Bookkeeping EndToEnd.

(** ** The receiving stream *)

(** An end of stream that is known and reached has been reported. *)
Definition settled (s : Stream) : Prop :=
  finSeen s = true -> finReceived s = true \/ recvOffset (recv s) < finalSize s.

Lemma finish_settled s : settled (finishLocked s).
Proof.
  unfold settled, finishLocked. destruct (negb (finSeen s) || finReceived s || (recvOffset (recv s) <? finalSize s)) eqn:E;
    [|by left]. intros Hf. rewrite Hf in E. cbn in E. apply orb_true_iff in E as [E|E%Z.ltb_lt]; auto.
Qed.

Lemma finish_recv s : recv (finishLocked s) = recv s.
Proof. unfold finishLocked. by case_match. Qed.

Lemma place_still src seen r o d : Z.of_nat (length src) < 2 ^ 62 -> recv_ok src seen r -> chunk_of src o d ->
  (placeLocked r o d).2 <= 0 -> recvOffset (placeLocked r o d).1 = recvOffset r.
Proof.
  intros Hsrc Hr Hc. pose proof Hc as (H0 & Hl & _). pose proof (ro_offset _ _ _ Hr).
  destruct (Z.leb_spec (o + Z.of_nat (length d)) (recvOffset r)) as [Hold|Hnew]; [by rewrite placeLocked_old by width|].
  destruct (Z.ltb_spec (recvOffset r) o) as [Ha|Ha].
  - rewrite placeLocked_ahead by width. by repeat case_match.
  - destruct (placeLocked_now src Hsrc seen r o d Hr Hc) as [_ ->]; [lia|]. cbn [snd]. lia.
Qed.

Lemma data_recv s o d : recv (DeliverData s o d).1 = (placeLocked (recv s) o d).1.
Proof.
  unfold DeliverData. destruct (placeLocked (recv s) o d) as [r n]. case_match; cbn [fst].
  - unfold Stream.Reset. by case_match.
  - case_match; cbn [fst]; [by rewrite finish_recv | done].
Qed.

Lemma data_settled src seen s o d : Z.of_nat (length src) < 2 ^ 62 -> recv_ok src seen (recv s) -> chunk_of src o d ->
  flowControlViolation (placeLocked (recv s) o d).1 = false -> settled s -> settled (DeliverData s o d).1.
Proof.
  intros Hsrc Hr Hc Hv Hs. pose proof (place_still src seen (recv s) o d Hsrc Hr Hc) as Hn. unfold DeliverData.
  destruct (placeLocked (recv s) o d) as [r n]. cbn [fst snd] in *. rewrite Hv.
  destruct (Z.ltb_spec 0 n); cbn [fst]; [apply finish_settled|]. unfold settled in *. cbn. rewrite Hn by done. done.
Qed.

Lemma deliver_recv f s : recv (deliver f s) =
  if (0 <? length (Data f))%nat then (placeLocked (recv s) (Offset f) (Data f)).1 else recv s.
Proof.
  unfold deliver, DeliverFin. destruct (0 <? length (Data f))%nat, (IsFin f); rewrite ?finish_recv; cbn [recv]; try apply data_recv; done.
Qed.

Lemma deliver_settled src seen f s : Z.of_nat (length src) < 2 ^ 62 -> recv_ok src seen (recv s) ->
  chunk_of src (Offset f) (Data f) -> flowControlViolation (recv (deliver f s)) = false -> settled s -> settled (deliver f s).
Proof.
  intros Hsrc Hr Hc Hv Hs. rewrite deliver_recv in Hv. unfold deliver.
  destruct (IsFin f); [apply finish_settled|]. destruct (0 <? length (Data f))%nat; [|done]. by eapply data_settled.
Qed.

(** Changes that move no received data. *)
Definition holds (s s' : Stream) : Prop := RemoteID s' = RemoteID s /\
  recvOOO (recv s') = recvOOO (recv s) /\ recvOffset (recv s') = recvOffset (recv s) /\
  flowControlViolation (recv s') = flowControlViolation (recv s) /\
  (flowControlViolation (recv s) = false -> settled s -> settled s').

Lemma holds_refl s : holds s s.
Proof. done. Qed.

Lemma quiet_holds s s' : quiet s s' -> holds s s'.
Proof.
  intros ((_ & E & _) & _ & E1 & E2 & E3 & E4 & _). unfold holds, settled. rewrite E, E1, E2, E3, E4. done.
Qed.

Lemma stream_op_holds now md s s' calls out : stream_op now md s s' calls out -> holds s s'.
Proof.
  destruct 1; try apply holds_refl; try done.
  - unfold Read. repeat case_match; done.
  - unfold write_commit. repeat case_match; done.
  - unfold Stream.Close. by case_match.
  - apply quiet_holds, Reset_quiet.
Qed.

(** ** The receiving end

    The sender is [a], the receiver [b]. *)

Notation sent a := (chunks_of (c_pm (conn_at a))).

(** A chunk that belongs to the stream [j] of the receiver. *)
Definition fed (a b : End) (j : Z) (x : Z * list byte) : Prop := exists i, feeds b a i j /\ sent a i x.

(** The chunk [x] of the sender's stream [src] has arrived: unless the stream was
    reset for exceeding its window, the data is kept, if it was not sent in
    smaller pieces as well. *)
Definition landed (a b : End) (src : Z) (x : Z * list byte) : Prop := exists j s,
  feeds b a src j /\ streams_at b !! j = Some s /\
  (flowControlViolation (recv s) = false -> shortest (sent a src) x -> kept (recv s) x).

(** What the receiver's streams hold is the sender's, and nothing that could be
    passed on is held. *)
Definition tidy (a b : End) : Prop := forall j s, streams_at b !! j = Some s -> flowControlViolation (recv s) = false ->
  settled s /\ from_all (fed a b j) (recv s) /\ recvOOO (recv s) !! recvOffset (recv s) = None.

Definition absorbs (a b b' : End) : Prop := tidy a b ->
  tidy a b' /\ forall src x, landed a b src x -> landed a b' src x.

#[export] Instance absorbs_preorder a : PreOrder (absorbs a).
Proof.
  split; [by intros b|]. intros b1 b2 b3 H1 H2 T. destruct (H1 T) as [T1 L1], (H2 T1) as [T2 L2]. eauto.
Qed.

(** A stream nothing has arrived for. *)
Definition blank (s : Stream) : Prop := recvOOO (recv s) = ∅ /\ finSeen s = false.

Lemma holds_absorbs a b b' :
  (forall j s, streams_at b !! j = Some s -> exists s', streams_at b' !! j = Some s' /\ holds s s') ->
  (forall j s', streams_at b' !! j = Some s' -> is_Some (streams_at b !! j) \/ blank s') -> absorbs a b b'.
Proof.
  intros Hfwd Hback T.
  assert (Hf : forall i j, feeds b a i j -> feeds b' a i j).
  { intros i j (s & Hs & H). destruct (Hfwd j s Hs) as (s' & Hs' & E & _). exists s'. by rewrite E. }
  split.
  - intros j s' Hs' Hv. destruct (Hback j s' Hs') as [[s Hs]|[E1 E2]].
    + destruct (Hfwd j s Hs) as (s2 & Hs2 & _ & E1 & E2 & E3 & E4). simplify_eq. rewrite E3 in Hv.
      destruct (T j s Hs Hv) as (T1 & T2 & T3). rewrite E1, E2. split_and!; [auto | | done].
      intros o c. rewrite E1. intros Hc. destruct (T2 o c Hc) as (i & Hi & Hx). exists i. auto.
    + rewrite E1. split_and!; [by intros ?; congruence | by intros o c; rewrite E1, lookup_empty | apply lookup_empty].
  - intros src x (j & s & Hj & Hs & Hk). destruct (Hfwd j s Hs) as (s' & Hs' & _ & E1 & E2 & E3 & _).
    exists j, s'. split_and!; [auto | done |]. rewrite E3. intros Hv Hsh. specialize (Hk Hv Hsh). unfold kept in *.
    by rewrite E1, E2.
Qed.

Lemma quietly_absorbs a b b' : quietly (streams_at b) (streams_at b') -> absorbs a b b'.
Proof.
  intros Hq. apply holds_absorbs.
  - intros j s Hs. specialize (Hq j). rewrite Hs in Hq. destruct (streams_at b' !! j) as [s'|]; [|done].
    exists s'. split; [done | by apply quiet_holds].
  - intros j s' Hs'. left. specialize (Hq j). rewrite Hs' in Hq. by destruct (streams_at b !! j).
Qed.

Lemma opened_absorbs a b b' id rid st : streams_at b !! id = None ->
  streams_at b' = <[id := attached id rid st]> (streams_at b) -> absorbs a b b'.
Proof.
  intros Hid E. apply holds_absorbs; rewrite E.
  - intros j s Hs. exists s. rewrite lookup_insert_ne by congruence. split; [done | apply holds_refl].
  - intros j s' [[<- <-]|[_ ?]]%lookup_insert_Some; [by right | by left; eauto].
Qed.

Lemma changed_absorbs a b b' id s s' : streams_at b !! id = Some s -> holds s s' ->
  streams_at b' = <[id := s']> (streams_at b) -> absorbs a b b'.
Proof.
  intros Hid Hh E. apply holds_absorbs; rewrite E.
  - intros j u Hu. destruct (decide (j = id)) as [->|Hne]; [|exists u; by rewrite lookup_insert_ne].
    simplify_eq. exists s'. by rewrite lookup_insert_eq.
  - intros j u [[<- <-]|[_ ?]]%lookup_insert_Some; left; eauto.
Qed.

Section Receiver.
Context (a : End) (ba : bool) (Ha : streams_ok ba (table (conn_at a))).
Context (Hlen : forall i, Z.of_nat (length (wrote a i)) < 2 ^ 62).
Context (Hlam : forall i, laminar (sent a i)).
Context (Hall : forall i x, sent a i x -> chunk_of (wrote a i) x.1 x.2).

(** A frame of the stream that feeds [id] is delivered. *)
Lemma deliver_absorbs b b' id s f i : streams_at b !! id = Some s -> id <> 0 ->
  streams_at b' = <[id := deliver f s]> (streams_at b) -> feeds b a i id -> paired b a ->
  chunk_of (wrote a i) (Offset f) (Data f) -> (Data f <> [] -> sent a i (chunk f)) -> tidy a b ->
  tidy a b' /\ (forall src x, landed a b src x -> landed a b' src x) /\ (Data f <> [] -> landed a b' i (chunk f)).
Proof using Ha Hlen Hlam Hall.
  intros Hs Hz E Hf Hp Hc Hsent T. pose proof (hd_recv _ _ _ _ (fed_heard ba b a i id s Ha Hz Hp Hf Hs)) as Hr.
  destruct (deliver_keeps f s) as [(_ & Er & _) _]. pose proof (deliver_recv f s) as Erecv.
  destruct (decide (Data f = [])) as [Ed|Hd].
  { rewrite Ed in Erecv. cbn in Erecv. destruct (changed_absorbs a b b' id s (deliver f s) Hs) as [T' L]; try done.
    unfold holds. rewrite Erecv. split_and!; try done. intros Hv. apply (deliver_settled _ _ _ _ (Hlen i) Hr Hc). by rewrite Erecv. }
  assert (Hlt : (0 <? length (Data f))%nat = true) by (apply Nat.ltb_lt; destruct (Data f); [done | cbn; lia]).
  rewrite Hlt in Erecv. clear Hlt. specialize (Hsent Hd).
  assert (Hfeeds : forall k j, feeds b a k j -> feeds b' a k j).
  { intros k j (u & Hu & H). unfold feeds. rewrite E. destruct (decide (j = id)) as [->|Hne]; [|exists u; by rewrite lookup_insert_ne].
    simplify_eq. exists (deliver f s). by rewrite lookup_insert_eq, Er. }
  assert (Hk : flowControlViolation (recv (deliver f s)) = false -> flowControlViolation (recv s) = false /\
    from_all (sent a i) (recv (deliver f s)) /\ recvOOO (recv (deliver f s)) !! recvOffset (recv (deliver f s)) = None /\
    (shortest (sent a i) (chunk f) -> kept (recv (deliver f s)) (chunk f)) /\
    forall y, shortest (sent a i) y -> kept (recv s) y -> kept (recv (deliver f s)) y).
  { rewrite Erecv. intros Hv. assert (Hv0 : flowControlViolation (recv s) = false) by (by eapply place_sticky).
    destruct (T id s Hs Hv0) as (_ & T2 & T3).
    refine (placeLocked_kept (wrote a i) (Hlen i) (sent a i) (Hlam i) (Hall i) _ (recv s) (chunk f) Hr _ Hsent T3 Hv).
    intros o c Ho. destruct (T2 o c Ho) as (k & Hk & Hx). by rewrite (feeds_unique _ _ _ _ _ _ Ha Hz Hf Hk). }
  assert (Hid : streams_at b' !! id = Some (deliver f s)) by (rewrite E; apply lookup_insert_eq).
  split_and!.
  - intros j u. rewrite E. intros [[<- <-]|[Hne Hu]]%lookup_insert_Some Hv.
    + destruct (Hk Hv) as (Hv0 & K1 & K2 & _). destruct (T id s Hs Hv0) as (T1 & _). split_and!; [|intros o c Ho; exists i; auto | done].
      by eapply deliver_settled.
    + destruct (T j u Hu Hv) as (T1 & T2 & T3). split_and!; [done | | done].
      intros o c Ho. destruct (T2 o c Ho) as (k & Hkk & Hx). exists k. auto.
  - intros src x (j & u & Hj & Hu & Hkept). destruct (decide (j = id)) as [->|Hne].
    + assert (src = i) as -> by (by eapply feeds_unique). simplify_eq. exists id, (deliver f s). split_and!; [auto | done |].
      intros Hv Hsh. destruct (Hk Hv) as (Hv0 & _ & _ & _ & K). auto.
    + exists j, u. split_and!; [auto | by rewrite E, lookup_insert_ne | done].
  - intros _. exists id, (deliver f s). split_and!; [auto | done |]. intros Hv. by destruct (Hk Hv) as (_ & _ & _ & K & _).
Qed.

(** Stream data of a packet has landed once its frame is handled. *)
Lemma stream_frame_absorbs (o : RangeOrder) now pkt f c b bc (c' := handleStreamFrame now pkt f c) :
  streams_ok bc (table c) -> answered a c -> sent_right a (DestinationStreamID pkt) (SourceStreamID pkt) f ->
  (Data f <> [] -> sent a (SourceStreamID pkt) (chunk f)) -> booked (on c b) -> paired (on c b) a -> tidy a (on c b) ->
  tidy a (on c' b) /\ (forall src x, landed a (on c b) src x -> landed a (on c' b) src x) /\
  (Data f <> [] -> landed a (on c' b) (SourceStreamID pkt) (chunk f)).
Proof using Ha Hlen Hlam Hall.
  intros Hok Hans Hf Hsent Hb Hp T. unfold c'.
  destruct (stream_frame_lands b a ba Ha o now pkt f c bc Hok Hans Hf)
    as [[Hd ->]|(id & s & Hz & [Hc _] & Es & [[Hs Hfeeds]|(Hfresh & -> & Hsrc & u & Hu & Hr)])]; [done | by eapply deliver_absorbs|].
  set (s := attached id (SourceStreamID pkt) StreamStateOpen) in *.
  set (c1 := set_table (MkStreams (<[id := s]> (streams (table c))) 0 0 []) c).
  destruct (opened_linked b a c c1 id (SourceStreamID pkt) StreamStateOpen) as [Hb1 Hp1]; try done; [by exists u | by left|].
  destruct (opened_absorbs a (on c b) (on c1 b) id (SourceStreamID pkt) StreamStateOpen Hfresh eq_refl T) as [T1 L1].
  destruct (deliver_absorbs (on c1 b) (on (handleStreamFrame now pkt f c) b) id s f (SourceStreamID pkt)) as (T2 & L2 & L3); try done.
  - apply lookup_insert_eq.
  - cbn. rewrite Es. by rewrite insert_insert_eq.
  - by apply (opened_feeds b a c c1 id (SourceStreamID pkt) s).
  - split_and!; auto.
Qed.

(** [new]: the stream data that has landed between two states. *)
Definition lands (b b' : End) (src : Z) (new : list Frame) : Prop :=
  tidy a b' /\ (forall i x, landed a b i x -> landed a b' i x) /\
  forall g, StreamF g ∈ new -> Data g <> [] -> landed a b' src (chunk g).

Lemma frame_lands (o : RangeOrder) now pkt f c b bc (c' := handleFrame now pkt c f) :
  streams_ok bc (table c) -> answered a c ->
  licensed (sent_right a) any_ack (DestinationStreamID pkt) (SourceStreamID pkt) f ->
  (forall g, f = StreamF g -> Data g <> [] -> sent a (SourceStreamID pkt) (chunk g)) ->
  booked (on c b) -> paired (on c b) a -> tidy a (on c b) -> lands (on c b) (on c' b) (SourceStreamID pkt) [f].
Proof using Ha Hlen Hlam Hall.
  intros Hok Hans Hl Hsent Hb Hp T. unfold lands, c'.
  assert ((exists sf, f = StreamF sf) \/ forall sf, f <> StreamF sf) as [[sf ->]|Hne] by (destruct f; eauto).
  - destruct (stream_frame_absorbs o now pkt sf c b bc) as (T3 & L3 & D3); auto. split_and!; [done | done |].
    by intros g [= ->]%list_elem_of_singleton.
  - destruct (quietly_absorbs a (on c b) (on (handleFrame now pkt c f) b)) as [T3 L3]; [by apply handleFrame_quietly | done |].
    split_and!; [done | done |]. intros g <-%list_elem_of_singleton. by destruct (Hne g).
Qed.

Lemma lands_trans b1 b2 b3 src new1 new2 : lands b1 b2 src new1 -> lands b2 b3 src new2 -> lands b1 b3 src (new1 ++ new2).
Proof using Type.
  intros (T1 & L1 & D1) (T2 & L2 & D2). split_and!; [done | auto |]. intros g [?|?]%elem_of_app; auto.
Qed.

Lemma quietly_lands b b' src : quietly (streams_at b) (streams_at b') -> tidy a b -> lands b b' src [].
Proof using Type.
  intros Hq T. destruct (quietly_absorbs a b b' Hq T). split_and!; [done | done |]. by intros g ?%not_elem_of_nil.
Qed.

(** A whole packet. *)
Lemma packet_lands (o : RangeOrder) now pkt b bc (c := conn_at b) (c' := HandlePacket now pkt c) : is_u32 (SourceStreamID pkt) ->
  Forall (licensed (sent_right a) any_ack (DestinationStreamID pkt) (SourceStreamID pkt)) (Frames pkt) ->
  (forall g, StreamF g ∈ Frames pkt -> Data g <> [] -> sent a (SourceStreamID pkt) (chunk g)) ->
  table_ok bc (table c) -> Z.of_nat (size (streams (table c'))) < 2 ^ 30 -> answered a c ->
  booked b -> paired b a -> tidy a b -> lands b (on c' b) (SourceStreamID pkt) (Frames pkt).
Proof using Ha Hlen Hlam Hall.
  intros Hu Hf Hsent Hok. set (c0 := note_arrival now pkt c). set (c1 := fold_left (handleFrame now pkt) (Frames pkt) c0).
  assert (E : table c' = table c1) by (unfold c', HandlePacket; cbv zeta; case_match; [apply noteReceived_table | done]).
  intros Hsz Hans Hb Hp T.
  set (P := fun (before : list Frame) c2 => (forall f, f ∈ before -> f ∈ Frames pkt) ->
    lands b (on c2 b) (SourceStreamID pkt) before).
  assert (H0 : P [] c0) by (intros _; by apply quietly_lands; [apply quietly_refl|]).
  assert (Hstep : forall before c f, streams_ok bc (table c) -> answered a c ->
    licensed (sent_right a) any_ack (DestinationStreamID pkt) (SourceStreamID pkt) f -> booked (on c b) -> paired (on c b) a ->
    P before c -> P (before ++ [f]) (handleFrame now pkt c f)).
  { intros before c2 f Hok2 Hans2 Hl Hb2 Hp2 HP Hin.
    assert (L : lands b (on c2 b) (SourceStreamID pkt) before) by (apply HP; intros; apply Hin, elem_of_app; by left).
    eapply lands_trans; [exact L|]. apply (frame_lands o now pkt f c2 b bc); try done; [|apply L].
    intros g ->. apply Hsent, Hin, elem_of_app. right. left. }
  destruct (frames_induct b a ba Ha Hlen o now pkt bc P Hu Hstep (Frames pkt) Hf [] c0) as (_ & _ & H); try done.
  - fold c1. by rewrite <- E.
  - by apply (quietly_paired c); [apply quietly_refl | destruct b].
  - fold c1 in H. pose proof (H ltac:(done)) as H1. rewrite <- (app_nil_r (Frames pkt)). eapply lands_trans; [exact H1|].
    apply quietly_lands; [|apply H1]. cbn. rewrite E. apply quietly_refl.
Qed.
End Receiver.

(** ** The invariant *)

(** What the sender's books and the receiver's acknowledgements say is so. *)
Record served (a b : End) : Prop := {
  sv_books : Orderly (books [] (conn_at a));
  sv_cover : forall i k, 0 <= k < Z.of_nat (length (wrote a i)) ->
    exists x, data_chunk (c_pm (conn_at a)) i x /\ x.1 <= k < chunk_end x;
  sv_acked : acked_landed (landed a b) (books [] (conn_at a));
  sv_tidy : tidy a b;
  sv_seen : exists S, tracks (recvd (acks (conn_at b))) S /\ (S = ∅ -> ackPending (acks (conn_at b)) = 0) /\
    forall n, n ∈ S -> delivered (wire (conn_at a)) (landed a b) n;
  sv_acks : Healthy any_frame (truthful (wire (conn_at a)) (landed a b)) (conn_at b);
  sv_bears : bearing (c_pm (conn_at a));
  sv_order : in_order (c_pm (conn_at a))
}.

Lemma sent_chunk a i x : Healthy (sent_right a) any_ack (conn_at a) -> sent a i x -> chunk_of (wrote a i) x.1 x.2.
Proof.
  intros Hh (p & f & Hf & Hd & <- & ->). destruct (so_store _ _ _ (h_sound _ _ _ Hh) p) as [(Hfr & _) _].
  rewrite Forall_forall in Hfr. destruct (Hfr _ Hf) as [_ [(_ & _ & ?)|(s & _ & _ & Hc & _)]]; done.
Qed.

Lemma orderly_laminar b i : Orderly b -> laminar (chunks_of (b_pm b) i).
Proof.
  intros Hb x y [p Hx] [q Hy]. pose proof (tr_lam _ _ (or_tree _ Hb) p q i x y Hx Hy) as H.
  unfold overlap, inside in H. lia.
Qed.

Lemma sent_unwrapped a dst src f : small a -> sent_right a dst src f -> unwrapped dst src f.
Proof.
  intros [_ Hsm] [(_ & _ & E)|(s & _ & _ & (H0 & Hl & _) & _)] Hd; [done|]. specialize (Hsm src).
  unfold chunk_end. cbn. lia.
Qed.

Lemma linked_healthy a : small a -> Healthy (sent_right a) any_ack (conn_at a) -> Healthy unwrapped any_ack (conn_at a).
Proof. intros Hs. apply healthy_impl; [intros; by eapply sent_unwrapped | done]. Qed.

(** Growing of the sender. *)
Lemma landed_grow a a' b src x : grows a a' -> loads (c_pm (conn_at a)) (c_pm (conn_at a')) ->
  landed a b src x -> landed a' b src x.
Proof.
  intros Hg HL (j & s & Hj & Hs & Hk). exists j, s. split_and!; [by eapply grows_feeds | done |]. intros Hv Hsh. apply Hk; [done|].
  intros y Hy. apply Hsh. by eapply loads_chunks.
Qed.

Lemma tidy_grow a a' b : grows a a' -> loads (c_pm (conn_at a)) (c_pm (conn_at a')) -> tidy a b -> tidy a' b.
Proof.
  intros Hg HL T j s Hs Hv. destruct (T j s Hs Hv) as (T1 & T2 & T3). split_and!; [done | | done].
  intros o c Hc. destruct (T2 o c Hc) as (i & Hi & Hx). exists i. split; [by eapply grows_feeds | by eapply loads_chunks].
Qed.

Lemma delivered_grow (W W' : list datagram) (L L' : Z -> Z * list byte -> Prop) n : (forall d, d ∈ W -> d ∈ W') ->
  (forall src x, L src x -> L' src x) -> delivered W L n -> delivered W' L' n.
Proof. intros HW HL (d & pkt & H1 & H2 & H3 & H4 & H5 & H6). exists d, pkt. split_and!; auto. Qed.

Lemma acks_grow (W W' : list datagram) (L L' : Z -> Z * list byte -> Prop) c : (forall d, d ∈ W -> d ∈ W') ->
  (forall src x, L src x -> L' src x) -> Healthy any_frame (truthful W L) c -> Healthy any_frame (truthful W' L') c.
Proof. intros HW HL. apply healthy_impl; [done|]. intros f [Hf1 Hf2]. split; [|intros s Hs]; eapply delivered_grow; eauto. Qed.

(** *** Steps of the sender *)

Notation heeds a b := (truthful (wire (conn_at a)) (landed a b)).
Notation covers a := (forall i k, 0 <= k < Z.of_nat (length (wrote a i)) ->
  exists x, data_chunk (c_pm (conn_at a)) i x /\ x.1 <= k < chunk_end x).

Lemma sender_served a a' b : served a b -> grows a a' ->
  rtc (ledger_step (heeds a b)) (books [] (conn_at a)) (books [] (conn_at a')) -> covers a' -> served a' b.
Proof.
  intros [V1 V2 V3 V4 V5 V6 V7 V8] Hg Hr Hc. pose proof (steps_loads _ _ _ Hr (or_pm _ V1)) as HL. cbn in HL.
  pose proof (steps_wire _ _ _ Hr) as HW. cbn in HW.
  assert (Hland : forall src x, landed a b src x -> landed a' b src x) by (intros; by eapply landed_grow).
  split; [by eapply steps_orderly | done | | by eapply tidy_grow | | by eapply acks_grow | exact (steps_bearing _ _ _ Hr V1 V7)
    | exact (steps_in_order _ _ _ _ Hr V1 (fun _ H => H) V8)].
  - intros p src x Hp Hx. apply Hland. by apply (steps_landed _ _ _ _ Hr V1 ltac:(done) V3 p).
  - destruct V5 as (S & S1 & S2 & S3). exists S. split_and!; try done. intros n Hn. eapply delivered_grow; eauto.
Qed.

(** What a call on a stream sends: new bytes, or none. *)
Lemma stream_op_shape now md s s' calls out w : stream_op now md s s' calls out -> conn s = true ->
  BytesWritten s = Z.of_nat (length w) -> Z.of_nat (length (w ++ sent_bytes calls)) < 2 ^ 62 ->
  (Forall call_plain calls /\ sent_bytes calls = []) \/ exists d k syn, 0 < k <= room /\
    calls = [SendStreamFrames (ID s) (RemoteID s) (Z.of_nat (length w)) d k syn].
Proof.
  intros Hop Hconn Hw. destruct Hop as [n|p|data sent|data sent chunk syn grant Hc Hg| |code Hcode|t|t].
  - intros _. left. unfold Read. repeat case_match; by repeat constructor.
  - intros _. left. unfold write_start, write_loop. repeat case_match; by repeat constructor.
  - intros _. left. unfold write_loop. repeat case_match; by repeat constructor.
  - pose proof (commit_sends s data sent chunk syn grant w Hconn ltac:(lia) Hg Hw) as H.
    destruct (write_commit s data sent chunk syn grant) as [[s' pc] calls]. cbn [fst snd]. intros Hlen.
    destruct (H Hlen) as [_ [->|(d & syn' & ->)]]; [left; by repeat constructor|]. right. exists d, chunk, syn'. split; [|done].
    rewrite room_eq. unfold MaxDatagramSize, streamChunkOverhead in Hc. lia.
  - intros _. left. unfold Stream.Close. case_decide; [by repeat constructor|]. rewrite Hconn. by repeat constructor.
  - intros _. left. split; [apply Reset_plain|]. unfold Stream.Reset. by repeat case_match.
  - intros _. left. by repeat constructor.
  - intros _. left. by repeat constructor.
Qed.

Lemma calls_unwrapped a calls : small a -> Forall call_fits calls -> Forall (call_licensed (sent_right a)) calls ->
  Forall (call_ok unwrapped) calls.
Proof.
  intros Hs Hf Hl. rewrite Forall_forall in *. intros call Hin. split; [by apply Hf|]. specialize (Hl call Hin).
  destruct call; cbn in *; try done; [by eapply sent_unwrapped|]. intros f Hff. eapply sent_unwrapped; [done|]. by apply Hl.
Qed.

Lemma covers_grow a a' : loads (c_pm (conn_at a)) (c_pm (conn_at a')) -> (forall i, wrote a' i = wrote a i) ->
  covers a -> covers a'.
Proof.
  intros HL E Hc i k Hk. rewrite E in Hk. destruct (Hc i k Hk) as (x & Hx & ?). exists x. split; [by eapply loads_data | done].
Qed.

Lemma stream_served (heeded : AckFrame -> Prop) now a b id s s' calls out (c := conn_at a)
    (c' := exec_calls now calls (set_stream id s' c))
    (a' := MkEnd c' (<[id := wrote a id ++ sent_bytes calls]> (wrote a)) (<[id := closes a id ++ fins_of calls]> (closes a))
       (<[id := got a id ++ out]> (got a))) : 0 <= now ->
  streams_at a !! id = Some s -> ID s = id -> conn s = true -> stream_op now (MaxDatagram c) s s' calls out ->
  Inv false Calm c -> linked a b -> small a -> small a' -> issued c < 2 ^ 32 -> closeCh (life c) = false ->
  issued c' < 2 ^ 32 -> covers a -> rtc (ledger_step heeded) (books [] c) (books [] c') /\ covers a'.
Proof.
  intros Hnow Hs Hid Hconn Hop HI [Kh Kb Kp] Sa Sa' Hi0 Hcl Hi Hcov. set (c1 := set_stream id s' c).
  pose proof (exec_calls_same now calls c1) as Esame. fold c' in Esame.
  assert (Et : streams (table c') = <[id := s']> (streams_at a)) by exact (f_equal streams (same_table Esame)).
  destruct (stream_linked now a b id s s' calls out c' Hs Hid Hconn Hop Et Sa' Kb Kp) as (_ & _ & Hl).
  pose proof (linked_healthy a Sa Kh) as Hh. destruct (proj2 (h_ids _ _ _ Hh) id s Hs) as [U1 U2].
  pose proof (calls_unwrapped a' calls Sa' (stream_op_calls unwrapped _ _ _ _ _ _ Hop U1 U2) Hl) as Hok.
  pose proof (Kb id) as Hw. rewrite Hs in Hw. pose proof (proj2 Sa' id) as Hlen. cbn [wrote a'] in Hlen. rewrite fn_lookup_insert in Hlen.
  assert (R1 : run heeded Calm Calm c c1) by (apply run_still; [irrelevant | apply sound_eq; reflexivity | done]).
  assert (HI1 : Inv false Calm c1) by (by apply R1). assert (HS1 : sound c1) by (apply R1, Hh).
  destruct (HI1 Hi0 Hcl) as (G1 & _). cbn [hand_of] in G1.
  destruct (stream_op_shape now (MaxDatagram c) s s' calls out (wrote a id) Hop Hconn Hw Hlen) as [[Hp E]|(d & k & syn & Hk & E)].
  - assert (Hcl' : closeCh (life c') = false) by exact (eq_trans (f_equal closeCh (same_life Esame)) Hcl).
    pose proof (run_steps _ _ _ _ _ (plain_calls_run heeded now calls c1 Hnow Hok Hp) HI1 HS1 Hi Hcl') as Hr. cbn [hand_of] in Hr.
    split; [exact Hr|]. apply (covers_grow a); [exact (steps_loads _ _ _ Hr (g_pm _ _ _ G1)) | intros i; cbn [wrote a']|done].
    rewrite E, app_nil_r. destruct (decide (i = id)) as [->|Hne]; [by rewrite fn_lookup_insert | by rewrite fn_lookup_insert_ne].
  - assert (Hd : sent_bytes calls = d) by (rewrite E; unfold sent_bytes; cbn; apply app_nil_r).
    rewrite Hd, length_app in Hlen. rewrite Hid in *. unfold MaxDatagramSize in Hk.
    assert (Hbelow : sent_below c1 id (Z.of_nat (length (wrote a id)))).
    { intros x Hx. apply (sent_chunk a id x Kh) in Hx as (_ & H & _). exact H. }
    destruct (sendStreamFrames_steps heeded now id (RemoteID s) (Z.of_nat (length (wrote a id))) d k syn c1) as [Hr Hx]; try done; try lia.
    { revert Hi. unfold c'. rewrite E. done. }
    assert (Ec : sendStreamFrames now id (RemoteID s) (Z.of_nat (length (wrote a id))) d k syn c1 = c') by (unfold c'; by rewrite E).
    rewrite Ec in Hr, Hx. split; [exact Hr|]. pose proof (steps_loads _ _ _ Hr (g_pm _ _ _ G1)) as HL.
    assert (Hold : forall i n, 0 <= n < Z.of_nat (length (wrote a i)) -> exists x, data_chunk (c_pm c') i x /\ x.1 <= n < chunk_end x).
    { intros i n Hn. destruct (Hcov i n Hn) as (x & Hx' & ?). exists x. split; [by eapply loads_data | done]. }
    intros i n. cbn [wrote conn_at a']. destruct (decide (i = id)) as [->|Hne]; [|rewrite fn_lookup_insert_ne by done; apply Hold].
    rewrite fn_lookup_insert, Hd, length_app. intros Hn.
    destruct (decide (n < Z.of_nat (length (wrote a id)))); [apply Hold | apply Hx]; lia.
Qed.

Lemma inv_false e c : Inv e Calm c -> Inv false Calm c.
Proof. intros HI Hi Hc. destruct (HI Hi Hc) as ([] & HA & HD). split_and!; [by split | done | done]. Qed.

Lemma sender_step exact a b a' : conn_reach exact (conn_at a) -> end_step exact (wire (conn_at b)) a a' ->
  linked a b -> small a -> small a' -> grows a a' -> issued (conn_at a') < 2 ^ 32 -> closeCh (life (conn_at a')) = false ->
  served a b -> served a' b.
Proof.
  intros Hr Hstep Hl Sa Sa' Hg Hi Hc V. pose proof (inv_false _ _ (conn_reach_inv _ _ Hr)) as HI.
  destruct (conn_step_keeps _ _ _ (end_step_conn _ _ _ _ Hstep)) as [[L1 L2] _].
  assert (Hc0 : closeCh (life (conn_at a)) = false) by (destruct (closeCh (life (conn_at a))); [by rewrite L2 in Hc | done]).
  assert (Hi0 : issued (conn_at a) < 2 ^ 32) by lia.
  pose proof (linked_healthy a Sa (k_healthy _ _ Hl)) as Hh.
  assert (Hrun : run (heeds a b) Calm Calm (conn_at a) (conn_at a') -> (forall i, wrote a' i = wrote a i) -> served a' b).
  { intros R E. pose proof (run_steps _ _ _ _ _ R HI (h_sound _ _ _ Hh) Hi Hc) as Hs. apply (sender_served a); try done.
    apply (covers_grow a); [|done | apply V]. exact (steps_loads _ _ _ Hs (or_pm _ (sv_books _ _ V))). }
  destruct Hstep as [o now data to pkt Hnow Hin Hu|now id s s' calls out Hnow Hs Hop|c' Hown]; cbn [conn_at] in *.
  - destruct (wire_packet _ _ _ data to pkt (sv_acks _ _ V) Hin Hu) as [Hok Hf]. apply Hrun; [|done].
    apply HandlePacket_run; try done. intros af Haf. rewrite Forall_forall in Hf. by apply (Hf _ Haf).
  - destruct (t_ids _ _ (reach_table _ _ Hr (proj1 Sa)) id s Hs) as (Hid & Hconn & _).
    destruct (stream_served (heeds a b) now a b id s s' calls out Hnow Hs Hid Hconn Hop HI Hl Sa Sa' Hi0 Hc0 Hi (sv_cover _ _ V)) as [H1 H2].
    by apply (sender_served a).
  - apply Hrun; [|done]. by eapply own_step_run.
Qed.

(** *** Steps of the receiver *)

Lemma truthful_frame W L r S d : tracks r S -> S <> ∅ -> (forall n, n ∈ S -> delivered W L n) ->
  truthful W L (AckTracker.frame r d).
Proof.
  intros HT Hne HS. destruct (frame_spec r S HT Hne d) as (E & _ & _ & _ & _ & low & _ & He & _).
  split; [rewrite E; by apply HS, (tracks_largest r S HT Hne)|]. intros s Hs. by apply HS, He.
Qed.

Lemma packet_recvd (o : RangeOrder) now pkt c (c' := HandlePacket now pkt c) :
  (elicits pkt = true -> recvd (acks c') = (AckTracker.add (recvd (acks c)) (Sequence pkt)).1) /\
  (elicits pkt = false -> acks_calm c c').
Proof.
  unfold c', HandlePacket, elicits. cbv zeta. pose proof (frames_calm now pkt (Frames pkt) (note_arrival now pkt c)) as Hc.
  set (c1 := fold_left _ _ _) in *. split; intros ->; [|exact Hc]. rewrite noteReceived_recvd. by destruct Hc as [-> | ->].
Qed.

(** What a datagram of the sender carries has been put into a packet. *)
Lemma wire_stamped b d pkt : Orderly b -> d ∈ b_wire b -> UnmarshalPacket d.1 = Ok pkt -> exists pkt', Packet_ok pkt' /\
  d.1 = MarshalPacket pkt' /\ Sequence pkt' = Sequence pkt /\ Frames pkt' = Frames pkt /\
  SourceStreamID pkt' = SourceStreamID pkt /\ elicits pkt' = elicits pkt /\
  forall g, StreamF g ∈ Frames pkt -> Data g <> [] -> chunks_of (b_pm b) (SourceStreamID pkt) (chunk g).
Proof.
  intros Hb Hd Hu. pose proof (or_wire _ Hb) as Hw. rewrite Forall_forall in Hw.
  destruct (Hw d Hd) as (pkt' & Hok & E & Hs). exists pkt'. rewrite E, unmarshal_marshal in Hu by done. injection Hu as <-.
  split_and!; try done. intros g Hg Hne.
  assert (He : elicits pkt' = true).
  { unfold elicits, isDataBearing. apply orb_true_iff. left. apply existsb_exists. exists (StreamF g).
    split; [by apply list_elem_of_In|]. cbn. unfold stream_bears. by destruct (Data g). }
  destruct (Hs He) as (_ & (p & _ & M1 & _ & M3) & _). cbn in Hg |- *. exists p, g. rewrite <- M1, <- M3. done.
Qed.

(** Nothing but the tracker and the streams of the receiver counts. *)
Lemma receiver_served a b b' : served a b -> tidy a b' -> (forall i x, landed a b i x -> landed a b' i x) ->
  recvd (acks (conn_at b')) = recvd (acks (conn_at b)) ->
  (ackPending (acks (conn_at b)) = 0 -> ackPending (acks (conn_at b')) = 0) ->
  Healthy any_frame (heeds a b') (conn_at b') -> served a b'.
Proof.
  intros [V1 V2 V3 V4 V5 V6 V7 V8] T L Er Ep Hh. split; try done.
  - intros p src x Hp Hx. by apply L, (V3 p).
  - destruct V5 as (S & S1 & S2 & S3). exists S. rewrite Er. split_and!; [done | auto |].
    intros n Hn. eapply delivered_grow; [done | exact L | auto].
Qed.

Lemma any_split : forall dst src f g (k : nat), is_u64 (Offset f) -> any_frame dst src f ->
  g ∈ chunk_frames (length (Data f)) k (Offset f) (IsSyn f) (IsFin f) (Data f) -> any_frame dst src g.
Proof. done. Qed.

(** A packet is noted, once its data has landed. *)
Lemma packet_served (o : RangeOrder) now a b d pkt (b' := on (HandlePacket now pkt (conn_at b)) b) : 0 <= now ->
  Packet_ok pkt -> d ∈ wire (conn_at a) -> UnmarshalPacket d.1 = Ok pkt ->
  lands a b b' (SourceStreamID pkt) (Frames pkt) -> served a b -> served a b'.
Proof.
  intros Hnow Hok Hd Hu (T & L & D) V. destruct (packet_recvd o now pkt (conn_at b)) as [R1 R2].
  assert (H0 : Healthy any_frame (heeds a b') (conn_at b)) by (eapply acks_grow; [done | exact L | apply V]).
  destruct (elicits pkt) eqn:E.
  - destruct (wire_stamped _ d pkt (sv_books _ _ V) Hd Hu) as (pkt' & Hok' & Ed & E1 & E2 & E3 & E4 & _).
    destruct (sv_seen _ _ V) as (S & S1 & S2 & S3). specialize (R1 eq_refl).
    destruct (add_spec _ _ S1 (Sequence pkt) (ok_seq _ Hok)) as [S1' _]. rewrite <- R1 in S1'.
    assert (Hne : {[Sequence pkt]} ∪ S <> ∅) by set_solver.
    assert (HS : forall n, n ∈ {[Sequence pkt]} ∪ S -> delivered (wire (conn_at a)) (landed a b') n).
    { intros n [->%elem_of_singleton|Hn]%elem_of_union; [|eapply delivered_grow; [done | exact L | auto]].
      exists d, pkt'. rewrite E3, E2. split_and!; congruence || auto. }
    split; try apply V; try done.
    + intros p src x Hp Hx. by apply L, (sv_acked _ _ V p).
    + exists ({[Sequence pkt]} ∪ S). by split_and!.
    + apply packet_step_healthy; try done. intros _ k. by eapply truthful_frame.
  - apply (receiver_served a b); try done.
    + unfold b'. cbn [conn_at on]. by destruct (R2 eq_refl) as [-> | ->].
    + unfold b'. cbn [conn_at on]. by destruct (R2 eq_refl) as [-> | ->].
    + apply packet_step_healthy; try done. unfold elicits in E. by rewrite E.
Qed.

Lemma receiver_step exact a b b' : conn_reach exact (conn_at a) -> conn_reach exact (conn_at b) ->
  end_step exact (wire (conn_at a)) b b' -> linked a b -> linked b a -> small a -> small b -> small b' ->
  served a b -> served a b'.
Proof.
  intros Ra Rb Hstep [Ah Ab Ap] [Bh Bb Bp] Sa Sb Sb' V.
  pose proof (reach_table _ _ Ra (proj1 Sa)) as Oa. pose proof (reach_table _ _ Rb (proj1 Sb)) as Ob.
  destruct Hstep as [o now data to pkt Hnow Hin Hu|now id s s' calls out Hnow Hs Hop|c' Hown].
  - destruct (wire_packet _ _ _ data to pkt Ah Hin Hu) as [Hok Hf].
    destruct (wire_stamped _ _ pkt (sv_books _ _ V) Hin Hu) as (_ & _ & _ & _ & _ & _ & _ & Hsent).
    apply (packet_served o now a b (data, to) pkt); try done.
    apply (packet_lands a _ Oa (proj2 Sa)) with (bc := isInitiator (conn_at b)); try done; [..|apply V].
    + intros i. apply (orderly_laminar _ i (sv_books _ _ V)).
    + intros i x. by apply sent_chunk.
    + apply Hok.
    + apply (reach_table _ _ Rb).
    + apply Sb'.
    + exact (p_remote _ _ Ap).
  - set (c1 := set_stream id s' (conn_at b)). pose proof (exec_calls_same now calls c1) as Es.
    destruct (changed_absorbs a b (MkEnd (exec_calls now calls c1) (<[id := wrote b id ++ sent_bytes calls]> (wrote b))
      (<[id := closes b id ++ fins_of calls]> (closes b)) (<[id := got b id ++ out]> (got b))) id s s' Hs
      (stream_op_holds _ _ _ _ _ _ Hop) (f_equal streams (same_table Es)) (sv_tidy _ _ V)) as [T L].
    apply (receiver_served a b); try done; cbn [conn_at]; rewrite ?(same_acks Es); try done.
    eapply stream_step_healthy; try done; [apply Forall_forall; intros []; done|]. eapply acks_grow; [done | exact L | apply V].
  - assert (H : absorbs a b (on c' b)).
    { destruct (own_table _ _ _ Hown) as [Hq|Hq]; [by apply quietly_absorbs|]. eapply opened_absorbs; [|exact Hq]. by eapply next_fresh. }
    destruct (H (sv_tidy _ _ V)) as [T L]. destruct (own_acks _ _ _ Hown) as [E1 E2].
    apply (receiver_served a b); try done. assert (H0 : Healthy any_frame (heeds a (on c' b)) (conn_at b)) by (eapply acks_grow; [done | exact L | apply V]).
    eapply own_step_healthy; try done. intros Hp k. destruct (sv_seen _ _ V) as (S & S1 & S2 & S3).
    eapply truthful_frame; [exact S1 | intros ->; by apply Hp, S2 |]. intros n Hn. eapply delivered_grow; [done | exact L | auto].
Qed.

(** *** Every run *)

Definition open_end (e : End) : Prop := issued (conn_at e) < 2 ^ 32 /\ closeCh (life (conn_at e)) = false.

Lemma empty_chunks p src x : ~ chunk_in (deref NewPacketManager p) src x.
Proof. apply no_chunk_none, lookup_empty. Qed.

Lemma new_served a b : c_pm (conn_at a) = NewPacketManager -> queue (conn_at a) = [] -> wire (conn_at a) = [] ->
  (forall i, wrote a i = []) -> streams_at b = ∅ -> recvd (acks (conn_at b)) = newTracker -> ackPending (acks (conn_at b)) = 0 ->
  Healthy any_frame (heeds a b) (conn_at b) -> served a b.
Proof.
  intros E1 E2 E3 E4 E5 E6 E7 Hh. rewrite E3 in Hh. split; unfold books, acked_landed; rewrite ?E1, ?E2, ?E3; try done.
  - split; cbn; try done; [apply NoDup_nil_2 | by intros p ?%not_elem_of_nil |].
    split; intros; exfalso; by eapply empty_chunks.
  - intros i k. rewrite E4. cbn. lia.
  - intros j s. rewrite E5, lookup_empty. done.
  - exists ∅. rewrite E6. split_and!; [apply newTracker_tracks | done | set_solver].
  - intros p [v Hp]. cbn in Hp. by rewrite lookup_empty in Hp.
Qed.

Lemma duo_served exact d : duo_reach exact d -> (forall x, small (d x)) ->
  forall x, open_end (d x) -> served (d x) (d (negb x)).
Proof.
  induction 1 as [now cid1 cid2 laddr raddr hasSend H1 H2|d x e' Hd IH Hstep]; intros Hs.
  - intros x _. apply new_served; try done. apply new_healthy; by destruct x.
  - destruct (duo_linked _ _ Hd) as [Rd Ld]. destruct (step_prior _ _ _ _ Rd Hstep Hs) as (Se' & Hg & Sd).
    pose proof (Ld Sd x) as Lx. pose proof (Ld Sd (negb x)) as Lp. specialize (IH Sd). rewrite negb_involutive in Lp.
    apply (both_ends (fun a b => open_end a -> served a b)).
    + intros [Hi Hc]. apply (sender_step exact (d x)); try done. apply IH.
      destruct (conn_step_keeps _ _ _ (end_step_conn _ _ _ _ Hstep)) as [[L1 L2] _].
      split; [lia|]. destruct (closeCh (life (conn_at (d x)))); [by rewrite L2 in Hc | done].
    + intros Ho. apply (receiver_step exact _ (d x)); try done. rewrite <- (negb_involutive x) at 2. by apply IH.
Qed.

(** ** Delivery *)

(** No packet that waits for its acknowledgement, or to be sent again, carries
    data of the stream [i] below [n]. *)
Definition acked_to (c : Connection) (i n : Z) : Prop := forall q x,
  q ∈ tracked (c_pm c) ++ lostQueue (loss c) -> chunk_in (deref (c_pm c) q) i x -> n <= x.1.

(** A chunk in use was never sent in smaller pieces. *)
Lemma leaf_shortest b p i x : Orderly b -> in_use b p -> chunk_in (deref (b_pm b) p) i x -> shortest (chunks_of (b_pm b) i) x.
Proof.
  intros Hb Hp Hx y [q Hy] E. pose proof (chunk_pos _ _ _ Hx). pose proof (chunk_pos _ _ _ Hy).
  destruct (tr_leaf _ _ (or_tree _ Hb) p q i x y Hp Hx Hy) as [_ H1]; [unfold overlap; lia|]. unfold chunk_end in *. lia.
Qed.

(** The stream a stream feeds is one. *)
Lemma fed_unique bb e p i j j' : streams_ok bb (table (conn_at e)) -> paired e p ->
  feeds e p i j -> feeds e p i j' -> j = j'.
Proof.
  intros Hok Hp. assert (Hmix : forall j j', (exists s, streams_at e !! j = Some s /\ i <> 0 /\ RemoteID s = i) ->
    is_Some (streams_at e !! j') -> (exists s', streams_at p !! i = Some s' /\ RemoteID s' = j') -> False).
  { intros k k' (s & Hs & Hi & Hr) [u Hu] (s' & Hs' & Hr'). destruct (p_remote _ _ Hp k s Hs) as (v & Hv & Hz); [congruence|].
    rewrite Hr in Hv. simplify_eq. apply (t_ids _ _ Hok) in Hu. unfold base in Hu. destruct bb; lia. }
  intros (s & Hs & H) (s' & Hs' & H').
  destruct H as [[Hi E]|[E (u & Hu & Eu)]], H' as [[Hi' E']|[E' (u' & Hu' & Eu')]].
  - apply (t_remote _ _ Hok j j' s s'); congruence.
  - exfalso. eapply (Hmix j j'); eauto.
  - exfalso. eapply (Hmix j' j); eauto.
  - congruence.
Qed.

(** An acknowledged byte has landed in a chunk. *)
Lemma byte_landed a b i n k : served a b -> Good false [] (conn_at a) -> Healthy unwrapped any_ack (conn_at a) ->
  acked_to (conn_at a) i n -> n <= Z.of_nat (length (wrote a i)) -> 0 <= k < n ->
  exists x, landed a b i x /\ shortest (sent a i) x /\ x.1 <= k < chunk_end x.
Proof.
  intros V G Hh Hac Hn Hk. destruct (sv_cover _ _ V i k ltac:(lia)) as (x & (p & Hp & f & Hf & Hd & Hsrc & ->) & Hin).
  assert (Hun : forall q g, StreamF g ∈ sp_Frames (deref (c_pm (conn_at a)) q) -> Data g <> [] -> 0 <= Offset g /\ chunk_end (chunk g) < 2 ^ 62).
  { intros q g Hg Hne. destruct (so_store _ _ _ (h_sound _ _ _ Hh) q) as [(Hfr & _) _]. rewrite Forall_forall in Hfr.
    by apply (Hfr _ Hg). }
  destruct (Hun p f Hf Hd) as [U0 U1]. unfold chunk_end in Hin, U1. cbn in Hin, U1.
  destruct (lookup_lt_is_Some_2 (Data f) (Z.to_nat (k - Offset f)) ltac:(lia)) as [byte Hb].
  destruct (g_items _ _ _ G p (Byte (sp_DestinationStreamID (deref (c_pm (conn_at a)) p)) i k byte) Hp) as (q & _ & (g & Hg & E1 & E2 & m & Hm & Ek) & Hq).
  { exists f. split; [done|]. cbn. split_and!; try done. exists (Z.to_nat (k - Offset f)). split; [done|]. rewrite u64_small by width. lia. }
  assert (Hgd : Data g <> []) by (intros E; by rewrite E in Hm). destruct (Hun q g Hg Hgd) as [W0 W1].
  apply lookup_lt_Some in Hm. unfold chunk_end in W1. cbn in W1. rewrite u64_small in Ek by width.
  assert (Hx : chunk_in (deref (c_pm (conn_at a)) q) i (chunk g)) by (exists g; done).
  destruct Hq as [Hq|Hq].
  - exists (chunk g). split_and!; [by apply (sv_acked _ _ V q) | | cbn; lia | unfold chunk_end; cbn; lia].
    apply (leaf_shortest _ q i (chunk g) (sv_books _ _ V)); [by right | done].
  - rewrite app_nil_r in Hq. specialize (Hac q _ Hq Hx). cbn in Hac. lia.
Qed.

(** Streams are closed where they end. *)
Lemma stream_op_fins now md s s' calls out (w : list byte) : stream_op now md s s' calls out ->
  BytesWritten s = Z.of_nat (length w) -> Z.of_nat (length w) < 2 ^ 62 -> forall m, m ∈ fins_of calls -> m = Z.of_nat (length w).
Proof.
  intros Hop Hw Hlen m. destruct Hop as [n|p|data sent|data sent chunk syn grant Hc Hg| |code Hcode|t|t];
    try (by intros ?%not_elem_of_nil).
  - unfold Read. repeat case_match; by intros ?%not_elem_of_nil.
  - unfold write_start, write_loop. repeat case_match; by intros ?%not_elem_of_nil.
  - unfold write_loop. repeat case_match; by intros ?%not_elem_of_nil.
  - unfold write_commit. repeat case_match; by intros ?%not_elem_of_nil.
  - unfold Stream.Close. case_decide; [by intros ?%not_elem_of_nil|]. cbn [snd]. destruct (conn s); [|by intros ?%not_elem_of_nil].
    cbn. rewrite Hw, u64_small by width. intros ->%list_elem_of_singleton. lia.
  - unfold Stream.Reset. repeat case_match; by intros ?%not_elem_of_nil.
Qed.

Lemma closes_in exact d : duo_reach exact d -> (forall x, small (d x)) ->
  forall x i m, m ∈ closes (d x) i -> m <= Z.of_nat (length (wrote (d x) i)).
Proof.
  induction 1 as [|d x e' Hd IH Hstep]; intros Hs; [by intros x i m ?%not_elem_of_nil|].
  destruct (duo_linked _ _ Hd) as [Rd Ld]. destruct (step_prior _ _ _ _ Rd Hstep Hs) as (Se' & Hg & Sd). specialize (IH Sd).
  intros y i m. destruct (decide (y = x)) as [->|Hne]; [rewrite fn_lookup_insert | rewrite fn_lookup_insert_ne by done; apply IH].
  destruct Hstep as [|now id s s' calls out Hnow Hs' Hop|]; cbn [closes wrote]; try apply IH.
  destruct (decide (i = id)) as [->|Hne]; [|rewrite !fn_lookup_insert_ne by done; apply IH].
  rewrite !fn_lookup_insert, length_app. intros [Hm|Hm]%elem_of_app; [specialize (IH x id m Hm); lia|].
  pose proof (k_booked _ _ (Ld Sd x) id) as Hb. rewrite Hs' in Hb.
  rewrite (stream_op_fins _ _ _ _ _ _ (wrote (d x) id) Hop Hb (proj2 (Sd x) id) m Hm). lia.
Qed.

(** The first [n] bytes of the stream [i] of [a] are with the peer application,
    or wait for it to read them, unless its stream was reset for exceeding its
    out-of-order limit. *)
Definition arrived (a b : End) (i n : Z) : Prop := exists j s, feeds b a i j /\ streams_at b !! j = Some s /\
  (flowControlViolation (recv s) = false ->
   n <= Z.of_nat (length (got b j ++ recvBuf (recv s))) /\ got b j ++ recvBuf (recv s) `prefix_of` wrote a i /\
   (n = Z.of_nat (length (wrote a i)) -> finSeen s = true -> finReceived s = true)).

Lemma acked_arrived (exact : bool) (d : bool -> End) (x : bool) (i n : Z) :
  duo_reach exact d -> (forall y, small (d y)) -> let a := d x in let b := d (negb x) in
  issued (conn_at a) < 2 ^ 32 -> closeCh (life (conn_at a)) = false ->
  0 < n <= Z.of_nat (length (wrote a i)) -> acked_to (conn_at a) i n -> arrived a b i n.
Proof.
  intros Hr Hs a b Hi Hc Hn Hac. pose proof (duo_served _ _ Hr Hs x (conj Hi Hc)) as V.
  destruct (duo_linked _ _ Hr) as [Rd Ld]. pose proof (Ld Hs x) as La. pose proof (Ld Hs (negb x)) as Lb. rewrite negb_involutive in Lb.
  fold a in V, La, Lb, Hac. fold b in V, La, Lb.
  destruct (inv_false _ _ (conn_reach_inv _ _ (Rd x)) Hi Hc) as (G & _).
  pose proof (linked_healthy a (Hs x) (k_healthy _ _ La)) as Hh.
  pose proof (fun k => byte_landed a b i n k V G Hh Hac (proj2 Hn)) as Hland.
  pose proof (reach_table _ _ (Rd x) (proj1 (Hs x))) as Oa. pose proof (reach_table _ _ (Rd (negb x)) (proj1 (Hs (negb x)))) as Ob.
  fold a in Oa. fold b in Ob.
  destruct (Hland 0 ltac:(lia)) as (x0 & (j & s & Hj & Hsj & _) & _). exists j, s. split_and!; [done | done |]. intros Hv.
  assert (Hz : j <> 0) by (apply (t_ids _ _ Ob) in Hsj; unfold base in Hsj; destruct (isInitiator (conn_at b)); lia).
  pose proof (fed_heard _ b a i j s Oa Hz (k_paired _ _ Lb) Hj Hsj) as [H1 H2 _ _].
  destruct (sv_tidy _ _ V j s Hsj Hv) as (T1 & _ & T3). pose proof (ro_offset _ _ _ H1) as Ho.
  assert (Hge : n <= recvOffset (recv s)).
  { apply kept_cover; [lia | done |]. intros k Hk. destruct (Hland k Hk) as (y & (j' & s' & Hj' & Hs' & Hkept) & Hsh & Hy).
    exists y. split; [|done]. assert (j' = j) as -> by (by eapply fed_unique; [exact Ob | apply Lb |..]). simplify_eq. auto. }
  rewrite (ro_prefix _ _ _ H1). split_and!.
  - rewrite length_take. lia.
  - apply prefix_take.
  - intros -> Hf. destruct (T1 Hf) as [|Hlt]; [done|]. assert (finalSize s <= Z.of_nat (length (wrote a i))) by exact (closes_in _ _ Hr Hs x i _ (H2 Hf)). lia.
Qed.

(** C2. What is acknowledged has been delivered. Two connections, each receiving
    any of the datagrams the other has sent, in any order, any number of times or
    never, and otherwise doing whatever a connection does (losses, re-sends under
    new numbers, splitting after a black hole, probes, delayed and coalesced
    acknowledgements): if at a sender that is open no packet still to be
    acknowledged or sent again carries a byte of a stream below [n], then the
    peer has a stream for it whose reader has got, or has waiting in its buffer,
    at least the first [n] bytes that were written, in order. With [n] the number
    of bytes written that is all of them, and the end of file, if it has arrived,
    is then reported to the reader. The one exception is a stream that the peer
    has reset because too much of it arrived out of order. *)
Theorem acknowledged_is_delivered (exact : bool) (d : bool -> End) (x : bool) (i n : Z) :
  duo_reach exact d -> (forall y, small (d y)) -> let a := d x in let b := d (negb x) in
  issued (conn_at a) < 2 ^ 32 -> closeCh (life (conn_at a)) = false ->
  0 < n <= Z.of_nat (length (wrote a i)) -> acked_to (conn_at a) i n ->
  exists j s, feeds b a i j /\ streams_at b !! j = Some s /\
    (flowControlViolation (recv s) = false ->
     n <= Z.of_nat (length (got b j ++ recvBuf (recv s))) /\ got b j ++ recvBuf (recv s) `prefix_of` wrote a i /\
     (n = Z.of_nat (length (wrote a i)) -> finSeen s = true -> finReceived s = true)).
Proof. apply acked_arrived. Qed.

(** ** Witness: the acknowledgement of the three bytes comes back. *)

Section Sample.
#[local] Existing Instance key_order.

Definition dialer4 : End := receive dialer3 (nth 0 (wire (conn_at acceptor3)).*1 []).
Definition duo4 : bool -> End := <[true := dialer4]> duo3.

Lemma duo4_true : duo4 true = dialer4.
Proof. apply fn_lookup_insert. Qed.

Lemma duo4_false : duo4 false = acceptor3.
Proof. unfold duo4. rewrite fn_lookup_insert_ne by done. apply duo3_false. Qed.

Lemma duo4_reach : duo_reach true duo4.
Proof.
  apply (duo_at true duo3 true dialer3 acceptor3); [apply duo3_true | apply duo3_false | apply duo3_reach |].
  apply (receive_step true _ dialer3 0); [vm_compute; lia | by vm_compute].
Qed.

Lemma duo4_small y : small (duo4 y).
Proof.
  destruct y; [|rewrite duo4_false, <- duo3_false; apply duo3_small].
  rewrite duo4_true. split; [by vm_compute|]. intros i. unfold dialer4. rewrite receive_wrote, <- duo3_true. apply (duo3_small true).
Qed.

Lemma acknowledged_is_delivered_witness : exists j s, feeds (duo4 false) (duo4 true) 1 j /\ streams_at (duo4 false) !! j = Some s /\
  (flowControlViolation (recv s) = false -> 3 <= Z.of_nat (length (got (duo4 false) j ++ recvBuf (recv s))) /\
   got (duo4 false) j ++ recvBuf (recv s) `prefix_of` wrote (duo4 true) 1 /\
   (3 = Z.of_nat (length (wrote (duo4 true) 1)) -> finSeen s = true -> finReceived s = true)).
Proof.
  apply (acknowledged_is_delivered true duo4 true 1 3 duo4_reach duo4_small); rewrite duo4_true; [by vm_compute.. |].
  intros q x. replace (tracked _ ++ _) with [3%positive; 2%positive] by (by vm_compute). intros Hq (f & Hf & Hd & _). exfalso. revert Hf.
  apply elem_of_cons in Hq as [-> | ->%list_elem_of_singleton].
  - replace (sp_Frames _) with [MTUProbeFrame 1438] by (by vm_compute). by intros ?%list_elem_of_singleton.
  - replace (sp_Frames _) with [StreamF (MkStreamFrame true false 3 [])] by (by vm_compute). by intros [= ->]%list_elem_of_singleton.
Defined.

(** The end of file overtakes the data, and both are acknowledged. *)
Definition acceptorA : End := receive (duo0 false) (nth 1 (wire (conn_at dialer3)).*1 []).
Definition acceptorB : End := receive acceptorA (nth 0 (wire (conn_at dialer3)).*1 []).
Definition incomingB : Stream := default opened (streams_at acceptorB !! 2).
Definition readB := Read (ms 50) incomingB 10.
Definition acceptorC : End := use 2 readB.1.1 readB.2 (bytes_read readB.1.2) acceptorB.
Definition dialerC : End := receive dialer3 (nth 1 (wire (conn_at acceptorC)).*1 []).

Definition duoC : bool -> End :=
  <[true := dialerC]> (<[false := acceptorC]> (<[false := acceptorB]> (<[false := acceptorA]>
    (<[true := dialer3]> (<[true := dialer2]> (<[true := dialer1]>
      (<[true := on (establish (conn_at (duo0 true))) (duo0 true)]> duo0))))))).

Lemma duoC_reach : duo_reach true duoC.
Proof.
  unfold duoC.
  apply (duo_at true _ true dialer3 acceptorC); [at_end | at_end | |apply (receive_step true _ dialer3 1); [vm_compute; lia | by vm_compute]].
  apply (duo_at true _ false acceptorB dialer3); [at_end | at_end | |].
  2: { apply (use_step true (wire (conn_at dialer3)) 2 incomingB readB.1.1 readB.2 (bytes_read readB.1.2) acceptorB).
    - vm_compute. reflexivity.
    - unfold readB. apply (op_read (ms 50) (MaxDatagram (conn_at acceptorB)) incomingB 10). }
  apply (duo_at true _ false acceptorA dialer3); [at_end | at_end | |apply (receive_step true _ acceptorA 0); [vm_compute; lia | by vm_compute]].
  apply (duo_at true _ false (duo0 false) dialer3); [at_end | at_end | |apply (receive_step true _ (duo0 false) 1); [vm_compute; lia | by vm_compute]].
  apply duo_written.
Qed.

Lemma duoC_true : duoC true = dialerC.
Proof. apply fn_lookup_insert. Qed.

Lemma duoC_false : duoC false = acceptorC.
Proof. unfold duoC. by rewrite fn_lookup_insert_ne, fn_lookup_insert by done. Qed.

(** An end of file that overtakes all the data of its stream is acknowledged and
    lost: a run in which the application has closed a stream of three bytes, the
    peer has read them, no packet with any of the stream's frames is left to be
    acknowledged or sent again, and the peer's reader is not told of the end but
    waits for more. *)
Theorem overtaking_fin_is_lost : exists d, duo_reach true d /\
  wrote (d true) 1 = abc /\ closes (d true) 1 = [3] /\ closeCh (life (conn_at (d true))) = false /\
  (forall q f, q ∈ tracked (c_pm (conn_at (d true))) ++ lostQueue (loss (conn_at (d true))) ->
    StreamF f ∉ sp_Frames (deref (c_pm (conn_at (d true))) q)) /\
  feeds (d false) (d true) 1 2 /\ got (d false) 2 = abc /\
  exists s, streams_at (d false) !! 2 = Some s /\ finSeen s = false /\ forall now n, (Read now s n).1.2 = RWait.
Proof.
  exists duoC. rewrite duoC_true, duoC_false. split; [apply duoC_reach|]. split_and!; [by vm_compute.. | | | by vm_compute |].
  - intros q f. replace (tracked _ ++ _) with [3%positive] by (by vm_compute). intros ->%list_elem_of_singleton.
    replace (sp_Frames _) with [MTUProbeFrame 1438] by (by vm_compute). by intros ?%list_elem_of_singleton.
  - exists readB.1.1. split; [by vm_compute | left; split; [done | by vm_compute]].
  - exists readB.1.1. split_and!; [by vm_compute | by vm_compute |].
    intros now n. unfold Read. replace (recvBuf (recv readB.1.1)) with (@nil byte) by (by vm_compute).
    replace (state readB.1.1) with StreamStateOpen by (by vm_compute). replace (finReceived readB.1.1) with false by (by vm_compute).
    replace (readDeadline readB.1.1) with 0 by (by vm_compute). done.
Qed.
End Sample.
