(* ===== verification/Progress.v ===== *)
(** * Outstanding data can always be delivered

    The two connections of [EndToEnd] once more, for what they can still do: from
    every state in which both are open, the timers and the network alone can
    bring everything that is outstanding to the peer application and its
    acknowledgement back. *)

From stdpp Require Import strings functions.
From S2P Require Import Prelude Constants Cid Frame Packet AckTracker FlowControl Mtud.
From S2P Require Import PacketManager AckExchange Stream Pacing Congestion Connection Recovery ConnReach.
From S2P Require Import Tiling Dispatch Lifecycle Wire History Ledger Bookkeeping EndToEnd Delivery.

(** ** The sender: probe timeouts

    Every probe timeout sends the oldest packets again under new numbers. After
    enough of them all data that is tracked has a number from [n0] on, and the
    datagrams of these numbers are on the wire. *)

(** A packet with stream data. *)
Definition bearer (pkt : Packet) : Prop :=
  Packet_ok pkt /\ isDataBearing pkt = true /\ exists f, Frames pkt = [StreamF f].

Definition numbered (n : Z) (pkts : list Packet) : Prop := Sequence <$> pkts = seqZ n (Z.of_nat (length pkts)).

Lemma numbered_snoc n pkts pkt : numbered n pkts -> Sequence pkt = n + Z.of_nat (length pkts) -> numbered n (pkts ++ [pkt]).
Proof.
  unfold numbered. intros H E. rewrite fmap_app, H, length_app, Nat2Z.inj_add, seqZ_app by lia. cbn. by rewrite E.
Qed.


Definition sp_old (n0 : Z) (pm : PacketManager) (p : ptr) : Prop :=
  p ∈ tracked pm /\ is_data pm p /\ sp_Sequence (deref pm p) < n0.

(** [pkts] have been sent since [n0] was the next number; the data that has not
    been is among [olds]. *)
Record reissued (n0 : Z) (olds : list ptr) (pkts : list Packet) (c : Connection) : Prop := {
  ri_wire : forall pkt, pkt ∈ pkts -> exists to, (MarshalPacket pkt, to) ∈ wire c;
  ri_seqs : numbered n0 pkts;
  ri_next : nextSeq (c_pm c) = n0 + Z.of_nat (length pkts);
  ri_pkts : Forall bearer pkts;
  ri_olds : forall p, sp_old n0 (c_pm c) p -> p ∈ olds;
  ri_largest : largestAcked (c_pm c) < n0
}.

(** A sender the probes of which go out. *)
Record probing (c : Connection) : Prop := {
  pb_good : Good true [] c;
  pb_sound : sound c;
  pb_bears : bearing (c_pm c);
  pb_send : sendFunc c = true
}.

Lemma marked_bearer c v seq : sound c -> is_u32 seq -> marked v -> sp_Probe v = false ->
  sendable unwrapped any_ack (sp_DestinationStreamID v) (sp_SourceStreamID v) (sp_Frames v) ->
  bearer (outgoing c seq (sp_DestinationStreamID v) (sp_SourceStreamID v) (sp_Frames v)).
Proof.
  intros HS Hseq [Hl Hp] Hd Hs. assert (Hb : existsb bears_data (sp_Frames v) = true) by (rewrite Hd in Hp; by destruct (existsb _ _)).
  split_and!; [by apply outgoing_sound | done |]. cbn.
  destruct (sp_Frames v) as [|f [|]]; [done | | cbn in Hl; lia]. cbn in Hb. rewrite orb_false_r in Hb.
  destruct f; try done. by eexists.
Qed.

Lemma probe_whole now c p : sp_Size (deref (c_pm c) p) <= Current (c_mtu c) -> probe_packet now c p = probe_piece now c p.
Proof.
  intros Hs. unfold probe_packet. destruct (fitToPath_split p c) as [E|(pm & pieces & E & Hsz & _)]; rewrite E; [done | lia].
Qed.

Lemma probe_wire now c p (v := deref (c_pm c) p) : (Resend now (c_pm c) p).2 = (nextSeq (c_pm c), true) ->
  same_load v (deref (Resend now (c_pm c) p).1 p) -> sendFunc c = true ->
  wire (probe_piece now c p) = wire c ++
    [(MarshalPacket (outgoing c (nextSeq (c_pm c)) (sp_DestinationStreamID v) (sp_SourceStreamID v) (sp_Frames v)), peerAddr c)].
Proof.
  intros E (_ & L1 & _ & L2 & L3) Hf. unfold probe_piece. destruct (Resend now (c_pm c) p) as [pm [seq ok]].
  cbn [fst snd] in *. injection E as -> ->. unfold retransmitPacket. cbn [c_pm bump set_pm]. rewrite L1, L2, L3.
  unfold transmit. cbn [sendFunc add_sent set_path bump set_pm]. by rewrite Hf.
Qed.

Section Probes.
Context (n0 : Z).

(** What a probe timeout leaves: the packets that are tracked, and what is in them. *)
Definition same_tracked (c c' : Connection) : Prop := forall q, q ∈ tracked (c_pm c') <-> q ∈ tracked (c_pm c).

(** One probe. *)
Lemma probe_reissued now c p olds pkts (c' := probe_packet now c p) : 0 <= now -> issued c + 1 < 2 ^ 32 ->
  probing c -> reissued n0 olds pkts c -> p ∈ tracked (c_pm c) -> is_data (c_pm c) p ->
  sp_Size (deref (c_pm c) p) <= Current (c_mtu c) ->
  probing c' /\ issued c' = issued c + 1 /\ others_stay p c c' /\ same_tracked c c' /\
  exists pkt, reissued n0 (filter (.≠ p) olds) (pkts ++ [pkt]) c'.
Proof.
  intros Hnow Hi [G HS HB Hf] [R1 R2 R3 R4 R5 R6] Hp Hd Hsz. pose proof (g_pm _ _ _ G) as Hok.
  assert (E : c' = probe_piece now c p) by (by apply probe_whole).
  destruct (tracked_fact _ _ Hok Hp) as [Hst Ha]. pose proof (g_next _ _ _ G) as Hn.
  destruct (Resend_enters now (c_pm c) p Hok Hnow ltac:(lia) Hst Ha Hd) as [Er En].
  destruct (probe_again true now c p G Hi Hnow Hp Hd) as (G' & O' & Hi').
  destruct (probe_piece_eq now c p Er) as (E1 & _ & E3 & _).
  pose proof (probe_wire now c p Er (en_load _ _ _ _ En) Hf) as Hw. rewrite <- E1 in En. rewrite E. clear E c'.
  unfold is_data in Hd. set (c' := probe_piece now c p) in *. set (v := deref (c_pm c) p) in *.
  assert (Hseq : sp_Sequence (deref (c_pm c') p) = nextSeq (c_pm c)).
  { rewrite E1. unfold Resend. fold v. rewrite Ha, Hd. cbn [orb fst]. unfold deref. cbn. by rewrite lookup_total_insert_eq. }
  set (pkt := outgoing c (nextSeq (c_pm c)) (sp_DestinationStreamID v) (sp_SourceStreamID v) (sp_Frames v)) in *.
  assert (Hback : same_tracked c c') by (intros q; rewrite (en_tracked _ _ _ _ En); naive_solver).
  split_and!; [|done|done|done|exists pkt].
  - split; [done | revert HS; apply probe_piece_sounds | by apply (enters_bearing p v (c_pm c)); [|apply HB|] |].
    exact (eq_trans (same_send (probe_piece_same now c p)) Hf).
  - split.
    + intros q Hq. rewrite Hw. apply elem_of_app in Hq as [Hq| ->%list_elem_of_singleton].
      * destruct (R1 q Hq) as [to ?]. exists to. apply elem_of_app. by left.
      * exists (peerAddr c). apply elem_of_app. right. left.
    + apply numbered_snoc; [done|]. cbn. lia.
    + rewrite (en_next _ _ _ _ En), length_app. cbn. lia.
    + apply Forall_app. split; [done|]. apply Forall_singleton. apply marked_bearer; [done | apply Hok | by apply HB | done |].
      apply (so_store _ _ _ HS p).
    + intros q (Hq1 & Hq2 & Hq3). apply list_elem_of_filter. destruct (decide (q = p)) as [->|Hne].
      { rewrite Hseq in Hq3. lia. }
      split; [done|]. apply R5. unfold sp_old, is_data in *. rewrite (en_deref _ _ _ _ En q Hne) in Hq2, Hq3. apply Hback in Hq1. auto.
    + by rewrite (en_largest _ _ _ _ En).
Qed.

(** The probes of one timeout. *)
Lemma probes_reissued now l : forall c olds pkts, 0 <= now -> issued c + Z.of_nat (length l) < 2 ^ 32 -> NoDup l ->
  probing c -> reissued n0 olds pkts c ->
  (forall p, p ∈ l -> p ∈ tracked (c_pm c) /\ is_data (c_pm c) p /\ sp_Size (deref (c_pm c) p) <= Current (c_mtu c)) ->
  let c' := fold_left (probe_packet now) l c in
  issued c' = issued c + Z.of_nat (length l) /\ same_tracked c c' /\
  exists more, length more = length l /\ reissued n0 (filter (.∉ l) olds) (pkts ++ more) c'.
Proof.
  induction l as [|p l IH]; intros c olds pkts Hnow Hi Hnd Hp Hr Hl; cbv zeta; cbn [fold_left length] in *.
  { split_and!; [lia | done |]. exists []. split; [done|]. rewrite app_nil_r. destruct Hr. split; try done.
    intros p Hp'. apply list_elem_of_filter. split; [apply not_elem_of_nil | auto]. }
  apply NoDup_cons in Hnd as [Hnin Hnd]. destruct (Hl p ltac:(left)) as (Hp1 & Hp2 & Hp3).
  destruct (probe_reissued now c p olds pkts Hnow ltac:(lia) Hp Hr Hp1 Hp2 Hp3) as (P1 & I1 & [M1 O1] & T1 & pkt & R1).
  destruct (IH (probe_packet now c p) (filter (.≠ p) olds) (pkts ++ [pkt]) Hnow ltac:(lia) Hnd P1 R1) as (I2 & T2 & more & M2 & R2).
  { intros q Hq. assert (q <> p) by (intros ->; done). destruct (Hl q ltac:(by right)) as (T & D & Sz).
    destruct (O1 q) as [T' D']; [done..|]. split; [done|]. unfold is_data in *. by rewrite D', M1. }
  split_and!; [lia | intros q; by rewrite (T2 q) |]. exists (pkt :: more). split; [cbn; lia|]. rewrite <- app_assoc in R2. destruct R2. split; try done.
  intros q Hq%ri_olds0. apply list_elem_of_filter in Hq as [Q1 [Q2 Q3]%list_elem_of_filter].
  apply list_elem_of_filter. split; [|done]. by intros [->|?]%elem_of_cons.
Qed.

Lemma reissued_eq olds pkts c c' : c_pm c' = c_pm c -> wire c' = wire c ->
  reissued n0 olds pkts c -> reissued n0 olds pkts c'.
Proof. intros E1 E2 []. split; rewrite ?E1, ?E2; done. Qed.

(** The oldest packets are among those a probe timeout sends. *)
Lemma oldest_old (o : RangeOrder) pm q : PM_ok pm -> sp_old n0 pm q -> exists p, sp_old n0 pm p /\
  p ∈ OldestUnacked (range_packets (sentPackets pm)) ptoProbes pm.
Proof.
  intros Hok (Hq1 & Hq2 & Hq3). destruct (oldest_spec pm (range_packets (sentPackets pm)) ptoProbes Hok (range_packets_perm _))
    as (_ & H1 & _ & H2). set (ls := OldestUnacked _ _ _) in *. destruct (decide (q ∈ ls)) as [Hin|Hin]; [by exists q|].
  destruct (H2 q) as [Hl Hlt]; [split; [by apply tracked_elem | done] | done |].
  destruct ls as [|p ls]; [done|]. specialize (Hlt p ltac:(left)). destruct (H1 p ltac:(left)) as [Hp1%tracked_elem Hp2].
  exists p. split; [|left]. split_and!; [done | done | lia].
Qed.

(** A probe timeout that splits nothing. *)
Lemma timeout_reissued (o : RangeOrder) now c olds pkts (c' := onPtoTimeout now c) q : 0 <= now -> issued c + 2 < 2 ^ 32 ->
  probing c -> fits now c -> reissued n0 olds pkts c -> sp_old n0 (c_pm c) q -> same_tracked c c' /\ exists l p more,
  l = OldestUnacked (range_packets (sentPackets (c_pm c))) ptoProbes (c_pm c) /\ sp_old n0 (c_pm c) p /\ p ∈ l /\
  (length more <= 2)%nat /\ issued c' = issued c + Z.of_nat (length more) /\
  reissued n0 (filter (.∉ l) olds) (pkts ++ more) c'.
Proof.
  intros Hnow Hi [G HS HB Hf] Hfit Hr Hq. unfold c', onPtoTimeout, onPTO. set (c0 := set_cc (ptoFired (c_cc c)) c).
  set (c1 := if BlackholePTOs <=? PTOCount (c_cc c0) then set_mtu (Blackhole now (c_mtu c0)) c0 else c0).
  assert (H1 : probing c1 /\ c_pm c1 = c_pm c /\ issued c1 = issued c /\ reissued n0 olds pkts c1 /\
    Current (c_mtu c1) = probe_limit now c).
  { assert (G0 : Good true [] c0) by (revert G; by apply Good_agrees).
    assert (HS0 : sound c0) by (by apply (sound_eq unwrapped any_ack c)).
    assert (Hm : MTU_ok (Blackhole now (c_mtu c0))) by (apply (mtu_apply_ok _ (CBlackhole now)); [apply G0 | done]).
    unfold c1, probe_limit. change (PTOCount (c_cc c0)) with (ptoCount (c_cc c) +i 1).
    case_match; (split_and!; [|done|done|by apply (reissued_eq _ _ c)|done]); [|by split]. split; try done.
    - destruct G0. by split.
    - revert HS0. by apply set_mtu_sounds. }
  destruct H1 as (P1 & E1 & E2 & R1 & El). clearbody c1. pose proof (g_pm _ _ _ (pb_good _ P1)) as Hok.
  unfold fits in Hfit. rewrite <- El, <- E1 in Hfit. rewrite <- E1 in Hq |- *.
  destruct (oldest_tracked (c_pm c1) Hok) as [Hnd Hl]. destruct (oldest_old o (c_pm c1) q Hok Hq) as (p & Hp1 & Hp2).
  destruct (oldest_spec (c_pm c1) (range_packets (sentPackets (c_pm c1))) ptoProbes Hok (range_packets_perm _)) as (Hlen & _).
  set (l := OldestUnacked _ _ _) in *. unfold ptoProbes in Hlen.
  destruct (probes_reissued now l c1 olds pkts Hnow ltac:(lia) Hnd P1 R1) as (I2 & T2 & more & M2 & R2).
  { intros r Hr'. destruct (Hl r Hr'). auto. }
  split; [unfold same_tracked in *; by rewrite <- E1|]. exists l, p, more.
  split_and!; [done | done | done | lia | change (issued (fold_left (probe_packet now) l c1) = issued c + Z.of_nat (length more)); lia |].
  revert R2. by apply reissued_eq.
Qed.

End Probes.

(** ** The receiver: data and its acknowledgement *)

Lemma on_stream_life now id op c : life (on_stream now id op c) = life c.
Proof.
  rewrite on_stream_eq. case_match; [|done]. exact (same_life (exec_calls_same now _ (set_stream id (op s).1 c))).
Qed.

Lemma on_stream_size now id op c : size (streams (table (on_stream now id op c))) = size (streams (table c)).
Proof.
  rewrite on_stream_eq. destruct (streams (table c) !! id) as [s|] eqn:E; [|done].
  rewrite (same_table (exec_calls_same now _ (set_stream id (op s).1 c))). cbn. rewrite map_size_insert, E. done.
Qed.

(** A frame of a stream opens one stream at most, and closes nothing. *)
Lemma stream_frame_effect (o : RangeOrder) now pkt f c (c' := handleStreamFrame now pkt f c) : life c' = life c /\
  (size (streams (table c')) <= S (size (streams (table c))))%nat.
Proof.
  unfold c', handleStreamFrame.
  assert (H : life (stream_for pkt f c).1 = life c /\
    (size (streams (table (stream_for pkt f c).1)) <= S (size (streams (table c))))%nat).
  { unfold stream_for, accept_incoming. repeat case_match; simplify_eq; cbn [fst]; split; try done; try lia.
    all: cbn; rewrite map_size_insert; case_match; cbn; lia. }
  destruct (stream_for pkt f c) as [c1 [id|]]; cbn [fst] in H; [|done].
  repeat case_match; rewrite ?on_stream_life, ?on_stream_size; done.
Qed.

Lemma bearer_effect (o : RangeOrder) now pkt f c (c' := HandlePacket now pkt c) : Frames pkt = [StreamF f] ->
  closeCh (life c') = closeCh (life c) /\ (size (streams (table c')) <= S (size (streams (table c))))%nat.
Proof.
  intros E. unfold c', HandlePacket. rewrite E. cbn [fold_left handleFrame]. cbv zeta.
  destruct (stream_frame_effect o now pkt f (note_arrival now pkt c)) as [E1 E2].
  set (c1 := handleStreamFrame now pkt f _) in *.
  assert (H : life (noteReceived now pkt c1) = life c1).
  { unfold noteReceived. destruct (AckTracker.add _ _) as [r ooo]. cbv zeta. case_match; [|done].
    destruct (takeAckLocked _ _) as [a g]. exact (same_life (sendPacket_same now _ _ _ (set_acks a c1))). }
  case_match; rewrite ?noteReceived_table, ?H, E1; done.
Qed.

(** An ACK for [n], the largest number it reports, has been sent. *)
Definition acked_on (n : Z) (w : list datagram) : Prop := exists data to pkt f, (data, to) ∈ w /\
  UnmarshalPacket data = Ok pkt /\ Frames pkt = [AckF f] /\ LargestAcked f = n /\ n ∈ ack_sequences f /\
  forall s, s ∈ ack_sequences f -> s <= n.

Lemma ack_goes_out c dst src r S n d to w : Sound any_frame any_ack c -> is_u32 dst -> is_u32 src -> is_u16 d -> tracks r S -> n ∈ S ->
  (forall m, m ∈ S -> m <= n) -> acked_on n (w ++ [(encoded c 0 dst src [AckF (AckTracker.frame r d)], to)]).
Proof.
  intros HS Hdst Hsrc Hd HT Hn Hmax. set (f := AckTracker.frame r d).
  assert (Hne : S <> ∅) by set_solver. destruct (frame_spec r S HT Hne d) as (EL & _ & _ & _ & _ & low & Hlow & He & _).
  destruct (tracks_largest r S HT Hne) as [Hin Hup]. assert (El : largest r = n) by (pose proof (Hmax _ Hin); specialize (Hup n Hn); lia).
  assert (Hok : Packet_ok (outgoing c 0 dst src [AckF f])).
  { apply (outgoing_ok any_frame any_ack); [done | done |]. by eapply ack_sendable. }
  exists (encoded c 0 dst src [AckF f]), to. eexists _, f. split_and!; [apply elem_of_app; right; left | by apply unmarshal_marshal | done | ..].
  - unfold f. congruence.
  - apply He. split; [done | lia].
  - intros s [Hs _]%He. auto.
Qed.

(** The acknowledgement timer fires. *)
Lemma ack_fires e now src dst c t ids S n : conn_reach e c -> ready c -> is_u32 src -> is_u32 dst ->
  ackTimer (acks c) = Some (t, ids) -> tracks (recvd (acks c)) S -> n ∈ S -> (forall m, m ∈ S -> m <= n) ->
  acked_on n (wire (ackTimerFired now src dst c)) /\ recvd (acks (ackTimerFired now src dst c)) = recvd (acks c) /\
  table (ackTimerFired now src dst c) = table c /\ life (ackTimerFired now src dst c) = life c.
Proof.
  intros Hr [Hf Hy] Hsrc Hdst Ht HT Hn Hmax. set (c' := ackTimerFired now src dst c).
  pose proof (h_sound _ _ _ (reach_healthy _ _ Hr)) as HS. pose proof (reach_acks _ _ Hr) as Hok.
  assert (Hp : ackPending (acks c) <> 0) by (destruct Hok as [[_ E]|[? _]]; [congruence | lia]).
  assert (E : exists a delay, is_u16 delay /\ recvd a = recvd (acks c) /\
    c' = sendPacket now src dst [AckF (AckTracker.frame (recvd (acks c)) delay)] (set_acks a c)).
  { unfold c', ackTimerFired. cbv zeta. cbn [ackPending]. rewrite (proj2 (Z.eqb_neq _ _) Hp).
    match goal with |- context [takeAckLocked now ?y] => destruct (takeAck_eq now y) as (k & Hk & ->) end.
    by exists (MkAcks (recvd (acks c)) 0 None (largestArrival (acks c))), k. }
  destruct E as (a & delay & Hk & Ea & E).
  assert (Es : same (set_acks a c) c') by (rewrite E; apply sendPacket_same).
  split_and!; [|by rewrite (same_acks Es) | exact (same_table Es) | exact (same_life Es)].
  rewrite E, sendControl_wire by done. apply (ack_goes_out (set_acks a c) src dst _ S); try done.
  by apply (sound_eq any_frame any_ack c).
Qed.

(** ** The sender: acknowledgements in order *)









(** ** Runs without the applications

    What happens by itself: a timer that is armed fires, at its time or later, or
    a datagram arrives that the peer has sent. *)

Inductive tick (now : Z) (d : bool -> End) : (bool -> End) -> Prop :=
  | tick_arrival (o : RangeOrder) x data to pkt : closeCh (life (conn_at (d x))) = false ->
      (data, to) ∈ wire (conn_at (d (negb x))) -> UnmarshalPacket data = Ok pkt ->
      tick now d (<[x := on (HandlePacket now pkt (conn_at (d x))) (d x)]> d)
  | tick_pto (o : RangeOrder) x t : closeCh (life (conn_at (d x))) = false ->
      ptoTimer (c_cc (conn_at (d x))) = Some t -> t <= now ->
      tick now d (<[x := on (onPtoTimeout now (conn_at (d x))) (d x)]> d)
  | tick_ack x t src dst : closeCh (life (conn_at (d x))) = false ->
      ackTimer (acks (conn_at (d x))) = Some (t, (src, dst)) -> t <= now ->
      tick now d (<[x := on (ackTimerFired now src dst (conn_at (d x))) (d x)]> d).




(** Both connections are open and can send. *)
Record alive (d : bool -> End) : Prop := {
  av_reach : duo_reach true d;
  av_small : forall y, small (d y);
  av_open : forall y, closeCh (life (conn_at (d y))) = false;
  av_ready : forall y, ready (conn_at (d y))
}.

Lemma alive_sender d x : alive d -> issued (conn_at (d x)) < 2 ^ 32 ->
  probing (conn_at (d x)) /\ Armed (conn_at (d x)) /\ served (d x) (d (negb x)).
Proof.
  intros [Hr Hs Ho Hy] Hi. destruct (duo_linked _ _ Hr) as [Rd Ld].
  destruct (conn_reach_inv _ _ (Rd x) Hi (Ho x)) as (G & HA & _).
  pose proof (duo_served _ _ Hr Hs x (conj Hi (Ho x))) as V.
  pose proof (linked_healthy (d x) (Hs x) (k_healthy _ _ (Ld Hs x))) as Hh.
  split_and!; [|done|done]. split; [done | apply Hh | apply V | apply Hy].
Qed.

(** A step of one end that leaves both open and small. *)
Lemma alive_step d x e' : alive d -> end_step true (wire (conn_at (d (negb x)))) (d x) e' -> small e' ->
  closeCh (life (conn_at e')) = false -> alive (<[x := e']> d).
Proof.
  intros [Hr Hs Ho Hy] Hstep Hsm Hc. split; [by apply duo_step|..]; intros y;
    (destruct (decide (y = x)) as [->|Hne]; [rewrite fn_lookup_insert | rewrite fn_lookup_insert_ne by done]); try done.
  eapply conn_step_ready; [by eapply end_step_conn | apply Hy].
Qed.

Section Phases.
Context {o : RangeOrder} (x : bool).

(** A change of the other end. *)
Lemma other_end (d : bool -> End) e : (<[negb x := e]> d) (negb x) = e /\ (<[negb x := e]> d) x = d x.
Proof. rewrite fn_lookup_insert, fn_lookup_insert_ne by (by destruct x). done. Qed.

Lemma alive_other d e' : alive d -> end_step true (wire (conn_at (d x))) (d (negb x)) e' -> small e' ->
  closeCh (life (conn_at e')) = false -> alive (<[negb x := e']> d).
Proof. intros Hv Hs. apply alive_step; [done|]. by rewrite negb_involutive. Qed.

Lemma alive_sound d y : alive d -> sound (conn_at (d y)).
Proof.
  intros [Hr Hs _ _]. destruct (duo_linked _ _ Hr) as [_ Ld]. apply (linked_healthy (d y) (Hs y) (k_healthy _ _ (Ld Hs y))).
Qed.


(** A packet with data arrives: it is acknowledged, or the timer is set. *)
Lemma data_arrives now d n pkt to S (c := conn_at (d (negb x))) (pk := received (length (MarshalPacket pkt)) pkt)
    (c' := HandlePacket now pk c) (d1 := <[negb x := on c' (d (negb x))]> d) : alive d -> 0 <= now -> bearer pkt -> Sequence pkt = n ->
  (MarshalPacket pkt, to) ∈ wire (conn_at (d x)) -> tracks (recvd (acks c)) S -> (forall m, m ∈ S -> m < n) ->
  Z.of_nat (size (streams (table c))) + 1 < 2 ^ 30 ->
  UnmarshalPacket (MarshalPacket pkt) = Ok pk /\ tick now d d1 /\ alive d1 /\ d1 (negb x) = on c' (d (negb x)) /\ d1 x = d x /\
  tracks (recvd (acks c')) ({[n]} ∪ S) /\ (size (streams (table c')) <= Datatypes.S (size (streams (table c))))%nat /\
  is_u32 (SourceStreamID pk) /\ is_u32 (DestinationStreamID pk) /\
  (acked_on n (wire c') \/ exists t, ackTimer (acks c') = Some (t, (SourceStreamID pk, DestinationStreamID pk)) /\
     now <= t <= now + MaxAckDelay).
Proof.
  intros Hv Hnow (Hpk & Hb & f & Hf) En Hw HT Hlt Hsz.
  assert (Hu : UnmarshalPacket (MarshalPacket pkt) = Ok pk) by (by apply unmarshal_marshal).
  pose proof (unmarshal_safe (MarshalPacket pkt)) as Hpk'. rewrite Hu in Hpk'. destruct Hpk' as [Hpk' _].
  destruct (bearer_effect o now pk f c Hf) as [Hc Hs]. fold c' in Hc, Hs.
  destruct (other_end d (on c' (d (negb x)))) as [E1 E2]. fold d1 in E1, E2.
  destruct (av_ready _ Hv (negb x)) as [Hfn Hy]. destruct (duo_linked _ _ (av_reach _ Hv)) as [Rd _].
  pose proof (reach_acks _ _ (Rd (negb x))) as Hok. fold c in Hfn, Hy, Hok.
  destruct (packet_acked o c now pk Hok Hpk' Hfn Hy) as [Er Hack]; [apply orb_true_iff; by left|]. fold c' in Er, Hack.
  destruct (add_spec _ _ HT (Sequence pk) (ok_seq _ Hpk')) as [HT' _]. change (Sequence pk) with (Sequence pkt) in *. rewrite En in *.
  rewrite <- Er in HT'.
  split_and!; [done | | | done | done | done | done | apply Hpk' | apply Hpk' |].
  - apply (tick_arrival now d o (negb x) (MarshalPacket pkt) to pk); [apply Hv | by rewrite negb_involutive | done].
  - apply alive_other; [done | by apply (end_recv true _ _ o now (MarshalPacket pkt) to pk) | |].
    + split; [cbn [conn_at on]; lia | apply (av_small _ Hv (negb x))].
    + cbn [conn_at on]. rewrite Hc. apply (av_open _ Hv).
  - destruct Hack as [(_ & k & Hk & Hwire)|(_ & _ & _ & t & Ht & Hb1 & Hb2)].
    + left. rewrite Hwire, <- Er. eapply ack_goes_out; try done; [apply (h_sound _ _ _ (reach_healthy _ _ (Rd (negb x)))) | apply Hpk' | apply Hpk' | set_solver |].
      intros m [->%elem_of_singleton|Hm]%elem_of_union; [lia | specialize (Hlt m Hm); lia].
    + right. exists t. split; [done|]. assert (0 < MinAckDelay) by done. lia.
Qed.









(** A probe timeout at its time. *)
Lemma timeout_tick now d t (c := conn_at (d x)) : alive d -> 0 <= now -> ptoTimer (c_cc c) = Some t -> t <= now ->
  fits now c -> let d' := <[x := on (onPtoTimeout now c) (d x)]> d in
  tick now d d' /\ alive d' /\ d' x = on (onPtoTimeout now c) (d x) /\ d' (negb x) = d (negb x).
Proof.
  intros Hv Hnow Et Ht Hf. cbv zeta. pose proof (onPtoTimeout_same now c) as Hsame.
  split_and!; [by apply (tick_pto now d o x t); [apply Hv|..] | | apply fn_lookup_insert | by rewrite fn_lookup_insert_ne by (by destruct x)].
  apply alive_step; [done | by apply end_own, step_pto | |]; cbn [conn_at on].
  - destruct (av_small _ Hv x) as [S1 S2]. split; [|done]. cbn [conn_at on]. by rewrite (same_table Hsame).
  - rewrite (same_life Hsame). apply (av_open _ Hv).
Qed.

End Phases.

(** ** Everything outstanding can be delivered *)

(** The data packets that wait for their acknowledgement. *)
Definition outstanding (c : Connection) : list ptr := filter (is_data (c_pm c)) (tracked (c_pm c)).





(** ** One probe timeout *)

Lemma numbered_elem n pkts m : numbered n pkts -> n <= m < n + Z.of_nat (length pkts) -> exists pkt, pkt ∈ pkts /\ Sequence pkt = m.
Proof.
  intros H Hm. assert (Hin : m ∈ Sequence <$> pkts) by (rewrite H; apply elem_of_seqZ; lia).
  apply list_elem_of_fmap in Hin as (pkt & -> & Hp). by exists pkt.
Qed.

(** The largest number of a tracker is in every set it stands for. *)
Lemma tracks_top r S S' n : tracks r S -> tracks r S' -> n ∈ S -> (forall m, m ∈ S -> m <= n) -> n ∈ S'.
Proof.
  intros T T' Hn Hmax. assert (Hne : S <> ∅) by set_solver. destruct (tracks_largest _ _ T Hne) as [H1 H2].
  pose proof (tracks_any _ _ T) as E. rewrite (tracks_any _ _ T'), (bool_decide_eq_true_2 (S <> ∅)) in E by done.
  destruct (tracks_largest _ _ T' (bool_decide_eq_true_1 _ E)) as [H3 _].
  replace n with (largest r); [done|]. specialize (H2 n Hn). specialize (Hmax _ H1). lia.
Qed.

(** The oldest outstanding packet is sent again under a new number. *)
Lemma timeout_resends (o : RangeOrder) now c p (c' := onPtoTimeout now c) : 0 <= now -> issued c + 2 < 2 ^ 32 ->
  probing c -> fits now c -> in_order (c_pm c) -> p ∈ outstanding c ->
  (forall q, q ∈ outstanding c -> sp_Sequence (deref (c_pm c) p) <= sp_Sequence (deref (c_pm c) q)) ->
  issued c' < 2 ^ 32 /\ (PM_ok (c_pm c') -> exists pkt to, bearer pkt /\ nextSeq (c_pm c) <= Sequence pkt /\
    (MarshalPacket pkt, to) ∈ wire c' /\ sentPackets (c_pm c') !! Sequence pkt = Some p).
Proof.
  intros Hnow Hi Hp Hfit Ho Hin Hmin. pose proof (g_pm _ _ _ (pb_good _ Hp)) as Hok. set (n0 := nextSeq (c_pm c)).
  pose proof Hin as [Hd Ht]%list_elem_of_filter. destruct (tracked_fact _ _ Hok Ht) as [Hst _].
  assert (Hlt : forall q, q ∈ tracked (c_pm c) -> sp_Sequence (deref (c_pm c) q) < n0).
  { intros q [s Hq]%tracked_elem. destruct (pm_tracked _ Hok _ _ Hq) as (_ & -> & _ & _ & ?). unfold n0. lia. }
  assert (R : reissued n0 (outstanding c) [] c).
  { split; try done; [by intros pkt ?%not_elem_of_nil | cbn; lia |]. intros q (H1 & H2 & _). by apply list_elem_of_filter. }
  destruct (timeout_reissued n0 o now c _ _ p Hnow Hi Hp Hfit R) as (HT & l & q & more & El & (Q1 & Q2 & Q3) & Hq & Hm & I' & R');
    [split_and!; auto|]. fold c' in HT, I', R'. cbn [app] in R'.
  assert (Hpl : p ∈ l).
  { destruct (oldest_spec (c_pm c) (range_packets (sentPackets (c_pm c))) ptoProbes Hok (range_packets_perm _)) as (_ & _ & _ & H).
    rewrite <- El in H. destruct (decide (p ∈ l)) as [|Hn]; [done|]. destruct (H p) as [_ Hall]; [split; [by apply tracked_elem | done] | done |].
    specialize (Hall q Hq). specialize (Hmin q ltac:(by apply list_elem_of_filter)). lia. }
  destruct (onPtoTimeout_quiet now c) as (_ & _ & HL & _). fold c' in HL. destruct (HL p Hst) as [_ (_ & _ & Lp & _)].
  pose proof (proj2 (HT p) Ht) as Ht'. pose proof Ht' as [n Hn]%tracked_elem.
  split; [lia|]. intros Hok'. destruct (pm_tracked _ Hok' _ _ Hn) as (_ & Eseq & _ & _ & Hnx). rewrite (ri_next _ _ _ _ R') in Hnx.
  assert (Hge : n0 <= n).
  { destruct (decide (n0 <= n)) as [|Hn']; [done|]. exfalso.
    assert (sp_old n0 (c_pm c') p) as Hold by (split_and!; [done | unfold is_data in *; congruence | lia]).
    apply (ri_olds _ _ _ _ R'), list_elem_of_filter in Hold as [? _]. done. }
  destruct (numbered_elem n0 more n (ri_seqs _ _ _ _ R') ltac:(lia)) as (pkt & Hpk & <-).
  destruct (ri_wire _ _ _ _ R' pkt Hpk) as [to Hw]. pose proof (ri_pkts _ _ _ _ R') as Hb. rewrite Forall_forall in Hb.
  exists pkt, to. split_and!; auto.
Qed.

(** *** Any continuation *)

(** Any step of either end. *)
Definition duo_next (exact : bool) (d d' : bool -> End) : Prop := exists x e',
  end_step exact (wire (conn_at (d (negb x)))) (d x) e' /\ d' = <[x := e']> d.

Lemma duo_next_conn e d d' y : duo_next e d d' -> d' y = d y \/ conn_step e (conn_at (d y)) (conn_at (d' y)).
Proof.
  intros (x & e' & Hs & ->). destruct (decide (y = x)) as [->|Hne]; [right; rewrite fn_lookup_insert; by eapply end_step_conn|].
  left. by rewrite fn_lookup_insert_ne.
Qed.

Lemma duo_run e d d' : rtc (duo_next e) d d' -> duo_reach e d -> duo_reach e d' /\
  forall y, (ready (conn_at (d y)) -> ready (conn_at (d' y))) /\ forall w, w ∈ wire (conn_at (d y)) -> w ∈ wire (conn_at (d' y)).
Proof.
  induction 1 as [d|d d1 d2 Hn _ IH]; intros Hr; [done|].
  assert (Hr1 : duo_reach e d1) by (destruct Hn as (x & e' & Hs & ->); by apply duo_step).
  destruct (IH Hr1) as [Hr2 H]. split; [done|]. intros y. destruct (H y) as [H1 H2].
  destruct (duo_next_conn _ _ _ y Hn) as [E|Hc]; [by rewrite <- E|]. split.
  - intros Hy. by apply H1, (conn_step_ready _ _ _ Hc).
  - intros w Hw. apply H2. destruct (conn_step_wire _ _ _ Hc) as [k ->]. apply elem_of_app. by left.
Qed.

(** A step of a connection that receives nothing. *)
Inductive alone (exact : bool) (c : Connection) : Connection -> Prop :=
  | alone_own c' : own_step exact c c' -> alone exact c c'
  | alone_call now id s s' calls out : 0 <= now -> streams (table c) !! id = Some s ->
      stream_op now (MaxDatagram c) s s' calls out -> alone exact c (exec_calls now calls (set_stream id s' c)).

Lemma alone_conn e c c' : alone e c c' -> conn_step e c c'.
Proof. destruct 1; [by apply step_own | by eapply step_stream]. Qed.

(** Nothing but its timer and a close ends the wait of an acknowledgement. *)
Lemma alone_acks e c c' : alone e c c' -> acks c' = acks c \/ closeCh (life c') = true \/
  exists now src dst, is_u32 src /\ is_u32 dst /\ c' = ackTimerFired now src dst c.
Proof.
  assert (Hclose : forall now code reason announce c', c' = closeInternal now code reason announce c ->
    acks c' = acks c \/ closeCh (life c') = true \/ exists now src dst, is_u32 src /\ is_u32 dst /\ c' = ackTimerFired now src dst c).
  { intros now code reason announce c1 ->. unfold closeInternal. destruct (closeOnce (life c)); [by left|]. right. by left. }
  destruct 1 as [c' Hown|now id s s' calls out _ _ _]; [destruct Hown|]; try (by left).
  - right. right. by exists now, src, dst.
  - left. unfold lossTimerFired. by rewrite (same_acks (report_same now _ c)).
  - left. by rewrite (same_acks (onPtoTimeout_same now c)).
  - left. by rewrite (same_acks (flushLost_same now c)).
  - unfold onIdleCheck, armIdleCheck. repeat case_match; [by eapply Hclose | by left..].
  - left. unfold OpenStream. by repeat case_match.
  - left. match goal with H : AcceptStream _ _ _ _ |- _ => by destruct H end.
  - left. unfold Ping. by rewrite (same_acks (sendFrames_same now _ c)).
  - left. by rewrite (same_acks (sendFrames_same now _ c)).
  - by eapply Hclose.
  - left. unfold observeAddr. by repeat case_match.
  - left. unfold sendControlTo. by rewrite (same_acks (send_same _ _ _ c)).
  - left. unfold migrate_start. match goal with |- acks (sendFrames _ _ ?y) = _ => by rewrite (same_acks (sendFrames_same now _ y)) end.
  - left. unfold migrate_finish in *. repeat case_match; by simplify_eq.
  - left. unfold enqueue. by case_match.
  - left. by rewrite (same_acks (exec_calls_same now calls (set_stream id s' c))).
Qed.

Lemma acked_on_prefix n w w' : w `prefix_of` w' -> acked_on n w -> acked_on n w'.
Proof.
  intros [k ->] (data & to & pkt & f & Hin & H). exists data, to, pkt, f. split; [|done]. apply elem_of_app. by left.
Qed.

Lemma alone_waits e c c' t ids S n : rtc (alone e) c c' -> conn_reach e c -> ready c -> closeCh (life c') = false ->
  tracks (recvd (acks c)) S -> n ∈ S -> (forall m, m ∈ S -> m <= n) ->
  acked_on n (wire c) \/ ackTimer (acks c) = Some (t, ids) ->
  conn_reach e c' /\ ready c' /\ tracks (recvd (acks c')) S /\ (acked_on n (wire c') \/ ackTimer (acks c') = Some (t, ids)).
Proof.
  induction 1 as [c|c c1 c2 Hs Hrest IH]; intros Hr Hy Hc HT Hn Hmax Hw; [done|].
  pose proof (alone_conn _ _ _ Hs) as Hstep.
  assert (Hc1 : closeCh (life c1) = false).
  { destruct (closeCh (life c1)) eqn:E; [|done]. clear -Hrest Hc E. induction Hrest as [|a b c Ha _ IH]; [congruence|].
    destruct (conn_step_keeps _ _ _ (alone_conn _ _ _ Ha)) as [[_ L] _]. auto. }
  apply IH; [by eapply reach_step | by eapply conn_step_ready | done | | done | done |].
  - destruct (alone_acks _ _ _ Hs) as [E|[?|(now & src & dst & U1 & U2 & E)]]; [by rewrite E | congruence |].
    rewrite E. unfold ackTimerFired. cbv zeta. case_match; [done|].
    match goal with |- context [takeAckLocked now ?y] => destruct (takeAck_eq now y) as (k & Hk & ->) end.
    match goal with |- context [sendPacket now ?a ?b ?fs ?y] => by rewrite (same_acks (sendPacket_same now a b fs y)) end.
  - destruct Hw as [Hw|Ht]; [left; by eapply acked_on_prefix, Hw; eapply conn_step_wire|].
    destruct (alone_acks _ _ _ Hs) as [E|[?|(now & src & dst & U1 & U2 & E)]]; [right; by rewrite E | congruence |].
    left. rewrite E. by eapply (ack_fires e now src dst c t ids S n).
Qed.

(** The datagram of the number [n] arrives. *)
Lemma probe_arrives (o : RangeOrder) x d n pk to p t1 pkt (b := conn_at (d (negb x))) (b1 := HandlePacket t1 pkt b) :
  alive d -> issued (conn_at (d x)) < 2 ^ 32 -> Z.of_nat (size (streams_at (d (negb x)))) + 1 < 2 ^ 30 ->
  bearer pk -> Sequence pk = n -> (MarshalPacket pk, to) ∈ wire (conn_at (d x)) ->
  (any (recvd (acks b)) = true -> largest (recvd (acks b)) < n) -> 0 <= t1 -> UnmarshalPacket (MarshalPacket pk) = Ok pkt ->
  (sentPackets (c_pm (conn_at (d x))) !! n = Some p ->
   forall i y, chunk_in (deref (c_pm (conn_at (d x))) p) i y -> landed (d x) (on b1 (d (negb x))) i y) /\
  exists t2 ids, t1 <= t2 <= t1 + MaxAckDelay /\
    forall b2, rtc (alone true) b1 b2 -> closeCh (life b2) = false ->
      acked_on n (wire b2) \/
      (ackTimer (acks b2) = Some (t2, ids) /\ forall t3, acked_on n (wire (ackTimerFired t3 ids.1 ids.2 b2))).
Proof.
  intros Hv Hi Hsz Hb En Hw Hlarge Ht1 Hu. destruct (alive_sender d x Hv Hi) as (_ & _ & V).
  destruct (sv_seen _ _ V) as (S & HS & _ & _). fold b in HS.
  assert (Hlt : forall m, m ∈ S -> m < n).
  { intros m Hm. assert (Hne : S <> ∅) by set_solver. destruct (tracks_largest _ _ HS Hne) as [_ Hup].
    specialize (Hup m Hm). assert (Ha : any (recvd (acks b)) = true) by (rewrite (tracks_any _ _ HS); by apply bool_decide_eq_true_2).
    specialize (Hlarge Ha). lia. }
  destruct (data_arrives x t1 d n pk to S Hv Ht1 Hb En Hw HS Hlt Hsz) as (Hu' & _ & Hv1 & E1 & E2 & HT & _ & U1 & U2 & Hack).
  assert (Epk : pkt = received (length (MarshalPacket pk)) pk) by congruence. rewrite <- Epk in Hv1, E1, E2, HT, U1, U2, Hack. fold b in Hv1, E1, E2, HT, Hack.
  fold b1 in Hv1, E1, E2, HT, Hack. set (d1 := <[negb x := _]> d) in *.
  assert (Hn : n ∈ {[n]} ∪ S) by set_solver.
  assert (Hmax : forall m, m ∈ {[n]} ∪ S -> m <= n) by (intros m [->%elem_of_singleton|Hm]%elem_of_union; [lia | specialize (Hlt m Hm); lia]).
  destruct (alive_sender d1 x Hv1 ltac:(by rewrite E2)) as (_ & _ & V1). rewrite E1, E2 in V1. split.
  - intros Hnp i y Hyc. destruct (sv_seen _ _ V1) as (S' & T' & _ & D').
    exact (delivered_lands _ _ _ n p i y (sv_books _ _ V1) (fun _ H => H) (D' n (tracks_top _ _ _ _ HT T' Hn Hmax)) Hnp Hyc).
  - assert (Hr1 : conn_reach true b1 /\ ready b1).
    { destruct (duo_linked _ _ (av_reach _ Hv1)) as [Rd _]. pose proof (Rd (negb x)) as R. pose proof (av_ready _ Hv1 (negb x)) as Y. by rewrite E1 in R, Y. }
    assert (Hw' : exists t2, t1 <= t2 <= t1 + MaxAckDelay /\ (acked_on n (wire b1) \/
      ackTimer (acks b1) = Some (t2, (SourceStreamID pkt, DestinationStreamID pkt)))).
    { destruct Hack as [Hk|(t2 & Ht2 & Hb2)]; [exists t1; assert (0 < MaxAckDelay) by done; split; [lia | by left] | exists t2; auto]. }
    destruct Hw' as (t2 & Hb2 & Hw'). exists t2, (SourceStreamID pkt, DestinationStreamID pkt). split; [done|]. intros b2 Hrun Hc.
    destruct (alone_waits true b1 b2 t2 _ _ n Hrun (proj1 Hr1) (proj2 Hr1) Hc HT Hn Hmax Hw') as (R2 & Y2 & T2 & [Hk|Hk]); [by left|].
    right. split; [done|]. intros t3. by eapply (ack_fires true t3 _ _ b2).
Qed.

(** C4. A probe timeout gets the oldest data across. Take any state of two open
    connections over a network that loses, duplicates and reorders; let [p] be
    the oldest outstanding packet of one of them, its probe timer due, and no
    outstanding packet larger than its path carries. When the timer fires, [p]
    is tracked under a new number [n], and its datagram is on the wire. Then in
    every continuation, whatever either end does, if that datagram arrives, at
    [t1], while both are open and before any number from [n] on has:
    all the data of [p], if it is still tracked under [n], has reached the
    peer; and there is a time [t2], at most the longest delay of an
    acknowledgement after [t1], such that until the peer receives something else
    or is closed, whatever else it does, it has sent an acknowledgement of [n]
    or its acknowledgement timer is set for [t2], and sends one when it
    fires. *)
Theorem probe_timeout_delivers (o : RangeOrder) (d : bool -> End) (x : bool) (now t : Z) (p : ptr) :
  duo_reach true d -> (forall y, small (d y)) ->
  (forall y, closeCh (life (conn_at (d y))) = false) -> (forall y, ready (conn_at (d y))) ->
  let c := conn_at (d x) in p ∈ outstanding c ->
  (forall q, q ∈ outstanding c -> sp_Sequence (deref (c_pm c) p) <= sp_Sequence (deref (c_pm c) q)) ->
  ptoTimer (c_cc c) = Some t -> t <= now -> 0 <= now -> fits now c -> issued c + 2 < 2 ^ 32 ->
  let d1 := <[x := on (onPtoTimeout now c) (d x)]> d in
  exists n data to, nextSeq (c_pm c) <= n /\ (data, to) ∈ wire (conn_at (d1 x)) /\
    sentPackets (c_pm (conn_at (d1 x))) !! n = Some p /\
    forall d2 (o' : RangeOrder) t1 pkt, rtc (duo_next true) d1 d2 -> (forall y, small (d2 y)) ->
      (forall y, closeCh (life (conn_at (d2 y))) = false) -> issued (conn_at (d2 x)) < 2 ^ 32 ->
      Z.of_nat (size (streams_at (d2 (negb x)))) + 1 < 2 ^ 30 ->
      let b := conn_at (d2 (negb x)) in
      (any (recvd (acks b)) = true -> largest (recvd (acks b)) < n) ->
      0 <= t1 -> UnmarshalPacket data = Ok pkt -> let b1 := HandlePacket t1 pkt b in
      (sentPackets (c_pm (conn_at (d2 x))) !! n = Some p ->
       forall i y, chunk_in (deref (c_pm (conn_at (d2 x))) p) i y -> landed (d2 x) (on b1 (d2 (negb x))) i y) /\
      exists t2 ids, t1 <= t2 <= t1 + MaxAckDelay /\
        forall b2, rtc (alone true) b1 b2 -> closeCh (life b2) = false ->
          acked_on n (wire b2) \/
          (ackTimer (acks b2) = Some (t2, ids) /\ forall t3, acked_on n (wire (ackTimerFired t3 ids.1 ids.2 b2))).
Proof.
  intros Hr Hs Ho Hy c Hp Hmin Et Htn Hnow Hfit Hi d1. assert (Hv : alive d) by done.
  destruct (alive_sender d x Hv ltac:(fold c; lia)) as (Pb & _ & V). fold c in Pb.
  destruct (timeout_resends o now c p Hnow Hi Pb Hfit (sv_order _ _ V) Hp Hmin) as [Hi1 Hsent].
  destruct (timeout_tick x now d t Hv Hnow Et Htn Hfit) as (_ & Hv1 & Ex & _). fold c in Ex. fold d1 in Hv1, Ex.
  destruct (alive_sender d1 x Hv1 ltac:(rewrite Ex; done)) as (Pb1 & _ & _). rewrite Ex in Pb1. cbn [conn_at on] in Pb1.
  destruct (Hsent (g_pm _ _ _ (pb_good _ Pb1))) as (pk & to & Hb & Hge & Hw & Hn). set (n := Sequence pk) in *.
  exists n, (MarshalPacket pk), to. rewrite Ex. cbn [conn_at on]. split; [exact Hge|]. split; [exact Hw|]. split; [exact Hn|].
  intros d2 o' t1 pkt Hrun Hs2 Ho2 Hi2 Hsz2 Hlarge Ht1 Hu.
  destruct (duo_run _ _ _ Hrun (av_reach _ Hv1)) as [Hr2 Hrest].
  assert (Hv2 : alive d2) by (split; try done; intros y; apply (Hrest y), Hv1).
  exact (probe_arrives o' x d2 n pk to p t1 pkt Hv2 Hi2 Hsz2 Hb eq_refl (proj2 (Hrest x) _ ltac:(rewrite Ex; exact Hw)) Hlarge Ht1 Hu).
Qed.

(** ** Witness: the three bytes and the end of the stream of [EndToEnd], none of
    which has arrived yet. *)

Definition acceptor0 : End := on (establish (conn_at (duo0 false))) (duo0 false).
Definition written : bool -> End := <[false := acceptor0]> (<[true := dialer3]> (<[true := dialer2]> (<[true := dialer1]>
  (<[true := on (establish (conn_at (duo0 true))) (duo0 true)]> duo0)))).

Lemma written_true : written true = dialer3.
Proof. unfold written. by rewrite fn_lookup_insert_ne, fn_lookup_insert by done. Qed.

Lemma written_false : written false = acceptor0.
Proof. apply fn_lookup_insert. Qed.

Lemma written_reach : duo_reach true written.
Proof.
  apply (duo_at true _ false (duo0 false) dialer3); [at_end | at_end | apply duo_written |].
  apply (end_own true _ (duo0 false)), step_establish.
Qed.

Lemma written_small y : small (written y).
Proof.
  destruct y; rewrite ?written_true, ?written_false; (split; [by vm_compute|]); intros i; [|done].
  destruct (decide (i = 1)) as [->|Hne]; [by vm_compute|]. unfold dialer3, dialer2. by rewrite !use_wrote.
Qed.



Definition due : Z := default 0 (ptoTimer (c_cc (conn_at dialer3))).

Lemma written_oldest : forallb (fun q => (sp_Sequence (deref (c_pm (conn_at dialer3)) 1%positive) <=? sp_Sequence (deref (c_pm (conn_at dialer3)) q)) &&
    (sp_Size (deref (c_pm (conn_at dialer3)) q) <=? probe_limit due (conn_at dialer3))) (outstanding (conn_at dialer3)) = true /\
  bool_decide (1%positive ∈ outstanding (conn_at dialer3)) = true.
Proof. by vm_compute. Qed.

Lemma sent_decodes data to : (data, to) ∈ wire (onPtoTimeout (H := key_order) due (conn_at dialer3)) ->
  exists pkt, UnmarshalPacket data = Ok pkt.
Proof.
  intros Hin. assert (Hr : conn_reach true (conn_at dialer3)).
  { destruct (duo_linked _ _ written_reach) as [Rd _]. pose proof (Rd true) as R. by rewrite written_true in R. }
  assert (Hd : 0 <= due) by (by vm_compute).
  pose proof (so_wire _ _ _ (onPtoTimeout_sounds (o := key_order) any_frame any_ack (fun _ _ _ _ _ _ _ _ => I) due Hd _
    (h_sound _ _ _ (reach_healthy _ _ Hr)))) as Hw.
  rewrite Forall_forall in Hw. destruct (Hw _ Hin) as (pkt & Hp & E & _). cbn [fst] in E. subst data. eexists. by apply unmarshal_marshal.
Qed.

(** After the timeout. *)
Definition fired : bool -> End := <[true := on (onPtoTimeout (H := key_order) due (conn_at (written true))) (written true)]> written.

Lemma fired_true : fired true = on (onPtoTimeout (H := key_order) due (conn_at dialer3)) dialer3.
Proof. unfold fired. by rewrite fn_lookup_insert, written_true. Qed.

Lemma fired_false : fired false = acceptor0.
Proof. unfold fired. by rewrite fn_lookup_insert_ne, written_false by done. Qed.

Lemma fired_small y : small (fired y).
Proof.
  destruct y; [|rewrite fired_false, <- written_false; apply written_small]. rewrite fired_true. split; [by vm_compute|].
  pose proof (written_small true) as [_ H]. rewrite written_true in H. exact H.
Qed.

(** The probe arrives a millisecond later. *)
Lemma probe_timeout_delivers_witness : exists n data pkt t2 ids, UnmarshalPacket data = Ok pkt /\ t2 <= due + ms 1 + MaxAckDelay /\
  let b1 := HandlePacket (H := key_order) (due + ms 1) pkt (conn_at acceptor0) in
  forall b2, rtc (alone true) b1 b2 -> closeCh (life b2) = false -> acked_on n (wire b2) \/ ackTimer (acks b2) = Some (t2, ids).
Proof.
  pose proof written_oldest as [Ho Hin%bool_decide_eq_true]. rewrite forallb_forall in Ho.
  assert (Hq : forall q, q ∈ outstanding (conn_at dialer3) ->
    sp_Sequence (deref (c_pm (conn_at dialer3)) 1%positive) <= sp_Sequence (deref (c_pm (conn_at dialer3)) q) /\
    sp_Size (deref (c_pm (conn_at dialer3)) q) <= probe_limit due (conn_at dialer3)).
  { intros q H. pose proof (Ho q (proj1 (list_elem_of_In _ _) H)) as [H1%Z.leb_le H2%Z.leb_le]%andb_true_iff. split; [exact H1 | exact H2]. }
  pose proof (probe_timeout_delivers key_order written true due due 1%positive written_reach written_small) as P.
  cbv zeta in P. fold fired in P. rewrite written_true in P.
  destruct P as (n & data & to & _ & Hw & _ & P).
  - intros y. destruct y; rewrite ?written_true, ?written_false; by vm_compute.
  - intros y. destruct y; rewrite ?written_true, ?written_false; split; by vm_compute.
  - exact Hin.
  - intros q H. exact (proj1 (Hq q H)).
  - by vm_compute.
  - exact (Z.le_refl due).
  - by vm_compute.
  - intros q Hq1 Hq2. exact (proj2 (Hq q (proj2 (list_elem_of_filter _ _ _) (conj Hq2 Hq1)))).
  - by vm_compute.
  - assert (Hu : exists pkt, UnmarshalPacket data = Ok pkt).
    { rewrite fired_true in Hw. revert Hw. clear. intros Hw. apply (sent_decodes data to Hw). }
    destruct Hu as [pkt Hu]. destruct (P fired key_order (due + ms 1) pkt) as [_ (t2 & ids & Ht & Hk)].
    + apply rtc_refl.
    + exact fired_small.
    + intros y. destruct y; rewrite ?fired_true, ?fired_false; by vm_compute.
    + rewrite fired_true. by vm_compute.
    + cbn [negb]. rewrite fired_false. by vm_compute.
    + cbn [negb]. rewrite fired_false. by vm_compute.
    + by vm_compute.
    + exact Hu.
    + cbn [negb] in Hk. rewrite fired_false in Hk. exists n, data, pkt, t2, ids. split; [exact Hu|]. split; [exact (proj2 Ht)|].
      intros b1 b2 Hb2 Hc. destruct (Hk b2 Hb2 Hc) as [?|[? _]]; [by left | by right].
Defined.
