(* ===== verification/Transfer.v ===== *)
(** * A transfer from one connection to another

    What one connection's stream writes, cut into datagrams, sent, received in
    any order and any number of times and put together again by the peer's
    connection, is what the peer's application reads. *)

From stdpp Require Import strings.
From S2P Require Import Prelude Constants Cid Frame Packet AckTracker FlowControl Mtud.
From S2P Require Import PacketManager AckExchange Stream Pacing Congestion Connection Recovery ConnReach.
From S2P Require Import Tiling Dispatch Wire.

(** ** Reassembly of a tiling *)

Lemma held_tile xs m : (forall o c, m !! o = Some c -> (o, c) ∈ xs) ->
  held m <= Z.of_nat (length (mjoin xs.*2)).
Proof.
  revert m. induction xs as [|x xs IH]; intros m Hm.
  { replace m with (∅ : gmap Z (list byte)); [done|]. symmetry. apply map_empty. intros o.
    destruct (m !! o) eqn:E; [|done]. by apply Hm, not_elem_of_nil in E. }
  rewrite fmap_cons, join_cons, length_app. destruct (decide (m !! x.1 = Some x.2)) as [E|E].
  - rewrite (held_delete _ _ _ E). enough (held (delete x.1 m) <= Z.of_nat (length (mjoin xs.*2))) by lia.
    apply IH. intros o c [Hne Hc]%lookup_delete_Some. apply Hm, elem_of_cons in Hc as [<-|?]; [by destruct Hne | done].
  - enough (held m <= Z.of_nat (length (mjoin xs.*2))) by lia. apply IH.
    intros o c Hc. apply Hm in Hc as Hin. apply elem_of_cons in Hin as [<-|?]; [by destruct E | done].
Qed.

Section Reassembly.
Context (xs : list (Z * list byte)) (src := mjoin xs.*2) (Ht : tiled 0 xs).
Context (Hsrc : Z.of_nat (length src) <= maxStreamRecvOOO).

Lemma tile_chunk x : x ∈ xs -> chunk_of src x.1 x.2.
Proof using Ht. intros. by apply (tiled_chunk [] 0). Qed.

Lemma tile_laminar (ys : list (Z * list byte)) : (forall x, x ∈ ys -> x ∈ xs) -> laminar (.∈ ys).
Proof using Ht.
  intros Hs x y Hx Hy. destruct (tiled_apart 0 xs x y) as [->|[?|?]]; auto. right. right. left. lia.
Qed.

Lemma tile_shortest (ys : list (Z * list byte)) x : (forall x, x ∈ ys -> x ∈ xs) -> x ∈ xs -> shortest (.∈ ys) x.
Proof using Ht.
  intros Hs Hx y Hy E. destruct (tiled_apart 0 xs x y) as [->|H]; auto.
  pose proof (tiled_low 0 xs x Ht Hx). pose proof (tiled_low 0 xs y Ht (Hs y Hy)). lia.
Qed.

Lemma src_small : Z.of_nat (length src) < 2 ^ 62.
Proof using Hsrc. assert (maxStreamRecvOOO < 2 ^ 62) by done. lia. Qed.

(** The backstop is never hit. *)
Lemma tile_place r x : recv_ok src [] r -> from_all (.∈ xs) r -> x ∈ xs ->
  flowControlViolation (placeLocked r x.1 x.2).1 = flowControlViolation r.
Proof using Ht Hsrc.
  intros Hr Hfa Hx. pose proof (tile_chunk x Hx) as (H0 & Hl & _). pose proof src_small.
  destruct (Z.leb_spec (chunk_end x) (recvOffset r)); [by rewrite placeLocked_old by (done || width)|].
  destruct (Z.ltb_spec (recvOffset r) x.1) as [Ha|Ha].
  - rewrite placeLocked_ahead by width. destruct (recvOOO r !! x.1) eqn:E; [done|].
    assert (Hh : held (<[x.1 := x.2]> (recvOOO r)) <= Z.of_nat (length src)).
    { apply held_tile. intros o c [[<- <-]|[_ ?]]%lookup_insert_Some; [by destruct x | by apply Hfa]. }
    rewrite held_insert in Hh by done. rewrite (ro_bytes _ _ _ Hr).
    pose proof (held_nonneg (recvOOO r)). rewrite i64_small by width.
    by destruct (Z.ltb_spec maxStreamRecvOOO (held (recvOOO r) + Z.of_nat (length x.2))); [lia|].
  - destruct (placeLocked_now src src_small [] r x.1 x.2) as [_ ->]; try done; [by apply tile_chunk|].
    cbn [fst]. by rewrite release_flag.
Qed.

Definition empty_recv : Recv := MkRecv [] ∅ 0 0 false.

(** Whatever has arrived, in whatever order. *)
Lemma tile_deliver ys : (forall x, x ∈ ys -> x ∈ xs) -> let r := deliver_all ys empty_recv in
  recv_ok src [] r /\ from_all (.∈ xs) r /\ recvOOO r !! recvOffset r = None /\ flowControlViolation r = false.
Proof using Ht Hsrc.
  induction ys as [|x ys IH] using rev_ind; intros Hs; cbv zeta.
  { split_and!; [|by intros o c | done..]. split; try done; cbn; lia. }
  destruct IH as (Hr & Hfa & Hn & Hv); [intros; apply Hs, elem_of_app; by left|]. cbv zeta in *.
  assert (Hx : x ∈ xs) by (apply Hs, elem_of_app; right; left).
  unfold deliver_all. rewrite fold_left_app. cbn [fold_left]. fold (deliver_all ys empty_recv).
  set (r := deliver_all ys empty_recv) in *. pose proof (tile_place r x Hr Hfa Hx) as Hp. rewrite Hv in Hp.
  destruct (placeLocked_kept src src_small (.∈ xs) (tile_laminar xs (fun x Hx => Hx)) tile_chunk [] r x Hr Hfa Hx Hn Hp)
    as (_ & Hfa' & Hn' & _).
  split_and!; try done. apply placeLocked_ok; [apply src_small | done | by apply tile_chunk].
Qed.

(** When everything has arrived, everything has been put together. *)
Lemma tile_complete ys : (forall x, x ∈ ys -> x ∈ xs) -> (forall x, x ∈ xs -> x ∈ ys) ->
  let r := deliver_all ys empty_recv in
  recvBuf r = src /\ recvOffset r = Z.of_nat (length src).
Proof using Ht Hsrc.
  intros H1 H2. cbv zeta. destruct (tile_deliver ys H1) as (Hr & _ & _ & Hv). cbv zeta in *.
  destruct (deliver_all_complete src ys (Z.of_nat (length src)) src_small) as [Hle Hbuf]; try done.
  - by apply tile_laminar.
  - intros x Hx. by apply tile_chunk, H1.
  - intros i Hi. destruct (tiled_cover 0 xs i Ht Hi) as (x & Hx & Hxi). exists x.
    split_and!; [by apply H2 | by apply tile_shortest | lia..].
  - fold empty_recv in Hle, Hbuf. pose proof (ro_offset _ _ _ Hr). assert (E : recvOffset (deliver_all ys empty_recv) = Z.of_nat (length src)) by lia.
    split; [|done]. rewrite Hbuf, E, Nat2Z.id. apply firstn_all.
Qed.
End Reassembly.

(** ** The sender's datagrams *)

Lemma chunks_no_fin k fuel o syn data f : f ∈ chunk_frames fuel k o syn false data -> IsFin f = false.
Proof.
  revert o syn data. induction fuel as [|fuel IH]; intros o syn data; cbn [chunk_frames];
    [by intros ?%not_elem_of_nil|]. destruct data as [|b data]; [by intros ?%not_elem_of_nil|].
  intros [->|Hin]%elem_of_cons; [done | by eapply IH].
Qed.


(** What an operation handed to the socket. *)
Definition sent_by (c c' : Connection) : list (list byte) := (drop (length (wire c)) (wire c')).*1.

(** The datagrams of one write: one for each chunk, with a number each. *)
Definition carries_chunk (c : Connection) (rid sid : Z) (b : list byte) (f : StreamFrame) : Prop :=
  exists q, is_u32 q /\ b = encoded c q rid sid [StreamF f].

Lemma data_packet_ok c seq dst src f : Sound any_frame any_ack c -> is_u32 seq -> is_u32 dst -> is_u32 src ->
  Frame_ok (StreamF f) -> Packet_ok (outgoing c seq dst src [StreamF f]).
Proof. intros Hs Hq Hd Hsrc Hf. split; try done; try apply Hs. apply Forall_singleton, Hf. Qed.

Lemma prepare_all_bufs now rid sid fs : forall c bufs c' bufs', is_u32 (nextSeq (c_pm c)) -> addrValidated (path c) = true ->
  fold_left (prepare_all now rid sid) fs (c, bufs) = (c', bufs') ->
  same c c' /\ wire c' = wire c /\ exists new, bufs' = bufs ++ new /\ Forall2 (carries_chunk c rid sid) new fs.
Proof.
  induction fs as [|f fs IH]; intros c bufs c' bufs' Hs Hv; cbn [fold_left].
  { intros [= <- <-]. split_and!; try done. exists []. by rewrite app_nil_r. }
  pose proof (prepare_same now rid sid [StreamF f] c) as E.
  unfold prepare_all at 2. unfold prepareDataPacket in *. cbv zeta in *.
  match goal with H : context [amplifies ?n ?c1] |- _ => assert (Ea : amplifies n c1 = false)
    by (unfold amplifies; change (addrValidated (path c1)) with (addrValidated (path c)); by rewrite Hv) end.
  rewrite Ea in *. cbn [fst] in *. match type of E with same c ?x => set (c1 := x) in * end.
  intros (E1 & E2 & new & -> & Hnew)%IH; [|apply u32_range | done].
  split_and!; [by rewrite E | done |]. exists (encoded c (nextSeq (c_pm c)) rid sid [StreamF f] :: new).
  rewrite <- app_assoc. split; [done|]. constructor; [exists (nextSeq (c_pm c)); split; [exact Hs | done]|].
  eapply Forall2_impl; [exact Hnew|]. intros b g (q & Hq & ->). exists q. split; [done|]. done.
Qed.

Lemma sendStreamFrames_wire now sid rid o data k syn c : Sound any_frame any_ack c -> addrValidated (path c) = true ->
  sendFunc c = true -> exists sent, sent_by c (sendStreamFrames now sid rid o data k syn c) = sent /\
    Forall2 (carries_chunk c rid sid) sent (chunk_frames (length data) (Z.to_nat k) o syn false data).
Proof.
  intros Hs Hv Hsend. unfold sent_by, sendStreamFrames.
  destruct (fold_left _ _ _) as [c' bufs] eqn:E. apply prepare_all_bufs in E as (E1 & E2 & new & -> & Hnew); [|apply Hs | done].
  exists new. split; [|done]. unfold writeDatagrams. rewrite (same_send E1), Hsend, orb_true_r. cbn [wire set_wire].
  rewrite E2, drop_app_length, <- list_fmap_compose, list_fmap_id. done.
Qed.

(** ** The receiver *)

(** A stream that has only been delivered to. *)
Record receiving (id rid : Z) (r : Recv) (s : Stream) : Prop := {
  rc_ids : ID s = id /\ RemoteID s = rid;
  rc_state : state s = StreamStateOpen;
  rc_fin : finSeen s = false /\ finReceived s = false;
  rc_recv : recv s = r
}.

Lemma deliver_receiving id rid r f s : receiving id rid r s -> IsFin f = false -> Data f <> [] ->
  flowControlViolation (placeLocked r (Offset f) (Data f)).1 = false ->
  receiving id rid (placeLocked r (Offset f) (Data f)).1 (deliver f s).
Proof.
  intros [[H1 H2] H3 [H4 H5] H6] Hf Hd Hv. unfold deliver. rewrite Hf.
  replace (0 <? length (Data f))%nat with true by (destruct (Data f); [done | by symmetry; apply Nat.ltb_lt; cbn; lia]).
  unfold DeliverData. rewrite H6. destruct (placeLocked r _ _) as [r' n]. cbn [fst] in *. rewrite Hv.
  case_match; cbn [fst]; [|by split]. unfold finishLocked. cbn. rewrite H4. by split.
Qed.

Lemma HandlePacket_stream (o : RangeOrder) now pkt f c : Frames pkt = [StreamF f] ->
  table (HandlePacket now pkt c) = table (handleStreamFrame now pkt f (note_arrival now pkt c)).
Proof.
  intros E. unfold HandlePacket. rewrite E. cbn [fold_left handleFrame]. cbv zeta.
  set (c1 := handleStreamFrame now pkt f _). case_match; [|done].
  unfold noteReceived. destruct (AckTracker.add _ _) as [r ooo]. cbv zeta. case_match; [|done].
  destruct (takeAckLocked _ _) as [a g]. exact (same_table (sendPacket_same now _ _ _ (set_acks a c1))).
Qed.

(** The receiver's run: datagrams out of [sent] arrive, in any order and any
    number of times, between other operations that leave the streams alone
    (timers, other calls). [ds] are the arrivals. *)
Inductive arrivals (exact : bool) (sent : list (list byte)) : Connection -> list (list byte) -> Connection -> Prop :=
  | arr_done c : arrivals exact sent c [] c
  | arr_datagram (o : RangeOrder) now d pkt ds c c' : d ∈ sent -> 0 <= now ->
      UnmarshalPacket d = Ok pkt -> arrivals exact sent (HandlePacket now pkt c) ds c' ->
      arrivals exact sent c (d :: ds) c'
  | arr_other c c1 ds c' : conn_step exact c c1 -> table c1 = table c -> arrivals exact sent c1 ds c' ->
      arrivals exact sent c ds c'.

Section Receiver.
Context (a : Connection) (sid : Z) (xs : list StreamFrame).
Context (Ht : tiled 0 (chunk <$> xs)).
Context (Hsrc : Z.of_nat (length (mjoin (chunk <$> xs).*2)) <= maxStreamRecvOOO).
Context (Ha : Sound any_frame any_ack a) (Hsid : is_u32 sid) (Hz : sid <> 0).
Context (Hxs : forall f, f ∈ xs -> IsFin f = false /\ Frame_ok (StreamF f)).
Context (exact : bool) (id : Z) (T : gmap Z Stream) (HT : Z.of_nat (size T) + 1 < 2 ^ 30).
Context (Hfresh : forall j s, T !! j = Some s -> RemoteID s <> sid).

(** Where the receiver stands after the chunks [ys]. *)
Record stands (ys : list (Z * list byte)) (c : Connection) : Prop := {
  st_reach : conn_reach exact c;
  st_sub : forall x, x ∈ ys -> x ∈ chunk <$> xs;
  st_table : ys = [] /\ streams (table c) = T /\ nextStreamID (table c) = id \/
    exists s, streams (table c) = <[id := s]> T /\ receiving id sid (deliver_all ys empty_recv) s
}.

Lemma stands_count ys c : stands ys c -> Z.of_nat (StreamCount c) < 2 ^ 30.
Proof using HT.
  intros [_ _ [(_ & E & _)|(s & E & _)]]; unfold StreamCount; rewrite E; [lia|].
  rewrite map_size_insert. case_match; cbn; lia.
Qed.

Lemma tile_data f : f ∈ xs -> Data f <> [].
Proof using Ht.
  clear -Ht. intros Hf. destruct (tiled_low 0 _ (chunk f) Ht) as [_ H]; [by apply list_elem_of_fmap_2|].
  unfold chunk_end in H. cbn in H. intros E. rewrite E in H. cbn in H. lia.
Qed.

Lemma datagram_packet q f n : is_u32 q -> f ∈ xs ->
  Packet_ok (received n (outgoing a q 0 sid [StreamF f])).
Proof using Ha Hsid Hxs.
  intros Hq Hf. destruct (Hxs f Hf) as [_ Hok].
  destruct (data_packet_ok a q 0 sid f); done.
Qed.

Lemma datagram_stands (o : RangeOrder) now q f n ys c : 0 <= now -> is_u32 q -> f ∈ xs -> stands ys c ->
  stands (ys ++ [chunk f]) (HandlePacket now (received n (outgoing a q 0 sid [StreamF f])) c).
Proof using Ht Hsrc Ha Hsid Hz Hxs HT Hfresh.
  intros Hnow Hq Hf Hst. pose proof Hst as [Hr Hsub Htab]. set (pkt := received n _).
  assert (Hp : Packet_ok pkt) by by apply datagram_packet.
  assert (Hin : chunk f ∈ chunk <$> xs) by by apply list_elem_of_fmap_2.
  assert (Hsub' : forall x, x ∈ ys ++ [chunk f] -> x ∈ chunk <$> xs).
  { intros x [? | Hx%list_elem_of_singleton]%elem_of_app; [auto | by rewrite Hx]. }
  pose proof (stands_count _ _ Hst) as Hc. pose proof (reach_table _ _ Hr Hc) as Hok.
  assert (Hzero : streams (table c) !! 0 = None).
  { destruct (streams (table c) !! 0) eqn:E; [|done]. apply (t_ids _ _ Hok) in E as (_ & _ & _ & E & _).
    destruct (isInitiator c); cbn in E; lia. }
  split; [eapply reach_step; [done | by apply (step_packet _ _ o)] | done |]. right.
  destruct (tile_deliver _ Ht Hsrc _ Hsub') as (_ & _ & _ & Hv). cbv zeta in Hv.
  unfold deliver_all in *. rewrite fold_left_app in *. cbn [fold_left] in *. fold (deliver_all ys empty_recv) in *.
  destruct (Hxs f Hf) as [Hfin _]. pose proof (tile_data f Hf) as Hd.
  rewrite (HandlePacket_stream o now pkt f c eq_refl). set (c0 := note_arrival now pkt c).
  assert (Et : table c0 = table c) by done. clearbody c0. rewrite <- Et in *.
  destruct Htab as [(-> & E & En)|(s & E & Hs)].
  - destruct (stream_frame_opens (isInitiator c) now pkt f c0) as (_ & Es & _); try done.
    + intros j [[-> [s Hs]]|(_ & _ & s & Hs & Hr')].
      * change (DestinationStreamID pkt) with 0 in Hs. congruence.
      * rewrite E in Hs. by apply (Hfresh j s).
    + by right.
    + eexists. split; [rewrite Es, E, En; reflexivity|]. by apply deliver_receiving.
  - assert (Hl : streams (table c0) !! id = Some s) by (by rewrite E, lookup_insert_eq).
    destruct (stream_frame_found (isInitiator c) now pkt f c0 id s) as (Es & _); try done.
    + right. split_and!; [done | done |]. exists s. split; [done | apply Hs].
    + exists (deliver f s). split; [|by apply deliver_receiving]. by rewrite Es, E, insert_insert_eq.
Qed.

Lemma datagram_decodes q f : is_u32 q -> f ∈ xs -> exists n,
  UnmarshalPacket (encoded a q 0 sid [StreamF f]) = Ok (received n (outgoing a q 0 sid [StreamF f])).
Proof using Ha Hsid Hxs.
  intros Hq Hf. eexists. apply unmarshal_marshal. destruct (Hxs f Hf) as [_ Hok].
  by apply data_packet_ok.
Qed.

Lemma arrivals_stand sent c ds c' : Forall2 (carries_chunk a 0 sid) sent xs -> arrivals exact sent c ds c' ->
  forall ys, stands ys c -> exists ys', stands (ys ++ ys') c' /\
    forall q f, is_u32 q -> f ∈ xs -> encoded a q 0 sid [StreamF f] ∈ ds -> chunk f ∈ ys'.
Proof using Ht Hsrc Ha Hsid Hz Hxs HT Hfresh.
  intros Hsent. induction 1 as [c|o now d pkt ds c c' Hd Hnow Hdec _ IH|c c1 ds c' Hstep Etab _ IH]; intros ys Hst.
  - exists []. rewrite app_nil_r. split; [done|]. by intros q f _ _ ?%not_elem_of_nil.
  - destruct (Forall2_elem_l _ _ _ _ Hsent Hd) as (g & Hg & q & Hq & ->).
    destruct (datagram_decodes q g Hq Hg) as [n E]. rewrite E in Hdec. injection Hdec as <-.
    destruct (IH _ (datagram_stands o now q g n ys c Hnow Hq Hg Hst)) as (ys' & H1 & H2).
    exists (chunk g :: ys'). split; [by rewrite <- app_assoc in H1|].
    intros q' f Hq' Hf [Eb|Hin]%elem_of_cons; [|right; by eapply H2].
    destruct (datagram_decodes q' f Hq' Hf) as [n' E']. rewrite Eb, E in E'.
    apply (f_equal (fun r => match r with Ok p => Frames p | _ => [] end)) in E'. injection E' as ->. left.
  - apply (IH ys). destruct Hst as [Hr Hsub Htab]. split; [by eapply reach_step | done | by rewrite Etab].
Qed.
End Receiver.

(** ** Property *)

(** C8. A transfer delivers the bytes written. A stream's first batch of [data],
    at most the peer's out-of-order buffer, is cut into datagrams by one
    connection; if they reach another connection in any order, each at least
    once and any number of times, between any of its other operations that
    leave its streams alone, then that connection has opened exactly one stream
    for them, its other streams are unchanged, and the first [Read] with room
    returns exactly [data]. *)
Theorem transfer_delivers (exact exact' : bool) (a b b' : Connection) (now sid k : Z) (data : list byte)
    (ds : list (list byte)) :
  conn_reach exact a -> sendFunc a = true -> addrValidated (path a) = true -> is_u32 sid -> sid <> 0 ->
  0 < k <= MaxDatagramSize -> data <> [] -> Z.of_nat (length data) <= maxStreamRecvOOO ->
  conn_reach exact' b -> Z.of_nat (StreamCount b) + 1 < 2 ^ 30 ->
  (forall id s, streams (table b) !! id = Some s -> RemoteID s <> sid) ->
  let sent := sent_by a (sendStreamFrames now sid 0 0 data k true a) in
  arrivals exact' sent b ds b' -> (forall d, d ∈ sent -> d ∈ ds) ->
  exists s, streams (table b') = <[nextStreamID (table b) := s]> (streams (table b)) /\
    RemoteID s = sid /\
    forall t n, (length data <= n)%nat -> (Read t s n).1.2 = RBytes data.
Proof.
  intros Ra Hsend Hv Hsid Hz Hk Hne Hlen Rb Hcount Hfresh. cbv zeta. intros Harr Hall.
  pose proof (h_sound _ _ _ (reach_healthy _ _ Ra)) as Ha.
  destruct (sendStreamFrames_wire now sid 0 0 data k true a) as (sent & E & Hsent); try done. rewrite E in *. clear E.
  set (xs := chunk_frames _ _ _ _ _ _) in *.
  destruct (chunk_frames_tile (Z.to_nat k) data ltac:(lia) (length data) 0 true false) as [Ht Hj]; try done.
  { assert (maxStreamRecvOOO < 2 ^ 62) by done. lia. }
  fold xs in Ht, Hj. replace (Data <$> xs) with ((chunk <$> xs).*2) in Hj by (by rewrite <- list_fmap_compose).
  assert (Hxs : forall f, f ∈ xs -> IsFin f = false /\ Frame_ok (StreamF f)).
  { intros f Hf. split; [by eapply chunks_no_fin | ]. eapply chunks_ok; [| |exact Hf]; [done | unfold MaxDatagramSize in *; lia]. }
  assert (Hst : stands sid xs exact' (nextStreamID (table b)) (streams (table b)) [] b).
  { split; [done | by intros x ?%not_elem_of_nil | by left]. }
  destruct (arrivals_stand a sid xs Ht ltac:(by rewrite Hj) Ha Hsid Hz Hxs exact' _ _ Hcount Hfresh sent b ds b' Hsent Harr [] Hst)
    as (ys & [_ Hsub Htab] & Hcov). cbn [app] in *.
  assert (Hall' : forall x, x ∈ chunk <$> xs -> x ∈ ys).
  { intros x (f & -> & Hf)%list_elem_of_fmap. destruct (Forall2_elem_r _ _ _ _ Hsent Hf) as (d & Hd & q & Hq & ->).
    by eapply Hcov, Hall. }
  destruct (tile_complete _ Ht ltac:(by rewrite Hj) ys Hsub Hall') as [Hbuf _]. rewrite Hj in Hbuf.
  destruct Htab as [(-> & _)|(s & Es & [[_ H2] _ _ H6])]; [by cbn in Hbuf; congruence|].
  exists s. split_and!; [done | done |]. intros t n Hn. unfold Read. rewrite H6, Hbuf, decide_False by done.
  rewrite take_ge by lia. repeat case_match; done.
Qed.

(** ** Witness: three bytes in two datagrams, which arrive swapped, one twice. *)

Section Sample.
#[local] Existing Instance key_order.

Definition arrive (c : Connection) (d : list byte) : Connection :=
  match UnmarshalPacket d with Ok pkt => HandlePacket (ms 60) pkt c | _ => c end.

Lemma arrive_all exact sent ds c : (forall d, d ∈ ds -> d ∈ sent /\ exists pkt, UnmarshalPacket d = Ok pkt) ->
  arrivals exact sent c ds (fold_left arrive ds c).
Proof.
  revert c. induction ds as [|d ds IH]; intros c Hd; [apply arr_done|]. cbn [fold_left].
  destruct (Hd d) as [H1 [pkt H2]]; [left|]. apply (arr_datagram exact sent key_order (ms 60) d pkt); try done.
  unfold arrive at 2. rewrite H2. apply IH. intros. apply Hd. by right.
Qed.

Definition abc : list byte := [x61; x62; x63].
#[local] Notation abc_sent := (sent_by run_open (sendStreamFrames (ms 50) 1 0 0 abc 2 true run_open)).
Definition abc_arrived : list (list byte) := [nth 1 abc_sent []; nth 0 abc_sent []; nth 1 abc_sent []].
Definition run_peer : Connection :=
  NewConnection (ms 1) (sample_cid x02) (sample_cid x01) None (Some "peer"%string) false true.

Lemma abc_two : abc_sent = [nth 0 abc_sent []; nth 1 abc_sent []].
Proof. vm_compute. reflexivity. Qed.

Lemma abc_subset d : d ∈ abc_arrived -> d ∈ abc_sent.
Proof. rewrite abc_two. unfold abc_arrived. generalize (nth 0 abc_sent []), (nth 1 abc_sent []). set_solver. Qed.

Lemma abc_all d : d ∈ abc_sent -> d ∈ abc_arrived.
Proof. rewrite abc_two. unfold abc_arrived. generalize (nth 0 abc_sent []), (nth 1 abc_sent []). set_solver. Qed.

Lemma abc_decodes d : d ∈ abc_arrived -> exists pkt, UnmarshalPacket d = Ok pkt.
Proof.
  intros Hd%abc_subset. assert (H : Forall (fun d => match UnmarshalPacket d with Ok _ => true | _ => false end = true) abc_sent).
  { rewrite abc_two. apply Forall_cons_2; [|apply Forall_cons_2; [|apply Forall_nil_2]]; vm_compute; reflexivity. }
  rewrite Forall_forall in H. specialize (H d Hd). destruct (UnmarshalPacket d); try done. by eexists.
Qed.

Lemma transfer_delivers_witness : exists s,
  streams (table (fold_left arrive abc_arrived run_peer)) =
    <[nextStreamID (table run_peer) := s]> (streams (table run_peer)) /\ RemoteID s = 1 /\
  forall t n, (length abc <= n)%nat -> (Read t s n).1.2 = RBytes abc.
Proof.
  apply (transfer_delivers true true run_open run_peer (fold_left arrive abc_arrived run_peer) (ms 50) 1 2 abc abc_arrived).
  - eapply reach_step; [|apply step_own, step_open].
    eapply reach_step; [|apply (step_packet _ _ key_order); [done | by apply ack_of_ok]]. apply run_acked_reach.
  - by vm_compute.
  - by vm_compute.
  - done.
  - done.
  - done.
  - done.
  - done.
  - apply reach_new; apply sample_cid_ok.
  - by vm_compute.
  - intros id s Hs. by vm_compute in Hs.
  - apply arrive_all. intros d Hd. split; [by apply abc_subset | by apply abc_decodes].
  - exact abc_all.
Defined.
End Sample.
