(* ===== verification/Multiplexer.v ===== *)
(** * The multiplexer (src/multiplexer.go)

    Routing of datagrams to connections by destination connection ID, packets
    that arrive before their connection, dialling, accepting and closing.
    [Connection] pointers are keys of [heap], so that the routing map, the
    accept queue and the application share the objects. The socket is the
    connections' [wire]; the loop that reads it is in [ReadLoop]. *)

From stdpp Require Import strings.
From S2P Require Import Prelude Constants Cid Frame Packet AckTracker FlowControl Mtud.
From S2P Require Import PacketManager AckExchange Stream Pacing Congestion Connection Recovery ConnReach.
From S2P Require Import Dispatch Wire.

Record earlyPacket := MkEarly { ep_pkt : Packet; ep_addr : option addr }.

Definition conn_ptr : Type := positive.

Record Multiplexer := MkMux {
  mux_addr : option addr;                       (* conn.LocalAddr() *)
  heap : gmap conn_ptr Connection;
  connections : gmap string conn_ptr;
  earlyPackets : gmap string (list earlyPacket);
  incoming : list conn_ptr;                     (* a channel of capacity 16 *)
  mux_closed : bool                             (* closeOnce and closeCh *)
}.

Definition NewMultiplexer (laddr : option addr) : Multiplexer := MkMux laddr ∅ ∅ ∅ [] false.

Definition acceptCap : nat := 16.
Definition earlyCIDs : nat := 256.
Definition earlyPerCID : nat := 32.

(** [Accept] waits until one of three things is ready and takes any of the
    ready ones. *)
Inductive Accept (ctxDone : bool) (m : Multiplexer) : Multiplexer -> conn_ptr + conn_error -> Prop :=
  | mux_take p rest : incoming m = p :: rest ->
      Accept ctxDone m (MkMux (mux_addr m) (heap m) (connections m) (earlyPackets m) rest
        (mux_closed m)) (inl p)
  | mux_ctx : ctxDone = true -> Accept ctxDone m m (inr ErrContext)
  | mux_shut : mux_closed m = true -> Accept ctxDone m m (inr ErrConnectionClosed).

(** Writing through a pointer. *)
Definition set_conn (p : conn_ptr) (c : Connection) (m : Multiplexer) : Multiplexer :=
  MkMux (mux_addr m) (<[p := c]> (heap m)) (connections m) (earlyPackets m) (incoming m) (mux_closed m).

(** [Dial]: what it draws from crypto/rand for the two IDs is given. *)
Definition Dial (now : Z) (random1 random2 : nat -> option (list byte)) (a : option addr)
    (m : Multiplexer) : Prelude.outcome (Multiplexer * conn_ptr) :=
  local ← RandomConnectionID random1 (Z.of_nat DefaultCIDLength);
  remote ← RandomConnectionID random2 (Z.of_nat DefaultCIDLength);
  let p := fresh (dom (heap m)) in
  let c := establish (NewConnection now local remote (mux_addr m) a true true) in
  let c := sendFrames now [StreamF (MkStreamFrame false true 0 [])] c in
  Ok (MkMux (mux_addr m) (<[p := c]> (heap m)) (<[CIDString local := p]> (connections m))
        (earlyPackets m) (incoming m) (mux_closed m), p).

Definition removeConnection (cidKey : string) (m : Multiplexer) : Multiplexer :=
  MkMux (mux_addr m) (heap m) (delete cidKey (connections m)) (earlyPackets m) (incoming m)
    (mux_closed m).

(** An operation of a connection took it from [c] to [c']; if it closed, its
    [onClose] has run. *)
Definition conn_changed (p : conn_ptr) (c c' : Connection) (m : Multiplexer) : Multiplexer :=
  let m := set_conn p c' m in
  if closeReported (life c') && negb (closeReported (life c))
  then removeConnection (CIDString (localCID c')) m else m.

(** [Close] closes every routed connection, after it has emptied the map. *)
Definition MuxClose (now : Z) (m : Multiplexer) : Multiplexer :=
  if mux_closed m then m
  else
    let routed := (map_to_list (connections m)).*2 in
    MkMux (mux_addr m)
      (map_imap (fun p c => Some (if decide (p ∈ routed) then CloseConn now c else c)) (heap m))
      ∅ (earlyPackets m) (incoming m) true.

Definition Addr (m : Multiplexer) : option addr := mux_addr m.

Definition ConnectionCount (m : Multiplexer) : nat := size (connections m).

(** Whether the channel [closeCh] of a connection is closed. *)
Definition isClosed (m : Multiplexer) (p : conn_ptr) : bool :=
  match heap m !! p with Some c => closeCh (life c) | None => false end.

(** A tick of [idleTimeoutLoop]. *)
Definition idleTick (m : Multiplexer) : Multiplexer :=
  MkMux (mux_addr m) (heap m)
    (filter (fun e => isClosed m e.2 = false) (connections m))
    (earlyPackets m) (incoming m) (mux_closed m).

(** ** Received datagrams *)

Definition is_syn (f : Frame) : bool := match f with StreamF sf => IsSyn sf | _ => false end.
Definition hasSyn (pkt : Packet) : bool := existsb is_syn (Frames pkt).

Definition bufferEarly (cidKey : string) (pkt : Packet) (a : option addr) (m : Multiplexer)
    : Multiplexer :=
  if (size (earlyPackets m) <? earlyCIDs)%nat then
    let buf := default [] (earlyPackets m !! cidKey) in
    if (length buf <? earlyPerCID)%nat
    then MkMux (mux_addr m) (heap m) (connections m)
           (<[cidKey := buf ++ [MkEarly pkt a]]> (earlyPackets m)) (incoming m) (mux_closed m)
    else m
  else m.

Definition acceptNew (now : Z) (cidKey : string) (pkt : Packet) (a : option addr) (m : Multiplexer)
    : Multiplexer :=
  let c := establish (NewConnection now (DestinationCID pkt) (SourceCID pkt) (mux_addr m) a false true) in
  let early := default [] (earlyPackets m !! cidKey) in
  let c := fold_left (fun c pkt => enqueue pkt c) (pkt :: (ep_pkt <$> early)) c in
  let p := fresh (dom (heap m)) in
  MkMux (mux_addr m) (<[p := c]> (heap m)) (<[cidKey := p]> (connections m))
    (delete cidKey (earlyPackets m))
    (if (length (incoming m) <? acceptCap)%nat then incoming m ++ [p] else incoming m)
    (mux_closed m).

(** [handleDatagram]; [random] is what [observeAddr] draws. The challenge a new
    address calls for, which is sent on a goroutine of its own, is returned
    with the connection it is for. *)
Definition handleDatagram (now : Z) (random : option (list byte)) (data : list byte)
    (a : option addr) (m : Multiplexer) : Multiplexer * option (conn_ptr * (list Frame * addr)) :=
  match UnmarshalPacket data with
  | Ok pkt =>
      if negb (Version pkt =? VersionCurrent) then (m, None)
      else
        let cidKey := CIDString (DestinationCID pkt) in
        match connections m !! cidKey with
        | Some p =>
            match heap m !! p with
            | Some c =>
                let '(c, challenge) := observeAddr now a random c in
                (set_conn p (enqueue pkt c) m, pair p <$> challenge)
            | None => (m, None)
            end
        | None =>
            if negb (hasSyn pkt) then (bufferEarly cidKey pkt a m, None)
            else (acceptNew now cidKey pkt a m, None)
        end
  | _ => (m, None)
  end.

(** ** Runs *)

(** What crypto/rand delivers has the length asked for. *)
Definition delivers (random : nat -> option (list byte)) : Prop :=
  forall n bs, random n = Some bs -> length bs = n.

(** One operation of the multiplexer, or of one of its connections (a packet
    taken from its queue, a timer, a call of the application); a connection
    puts nothing into its own queue. *)
Inductive mux_step (exact : bool) (m : Multiplexer) : Multiplexer -> Prop :=
  | mux_datagram now random data a : 0 <= now -> mux_step exact m (handleDatagram now random data a m).1
  | mux_dial now r1 r2 a m' p : 0 <= now -> delivers r1 -> delivers r2 -> Dial now r1 r2 a m = Ok (m', p) ->
      mux_step exact m m'
  | mux_accept ctx m' r : Accept ctx m m' r -> mux_step exact m m'
  | mux_close now : 0 <= now -> mux_step exact m (MuxClose now m)
  | mux_tick : mux_step exact m (idleTick m)
  | mux_conn p c c' : heap m !! p = Some c -> conn_step exact c c' ->
      (inbound c' = inbound c \/ exists pkt, inbound c = pkt :: inbound c') ->
      mux_step exact m (conn_changed p c c' m).

Inductive mux_reach (exact : bool) : Multiplexer -> Prop :=
  | mux_new laddr : mux_reach exact (NewMultiplexer laddr)
  | mux_next m m' : mux_reach exact m -> mux_step exact m m' -> mux_reach exact m'.

(** A packet for this key. *)
Definition own (key : string) (pkt : Packet) : Prop :=
  CIDString (DestinationCID pkt) = key /\ Version pkt = VersionCurrent /\ Packet_ok pkt.

(** A connection of a multiplexer: a run of connection operations has produced
    it, its queue holds packets for it only, and it can send: it has a socket
    and counts its peer's address as validated. *)
Record conn_ok (exact : bool) (c : Connection) : Prop := {
  co_reach : conn_reach exact c;
  co_inbound : Forall (own (CIDString (localCID c))) (inbound c);
  co_queue : (length (inbound c) <= inboundQueue)%nat;
  co_ready : ready c
}.

Record Mux_ok (exact : bool) (m : Multiplexer) : Prop := {
  mo_heap : map_Forall (fun _ c => conn_ok exact c) (heap m);
  (* every route leads to the connection with that ID, which is not closed *)
  mo_routes : forall key p, connections m !! key = Some p -> exists c, heap m !! p = Some c /\
    CIDString (localCID c) = key /\ closeReported (life c) = false;
  mo_early : (size (earlyPackets m) <= earlyCIDs)%nat /\
    map_Forall (fun key buf => (length buf <= earlyPerCID)%nat /\
      Forall (fun e => own key (ep_pkt e) /\ hasSyn (ep_pkt e) = false) buf) (earlyPackets m);
  mo_incoming : (length (incoming m) <= acceptCap)%nat /\ forall p, p ∈ incoming m -> is_Some (heap m !! p)
}.

(** ** The invariant *)

Lemma same_inbound c c' : same c c' -> inbound c' = inbound c.
Proof. intros E. by injection E. Qed.

Lemma closeInternal_inbound now code reason announce c : inbound (closeInternal now code reason announce c) = inbound c.
Proof.
  unfold closeInternal. destruct (closeOnce (life c)); [done|]. destruct announce; [|done].
  exact (same_inbound _ _ (sendFrames_same now _ (close_begin c))).
Qed.

Lemma step_local e c c' : conn_step e c c' -> localCID c' = localCID c.
Proof. intros [E _]%conn_step_moves. by injection E. Qed.

Lemma conn_ok_step e c c' : conn_ok e c -> conn_step e c c' ->
  (inbound c' = inbound c \/ exists pkt, inbound c = pkt :: inbound c') -> conn_ok e c'.
Proof.
  intros [H1 H2 H3 H4] Hs Hi. split; [by eapply reach_step|..| by eapply conn_step_ready];
    rewrite ?(step_local _ _ _ Hs).
  - destruct Hi as [->|[pkt Hi]]; [done|]. rewrite Hi in H2. by apply Forall_cons in H2 as [_ ?].
  - destruct Hi as [->|[pkt Hi]]; [done|]. rewrite Hi in H3. cbn in H3. lia.
Qed.

Lemma enqueue_conn_ok e pkt c : conn_ok e c -> own (CIDString (localCID c)) pkt -> conn_ok e (enqueue pkt c).
Proof.
  intros [H1 H2 H3 H4] Hp. split; [eapply reach_step; [done | apply step_own, step_enqueue]|..]; unfold enqueue;
    destruct (Nat.ltb_spec (length (inbound c)) inboundQueue); cbn [inbound localCID set_inbound]; try done.
  - apply Forall_app. split; [done|]. by apply Forall_singleton.
  - rewrite length_app. cbn. lia.
Qed.

Lemma enqueue_all e pkts c : conn_ok e c -> Forall (own (CIDString (localCID c))) pkts ->
  let c' := fold_left (fun c pkt => enqueue pkt c) pkts c in
  conn_ok e c' /\ localCID c' = localCID c /\ closeReported (life c') = closeReported (life c).
Proof.
  intros Hc Hp. cbv zeta. revert c Hc Hp. induction pkts as [|pkt pkts IH]; intros c Hc Hp; [done|].
  apply Forall_cons in Hp as [Hp Hps]. cbn [fold_left].
  assert (E : localCID (enqueue pkt c) = localCID c /\ life (enqueue pkt c) = life c) by (unfold enqueue; by case_match).
  destruct E as [E1 E2]. destruct (IH (enqueue pkt c)) as (I1 & I2 & I3); [by apply enqueue_conn_ok | by rewrite E1 |].
  by rewrite I2, I3, E1, E2.
Qed.

Lemma new_conn_ok e now local remote la ra i : CID_ok local -> CID_ok remote ->
  conn_ok e (establish (NewConnection now local remote la ra i true)).
Proof.
  intros Hl Hr. split; [|apply Forall_nil_2 | cbn; lia | done].
  apply (reach_step e (NewConnection now local remote la ra i true)); [by apply reach_new | apply step_own, step_establish].
Qed.

(** One connection changes, and the routes stay. *)
Lemma set_conn_ok e p c c' m : Mux_ok e m -> heap m !! p = Some c -> conn_ok e c' ->
  localCID c' = localCID c -> closeReported (life c') = closeReported (life c) -> Mux_ok e (set_conn p c' m).
Proof.
  intros [H1 H2 H3 H4] Hp Hc El Er. split; [|..| done |]; cbn [heap set_conn connections incoming].
  - by apply map_Forall_insert_2.
  - intros key q Hq. destruct (H2 _ _ Hq) as (d & Hd & Ek & Hr). destruct (decide (q = p)) as [->|Hne].
    + exists c'. rewrite lookup_insert_eq. split_and!; [done | congruence..].
    + exists d. by rewrite lookup_insert_ne.
  - split; [apply H4|]. intros q Hq. apply lookup_insert_is_Some'. right. by apply H4.
Qed.

(** A new connection, and a route to it. *)
Lemma new_route_ok e m p c key early inc : Mux_ok e m -> heap m !! p = None -> conn_ok e c ->
  CIDString (localCID c) = key -> closeReported (life c) = false ->
  (size early <= earlyCIDs)%nat /\ map_Forall (fun key buf => (length buf <= earlyPerCID)%nat /\
      Forall (fun e => own key (ep_pkt e) /\ hasSyn (ep_pkt e) = false) buf) early ->
  (length inc <= acceptCap)%nat -> (forall q, q ∈ inc -> q = p \/ q ∈ incoming m) ->
  Mux_ok e (MkMux (mux_addr m) (<[p := c]> (heap m)) (<[key := p]> (connections m)) early inc (mux_closed m)).
Proof.
  intros [H1 H2 _ H4] Hp Hc Ek Hr He Hi Hin. split; [by apply map_Forall_insert_2 | | done |]; cbn [heap connections incoming].
  - intros k q [[<- <-]|[Hne Hq]]%lookup_insert_Some; [exists c; by rewrite lookup_insert_eq|].
    destruct (H2 _ _ Hq) as (d & Hd & ? & ?). exists d. rewrite lookup_insert_ne; [done | congruence].
  - split; [done|]. intros q Hq. apply lookup_insert_is_Some'. destruct (Hin q Hq) as [->|?]; [by left | right; by apply H4].
Qed.

Lemma conn_changed_ok e p c c' m : Mux_ok e m -> heap m !! p = Some c -> conn_ok e c' -> localCID c' = localCID c ->
  Mux_ok e (conn_changed p c c' m).
Proof.
  intros Hm Hp Hc El. unfold conn_changed.
  destruct (closeReported (life c')) eqn:E1, (closeReported (life c)) eqn:E2; cbn [andb negb];
    try (apply (set_conn_ok e p c); congruence).
  - destruct Hm as [H1 H2 H3 H4]. split; [by apply map_Forall_insert_2 | | done |]; cbn [heap set_conn removeConnection connections incoming].
    + intros key q [Hne Hq]%lookup_delete_Some. destruct (H2 _ _ Hq) as (d & Hd & Ek & Hr).
      exists d. rewrite lookup_insert_ne; [done|]. intros <-. congruence.
    + split; [apply H4|]. intros q Hq. apply lookup_insert_is_Some'. right. by apply H4.
  - destruct Hm as [H1 H2 H3 H4]. split; [by apply map_Forall_insert_2 | | done |]; cbn [heap set_conn connections incoming].
    + intros key q Hq. destruct (H2 _ _ Hq) as (d & Hd & Ek & Hr).
      exists d. rewrite lookup_insert_ne; [done|]. intros <-. congruence.
    + split; [apply H4|]. intros q Hq. apply lookup_insert_is_Some'. right. by apply H4.
Qed.

Lemma early_own e m key : Mux_ok e m ->
  let buf := default [] (earlyPackets m !! key) in
  (length buf <= earlyPerCID)%nat /\ Forall (fun e => own key (ep_pkt e) /\ hasSyn (ep_pkt e) = false) buf.
Proof.
  intros [_ _ [_ He] _]. cbv zeta. destruct (earlyPackets m !! key) as [buf|] eqn:E; cbn [default].
  - by apply (He _ _ E).
  - split; [cbn; unfold earlyPerCID; lia | apply Forall_nil_2].
Qed.

Lemma bufferEarly_ok e key pkt a m : Mux_ok e m -> own key pkt -> hasSyn pkt = false ->
  Mux_ok e (bufferEarly key pkt a m).
Proof.
  intros Hm Hp Hs. pose proof (early_own e m key Hm) as [_ Hb]. unfold bufferEarly.
  destruct (Nat.ltb_spec (size (earlyPackets m)) earlyCIDs) as [Hl|]; [|done]. cbv zeta in *.
  destruct (Nat.ltb_spec (length (default [] (earlyPackets m !! key))) earlyPerCID) as [Hn|]; [|done].
  destruct Hm as [H1 H2 [_ H3] H4]. split; try done. cbn [earlyPackets]. split.
  - rewrite map_size_insert. case_match; cbn; unfold earlyCIDs in *; lia.
  - apply map_Forall_insert_2; [|done]. split; [rewrite length_app; cbn; unfold earlyPerCID in *; lia|].
    apply Forall_app. split; [done|]. by apply Forall_singleton.
Qed.

Lemma accept_conn_ok e now pkt a m (key := CIDString (DestinationCID pkt)) : Mux_ok e m -> own key pkt ->
  let c := fold_left (fun c pkt => enqueue pkt c) (pkt :: (ep_pkt <$> default [] (earlyPackets m !! key)))
    (establish (NewConnection now (DestinationCID pkt) (SourceCID pkt) (mux_addr m) a false true)) in
  conn_ok e c /\ localCID c = DestinationCID pkt /\ closeReported (life c) = false.
Proof.
  intros Hm Hp. cbv zeta. destruct Hp as (E & Hv & Hok).
  destruct (enqueue_all e (pkt :: (ep_pkt <$> default [] (earlyPackets m !! key)))
    (establish (NewConnection now (DestinationCID pkt) (SourceCID pkt) (mux_addr m) a false true))) as (I1 & I2 & I3).
  - apply new_conn_ok; apply Hok.
  - constructor; [done|]. apply Forall_fmap. destruct (early_own e m key Hm) as [_ Hb].
    eapply Forall_impl; [exact Hb|]. by intros ep [? _].
  - done.
Qed.

Lemma acceptNew_ok e now pkt a m (key := CIDString (DestinationCID pkt)) : Mux_ok e m -> own key pkt ->
  Mux_ok e (acceptNew now key pkt a m).
Proof.
  intros Hm Hp. destruct (accept_conn_ok e now pkt a m Hm Hp) as (C1 & C2 & C3). cbv zeta in C1, C2, C3. fold key in C1, C2, C3.
  unfold acceptNew. cbv zeta. apply new_route_ok; try done.
  - apply not_elem_of_dom, is_fresh.
  - by rewrite C2.
  - destruct Hm as [_ _ [Hsz He] _]. split.
    + rewrite map_size_delete. case_match; cbn; lia.
    + by apply map_Forall_delete.
  - destruct Hm as [_ _ _ [Hi _]]. destruct (Nat.ltb_spec (length (incoming m)) acceptCap); [|done]. rewrite length_app. cbn. lia.
  - intros q. case_match; [|by right]. intros [? | E%list_elem_of_singleton]%elem_of_app; [by right | by left].
Qed.

Lemma observe_step e now a random c : conn_step e c (observeAddr now a random c).1 /\
  inbound (observeAddr now a random c).1 = inbound c /\ life (observeAddr now a random c).1 = life c /\
  localCID (observeAddr now a random c).1 = localCID c.
Proof. split; [apply step_own, step_observe|]. unfold observeAddr. by repeat case_match. Qed.

Lemma handleDatagram_ok e now random data a m : Mux_ok e m -> Mux_ok e (handleDatagram now random data a m).1.
Proof.
  intros Hm. unfold handleDatagram. pose proof (unmarshal_safe data) as Hs.
  destruct (UnmarshalPacket data) as [pkt| | |]; try done. destruct Hs as [Hok _].
  destruct (Version pkt =? VersionCurrent) eqn:Ev; [|done]. apply Z.eqb_eq in Ev. cbn [negb]. cbv zeta.
  destruct (connections m !! _) as [p|] eqn:Er.
  - destruct (mo_routes _ _ Hm _ _ Er) as (c & Hc & Ek & Hr). rewrite Hc.
    destruct (observe_step e now a random c) as (Hstep & Ei & El & Elc).
    destruct (observeAddr now a random c) as [c1 ch]. cbn [fst] in *.
    assert (Hc1 : conn_ok e c1) by (apply (conn_ok_step e c); [apply (mo_heap _ _ Hm _ _ Hc) | done | by left]).
    assert (E : localCID (enqueue pkt c1) = localCID c1 /\ life (enqueue pkt c1) = life c1) by (unfold enqueue; by case_match).
    destruct E as [E1 E2]. apply (set_conn_ok e p c); try done; [|congruence..].
    apply enqueue_conn_ok; [done|]. split_and!; [congruence | done..].
  - destruct (hasSyn pkt) eqn:Esyn; cbn [negb fst]; [by apply acceptNew_ok | by apply bufferEarly_ok].
Qed.

Lemma Dial_ok e now r1 r2 a m m' p : 0 <= now -> delivers r1 -> delivers r2 -> Dial now r1 r2 a m = Ok (m', p) ->
  Mux_ok e m -> Mux_ok e m'.
Proof.
  intros Hnow H1 H2 Hd Hm. unfold Dial in Hd.
  destruct (RandomConnectionID r1 _) as [local| | |] eqn:E1; cbn [mbind outcome_bind] in Hd; try done.
  destruct (RandomConnectionID r2 _) as [remote| | |] eqn:E2; cbn [mbind outcome_bind] in Hd; try done.
  injection Hd as <- <-. apply RandomConnectionID_ok in E1, E2; try done.
  set (c0 := establish _). pose proof (new_conn_ok e now local remote (mux_addr m) a true E1 E2) as Hc0. fold c0 in Hc0.
  pose proof (sendFrames_same now [StreamF (MkStreamFrame false true 0 [])] c0) as Hsame.
  apply new_route_ok; try done.
  - apply not_elem_of_dom, is_fresh.
  - apply (conn_ok_step e c0); [done | by apply step_own, step_syn | left; by apply same_inbound].
  - apply Hm.
  - apply Hm.
  - intros q Hq. by right.
Qed.

Lemma MuxClose_ok e now m : 0 <= now -> Mux_ok e m -> Mux_ok e (MuxClose now m).
Proof.
  intros Hnow Hm. unfold MuxClose. destruct (mux_closed m); [done|]. destruct Hm as [H1 H2 H3 [H4 H5]].
  split; [|done | done |]; cbn [heap incoming].
  - intros p c. rewrite map_lookup_imap. intros (d & Hd & [= <-])%bind_Some. specialize (H1 _ _ Hd).
    case_decide; [|done]. unfold CloseConn, CloseWithError.
    apply (conn_ok_step e d); [done | by apply step_own, step_close | left; apply closeInternal_inbound].
  - split; [done|]. intros p [c Hp]%H5. exists (if decide (p ∈ (map_to_list (connections m)).*2) then CloseConn now c else c).
    by rewrite map_lookup_imap, Hp.
Qed.

Lemma mux_step_ok e m m' : mux_step e m m' -> Mux_ok e m -> Mux_ok e m'.
Proof.
  intros Hs Hm. destruct Hs as [now random data a _|now r1 r2 a m' p Hn H1 H2 Hd|ctx m' r Ha|now Hn| |p c c' Hp Hstep Hi].
  - by apply handleDatagram_ok.
  - by apply (Dial_ok e now r1 r2 a m m' p).
  - destruct Ha as [p rest E| |]; try done. destruct Hm as [H1 H2 H3 [H4 H5]]. rewrite E in H4, H5.
    split; try done. split; [cbn in *; lia|]. intros q Hq. apply H5. by right.
  - by apply MuxClose_ok.
  - destruct Hm as [H1 H2 H3 H4]. split; try done. intros key q [Hq _]%map_lookup_filter_Some. by apply H2.
  - apply conn_changed_ok; try done; [|by eapply step_local].
    apply (conn_ok_step e c); try done. by apply (mo_heap _ _ Hm p).
Qed.

Lemma mux_reach_ok e m : mux_reach e m -> Mux_ok e m.
Proof.
  induction 1 as [laddr|m m' _ IH Hs]; [|by eapply mux_step_ok].
  split; [apply map_Forall_empty | done | |]; (split; [by apply Nat.leb_le|]);
    [apply map_Forall_empty | by intros p ?%not_elem_of_nil].
Qed.

(** ** Routing *)

Lemma enqueue_all_eq pkts c : (length (inbound c) + length pkts <= inboundQueue)%nat ->
  fold_left (fun c pkt => enqueue pkt c) pkts c = set_inbound (inbound c ++ pkts) (inboundDropped c) c.
Proof.
  revert c. induction pkts as [|pkt pkts IH]; intros c Hl; cbn [fold_left]; [rewrite app_nil_r; by destruct c|].
  cbn [length] in Hl. assert (E : enqueue pkt c = set_inbound (inbound c ++ [pkt]) (inboundDropped c) c).
  { unfold enqueue. destruct (Nat.ltb_spec (length (inbound c)) inboundQueue); [done | lia]. }
  rewrite E, IH; [cbn [inbound set_inbound]; by rewrite <- app_assoc|]. cbn [inbound set_inbound]. rewrite length_app. cbn. lia.
Qed.

Lemma enqueue_room pkts c : (length (inbound c) + length pkts <= inboundQueue)%nat ->
  inbound (fold_left (fun c pkt => enqueue pkt c) pkts c) = inbound c ++ pkts.
Proof. intros Hl. by rewrite enqueue_all_eq. Qed.

Lemma enqueue_cids pkts c : remoteCID (fold_left (fun c pkt => enqueue pkt c) pkts c) = remoteCID c.
Proof.
  revert c. induction pkts as [|pkt pkts IH]; intros c; cbn [fold_left]; [done|]. rewrite IH. unfold enqueue. by case_match.
Qed.

Lemma enqueue_local pkts c : localCID (fold_left (fun c pkt => enqueue pkt c) pkts c) = localCID c.
Proof.
  revert c. induction pkts as [|pkt pkts IH]; intros c; cbn [fold_left]; [done|]. rewrite IH. unfold enqueue. by case_match.
Qed.

(** The ID of a route is the connection's. *)
Lemma route_id e m p c cid : Mux_ok e m -> connections m !! CIDString cid = Some p -> heap m !! p = Some c ->
  CID_ok cid -> localCID c = cid.
Proof.
  intros Hm Hr Hp Hc. destruct (mo_routes _ _ Hm _ _ Hr) as (d & Hd & E & _).
  rewrite Hp in Hd. injection Hd as <-. apply CIDString_inj; try done.
  apply (so_cids _ _ _ (h_sound _ _ _ (reach_healthy _ _ (co_reach _ _ (mo_heap _ _ Hm _ _ Hp))))).
Qed.

(** What an address the packet came from does: nothing, or it becomes the pending
    one, with a new challenge. *)
Definition noted (now : Z) (a : option addr) (random : option (list byte)) (P P' : Path) : Prop :=
  P' = P \/ exists b challenge, a = Some b /\ remoteAddr P <> Some b /\ random = Some challenge /\
    P' = MkPath (remoteAddr P) (pathChallenge P) (pathChallengeResp P) (Some b) challenge now
           (bytesSent P) (bytesReceived P) (addrValidated P) (migrations P).

Lemma observe_noted now a random c : exists P, noted now a random (path c) P /\ (observeAddr now a random c).1 = set_path P c.
Proof.
  assert (E : c = set_path (path c) c) by (by destruct c). unfold observeAddr. destruct a as [a|]; [|exists (path c); by split; [left|]].
  case_decide; [exists (path c); by split; [left|]|]. case_match; [exists (path c); by split; [left|]|].
  destruct random as [d|]; [|exists (path c); by split; [left|]]. eexists. split; [|done]. right. by exists a, d.
Qed.

(** The queue of a connection takes the packet, or is full and counts it. *)
Lemma enqueue_path pkt P c : enqueue pkt (set_path P c) = set_path P (enqueue pkt c).
Proof. unfold enqueue. cbn [inbound set_path]. by destruct (length (inbound c) <? inboundQueue)%nat. Qed.

(** Datagrams one after another, each with its time and sender. *)
Definition handle_all (l : list (Z * list byte * option addr)) (m : Multiplexer) : Multiplexer :=
  fold_left (fun m e => (handleDatagram e.1.1 None e.1.2 e.2 m).1) l m.

(** A datagram for [key] that opens nothing. *)
Definition early_for (key : string) (e : Z * list byte * option addr) (pkt : Packet) : Prop :=
  UnmarshalPacket e.1.2 = Ok pkt /\ CIDString (DestinationCID pkt) = key /\ Version pkt = VersionCurrent /\
  hasSyn pkt = false.

Lemma early_buffered key l pkts m : Forall2 (early_for key) l pkts -> connections m !! key = None ->
  (size (<[key := []]> (earlyPackets m)) < earlyCIDs)%nat ->
  let buf := default [] (earlyPackets m !! key) in
  (length buf + length l <= earlyPerCID)%nat ->
  let m' := handle_all l m in
  connections m' = connections m /\ heap m' = heap m /\
  ep_pkt <$> default [] (earlyPackets m' !! key) = (ep_pkt <$> buf) ++ pkts.
Proof.
  intros Hl. revert m. induction Hl as [|e pkt l pkts (E1 & E2 & E3 & E4) _ IH]; intros m Hn Hs; cbv zeta; intros Hb.
  { by rewrite app_nil_r. }
  cbn [handle_all fold_left length] in *. fold (handle_all l).
  assert (Hc : (size (earlyPackets m) < earlyCIDs)%nat).
  { eapply Nat.le_lt_trans; [|exact Hs]. rewrite map_size_insert. case_match; cbn; lia. }
  assert (E : (handleDatagram e.1.1 None e.1.2 e.2 m).1 = MkMux (mux_addr m) (heap m) (connections m)
    (<[key := default [] (earlyPackets m !! key) ++ [MkEarly pkt e.2]]> (earlyPackets m)) (incoming m) (mux_closed m)).
  { unfold handleDatagram. rewrite E1, E3, Z.eqb_refl, E2, Hn, E4. cbn [negb fst]. unfold bufferEarly.
    destruct (Nat.ltb_spec (size (earlyPackets m)) earlyCIDs); [|lia].
    destruct (Nat.ltb_spec (length (default [] (earlyPackets m !! key))) earlyPerCID); [done | lia]. }
  rewrite E. clear E. set (m1 := MkMux _ _ _ _ _ _).
  assert (Hk : earlyPackets m1 !! key = Some (default [] (earlyPackets m !! key) ++ [MkEarly pkt e.2])).
  { apply lookup_insert_eq. }
  destruct (IH m1) as (I1 & I2 & I3).
  - done.
  - cbn [earlyPackets m1]. by rewrite insert_insert_eq.
  - rewrite Hk. cbn. rewrite length_app. cbn. lia.
  - split_and!; [done | done |]. unfold handle_all in I3. rewrite I3, Hk. cbn [default from_option id].
    unfold id. rewrite fmap_app, <- app_assoc. done.
Qed.

(** ** Properties *)

(** C20. In every run of a multiplexer: each of its connections is in a state
    that a run of the connection's own operations produces (so that all that is
    proved of such runs holds of it), can send, since its peer's address counts
    as validated, and has well-formed packets with its own ID only in its
    queue; every route leads to a connection with that ID that
    is not closed; at most 256 IDs have early packets, at most 32 each, none a
    SYN, each under its own ID; at most 16 connections wait to be accepted. *)
Theorem multiplexer_ok (exact : bool) (m : Multiplexer) : mux_reach exact m -> Mux_ok exact m.
Proof. apply mux_reach_ok. Qed.

(** C13. A datagram reaches the connection whose ID it carries and nothing else.
    In every run, one that does not decode or has another version changes
    nothing. For a known ID the packet is appended to that connection's queue,
    or dropped and counted if it is full; apart from that only the pending
    address of the connection may change, to the one the datagram came from if
    that is not where the connection sends; nothing else of the connection
    or of the multiplexer changes. For an unknown ID without a SYN the packet is
    appended to that ID's early packets, unless 256 IDs have some or this one
    has 32, and nothing else changes. With a SYN, one connection is added, a new
    one under the IDs and for the address of the packet, whose queue holds the
    SYN and then the early packets of that ID, which are buffered no longer; it
    waits to be accepted, if there is room. *)
Theorem datagram_routed (exact : bool) (now : Z) (random : option (list byte)) (data : list byte)
    (a : option addr) (m : Multiplexer) : mux_reach exact m ->
  let m' := (handleDatagram now random data a m).1 in
  match UnmarshalPacket data with
  | Ok pkt =>
      let key := CIDString (DestinationCID pkt) in
      if negb (Version pkt =? VersionCurrent) then m' = m
      else match connections m !! key with
      | Some p => exists c P, heap m !! p = Some c /\ localCID c = DestinationCID pkt /\
          noted now a random (path c) P /\
          m' = set_conn p (set_path P
            (if (length (inbound c) <? inboundQueue)%nat then set_inbound (inbound c ++ [pkt]) (inboundDropped c) c
             else set_inbound (inbound c) (inboundDropped c +i 1) c)) m
      | None =>
          let early := default [] (earlyPackets m !! key) in
          if hasSyn pkt then exists p, heap m !! p = None /\
            m' = MkMux (mux_addr m)
              (<[p := set_inbound (pkt :: (ep_pkt <$> early)) 0
                 (establish (NewConnection now (DestinationCID pkt) (SourceCID pkt) (mux_addr m) a false true))]> (heap m))
              (<[key := p]> (connections m)) (delete key (earlyPackets m))
              (if (length (incoming m) <? acceptCap)%nat then incoming m ++ [p] else incoming m) (mux_closed m)
          else m' = MkMux (mux_addr m) (heap m) (connections m)
              (if (size (earlyPackets m) <? earlyCIDs)%nat && (length early <? earlyPerCID)%nat
               then <[key := early ++ [MkEarly pkt a]]> (earlyPackets m) else earlyPackets m)
              (incoming m) (mux_closed m)
      end
  | _ => m' = m
  end.
Proof.
  intros Hr. apply mux_reach_ok in Hr as Hm. cbv zeta. unfold handleDatagram. pose proof (unmarshal_safe data) as Hs.
  destruct (UnmarshalPacket data) as [pkt| | |]; try done. destruct Hs as [Hok _].
  destruct (Version pkt =? VersionCurrent) eqn:Ev; [|done]. cbn [negb]. cbv zeta.
  destruct (connections m !! _) as [p|] eqn:Er.
  - destruct (mo_routes _ _ Hm _ _ Er) as (c & Hc & _). rewrite Hc. destruct (observe_noted now a random c) as (P & HP & E).
    destruct (observeAddr now a random c) as [c1 ch]. cbn [fst] in *. exists c, P.
    split_and!; [done | by apply (route_id exact m p c); [..| apply Hok] | done |]. by rewrite E, enqueue_path.
  - destruct (hasSyn pkt) eqn:Esyn; cbn [negb fst].
    + exists (fresh (dom (heap m))). split; [apply not_elem_of_dom, is_fresh|]. unfold acceptNew. cbv zeta.
      rewrite enqueue_all_eq; [done|]. cbn. rewrite length_fmap. destruct (early_own exact m (CIDString (DestinationCID pkt)) Hm) as [Hl _].
      unfold earlyPerCID in Hl. assert (64 <= inboundQueue)%nat by (by apply Nat.leb_le). lia.
    + unfold bufferEarly. destruct m. cbn. repeat case_match; by rewrite ?andb_true_l, ?andb_false_l.
Qed.

(** C26. Packets that overtake the SYN are not lost: if up to 32 packets for an
    ID that no connection has arrive before it, the first ones for that ID, while
    fewer than 255 other IDs have early packets, then the connection the SYN opens finds the SYN and then all
    of them in its queue, in the order they arrived. *)
Theorem early_packets_replayed (exact : bool) (m : Multiplexer) (key : string)
    (l : list (Z * list byte * option addr)) (pkts : list Packet) (now : Z) (random : option (list byte))
    (data : list byte) (a : option addr) (syn : Packet) :
  mux_reach exact m -> connections m !! key = None -> earlyPackets m !! key = None ->
  (size (earlyPackets m) + 1 < earlyCIDs)%nat -> (length l <= earlyPerCID)%nat ->
  Forall2 (early_for key) l pkts ->
  UnmarshalPacket data = Ok syn -> CIDString (DestinationCID syn) = key -> Version syn = VersionCurrent ->
  hasSyn syn = true ->
  let m' := (handleDatagram now random data a (handle_all l m)).1 in
  exists p c, connections m' !! key = Some p /\ heap m' !! p = Some c /\ heap m !! p = None /\
    inbound c = syn :: pkts /\ localCID c = DestinationCID syn /\ remoteCID c = SourceCID syn.
Proof.
  intros Hr Hn He Hs Hl Hp Ed Ek Ev Esyn. cbv zeta. apply mux_reach_ok in Hr as Hm.
  destruct (early_buffered key l pkts m Hp Hn) as (B1 & B2 & B3).
  { rewrite map_size_insert, He. lia. }
  { by rewrite He. }
  rewrite He in B3. cbn in B3. set (m1 := handle_all l m) in *. unfold handleDatagram.
  rewrite Ed, Ev, Z.eqb_refl, Ek, B1, Hn, Esyn. cbn [negb fst]. unfold acceptNew. cbv zeta. cbn [connections heap].
  do 2 eexists. split_and!; [apply lookup_insert_eq | apply lookup_insert_eq | | | |].
  - rewrite <- B2. apply not_elem_of_dom, is_fresh.
  - rewrite enqueue_room; rewrite B3; [done|]. cbn. rewrite <- (Forall2_length _ _ _ Hp).
    unfold earlyPerCID in Hl. assert (64 <= inboundQueue)%nat by (by apply Nat.leb_le). lia.
  - by rewrite enqueue_local.
  - by rewrite enqueue_cids.
Qed.

(** Once 256 IDs have early packets, no packet is buffered, not even for one of
    those IDs, and only a SYN for one of them takes it out. *)
Theorem early_buffer_full (exact : bool) (m m' : Multiplexer) : mux_step exact m m' ->
  (earlyCIDs <= size (earlyPackets m))%nat ->
  earlyPackets m' = earlyPackets m \/
  exists key, earlyPackets m' = delete key (earlyPackets m) /\ is_Some (connections m' !! key).
Proof.
  intros Hs Hf. destruct Hs; auto.
  - unfold handleDatagram. destruct (UnmarshalPacket data) as [pkt| | |]; auto. case_match; auto. cbv zeta.
    destruct (connections m !! _) as [p|].
    + destruct (heap m !! p) as [c|]; auto. destruct (observeAddr now a random c) as [c1 ch]. auto.
    + destruct (hasSyn pkt); cbn [negb fst].
      * right. eexists. split; [done|]. cbn [connections acceptNew]. by rewrite lookup_insert_eq.
      * left. unfold bufferEarly. by rewrite (proj2 (Nat.ltb_ge _ _)).
  - left. rename select (Dial _ _ _ _ _ = _) into E. revert E. unfold Dial.
    destruct (RandomConnectionID r1 _); try done. destruct (RandomConnectionID r2 _); try done. by intros [= <- <-].
  - left. by destruct select (Accept _ _ _ _).
  - left. unfold MuxClose. by case_match.
  - left. unfold conn_changed. by case_match.
Qed.

(** ** Witnesses: data that overtakes its SYN. *)

Definition dialled (seq : Z) (syn : bool) (data : list byte) : Packet :=
  MkPacket VersionCurrent (sample_cid x02) (sample_cid x01) seq 0 1
    [StreamF (MkStreamFrame false syn 0 data)] 0 false 0.

Definition mux_early : list (Z * list byte * option addr) :=
  [(ms 1, MarshalPacket (dialled 1 false [x61]), Some "peer"%string)].
Definition mux_run : Multiplexer := handle_all mux_early (NewMultiplexer (Some "here"%string)).

Lemma mux_run_reach : mux_reach true mux_run.
Proof.
  apply (mux_next true (NewMultiplexer (Some "here"%string))); [apply mux_new|].
  by apply (mux_datagram true _ (ms 1) None).
Qed.

Lemma multiplexer_ok_witness : Mux_ok true mux_run /\ size (earlyPackets mux_run) = 1%nat.
Proof. split; [apply (multiplexer_ok true mux_run), mux_run_reach | by vm_compute]. Defined.

(** A second packet that overtakes the SYN, and one with the version of an older
    peer, which is dropped. *)
Definition overtaking : Packet := dialled 2 false [x62].
Definition dated : Packet := MkPacket VersionV2 (sample_cid x02) (sample_cid x01) 2 0 1 [PingFrame] 0 false 0.

Lemma datagram_routed_witness :
  (handleDatagram (ms 2) None (MarshalPacket dated) None mux_run).1 = mux_run /\
  length (default [] (earlyPackets (handleDatagram (ms 2) None (MarshalPacket overtaking) None mux_run).1
    !! CIDString (sample_cid x02))) = 2%nat.
Proof.
  split.
  - pose proof (datagram_routed true (ms 2) None (MarshalPacket dated) None mux_run mux_run_reach) as H.
    cbv zeta in H. revert H. generalize (handleDatagram (ms 2) None (MarshalPacket dated) None mux_run).1.
    rewrite unmarshal_marshal by (split; try done; try apply sample_cid_ok; by apply Forall_singleton).
    intros m' H. exact H.
  - pose proof (datagram_routed true (ms 2) None (MarshalPacket overtaking) None mux_run mux_run_reach) as H.
    cbv zeta in H. revert H. generalize (handleDatagram (ms 2) None (MarshalPacket overtaking) None mux_run).1.
    rewrite unmarshal_marshal by (split; try done; try apply sample_cid_ok; by apply Forall_singleton).
    intros m' H. assert (E : connections mux_run !! CIDString (sample_cid x02) = None) by (by vm_compute).
    cbn [DestinationCID received overtaking dialled] in H. rewrite E in H. cbn in H. rewrite H. by vm_compute.
Defined.

Lemma early_packets_replayed_witness : exists p c,
  let m' := (handleDatagram (ms 2) None (MarshalPacket (dialled 0 true [])) None mux_run).1 in
  connections m' !! CIDString (sample_cid x02) = Some p /\ heap m' !! p = Some c /\
  inbound c = [received 46 (dialled 0 true []); received 47 (dialled 1 false [x61])].
Proof.
  destruct (early_packets_replayed true (NewMultiplexer (Some "here"%string)) (CIDString (sample_cid x02)) mux_early
    [received 47 (dialled 1 false [x61])] (ms 2) None (MarshalPacket (dialled 0 true [])) None
    (received 46 (dialled 0 true []))) as (p & c & H1 & H2 & _ & H3 & _).
  - apply mux_new.
  - done.
  - done.
  - by apply Nat.ltb_lt.
  - by apply Nat.leb_le.
  - constructor; [|constructor]. split_and!; by vm_compute.
  - by vm_compute.
  - done.
  - done.
  - done.
  - exists p, c. done.
Defined.
