(* ===== verification/Batch.v ===== *)
(** * Batched datagrams (src/batchconn.go)

    How the multiplexer hands datagrams to its socket and takes them from it,
    several per system call where the socket allows. The socket
    ([net.PacketConn] and [ipv4.PacketConn] of golang.org/x/net) is a parameter
    with a state of its own; what the code relies on is the class
    [SocketLaws]. *)

From stdpp Require Import strings.
From S2P Require Import Prelude Constants Connection.

(** [ipv4.Message] with its one buffer. *)
Record Message := MkMessage { Buffers : list byte; msg_addr : option addr }.

Definition as_datagram (m : Message) : datagram := (Buffers m, msg_addr m).

(** What [newDatagramIO] asks of the connection it is given: whether it is a
    [*net.UDPConn], and then whether its local address is a [*net.UDPAddr]
    whose IP has an IPv4 form. *)
Inductive PacketConn := UDPConn (local_ip4 : option bool) | OtherConn.

Record datagramIO := MkIO { batch : bool; batchWrites : bool }.

Definition readBatchSize : nat := 64.
Definition readBufferSize : Z := MaxDatagramSize + 128.

Definition newDatagramIO (pc : PacketConn) : datagramIO :=
  match pc with
  | UDPConn la => MkIO true (match la with Some ip4 => ip4 | None => false end)
  | OtherConn => MkIO false false
  end.

(** The calls the code makes, with the state of the socket threaded through:
    [WriteTo] reports whether it failed; [WriteBatch] how many messages it
    took, or that it failed; the reads give the messages that arrived, each cut
    to the size of its buffer, or that they failed. *)
Class Socket (S : Type) := {
  WriteTo : list byte -> option addr -> S -> S * bool;
  WriteBatch : list Message -> S -> S * option Z;
  ReadFrom : Z -> S -> S * option Message;
  ReadBatch : nat -> Z -> S -> S * option (list Message)
}.

Section Calls.
Context {S : Type} `{Socket S}.

(** [readMessages] with [n] messages, each with a buffer of [size] bytes. *)
Definition readMessages (d : datagramIO) (n : nat) (size : Z) (s : S) : S * option (list Message) :=
  if batch d then ReadBatch n size s
  else let '(s, r) := ReadFrom size s in (s, (fun m => [m]) <$> r).

(** Whether it failed. *)
Fixpoint writeEach (bufs : list (list byte)) (a : option addr) (s : S) : S * bool :=
  match bufs with
  | [] => (s, false)
  | b :: bufs =>
      let '(s, failed) := WriteTo b a s in
      if failed then (s, true) else writeEach bufs a s
  end.

(** The loop of [writeAll]: [ms] is what is left of the batch. A count the
    slice [ms[n:]] has no room for panics. *)
Fixpoint writeAll_loop (fuel : nat) (bufs : list (list byte)) (a : option addr) (ms : list Message)
    (s : S) : Prelude.outcome (S * bool) :=
  match ms with
  | [] => Ok (s, false)
  | _ =>
      match fuel with
      | O => OutOfFuel
      | Datatypes.S fuel =>
          let '(s, r) := WriteBatch ms s in
          match r with
          | None => Ok (writeEach (drop (length bufs - length ms) bufs) a s)
          | Some n =>
              let n := if n <=? 0 then 1 else n in
              if Z.of_nat (length ms) <? n then Panic
              else writeAll_loop fuel bufs a (drop (Z.to_nat n) ms) s
          end
      end
  end.

Definition writeAll (d : datagramIO) (bufs : list (list byte)) (a : option addr) (s : S)
    : Prelude.outcome (S * bool) :=
  if negb (batch d) || negb (batchWrites d) || (length bufs =? 1)%nat then Ok (writeEach bufs a s)
  else writeAll_loop (length bufs) bufs a ((fun b => MkMessage b a) <$> bufs) s.

End Calls.

(** What the socket promises: [sent] is what it has taken so far. A [WriteTo]
    takes its datagram or fails; a [WriteBatch] takes a non-empty beginning of
    its messages, or fails and takes none. *)
Class SocketLaws (S : Type) `{Socket S} (sent : S -> list datagram) : Prop := {
  WriteTo_sent b a s : let '(s', failed) := WriteTo b a s in
    sent s' = sent s ++ (if failed : bool then [] else [(b, a)]);
  WriteBatch_sent ms s : ms <> [] -> let '(s', r) := WriteBatch ms s in
    match r with
    | Some n => 1 <= n <= Z.of_nat (length ms) /\ sent s' = sent s ++ (as_datagram <$> take (Z.to_nat n) ms)
    | None => sent s' = sent s
    end
}.

Section Sending.
Context {S : Type} `{SocketLaws S sent}.
Implicit Types (s : S) (a : option addr) (bufs : list (list byte)).

(** [k] datagrams of [bufs] went to [a], in order, and no more only because
    the socket refused the next one. *)
Definition handed (bufs : list (list byte)) (a : option addr) (s s' : S) (failed : bool) : Prop :=
  exists k, sent s' = sent s ++ ((fun b => (b, a)) <$> take k bufs) /\
    if failed then exists s1 b, bufs !! k = Some b /\ WriteTo b a s1 = (s', true) else (length bufs <= k)%nat.

Lemma handed_app bufs1 bufs2 a s s1 s2 failed :
  sent s1 = sent s ++ ((fun b => (b, a)) <$> bufs1) -> handed bufs2 a s1 s2 failed ->
  handed (bufs1 ++ bufs2) a s s2 failed.
Proof.
  intros E1 (k & E2 & Hf). exists (length bufs1 + k)%nat. split.
  - by rewrite E2, E1, <- (assoc_L (++)), <- fmap_app, take_app_add.
  - destruct failed; [|rewrite length_app; lia]. destruct Hf as (s0 & b & Hb & Hw). exists s0, b.
    split; [|done]. by rewrite lookup_app_r, Nat.add_comm, Nat.add_sub by lia.
Qed.

Lemma writeEach_handed bufs a s : let '(s', failed) := writeEach bufs a s in handed bufs a s s' failed.
Proof.
  revert s. induction bufs as [|b bufs IH]; intros s; cbn.
  - exists O. by rewrite app_nil_r.
  - pose proof (WriteTo_sent b a s) as Hw. destruct (WriteTo b a s) as [s1 [|]] eqn:E.
    + exists O. split; [done|]. exists s, b. by rewrite E.
    + specialize (IH s1). destruct (writeEach bufs a s1) as [s' failed]. by apply (handed_app [b] bufs a s s1).
Qed.

Lemma datagrams_of bufs a : as_datagram <$> ((fun b => MkMessage b a) <$> bufs) = (fun b => (b, a)) <$> bufs.
Proof. by rewrite <- list_fmap_compose. Qed.

Lemma writeAll_loop_handed pre rest a fuel s : (length rest <= fuel)%nat -> exists s' failed,
  writeAll_loop fuel (pre ++ rest) a ((fun b => MkMessage b a) <$> rest) s = Ok (s', failed) /\
  handed rest a s s' failed.
Proof.
  revert pre rest s. induction fuel as [|fuel IH]; intros pre [|b rest] s Hl; cbn in Hl; try lia;
    try (exists s, false; split; [done|]; exists O; by rewrite app_nil_r).
  set (bufs := b :: rest). set (ms := (fun b => MkMessage b a) <$> bufs).
  assert (length ms = length bufs) as El by apply length_fmap.
  pose proof (WriteBatch_sent ms s ltac:(done)) as Hw. cbn [writeAll_loop ms fmap list_fmap bufs].
  change (MkMessage b a :: ((fun b => MkMessage b a) <$> rest)) with ms. destruct (WriteBatch ms s) as [s1 [n|]].
  - destruct Hw as [Hn Hs]. cbv zeta. rewrite (proj2 (Z.leb_gt n 0)), (proj2 (Z.ltb_ge _ n)) by lia.
    set (k := Z.to_nat n) in *. unfold ms in *. rewrite <- fmap_drop. rewrite <- fmap_take, datagrams_of in Hs.
    destruct (IH (pre ++ take k bufs) (drop k bufs) s1) as (s' & failed & E & Hh).
    { rewrite length_drop. unfold k. cbn. lia. }
    rewrite <- (assoc_L (++)), take_drop in E. exists s', failed. split; [done|].
    rewrite <- (take_drop k bufs). by apply (handed_app _ _ a s s1).
  - rewrite El, length_app, Nat.add_sub, drop_app_length. pose proof (writeEach_handed bufs a s1) as He.
    destruct (writeEach bufs a s1) as [s' failed]. exists s', failed. split; [done|].
    unfold handed in *. by rewrite Hw in He.
Qed.

(** C33. Whatever the socket accepts per call and wherever a batch fails,
    [writeAll] returns, never slices outside its batch, and has handed the
    socket a beginning of the buffers, in order, each once: all of them when it
    reports no error, and otherwise those before the one that [WriteTo] refused,
    which was the last call made. A batch call that succeeds takes at least one
    datagram, by the laws of the socket. *)
Theorem writeAll_hands_over (d : datagramIO) (bufs : list (list byte)) (a : option addr) (s : S) :
  exists s' failed k, writeAll d bufs a s = Ok (s', failed) /\ (k <= length bufs)%nat /\
    sent s' = sent s ++ ((fun b => (b, a)) <$> take k bufs) /\
    if failed then exists s1 b, bufs !! k = Some b /\ WriteTo b a s1 = (s', true) else k = length bufs.
Proof.
  assert (exists s' failed, writeAll d bufs a s = Ok (s', failed) /\ handed bufs a s s' failed)
    as (s' & failed & E & k & Hk & Hf).
  { unfold writeAll. destruct (_ || _ || _).
    - pose proof (writeEach_handed bufs a s) as He. destruct (writeEach bufs a s) as [s' failed]. eauto.
    - by apply (writeAll_loop_handed [] bufs). }
  exists s', failed. destruct failed.
  - exists k. destruct Hf as (s1 & b & Hb & Hw). apply lookup_lt_Some in Hb as Hlt. split_and!; [done | lia | done | eauto].
  - exists (length bufs). rewrite firstn_all. by rewrite take_ge in Hk.
Qed.

End Sending.

(** ** Witness: a socket that takes two datagrams per batch and no batch after
    the fourth datagram. *)

#[export] Instance log_socket : Socket (list datagram) := {
  WriteTo b a s := (s ++ [(b, a)], false);
  WriteBatch ms s :=
    if (length s <? 4)%nat then
      (s ++ (as_datagram <$> take 2 ms), Some (Z.of_nat (2 `min` length ms)))
    else (s, None);
  ReadFrom _ s := (s, None);
  ReadBatch _ _ s := (s, None)
}.

#[export] Instance log_socket_laws : SocketLaws (list datagram) id.
Proof.
  split; [done|]. intros ms s Hm. cbn [WriteBatch log_socket]. destruct (length s <? 4)%nat; [|done].
  destruct ms as [|m1 [|m2 ms]]; [done|..]; cbn; split; try done; lia.
Qed.

Lemma writeAll_hands_over_witness :
  let bufs := [[x01]; [x02]; [x03]; [x04]; [x05]; [x06]] in
  writeAll (newDatagramIO (UDPConn (Some true))) bufs None ([] : list datagram) =
    Ok ((fun b => (b, None)) <$> bufs, false).
Proof.
  cbv zeta. destruct (writeAll_hands_over (sent := id) (newDatagramIO (UDPConn (Some true)))
    [[x01]; [x02]; [x03]; [x04]; [x05]; [x06]] None ([] : list datagram)) as (s' & failed & k & E & _ & Hs & Hf).
  assert (failed = false) as ->.
  { destruct failed; [|done]. destruct Hf as (s1 & b & _ & Hw). discriminate Hw. }
  rewrite E. do 2 f_equal. subst k. exact Hs.
Defined.
