(* ===== verification/ReadLoop.v ===== *)
(** * The read loop (src/multiplexer.go, src/batchconn.go)

    The multiplexer's one reader: it takes datagrams from the socket, several per
    call where the socket allows, and hands each to [handleDatagram]. However the
    socket batches them and however often a read fails, every datagram that
    arrives is handled once, in the order of arrival. The read buffer holds all a
    connection sends but a close with a long reason ([long_close_lost]). *)

From stdpp Require Import strings.
From S2P Require Import Prelude Constants Cid Frame Packet AckTracker FlowControl Mtud.
From S2P Require Import PacketManager AckExchange Stream Pacing Congestion Connection Recovery ConnReach.
From S2P Require Import Dispatch Wire Multiplexer Batch.

(** ** The loop *)

(** What the outside gives to one datagram: the time, and what crypto/rand gives
    to [observeAddr]. *)
Record moment := MkMoment { at_time : Z; drawn : option (list byte) }.

(** The challenges that goroutines of their own then send. *)
Definition challenge : Type := conn_ptr * (list Frame * addr).

Definition handle_message (st : Multiplexer * list challenge) (e : moment * Message) : Multiplexer * list challenge :=
  let '(m, out) := handleDatagram (at_time e.1) (drawn e.1) (Buffers e.2) (msg_addr e.2) st.1 in
  (m, st.2 ++ option_list out).

(** What is left of a round: the loop returns, or goes on. *)
Inductive round (S : Type) := Returned (s : S) | Round (m : Multiplexer) (out : list challenge) (s : S).

Arguments Returned {_} _.
Arguments Round {_} _ _ _.

Section Loop.
Context {S : Type} `{Socket S}.

(** One round of [readLoop]. [closing]: [Close] ran while the loop was blocked in
    the read; [env] is the moment of the round's [i]-th datagram. *)
Definition readRound (d : datagramIO) (closing : bool) (env : nat -> moment) (m : Multiplexer) (s : S) : round S :=
  if mux_closed m then Returned s
  else
    let '(s, r) := readMessages d readBatchSize readBufferSize s in
    match r with
    | None => if closing then Returned s else Round m [] s
    | Some ms =>
        let '(m, out) := fold_left handle_message (zip (env <$> seq 0 (length ms)) ms) (m, []) in
        Round m out s
    end.

(** [k] rounds during which nobody closes the multiplexer. *)
Fixpoint readLoop (k : nat) (d : datagramIO) (env : nat -> nat -> moment) (m : Multiplexer) (s : S) : Multiplexer * S :=
  match k with
  | O => (m, s)
  | Datatypes.S k =>
      match readRound d false (env O) m s with
      | Returned s => (m, s)
      | Round m _ s => readLoop k d (fun i => env (Datatypes.S i)) m s
      end
  end.

(** How many of the first [k] reads of the socket fail. *)
Fixpoint failures (k : nat) (d : datagramIO) (s : S) : nat :=
  match k with
  | O => 0
  | Datatypes.S k =>
      let '(s, r) := readMessages d readBatchSize readBufferSize s in
      (match r with None => 1 | Some _ => 0 end + failures k d s)%nat
  end.

End Loop.

(** ** What the socket promises

    [pending] is what has arrived and was not read. A read gives its first
    datagrams, at least one, each cut to the size of its buffer, or fails and
    takes none. *)

Definition cut (size : Z) (x : datagram) : Message := MkMessage (take (Z.to_nat size) x.1) x.2.

Class ReadLaws (S : Type) `{Socket S} (pending : S -> list datagram) : Prop := {
  ReadFrom_first size s : let '(s', r) := ReadFrom size s in
    match r with
    | Some msg => exists x, pending s = x :: pending s' /\ msg = cut size x
    | None => pending s' = pending s
    end;
  ReadBatch_first n size s : let '(s', r) := ReadBatch n size s in
    match r with
    | Some ms => exists xs, xs <> [] /\ (length xs <= n)%nat /\ pending s = xs ++ pending s' /\ ms = cut size <$> xs
    | None => pending s' = pending s
    end
}.

(** ** Properties *)

(** A datagram at a time. *)
Definition handle_one (m : Multiplexer) (e : moment * datagram) : Multiplexer :=
  (handleDatagram (at_time e.1) (drawn e.1) e.2.1 e.2.2 m).1.

Section Reading.
Context {S : Type} `{ReadLaws S pending}.

Lemma cut_fits size x : Z.of_nat (length x.1) <= size -> as_datagram (cut size x) = x.
Proof. intros Hl. destruct x as [data a]. unfold as_datagram, cut. cbn in *. by rewrite take_ge by lia. Qed.

Lemma readMessages_first d n size s : (1 <= n)%nat -> let '(s', r) := readMessages d n size s in
  match r with
  | Some ms => exists xs, xs <> [] /\ (length xs <= n)%nat /\ pending s = xs ++ pending s' /\ ms = cut size <$> xs
  | None => pending s' = pending s
  end.
Proof using All.
  intros Hn. unfold readMessages. destruct (batch d); [apply ReadBatch_first|].
  pose proof (ReadFrom_first size s) as Hr. destruct (ReadFrom size s) as [s' [msg|]]; cbn; [|done].
  destruct Hr as (x & Hx & ->). exists [x]. split_and!; [done | cbn; lia | done | done].
Qed.

Lemma handle_messages xs : Forall (fun x : datagram => Z.of_nat (length x.1) <= readBufferSize) xs ->
  forall es m out, (fold_left handle_message (zip es (cut readBufferSize <$> xs)) (m, out)).1 = fold_left handle_one (zip es xs) m.
Proof using Type.
  induction 1 as [|x xs Hx _ IH]; intros [|e es] m out; try done. cbn. rewrite <- IH with (out := (handle_message (m, out) (e, cut readBufferSize x)).2).
  f_equal. f_equal. unfold handle_message, handle_one. pose proof (cut_fits readBufferSize x Hx) as E. apply (f_equal fst) in E. cbn in E |- *.
  rewrite E. by destruct (handleDatagram _ _ _ _ _).
Qed.

Lemma handle_one_closed es m : mux_closed (fold_left handle_one es m) = mux_closed m.
Proof using Type.
  revert m. induction es as [|[e x] es IH]; intros m; [done|]. cbn. rewrite IH. unfold handle_one, handleDatagram. cbn.
  repeat case_match; cbn; try done. unfold bufferEarly. by repeat case_match.
Qed.

Lemma handle_one_steps exact es m : Forall (fun e => 0 <= at_time e.1) es -> rtc (mux_step exact) m (fold_left handle_one es m).
Proof using Type.
  intros He. revert m. induction He as [|e es He _ IH]; intros m; [done|]. cbn.
  eapply rtc_l; [|apply IH]. by apply mux_datagram.
Qed.

Lemma readLoop_prefix d k : forall env m s,
  mux_closed m = false -> Forall (fun x => Z.of_nat (length x.1) <= readBufferSize) (pending s) ->
  let '(m', s') := readLoop k d env m s in
  exists xs es, pending s = xs ++ pending s' /\ length es = length xs /\
    (forall e, e ∈ es -> exists i j, e = env i j) /\ m' = fold_left handle_one (zip es xs) m /\
    (k <= length xs + failures k d s)%nat.
Proof using All.
  induction k as [|k IH]; intros env m s Hc Hf; cbn [readLoop failures].
  { exists [], []. split_and!; try done. by intros e ?%not_elem_of_nil. }
  unfold readRound. rewrite Hc. pose proof (readMessages_first d readBatchSize readBufferSize s ltac:(unfold readBatchSize; lia)) as Hr.
  destruct (readMessages d readBatchSize readBufferSize s) as [s1 [ms|]] eqn:Eread.
  - destruct Hr as (xs & Hne & Hl & Hp & ->). rewrite Hp in Hf. apply Forall_app in Hf as [Hf1 Hf2].
    set (es := env O <$> seq 0 (length (cut readBufferSize <$> xs))).
    assert (Hes : length es = length xs) by (unfold es; by rewrite length_fmap, length_seq, length_fmap).
    pose proof (handle_messages xs Hf1 es m []) as E. destruct (fold_left handle_message _ _) as [m1 out]. cbn in E. subst m1.
    specialize (IH (fun i => env (Datatypes.S i)) (fold_left handle_one (zip es xs) m) s1 ltac:(by rewrite handle_one_closed) Hf2).
    destruct (readLoop k d _ _ s1) as [m' s']. destruct IH as (xs' & es' & P & L & Hin & -> & Hk).
    exists (xs ++ xs'), (es ++ es'). split_and!.
    + by rewrite Hp, P, app_assoc.
    + rewrite !length_app. lia.
    + intros e [He|He]%elem_of_app.
      * apply list_elem_of_fmap in He as (j & -> & _). eauto.
      * destruct (Hin e He) as (i & j & ->). eauto.
    + rewrite zip_with_app by done. by rewrite fold_left_app.
    + rewrite length_app. destruct xs; [done|]. cbn. lia.
  - rewrite <- Hr in Hf. specialize (IH (fun i => env (Datatypes.S i)) m s1 Hc Hf).
    destruct (readLoop k d _ m s1) as [m' s']. destruct IH as (xs & es & P & L & Hin & -> & Hk). exists xs, es. rewrite <- Hr.
    split_and!; try done; [intros e He; destruct (Hin e He) as (i & j & ->); eauto | lia].
Qed.

(** A datagram the buffer holds, for its length or because a connection sent it
    and it announces no close. *)
Definition held (x : datagram) : Prop :=
  Z.of_nat (length x.1) <= readBufferSize \/
  exists exact c to pkt, conn_reach exact c /\ (x.1, to) ∈ wire c /\ UnmarshalPacket x.1 = Ok pkt /\
    forall code ft reason, ConnectionCloseFrame code ft reason ∉ Frames pkt.

Lemma held_fits x : held x -> Z.of_nat (length x.1) <= readBufferSize.
Proof using Type.
  intros [?|(exact & c & to & pkt & Hr & Hin & Hu & Hc)]; [done|].
  destruct (wire_within _ _ _ _ _ Hr Hin Hu) as [?|(code & ft & reason & Hin')]; [|by destruct (Hc code ft reason)].
  unfold readBufferSize. lia.
Qed.

(** C32. Whatever the batches, [k] rounds of the read loop handle a beginning of the
    datagrams that have arrived, one at a time, each once and in order, and leave
    the others with the socket: at least one for every one of the [k] reads of
    the socket that does not fail; and what they do to the multiplexer is a
    sequence of its steps. Nothing that
    arrives may exceed the read buffer; what a connection sent never does, a
    close with a long reason apart. *)
Theorem readLoop_handles_in_order (d : datagramIO) (env : nat -> nat -> moment) (k : nat) (m : Multiplexer) (s : S) :
  mux_closed m = false -> Forall held (pending s) ->
  (forall i j, 0 <= at_time (env i j)) -> let '(m', s') := readLoop k d env m s in
  exists xs es, pending s = xs ++ pending s' /\ length es = length xs /\ m' = fold_left handle_one (zip es xs) m /\
    (k <= length xs + failures k d s)%nat /\
    rtc (mux_step true) m m'.
Proof using All.
  intros Hc Hf Ht. pose proof (readLoop_prefix d k env m s Hc ltac:(eapply Forall_impl; [exact Hf | apply held_fits])) as P. destruct (readLoop k d env m s) as [m' s'].
  destruct P as (xs & es & P & L & Hin & E & Hk). exists xs, es. split_and!; try done. rewrite E. apply handle_one_steps.
  apply Forall_forall. intros [e x] He. apply elem_of_zip_l in He. destruct (Hin e He) as (i & j & ->). apply Ht.
Qed.
End Reading.

(** ** Witness: three datagrams, of which the socket gives two at a time. *)

Record inbox := MkInbox { queued : list datagram }.

#[export] Instance inbox_socket : Socket inbox := {
  WriteTo _ _ s := (s, true);
  WriteBatch _ s := (s, None);
  ReadFrom size s := match queued s with [] => (s, None) | x :: xs => (MkInbox xs, Some (cut size x)) end;
  ReadBatch n size s :=
    match take (2 `min` n) (queued s) with
    | [] => (s, None)
    | xs => (MkInbox (drop (2 `min` n) (queued s)), Some (cut size <$> xs))
    end
}.

#[export] Instance inbox_laws : ReadLaws inbox queued.
Proof.
  split.
  - intros size [[|x xs]]; cbn; [done | by exists x].
  - intros n size s. cbn [ReadBatch inbox_socket]. destruct (take (2 `min` n) (queued s)) as [|x xs] eqn:E; [done|].
    exists (x :: xs). split_and!; [done | | | done].
    + rewrite <- E, length_take. lia.
    + rewrite <- E. cbn. by rewrite take_drop.
Qed.

Definition three : inbox := MkInbox [(MarshalPacket (dialled 1 false [x61]), Some "peer"%string);
  ([x00], Some "peer"%string); (MarshalPacket (dialled 0 true []), Some "peer"%string)].

Lemma readLoop_handles_in_order_witness :
  let '(m', s') := readLoop 2 (newDatagramIO (UDPConn (Some true))) (fun _ _ => MkMoment (ms 2) None)
    (NewMultiplexer (Some "here"%string)) three in
  queued s' = [] /\ ConnectionCount m' = 1%nat /\ rtc (mux_step true) (NewMultiplexer (Some "here"%string)) m'.
Proof.
  pose proof (readLoop_handles_in_order (pending := queued) (newDatagramIO (UDPConn (Some true))) (fun _ _ => MkMoment (ms 2) None) 2
    (NewMultiplexer (Some "here"%string)) three eq_refl) as P.
  assert (E : let '(m', s') := readLoop 2 (newDatagramIO (UDPConn (Some true))) (fun _ _ => MkMoment (ms 2) None)
    (NewMultiplexer (Some "here"%string)) three in queued s' = [] /\ ConnectionCount m' = 1%nat) by (split; by vm_compute).
  destruct (readLoop 2 _ _ _ _) as [m' s']. destruct P as (xs & es & _ & _ & _ & _ & P); [|done|by destruct E].
  repeat constructor; by vm_compute.
Defined.

(** A close whose reason is longer than the read buffer leaves in one datagram,
    is cut on arrival, and what is left is no packet: the peer is not told. *)
Definition long_close : datagram :=
  default ([], None) (last (wire (CloseWithError (ms 1) 0 (replicate 1600 x61) run_syn))).

Lemma long_close_lost :
  (exists pkt, UnmarshalPacket long_close.1 = Ok pkt /\ Frames pkt = [ConnectionCloseFrame 0 0 (replicate 1600 x61)]) /\
  UnmarshalPacket (Buffers (cut readBufferSize long_close)) = Err ErrPacketTooShort.
Proof. split; [eexists; split; by vm_compute | by vm_compute]. Qed.
