(* ===== verification/System.v ===== *)
(** * Many multiplexers and a network (src/multiplexer.go, src/connection.go)

    Any number of processes, each with a multiplexer, that dial each other and
    accept over a network that may lose, repeat, reorder and misdeliver
    datagrams. Each accepted connection is one end of a run of [EndToEnd], whose
    other end is the connection that was dialled, so that what is proved of two
    connections holds of the connections of whole processes. *)

From stdpp Require Import functions strings.
From S2P Require Import Prelude Constants Cid Frame Packet AckTracker FlowControl Mtud.
From S2P Require Import PacketManager AckExchange Stream Pacing Congestion Connection Recovery ConnReach.
From S2P Require Import Dispatch Wire History EndToEnd Multiplexer.

(** ** The model *)

(** What the application of a connection has written to each stream, the lengths
    at which it closed it, and what it has read. *)
Record Usage := MkUsage { u_wrote : Z -> list byte; u_closes : Z -> list Z; u_got : Z -> list byte }.

Definition unused : Usage := MkUsage (fun _ => []) (fun _ => []) (fun _ => []).

Record Node := MkNode { mux : Multiplexer; usage : conn_ptr -> Usage }.

(** A connection of a node, with its application's books. *)
Definition end_of (n : Node) (p : conn_ptr) (c : Connection) : End :=
  MkEnd c (u_wrote (usage n p)) (u_closes (usage n p)) (u_got (usage n p)).

(** A call on a stream in these books. *)
Definition note_use (id : Z) (calls : list conn_call) (out : list byte) (u : Usage) : Usage :=
  MkUsage (<[id := u_wrote u id ++ sent_bytes calls]> (u_wrote u)) (<[id := u_closes u id ++ fins_of calls]> (u_closes u))
    (<[id := u_got u id ++ out]> (u_got u)).

(** One step of a node: the read loop takes one of the datagrams on the network,
    [arriving], a connection takes a packet from its queue, the application calls
    the multiplexer or a stream, or a connection does something else. *)
Inductive node_step (exact : bool) (arriving : datagram -> Prop) (n : Node) : Node -> Prop :=
  | node_datagram now random data to a : 0 <= now -> arriving (data, to) ->
      node_step exact arriving n (MkNode (handleDatagram now random data a (mux n)).1 (usage n))
  | node_dial now r1 r2 a m' p : 0 <= now -> delivers r1 -> delivers r2 -> Dial now r1 r2 a (mux n) = Ok (m', p) ->
      node_step exact arriving n (MkNode m' (usage n))
  | node_accept ctx m' r : Accept ctx (mux n) m' r -> node_step exact arriving n (MkNode m' (usage n))
  | node_close now : 0 <= now -> node_step exact arriving n (MkNode (MuxClose now (mux n)) (usage n))
  | node_tick : node_step exact arriving n (MkNode (idleTick (mux n)) (usage n))
  | node_packet (o : RangeOrder) now p c c' : 0 <= now -> heap (mux n) !! p = Some c -> inbound_round now c = Some c' ->
      node_step exact arriving n (MkNode (conn_changed p c c' (mux n)) (usage n))
  | node_stream now p c id s s' calls out : 0 <= now -> heap (mux n) !! p = Some c ->
      streams (table c) !! id = Some s -> stream_op now (MaxDatagram c) s s' calls out ->
      node_step exact arriving n (MkNode (conn_changed p c (exec_calls now calls (set_stream id s' c)) (mux n))
        (<[p := note_use id calls out (usage n p)]> (usage n)))
  | node_own p c c' : heap (mux n) !! p = Some c -> own_step exact c c' -> inbound c' = inbound c ->
      node_step exact arriving n (MkNode (conn_changed p c c' (mux n)) (usage n)).

Section Network.
Context {I : Type} `{EqDecision I}.

(** A connection is found at its node under its pointer. *)
Definition conn_of (S : I -> Node) (k : I * conn_ptr) : option Connection := heap (mux (S k.1)) !! k.2.
Definition end_in (S : I -> Node) (k : I * conn_ptr) (c : Connection) : End := end_of (S k.1) k.2 c.

(** Some connection of the system has sent the datagram. *)
Definition sent_in (S : I -> Node) (d : datagram) : Prop := exists k c, conn_of S k = Some c /\ d ∈ wire c.

Inductive sys_reach (exact : bool) : (I -> Node) -> Prop :=
  | sys_new (laddr : I -> option addr) :
      sys_reach exact (fun x => MkNode (NewMultiplexer (laddr x)) (fun _ => unused))
  | sys_step S x n' : sys_reach exact S -> node_step exact (sent_in S) (S x) n' -> sys_reach exact (<[x := n']> S).

(** No two connections of the system have [l] as their own or [r] as their
    peer's ID. *)
Definition sole (S : I -> Node) (l r : ConnectionID) : Prop := forall k k' c c',
  conn_of S k = Some c -> conn_of S k' = Some c' ->
  (localCID c = l \/ remoteCID c = r) -> (localCID c' = l \/ remoteCID c' = r) -> k = k'.

End Network.

(** ** One node *)

Lemma changed_heap p c c' m : heap (conn_changed p c c' m) = <[p := c']> (heap m).
Proof. unfold conn_changed. by case_match. Qed.

Lemma changed_early p c c' m : earlyPackets (conn_changed p c c' m) = earlyPackets m.
Proof. unfold conn_changed. by case_match. Qed.

(** The datagram a packet was decoded from. *)
Definition carries (W : datagram -> Prop) (pkt : Packet) : Prop :=
  exists data to, W (data, to) /\ UnmarshalPacket data = Ok pkt.

(** [c], at [p], becomes [c']: a run of its end, if the datagrams [W] arrive there. *)
Record evolves (exact : bool) (arriving : datagram -> Prop) (n n' : Node) (p : conn_ptr) (c c' : Connection) : Prop := {
  ev_steps : rtc (conn_step exact) c c';
  ev_end : forall W, (forall pkt, pkt ∈ inbound c -> carries (.∈ W) pkt) ->
    rtc (end_step exact W) (end_of n p c) (end_of n' p c');
  ev_queue : forall pkt, pkt ∈ inbound c' -> pkt ∈ inbound c \/ carries arriving pkt
}.

Lemma evolves_refl exact arriving n n' p c : usage n' p = usage n p -> evolves exact arriving n n' p c c.
Proof. intros E. split; [done | | by left]. intros W _. unfold end_of. by rewrite E. Qed.

Lemma own_ends exact W c c' w k g : rtc (own_step exact) c c' -> rtc (end_step exact W) (MkEnd c w k g) (MkEnd c' w k g).
Proof.
  induction 1 as [c|c c1 c2 H _ IH]; [done|]. eapply rtc_l; [|exact IH]. by apply (end_own exact W (MkEnd c w k g)).
Qed.

(** Steps of its own. *)
Lemma evolves_own exact arriving n n' p c c' : usage n' p = usage n p -> rtc (own_step exact) c c' ->
  (forall pkt, pkt ∈ inbound c' -> pkt ∈ inbound c \/ carries arriving pkt) -> evolves exact arriving n n' p c c'.
Proof.
  intros E Hs Hq. split; [| |done].
  - eapply rtc_congruence with (f := fun c => c); [|exact Hs]. intros. by apply step_own.
  - intros W _. unfold end_of. rewrite E. by apply own_ends.
Qed.

Lemma enqueue_in pkt c x : x ∈ inbound (enqueue pkt c) -> x ∈ inbound c \/ x = pkt.
Proof.
  unfold enqueue. case_match; cbn; [|by left]. intros [?|?%list_elem_of_singleton]%elem_of_app; auto.
Qed.

Lemma enqueue_run exact pkts c : rtc (own_step exact) c (fold_left (fun c pkt => enqueue pkt c) pkts c).
Proof.
  revert c. induction pkts as [|pkt pkts IH]; intros c; cbn [fold_left]; [done|].
  eapply rtc_l; [apply step_enqueue | apply IH].
Qed.

Section Stepping.
Context (exact : bool) (arriving : datagram -> Prop).

(** A datagram leaves other connections alone, adds a packet to the queue of its
    own, or opens one. *)
Lemma datagram_old now random data to a n p c : arriving (data, to) -> heap (mux n) !! p = Some c ->
  let n' := MkNode (handleDatagram now random data a (mux n)).1 (usage n) in
  exists c', heap (mux n') !! p = Some c' /\ evolves exact arriving n n' p c c'.
Proof.
  intros Ha Hp. cbv zeta. assert (Hsame : forall m, heap m !! p = Some c -> exists c', heap m !! p = Some c' /\
    evolves exact arriving n (MkNode m (usage n)) p c c') by (intros m Hm; exists c; split; [done | by apply evolves_refl]).
  unfold handleDatagram. destruct (UnmarshalPacket data) as [pkt| | |] eqn:Eu; try by apply Hsame.
  case_match; [by apply Hsame|]. cbv zeta. destruct (connections (mux n) !! _) as [q|].
  - destruct (heap (mux n) !! q) as [d|] eqn:Hq; [|by apply Hsame].
    destruct (observe_step exact now a random d) as (_ & Ei & _). pose proof (step_observe exact d now a random) as Hobs.
    destruct (observeAddr now a random d) as [d1 ch]. cbn [fst mux] in *.
    destruct (decide (q = p)) as [->|Hne]; [|apply Hsame; cbn; by rewrite lookup_insert_ne].
    assert (d = c) as -> by congruence. eexists. split; [apply lookup_insert_eq|]. apply evolves_own; [done| |].
    + eapply rtc_l; [exact Hobs|]. apply rtc_once, step_enqueue.
    + intros x [Hx| ->]%enqueue_in; [left; by rewrite <- Ei | right; by exists data, to].
  - destruct (hasSyn pkt); cbn [negb fst]; apply Hsame.
    + cbn [acceptNew heap]. rewrite lookup_insert_ne; [done|]. intros E. apply (is_fresh (dom (heap (mux n)))).
      rewrite E. by apply elem_of_dom_2 in Hp.
    + unfold bufferEarly. by repeat case_match.
Qed.

Lemma changed_old n u p q c d d' : heap (mux n) !! p = Some c -> heap (mux n) !! q = Some d -> (q <> p -> u p = usage n p) ->
  (q = p -> evolves exact arriving n (MkNode (conn_changed q d d' (mux n)) u) p d d') ->
  exists c', heap (conn_changed q d d' (mux n)) !! p = Some c' /\
    evolves exact arriving n (MkNode (conn_changed q d d' (mux n)) u) p c c'.
Proof.
  intros Hp Hq Hu He. rewrite changed_heap. destruct (decide (q = p)) as [->|Hne].
  - assert (d = c) as -> by congruence. exists d'. split; [apply lookup_insert_eq | by apply He].
  - exists c. split; [by rewrite lookup_insert_ne | by apply evolves_refl, Hu].
Qed.

Lemma round_evolves n n' (o : RangeOrder) now p c c' : usage n' p = usage n p -> 0 <= now ->
  (forall pkt, pkt ∈ inbound c -> Packet_ok pkt) -> inbound_round now c = Some c' -> evolves exact arriving n n' p c c'.
Proof.
  intros Eu Hnow Hok. unfold inbound_round. destruct (inbound c) as [|pkt rest] eqn:E; [done|]. intros [= <-].
  set (c1 := set_inbound rest (inboundDropped c) c). pose proof (step_dequeue exact c pkt rest E) as Hd.
  destruct (HandlePacket_logs now pkt c1) as [_ Ei]. split.
  - eapply rtc_l; [apply step_own, Hd|]. apply rtc_once, step_packet; [done | apply Hok, list_elem_of_here].
  - intros W HW. destruct (HW pkt) as (data & to & Hin & Hu); [rewrite E; apply list_elem_of_here|].
    unfold end_of. rewrite Eu. eapply rtc_l; [by apply (end_own exact W (MkEnd c _ _ _)), Hd|].
    by eapply rtc_once, (end_recv exact W (MkEnd c1 _ _ _)).
  - intros x. rewrite Ei. left. rewrite E. by right.
Qed.

(** A connection of a node is found there after a step, and has taken steps of its own. *)
Lemma node_old n n' p c : node_step exact arriving n n' -> Mux_ok exact (mux n) -> heap (mux n) !! p = Some c ->
  exists c', heap (mux n') !! p = Some c' /\ evolves exact arriving n n' p c c'.
Proof.
  intros Hs Hm Hp. assert (Hsame : forall m, heap m !! p = Some c -> exists c', heap m !! p = Some c' /\
    evolves exact arriving n (MkNode m (usage n)) p c c') by (intros m Hc; exists c; split; [done | by apply evolves_refl]).
  destruct Hs as [now random data to a Hnow Ha|now r1 r2 a m' q Hnow _ _ Hd|ctx m' r Ha|now Hnow| |o now q d d' Hnow Hq Hr
    |now q d id s s' calls out Hnow Hq Hid Hop|q d d' Hq Hown Hi]; cbn [mux].
  - by eapply datagram_old.
  - apply Hsame. unfold Dial in Hd. destruct (RandomConnectionID r1 _); try done. destruct (RandomConnectionID r2 _); try done.
    injection Hd as <- _. cbn [heap]. rewrite lookup_insert_ne; [done|]. intros E.
    apply (is_fresh (dom (heap (mux n)))). rewrite E. by apply elem_of_dom_2 in Hp.
  - apply Hsame. by destruct Ha.
  - unfold MuxClose. destruct (mux_closed (mux n)); [by apply Hsame|]. cbn [heap]. rewrite map_lookup_imap, Hp. cbn.
    eexists. split; [done|]. case_decide; [|by apply evolves_refl]. unfold CloseConn, CloseWithError.
    apply evolves_own; [done | by apply rtc_once, step_close |]. rewrite closeInternal_inbound. by left.
  - by apply Hsame.
  - apply (changed_old n (usage n) p q c d d'); try done. intros ->. eapply round_evolves; try done.
    intros pkt Hin. pose proof (co_inbound _ _ (mo_heap _ _ Hm _ _ Hq)) as Hall. rewrite Forall_forall in Hall. by apply Hall.
  - apply (changed_old n _ p q c d); try done; [by intros; apply fn_lookup_insert_ne|]. intros ->. split.
    + by eapply rtc_once, step_stream.
    + intros W _. apply rtc_once. unfold end_of. cbn [usage]. rewrite fn_lookup_insert. by eapply (end_stream exact W (MkEnd d _ _ _)).
    + rewrite (proj2 (stream_call_logs now id s' calls d)). by left.
  - apply (changed_old n (usage n) p q c d d'); try done. intros ->. apply evolves_own; [done | by apply rtc_once |].
    rewrite Hi. by left.
Qed.

Lemma node_usage n n' p : node_step exact arriving n n' -> heap (mux n) !! p = None -> usage n' p = usage n p.
Proof. destruct 1; intros Hn; try done. cbn [usage]. apply fn_lookup_insert_ne. congruence. Qed.

(** What is buffered for no connection yet has arrived. *)
Definition early_in (n : Node) (pkt : Packet) : Prop := exists key buf e,
  earlyPackets (mux n) !! key = Some buf /\ e ∈ buf /\ ep_pkt e = pkt.

Lemma node_early n n' pkt : node_step exact arriving n n' -> early_in n' pkt -> early_in n pkt \/ carries arriving pkt.
Proof.
  intros Hs (key & buf & e & Hk & He & <-).
  destruct Hs as [now random data to a Hnow Ha|now r1 r2 a m' q Hnow _ _ Hd|ctx m' r Ha|now Hnow| |o now q d d' Hnow Hq Hr
    |now q d id s s' calls out Hnow Hq Hid Hop|q d d' Hq Hown Hi]; cbn [mux] in Hk; rewrite ?changed_early in Hk; try (left; by exists key, buf, e).
  - revert Hk. unfold handleDatagram. destruct (UnmarshalPacket data) as [pkt| | |] eqn:Eu; try (left; by exists key, buf, e).
    case_match; [left; by exists key, buf, e|]. cbv zeta. destruct (connections (mux n) !! _) as [q|].
    { destruct (heap (mux n) !! q); [|left; by exists key, buf, e]. destruct (observeAddr _ _ _ _). left. by exists key, buf, e. }
    destruct (hasSyn pkt); cbn [negb fst].
    + cbn [acceptNew earlyPackets]. intros [_ Hk]%lookup_delete_Some. left. by exists key, buf, e.
    + unfold bufferEarly. repeat (case_match; [|left; by exists key, buf, e]). cbn [earlyPackets].
      intros [[<- <-]|[_ Hk]]%lookup_insert_Some; [|left; by exists key, buf, e].
      apply elem_of_app in He as [He| ->%list_elem_of_singleton]; [left | right; by exists data, to].
      destruct (earlyPackets (mux n) !! _) as [b|] eqn:E; [|by apply not_elem_of_nil in He]. by eexists _, b, e.
  - unfold Dial in Hd. destruct (RandomConnectionID r1 _); try done. destruct (RandomConnectionID r2 _); try done.
    injection Hd as <- _. left. by exists key, buf, e.
  - left. exists key, buf, e. by destruct Ha.
  - unfold MuxClose in Hk. destruct (mux_closed (mux n)); left; by exists key, buf, e.
Qed.

(** A connection is dialled, or accepted for a packet that arrived. *)
Inductive born (n : Node) : Connection -> Prop :=
  | born_dialled now local remote la ra : 0 <= now -> CID_ok local -> CID_ok remote ->
      born n (sendFrames now [StreamF (MkStreamFrame false true 0 [])]
        (establish (NewConnection now local remote la ra true true)))
  | born_accepted now pkt queue la ra : carries arriving pkt -> (forall x, x ∈ queue -> early_in n x) ->
      born n (fold_left (fun c pkt => enqueue pkt c) (pkt :: queue)
        (establish (NewConnection now (DestinationCID pkt) (SourceCID pkt) la ra false true))).

Lemma node_born n n' p c : node_step exact arriving n n' -> heap (mux n) !! p = None -> heap (mux n') !! p = Some c ->
  born n c /\ usage n' p = usage n p.
Proof.
  intros Hs Hn Hc.
  destruct Hs as [now random data to a Hnow Ha|now r1 r2 a m' q Hnow D1 D2 Hd|ctx m' r Ha|now Hnow| |o now q d d' Hnow Hq Hr
    |now q d id s s' calls out Hnow Hq Hid Hop|q d d' Hq Hown Hi]; cbn [mux] in Hc; try congruence.
  - split; [|done]. revert Hc. unfold handleDatagram. destruct (UnmarshalPacket data) as [pkt| | |] eqn:Eu; cbn [fst]; try congruence.
    case_match; [cbn [fst]; congruence|]. cbv zeta. destruct (connections (mux n) !! _) as [q|].
    { destruct (heap (mux n) !! q) eqn:Hq; [|cbn [fst]; congruence]. destruct (observeAddr _ _ _ _). cbn [fst set_conn heap].
      rewrite lookup_insert_ne by congruence. congruence. }
    destruct (hasSyn pkt); cbn [negb fst]; [|unfold bufferEarly; repeat case_match; cbn [heap]; congruence].
    unfold acceptNew. cbn [heap]. intros [[_ <-]|[_ ?]]%lookup_insert_Some; [|congruence].
    apply born_accepted; [by exists data, to|]. intros x (e & -> & He)%list_elem_of_fmap.
    destruct (earlyPackets (mux n) !! _) as [buf|] eqn:Ee; [|by apply not_elem_of_nil in He]. by eexists _, buf, e.
  - split; [|done]. unfold Dial in Hd. destruct (RandomConnectionID r1 _) as [local| | |] eqn:E1; try done.
    destruct (RandomConnectionID r2 _) as [remote| | |] eqn:E2; try done. injection Hd as <- _.
    apply RandomConnectionID_ok in E1, E2; try done. cbn [heap] in Hc.
    apply lookup_insert_Some in Hc as [[_ <-]|[_ ?]]; [by apply born_dialled | congruence].
  - destruct Ha; cbn in Hc; congruence.
  - unfold MuxClose in Hc. destruct (mux_closed (mux n)); [congruence|]. cbn [heap] in Hc. by rewrite map_lookup_imap, Hn in Hc.
  - cbn in Hc. congruence.
  - rewrite changed_heap, lookup_insert_ne in Hc; congruence.
  - rewrite changed_heap, lookup_insert_ne in Hc; congruence.
  - rewrite changed_heap, lookup_insert_ne in Hc; congruence.
Qed.

(** A step of a node is steps of its multiplexer. *)
Lemma node_mux n n' : node_step exact arriving n n' -> Mux_ok exact (mux n) -> rtc (mux_step exact) (mux n) (mux n').
Proof.
  intros Hs Hm.
  destruct Hs as [now random data to a Hnow Ha|now r1 r2 a m' q Hnow D1 D2 Hd|ctx m' r Ha|now Hnow| |o now q d d' Hnow Hq Hr
    |now q d id s s' calls out Hnow Hq Hid Hop|q d d' Hq Hown Hi]; cbn [mux].
  - by apply rtc_once, mux_datagram.
  - by apply rtc_once, (mux_dial exact (mux n) now r1 r2 a m' q).
  - by apply rtc_once, (mux_accept exact (mux n) ctx m' r).
  - by apply rtc_once, mux_close.
  - apply rtc_once, mux_tick.
  - unfold inbound_round in Hr. destruct (inbound d) as [|pkt rest] eqn:E; [done|]. injection Hr as <-.
    set (d1 := set_inbound rest (inboundDropped d) d). pose proof (co_inbound _ _ (mo_heap _ _ Hm _ _ Hq)) as Hall.
    rewrite E in Hall. apply Forall_cons in Hall as [(_ & _ & Hok) _].
    eapply rtc_l; [apply (mux_conn exact (mux n) q d d1); [done | by eapply step_own, step_dequeue | right; by exists pkt]|].
    assert (E2 : conn_changed q d (HandlePacket now pkt d1) (mux n) = conn_changed q d1 (HandlePacket now pkt d1) (conn_changed q d d1 (mux n))).
    { unfold conn_changed at 3. destruct (closeReported (life d1)) eqn:Er; cbn [d1 life set_inbound] in Er; rewrite Er; cbn [andb negb];
        unfold conn_changed, set_conn; cbn [heap mux_addr connections earlyPackets incoming mux_closed d1 life set_inbound];
        rewrite Er, insert_insert_eq; reflexivity. }
    rewrite E2. apply rtc_once, mux_conn; [rewrite changed_heap; apply lookup_insert_eq | by apply step_packet |].
    left. apply HandlePacket_logs.
  - eapply rtc_once, mux_conn; [done | by eapply step_stream |]. left. apply stream_call_logs.
  - eapply rtc_once, mux_conn; [done | by apply step_own | by left].
Qed.

End Stepping.

(** ** The system *)

Lemma steps_kept exact c c' : rtc (conn_step exact) c c' -> wire c `prefix_of` wire c' /\ ident c' = ident c.
Proof.
  induction 1 as [c|c c1 c2 H _ [IH1 IH2]]; [done|]. split; [etrans; [by eapply conn_step_wire | done]|].
  destruct (conn_step_moves _ _ _ H) as [E _]. congruence.
Qed.

Lemma carries_mono (W W' : datagram -> Prop) pkt : (forall d, W d -> W' d) -> carries W pkt -> carries W' pkt.
Proof. intros H (data & to & Hd & Hu). exists data, to. auto. Qed.

Lemma accepted_ids pkts now l r la ra
    (c := fold_left (fun c pkt => enqueue pkt c) pkts (establish (NewConnection now l r la ra false true))) :
  localCID c = l /\ remoteCID c = r /\ isInitiator c = false.
Proof.
  destruct (steps_kept false (establish (NewConnection now l r la ra false true))
    (fold_left (fun c pkt => enqueue pkt c) pkts (establish (NewConnection now l r la ra false true)))) as [_ E].
  - eapply rtc_congruence with (f := fun c => c); [|apply enqueue_run]. intros. by apply step_own.
  - by injection E.
Qed.

Lemma same_ids c c' : same c c' -> localCID c' = localCID c /\ remoteCID c' = remoteCID c /\
  isInitiator c' = isInitiator c /\ inbound c' = inbound c.
Proof. intros E. by injection E. Qed.

Lemma dialled_ids now l r la ra
    (c := sendFrames now [StreamF (MkStreamFrame false true 0 [])] (establish (NewConnection now l r la ra true true))) :
  localCID c = l /\ remoteCID c = r /\ isInitiator c = true /\ inbound c = [].
Proof. exact (same_ids _ _ (sendFrames_same now _ (establish (NewConnection now l r la ra true true)))). Qed.

Section Invariant.
Context {I : Type} `{EqDecision I} (exact : bool).
Implicit Types (S : I -> Node) (k a b : I * conn_ptr) (c d : Connection).

Record Sys_ok S : Prop := {
  sy_mux : forall x, mux_reach exact (mux (S x));
  sy_unused : forall k, conn_of S k = None -> usage (S k.1) k.2 = unused;
  sy_queue : forall k c pkt, conn_of S k = Some c -> pkt ∈ inbound c -> carries (sent_in S) pkt;
  sy_early : forall x pkt, early_in (S x) pkt -> carries (sent_in S) pkt;
  sy_origin : forall b d, conn_of S b = Some d -> isInitiator d = false ->
    exists a c, conn_of S a = Some c /\ localCID c = remoteCID d /\ remoteCID c = localCID d
}.

(** The sender of a packet has its source ID and the ID it is for. *)
Lemma carried_from S pkt : Sys_ok S -> carries (sent_in S) pkt -> exists k c,
  conn_of S k = Some c /\ localCID c = SourceCID pkt /\ remoteCID c = DestinationCID pkt /\ carries (.∈ wire c) pkt.
Proof.
  intros Hs (data & to & (k & c & Hk & Hd) & Hu). exists k, c. split; [done|].
  pose proof (mo_heap _ _ (mux_reach_ok _ _ (sy_mux _ Hs k.1)) _ _ Hk) as Hc.
  pose proof (so_wire _ _ _ (h_sound _ _ _ (reach_healthy _ _ (co_reach _ _ Hc)))) as Hw.
  rewrite Forall_forall in Hw. destruct (Hw _ Hd) as (p0 & Hp & E & _ & E1 & E2 & _). cbn [fst] in E. subst data.
  pose proof Hu as Hu'. rewrite unmarshal_marshal in Hu' by done. injection Hu' as <-. cbn [SourceCID DestinationCID].
  split_and!; [done | done |]. by exists (MarshalPacket p0), to.
Qed.

(** So has the sender of a packet that waits in a queue. *)
Lemma queued_from S k c pkt : Sys_ok S -> conn_of S k = Some c -> pkt ∈ inbound c -> exists k' c',
  conn_of S k' = Some c' /\ remoteCID c' = localCID c /\ carries (.∈ wire c') pkt.
Proof.
  intros Hs Hk Hin. destruct (carried_from S pkt Hs (sy_queue _ Hs _ _ _ Hk Hin)) as (k' & c' & Hk' & _ & E & Hc).
  exists k', c'. split_and!; [done | | done]. rewrite E.
  pose proof (mo_heap _ _ (mux_reach_ok _ _ (sy_mux _ Hs k.1)) _ _ Hk) as [Hr Hq _ _].
  rewrite Forall_forall in Hq. destruct (Hq _ Hin) as (E2 & _ & Hok). apply CIDString_inj; [apply Hok| |done].
  apply (so_cids _ _ _ (h_sound _ _ _ (reach_healthy _ _ Hr))).
Qed.

(** *** A step *)

Section Step.
Context S (x : I) n' (Hok : Sys_ok S) (Hstep : node_step exact (sent_in S) (S x) n').
#[local] Notation S' := (<[x := n']> S).

Lemma conn_later k c : conn_of S k = Some c ->
  exists c', conn_of S' k = Some c' /\ evolves exact (sent_in S) (S k.1) (S' k.1) k.2 c c'.
Proof using Hok Hstep.
  unfold conn_of. intros Hk. destruct (decide (k.1 = x)) as [E|Hne].
  - rewrite E in *. rewrite fn_lookup_insert. eapply node_old; try done. apply mux_reach_ok, (sy_mux _ Hok).
  - rewrite fn_lookup_insert_ne by done. exists c. split; [done | by apply evolves_refl].
Qed.

(** With its IDs and what it has sent. *)
Lemma conn_kept k c : conn_of S k = Some c -> exists c', conn_of S' k = Some c' /\
  wire c `prefix_of` wire c' /\ localCID c' = localCID c /\ remoteCID c' = remoteCID c /\ isInitiator c' = isInitiator c.
Proof using Hok Hstep.
  intros (c' & Hc' & He)%conn_later. exists c'. destruct (steps_kept _ _ _ (ev_steps _ _ _ _ _ _ _ He)) as [Hw E].
  injection E as E1 E2 E3 _. done.
Qed.

Lemma conn_born k c : conn_of S k = None -> conn_of S' k = Some c ->
  born (sent_in S) (S k.1) c /\ usage (S' k.1) k.2 = unused.
Proof using Hok Hstep.
  intros Hn Hc. rewrite <- (sy_unused _ Hok k Hn). unfold conn_of in *. destruct (decide (k.1 = x)) as [E|Hne].
  - rewrite E in *. rewrite fn_lookup_insert in *. by eapply node_born.
  - rewrite fn_lookup_insert_ne in Hc by done. congruence.
Qed.

Lemma sent_kept (x0 : datagram) : sent_in S x0 -> sent_in S' x0.
Proof using Hok Hstep.
  intros (k & c & (c' & Hk & Hw & _)%conn_kept & Hd). exists k, c'. split; [done|]. by eapply elem_of_prefix.
Qed.

Lemma carried_kept pkt : carries (sent_in S) pkt -> carries (sent_in S') pkt.
Proof using Hok Hstep. apply carries_mono, sent_kept. Qed.

Lemma sole_before l r : sole S' l r -> sole S l r.
Proof using Hok Hstep.
  intros H k k' c c' (d & Hd & _ & E1 & E2 & _)%conn_kept (d' & Hd' & _ & E1' & E2' & _)%conn_kept.
  rewrite <- E1, <- E2, <- E1', <- E2'. by apply H.
Qed.

(** An accepted connection answers one that was there before. *)
Lemma origin_before b d : conn_of S' b = Some d -> isInitiator d = false ->
  exists a c, conn_of S a = Some c /\ localCID c = remoteCID d /\ remoteCID c = localCID d.
Proof using Hok Hstep.
  intros Hb Hi. destruct (conn_of S b) as [d0|] eqn:Hb0.
  - destruct (conn_kept _ _ Hb0) as (d' & Hd' & _ & E1 & E2 & E3). assert (d' = d) as -> by congruence.
    rewrite E1, E2. apply (sy_origin _ Hok b); congruence.
  - destruct (conn_born _ _ Hb0 Hb) as [Hborn _]. destruct Hborn as [now local remote la ra _ _ _|now pkt queue la ra Hc _].
    + destruct (dialled_ids now local remote la ra) as (_ & _ & E & _). congruence.
    + destruct (carried_from S pkt Hok Hc) as (a & c & Ha & E1 & E2 & _). exists a, c.
      destruct (accepted_ids (pkt :: queue) now (DestinationCID pkt) (SourceCID pkt) la ra) as (-> & -> & _). done.
Qed.

Lemma born_queue k c pkt : born (sent_in S) (S k.1) c -> pkt ∈ inbound c -> carries (sent_in S) pkt.
Proof using Hok.
  destruct 1 as [now local remote la ra _ _ _|now pkt0 queue la ra Hc Hq].
  - destruct (dialled_ids now local remote la ra) as (_ & _ & _ & ->). by intros ?%not_elem_of_nil.
  - assert (Hall : forall x, x ∈ pkt0 :: queue -> carries (sent_in S) x).
    { intros y [->|Hy]%elem_of_cons; [done|]. by eapply (sy_early _ Hok), Hq. }
    clear Hc Hq. assert (Hn : pkt ∈ inbound (establish (NewConnection now (DestinationCID pkt0) (SourceCID pkt0) la ra false true)) ->
      carries (sent_in S) pkt) by (by intros ?%not_elem_of_nil).
    revert Hn Hall. generalize (establish (NewConnection now (DestinationCID pkt0) (SourceCID pkt0) la ra false true)). generalize (pkt0 :: queue).
    induction l as [|y l IH]; intros c0 H0 Hall; [done|]. cbn [fold_left]. apply IH.
    + intros [?| ->]%enqueue_in; [by apply H0 | apply Hall, list_elem_of_here].
    + intros z Hz. apply Hall. by right.
Qed.

Lemma step_sys_ok : Sys_ok S'.
Proof using Hok Hstep.
  split.
  - intros y. destruct (decide (y = x)) as [->|Hne]; [rewrite fn_lookup_insert | rewrite fn_lookup_insert_ne by done; apply (sy_mux _ Hok)].
    pose proof (sy_mux _ Hok x) as Hr. pose proof (node_mux _ _ _ _ Hstep (mux_reach_ok _ _ Hr)) as Hs.
    revert Hr. induction Hs as [m|m m1 m2 H _ IH]; [done|]. intros Hr. apply IH. by eapply mux_next.
  - intros k Hn. destruct (conn_of S k) as [c|] eqn:Hk; [destruct (conn_kept _ _ Hk) as (? & ? & _); congruence|].
    rewrite <- (sy_unused _ Hok k Hk). destruct (decide (k.1 = x)) as [E|Hne]; [|by rewrite fn_lookup_insert_ne].
    unfold conn_of in Hn, Hk. rewrite E in *. rewrite fn_lookup_insert in *. by eapply node_usage.
  - intros k c pkt Hk Hin. apply carried_kept. destruct (conn_of S k) as [c0|] eqn:Hk0.
    + destruct (conn_later _ _ Hk0) as (c' & Hc' & He). assert (c' = c) as -> by congruence.
      destruct (ev_queue _ _ _ _ _ _ _ He _ Hin) as [?|?]; [by eapply (sy_queue _ Hok) | done].
    + eapply born_queue; [by eapply conn_born | done].
  - intros y pkt He. apply carried_kept. destruct (decide (y = x)) as [->|Hne].
    + rewrite fn_lookup_insert in He. destruct (node_early _ _ _ _ _ Hstep He) as [?|?]; [by eapply (sy_early _ Hok) | done].
    + rewrite fn_lookup_insert_ne in He by done. by eapply (sy_early _ Hok).
  - intros b d Hb Hi. destruct (origin_before b d Hb Hi) as (a & c & (c' & Ha & _ & E1 & E2 & _)%conn_kept & E3 & E4).
    exists a, c'. split_and!; congruence.
Qed.
End Step.

Lemma reach_sys_ok S : sys_reach exact S -> Sys_ok S.
Proof.
  induction 1 as [laddr|S x n' _ IH Hs]; [|by apply step_sys_ok]. split; try done.
  - intros x. apply mux_new.
  - intros x pkt (key & buf & e & Hk & _). cbn in Hk. by rewrite lookup_empty in Hk.
Qed.

(** *** Pairs *)

(** The two ends of a run. *)
Definition duo (e f : End) : Prop := exists D, duo_reach exact D /\ D true = e /\ D false = f.

Lemma duo_dialler e e' f : duo e f -> rtc (end_step exact (wire (conn_at f))) e e' -> duo e' f.
Proof.
  intros Hd Hs. induction Hs as [e|e e1 e2 H _ IH]; [done|]. apply IH. destruct Hd as (D & Hr & <- & <-).
  exists (<[true := e1]> D). split_and!; [by apply duo_step | apply fn_lookup_insert | by apply fn_lookup_insert_ne].
Qed.

Lemma duo_acceptor e f f' : duo e f -> rtc (end_step exact (wire (conn_at e))) f f' -> duo e f'.
Proof.
  intros Hd Hs. induction Hs as [f|f f1 f2 H _ IH]; [done|]. apply IH. destruct Hd as (D & Hr & <- & <-).
  exists (<[false := f1]> D). split_and!; [by apply duo_step | by apply fn_lookup_insert_ne | apply fn_lookup_insert].
Qed.

(** A connection on its way to be accepted. *)
Definition fresh_end (now : Z) (l r : ConnectionID) (la ra : option addr) : End :=
  MkEnd (NewConnection now l r la ra false true) (fun _ => []) (fun _ => []) (fun _ => []).

(** Nobody answers [c] yet. *)
Definition unanswered S c : Prop := forall k d, conn_of S k = Some d -> localCID d <> remoteCID c /\ remoteCID d <> localCID c.

Record paired_up S a c : Prop := {
  pu_alone : unanswered S c -> forall now la ra, duo (end_in S a c) (fresh_end now (remoteCID c) (localCID c) la ra);
  pu_met : forall b d, conn_of S b = Some d -> isInitiator d = false -> localCID d = remoteCID c -> remoteCID d = localCID c ->
    sole S (remoteCID c) (localCID c) -> duo (end_in S a c) (end_in S b d)
}.

Lemma alone_queue S a c pkt : Sys_ok S -> conn_of S a = Some c -> unanswered S c -> ~ pkt ∈ inbound c.
Proof.
  intros Hs Ha Hu Hin. destruct (queued_from S a c pkt Hs Ha Hin) as (k & d & Hk & E & _). by apply (Hu k d Hk).
Qed.

(** Packets in the queue of [c] were sent by the one connection with its ID as its peer's. *)
Lemma peer_queue S a b c d pkt l r : Sys_ok S -> conn_of S a = Some c -> conn_of S b = Some d -> localCID c = l ->
  remoteCID d = l -> sole S r l -> pkt ∈ inbound c -> carries (.∈ wire d) pkt.
Proof.
  intros Hs Ha Hb El Er Hsole Hin. destruct (queued_from S a c pkt Hs Ha Hin) as (k & d0 & Hk & E & Hc).
  assert (k = b) as -> by (apply (Hsole k b d0 d); auto; right; congruence).
  by assert (d0 = d) as <- by congruence.
Qed.

Section Pairing.
Context S (x : I) n' (Hok : Sys_ok S) (Hstep : node_step exact (sent_in S) (S x) n').
#[local] Notation S' := (<[x := n']> S).

Lemma unanswered_before c c' : localCID c' = localCID c -> remoteCID c' = remoteCID c -> unanswered S' c' -> unanswered S c.
Proof using Hok Hstep.
  intros E1 E2 Hu k d Hk. destruct (conn_kept _ _ _ Hok Hstep _ _ Hk) as (d' & Hd & _ & <- & <- & _).
  rewrite <- E1, <- E2. by eapply Hu.
Qed.

(** The IDs of a connection about to be accepted are nobody's. *)
Lemma unanswered_until b d c : conn_of S b = None -> conn_of S' b = Some d -> localCID d = remoteCID c ->
  sole S' (remoteCID c) (localCID c) -> unanswered S c.
Proof using Hok Hstep.
  intros Hb Hb' E Hs k d0 Hk. destruct (conn_kept _ _ _ Hok Hstep _ _ Hk) as (d1 & Hk1 & _ & E1 & E2 & _).
  assert (Hne : ~ (localCID d1 = remoteCID c \/ remoteCID d1 = localCID c)).
  { intros H. assert (k = b) as -> by (eapply Hs; eauto). congruence. }
  rewrite E1, E2 in Hne. tauto.
Qed.

Lemma born_pairs a c : conn_of S a = None -> conn_of S' a = Some c -> isInitiator c = true ->
  sole S' (localCID c) (remoteCID c) -> paired_up S' a c.
Proof using Hok Hstep.
  intros Ha Ha' Hi Hs. destruct (conn_born _ _ _ Hok Hstep _ _ Ha Ha') as [Hborn Hu]. split.
  - intros _ now la ra. unfold end_in, end_of. rewrite Hu. clear Ha Ha' Hs Hu.
    destruct Hborn as [now0 local remote la0 ra0 Hnow Hl Hr|now0 pkt queue la0 ra0 _ _].
    + destruct (dialled_ids now0 local remote la0 ra0) as (-> & -> & _).
      apply (duo_dialler (MkEnd (NewConnection now0 local remote la0 ra0 true true) (fun _ => []) (fun _ => []) (fun _ => []))).
      * eexists. split; [by apply (duo_new exact (fun y : bool => if y then now0 else now) local remote
          (fun y : bool => if y then la0 else la) (fun y : bool => if y then ra0 else ra) (fun _ => true))|]. done.
      * apply own_ends. eapply rtc_l; [apply step_establish | by apply rtc_once, step_syn].
    + destruct (accepted_ids (pkt :: queue) now0 (DestinationCID pkt) (SourceCID pkt) la0 ra0) as (_ & _ & E). congruence.
  - intros b d Hb Hd El Er _. destruct (origin_before _ _ _ Hok Hstep b d Hb Hd) as (a0 & c0 & Ha0 & E1 & E2).
    destruct (conn_kept _ _ _ Hok Hstep _ _ Ha0) as (c1 & Hc1 & _ & E3 & _).
    assert (a0 = a) as -> by (apply (Hs a0 a c1 c); auto; left; congruence). congruence.
Qed.

Lemma later_pairs a c c' : conn_of S a = Some c -> conn_of S' a = Some c' -> evolves exact (sent_in S) (S a.1) (S' a.1) a.2 c c' ->
  isInitiator c = true -> sole S' (localCID c') (remoteCID c') -> paired_up S a c -> paired_up S' a c'.
Proof using Hok Hstep.
  intros Ha Ha' He Hi Hs [Hal Hmet]. destruct (steps_kept _ _ _ (ev_steps _ _ _ _ _ _ _ He)) as [Hw E]. injection E as E1 E2 E3 _.
  assert (Halone : unanswered S c -> forall now la ra, duo (end_in S' a c') (fresh_end now (remoteCID c) (localCID c) la ra)).
  { intros Hu now la ra. eapply duo_dialler; [by apply Hal|]. apply (ev_end _ _ _ _ _ _ _ He). intros pkt Hin.
    by apply (alone_queue S a c pkt Hok Ha Hu) in Hin. }
  split; rewrite ?E1, ?E2.
  - intros Hu. apply Halone. by eapply unanswered_before.
  - intros b d' Hb' Hd El Er Hsole. destruct (conn_of S b) as [d|] eqn:Hb.
    + destruct (conn_later _ _ _ Hok Hstep _ _ Hb) as (d1 & Hb1 & Hev). assert (d1 = d') as -> by congruence.
      destruct (steps_kept _ _ _ (ev_steps _ _ _ _ _ _ _ Hev)) as [_ E']. injection E' as F1 F2 F3 _.
      pose proof (sole_before _ _ _ Hok Hstep _ _ Hsole) as Hsole0. rewrite E1, E2 in Hs. pose proof (sole_before _ _ _ Hok Hstep _ _ Hs) as Hs0.
      eapply duo_acceptor; [eapply duo_dialler; [apply (Hmet b d); [congruence.. | done]|]|].
      * apply (ev_end _ _ _ _ _ _ _ He). intros pkt Hin. apply (peer_queue S a b c d pkt (localCID c) (remoteCID c)); try done. congruence.
      * apply (ev_end _ _ _ _ _ _ _ Hev). intros pkt Hin. eapply carries_mono; [|apply (peer_queue S b a d c pkt (remoteCID c) (localCID c)); try done; congruence].
        intros y Hy. exact (elem_of_prefix _ _ _ Hy Hw).
    + destruct (conn_born _ _ _ Hok Hstep _ _ Hb Hb') as [Hborn Hu]. pose proof (unanswered_until b d' c Hb Hb' El Hsole) as Hun.
      unfold end_in at 2, end_of. rewrite Hu. clear Hb' Hb. destruct Hborn as [now l r la ra _ _ _|now pkt queue la ra _ _].
      * destruct (dialled_ids now l r la ra) as (_ & _ & F & _). congruence.
      * destruct (accepted_ids (pkt :: queue) now (DestinationCID pkt) (SourceCID pkt) la ra) as (F1 & F2 & _).
        specialize (Halone Hun now la ra). rewrite <- El, <- Er, F1, F2 in Halone. eapply duo_acceptor; [exact Halone|].
        apply own_ends. eapply rtc_l; [apply step_establish | apply enqueue_run].
Qed.
End Pairing.

Lemma reach_paired S : sys_reach exact S -> forall a c, conn_of S a = Some c -> isInitiator c = true ->
  sole S (localCID c) (remoteCID c) -> paired_up S a c.
Proof.
  induction 1 as [laddr|S x n' Hr IH Hs]; intros a c' Ha' Hi Hsole; [done|]. apply reach_sys_ok in Hr as Hok.
  destruct (conn_of S a) as [c|] eqn:Ha; [|by eapply born_pairs].
  destruct (conn_later _ _ _ Hok Hs _ _ Ha) as (c1 & Hc1 & He). assert (c1 = c') as -> by congruence.
  destruct (steps_kept _ _ _ (ev_steps _ _ _ _ _ _ _ He)) as [_ E]. injection E as E1 E2 E3 _.
  eapply later_pairs; try done; [congruence|]. apply IH; [done | congruence |]. rewrite <- E1, <- E2. by eapply sole_before.
Qed.

(** Where no ID is used twice, the connection an accepted one answers was dialled. *)
Lemma reach_answers S : sys_reach exact S -> forall b d, conn_of S b = Some d -> isInitiator d = false ->
  sole S (localCID d) (remoteCID d) -> exists a c, conn_of S a = Some c /\ isInitiator c = true /\
    localCID c = remoteCID d /\ remoteCID c = localCID d.
Proof.
  induction 1 as [laddr|S x n' Hr IH Hs]; intros b d' Hb' Hi Hsole; [done|]. apply reach_sys_ok in Hr as Hok.
  assert (Hc : exists a c, conn_of S a = Some c /\ isInitiator c = true /\ localCID c = remoteCID d' /\ remoteCID c = localCID d').
  { destruct (conn_of S b) as [d|] eqn:Hb.
    - destruct (conn_kept _ _ _ Hok Hs _ _ Hb) as (d1 & Hd1 & _ & E1 & E2 & E3). assert (d1 = d') as -> by congruence.
      rewrite E1, E2. apply (IH b d); [done | congruence |]. rewrite <- E1, <- E2. by eapply sole_before.
    - destruct (origin_before _ _ _ Hok Hs b d' Hb' Hi) as (a & c & Ha & E1 & E2). exists a, c.
      destruct (isInitiator c) eqn:Ei; [done|]. destruct (sy_origin _ Hok a c Ha Ei) as (k & e & Hk & E3 & E4).
      destruct (conn_kept _ _ _ Hok Hs _ _ Hk) as (e' & He' & _ & E5 & _).
      assert (k = b) as -> by (apply (Hsole k b e' d'); auto; left; congruence). congruence. }
  destruct Hc as (a & c & Ha & Ec & E1 & E2). destruct (conn_kept _ _ _ Hok Hs _ _ Ha) as (c' & Ha' & _ & E3 & E4 & E5).
  exists a, c'. split_and!; congruence.
Qed.
End Invariant.

(** ** Properties *)

(** C6. Processes that dial and accept are made of connected pairs. In a system
    of any number of multiplexers over a network that loses, repeats, reorders
    and misdelivers datagrams, an accepted connection whose two IDs no third
    connection uses answers exactly one that was dialled, with the IDs
    exchanged, and the two, with all that their queues and early packets have
    held, are the two ends of a run in which each receives datagrams that the
    other has sent: what is proved of such runs holds of them. *)
Theorem accepted_is_paired {I : Type} `{EqDecision I} (exact : bool) (S : I -> Node) (b : I * conn_ptr) (d : Connection) :
  sys_reach exact S -> conn_of S b = Some d -> isInitiator d = false ->
  sole S (localCID d) (remoteCID d) -> sole S (remoteCID d) (localCID d) ->
  exists a c, conn_of S a = Some c /\ isInitiator c = true /\ localCID c = remoteCID d /\ remoteCID c = localCID d /\
    exists D, duo_reach exact D /\ D true = end_in S a c /\ D false = end_in S b d.
Proof.
  intros Hr Hb Hi H1 H2. destruct (reach_answers exact S Hr b d Hb Hi H1) as (a & c & Ha & Ec & E1 & E2).
  exists a, c. split_and!; try done. apply (pu_met exact S a c); try done; [|by rewrite E1, E2].
  apply reach_paired; try done. by rewrite E1, E2.
Qed.

(** C5. Nothing is lost, made up or mixed up between processes: in such a system,
    and before stream IDs and offsets wrap around, what the application of an
    accepted connection reads from a stream is a beginning of what the
    application that dialled it has written on the stream it is connected to, all of
    it at the end of file if nothing was written after closing, and the same holds the other way. *)
Theorem network_integrity {I : Type} `{EqDecision I} (exact : bool) (S : I -> Node) (b : I * conn_ptr) (d : Connection) :
  sys_reach exact S -> conn_of S b = Some d -> isInitiator d = false ->
  sole S (localCID d) (remoteCID d) -> sole S (remoteCID d) (localCID d) ->
  exists a c, conn_of S a = Some c /\ isInitiator c = true /\ localCID c = remoteCID d /\ remoteCID c = localCID d /\
    (small (end_in S a c) -> small (end_in S b d) -> forall i j,
      (feeds (end_in S b d) (end_in S a c) i j -> intact (end_in S b d) (end_in S a c) i j) /\
      (feeds (end_in S a c) (end_in S b d) i j -> intact (end_in S a c) (end_in S b d) i j)).
Proof.
  intros Hr Hb Hi H1 H2. destruct (reach_answers exact S Hr b d Hb Hi H1) as (a & c & Ha & Ec & E1 & E2).
  exists a, c. split_and!; try done.
  destruct (pu_met exact S a c) with (b := b) (d := d) as (D & HD & <- & <-); try done; [|by rewrite E1, E2|].
  { apply reach_paired; try done. by rewrite E1, E2. }
  intros Sa Sb i j. split; [apply (duo_intact exact D false) | apply (duo_intact exact D true)]; try done; by intros [].
Qed.

(** ** Witness: a process dials another, which accepts and reads what it wrote. *)

Section Sample.
#[local] Existing Instance key_order.

Definition get_conn (p : conn_ptr) (n : Node) : Connection := default run_new (heap (mux n) !! p).

(** The application, a datagram, and the loop that empties the queue. *)
Definition at_conn (p : conn_ptr) (c' : Connection) (n : Node) : Node := MkNode (conn_changed p (get_conn p n) c' (mux n)) (usage n).
Definition uses_stream (p : conn_ptr) (id : Z) (s' : Stream) (calls : list conn_call) (out : list byte) (n : Node) : Node :=
  MkNode (conn_changed p (get_conn p n) (exec_calls (ms 50) calls (set_stream id s' (get_conn p n))) (mux n))
    (<[p := note_use id calls out (usage n p)]> (usage n)).
Definition reads (n : Node) (data : list byte) : Node :=
  MkNode (handleDatagram (ms 60) None data (Some "dialler"%string) (mux n)).1 (usage n).
Definition empties (p : conn_ptr) (n : Node) : Node := at_conn p (default run_new (inbound_round (ms 60) (get_conn p n))) n.

Definition idle_node : Node := MkNode (NewMultiplexer None) (fun _ => unused).
Definition random_of (b : byte) (n : nat) : option (list byte) := Some (replicate n b).

Definition dialler1 : Node :=
  match Dial (ms 1) (random_of x01) (random_of x02) (Some "acceptor"%string) (mux idle_node) with
  | Ok (m, _) => MkNode m (usage idle_node)
  | _ => idle_node
  end.
Definition dialler2 : Node := at_conn 1%positive (OpenStream (get_conn 1%positive dialler1)).1 dialler1.
Definition dialler3 : Node := uses_stream 1%positive 1 commit.1.1 commit.2 [] dialler2.
Definition on_network : list (list byte) := (wire (get_conn 1%positive dialler3)).*1.

Definition accepter1 : Node := reads idle_node (nth 0 on_network []).
Definition accepter2 : Node := empties 1%positive accepter1.
Definition accepter3 : Node := reads accepter2 (nth 1 on_network []).
Definition accepter4 : Node := empties 1%positive accepter3.
Definition incoming4 : Stream := default opened (streams (table (get_conn 1%positive accepter4)) !! 2).
Definition read4 := Read (ms 50) incoming4 10.
Definition accepter5 : Node := uses_stream 1%positive 2 read4.1.1 read4.2 (bytes_read read4.1.2) accepter4.

Lemma has_conn p n : bool_decide (is_Some (heap (mux n) !! p)) = true -> heap (mux n) !! p = Some (get_conn p n).
Proof. unfold get_conn. intros [c ->]%bool_decide_eq_true. done. Qed.

Lemma sys_at (S : bool -> Node) x n n' : S x = n -> sys_reach true S -> node_step true (sent_in S) n n' -> sys_reach true (<[x := n']> S).
Proof. intros <-. apply sys_step. Qed.

Lemma uses_step (arriving : datagram -> Prop) p n id s s' calls out : bool_decide (is_Some (heap (mux n) !! p)) = true ->
  streams (table (get_conn p n)) !! id = Some s -> stream_op (ms 50) (MaxDatagram (get_conn p n)) s s' calls out ->
  node_step true arriving n (uses_stream p id s' calls out n).
Proof. intros Hc%has_conn Hs Hop. by eapply node_stream. Qed.

Lemma reads_step (S : bool -> Node) n0 n k : S true = n0 -> bool_decide (is_Some (heap (mux n0) !! 1%positive)) = true ->
  (k < length (wire (get_conn 1%positive n0)).*1)%nat -> node_step true (sent_in S) n (reads n (nth k (wire (get_conn 1%positive n0)).*1 [])).
Proof.
  intros HS Hc%has_conn Hk. pose proof (nth_elem_of _ _ [] Hk) as Hin.
  apply list_elem_of_fmap in Hin as ([data to] & E & Hin). rewrite E. apply (node_datagram _ _ _ _ _ _ to); [done|].
  exists (true, 1%positive), (get_conn 1%positive n0). split; [|done]. unfold conn_of. cbn [fst snd]. by rewrite HS.
Qed.

Lemma empties_step (arriving : datagram -> Prop) p n : bool_decide (is_Some (heap (mux n) !! p)) = true ->
  bool_decide (inbound (get_conn p n) = []) = false -> node_step true arriving n (empties p n).
Proof.
  intros Hc%has_conn Hq%bool_decide_eq_false. unfold empties, at_conn, inbound_round.
  destruct (inbound (get_conn p n)) as [|pkt rest] eqn:E; [done|]. cbn [default from_option].
  eapply (node_packet _ _ _ _ (ms 60) p); [done | done |]. unfold inbound_round. by rewrite E.
Qed.

(** The dialling process, before anything is received ... *)
Definition net3 : bool -> Node := <[true := dialler3]> (<[true := dialler2]> (<[true := dialler1]> (fun _ => idle_node))).
(** ... and the accepting one. *)
Definition net : bool -> Node := <[false := accepter5]> (<[false := accepter4]> (<[false := accepter3]>
  (<[false := accepter2]> (<[false := accepter1]> net3)))).

Lemma net3_reach : sys_reach true net3.
Proof.
  apply (sys_at _ true dialler2); [at_end | |].
  2: { apply (uses_step _ 1%positive dialler2 1 opened); [by vm_compute | vm_compute; reflexivity |].
    unfold commit. apply (op_write_commit _ _ opened abc 0 1372 true (Some 3)); [done|]. intros g [= <-]. cbn. lia. }
  apply (sys_at _ true dialler1); [at_end | |].
  2: { apply node_own; [apply has_conn; by vm_compute | apply step_open | by vm_compute]. }
  apply (sys_at _ true idle_node); [done | apply (sys_new true (fun _ => None)) |].
  unfold dialler1. destruct (Dial _ _ _ _ _) as [[m p]| | |] eqn:E; [|by vm_compute in E..].
  eapply (node_dial _ _ _ (ms 1) (random_of x01) (random_of x02) (Some "acceptor"%string) m p); try done;
    intros n bs [= <-]; apply length_replicate.
Qed.

Lemma net_reach : sys_reach true net.
Proof.
  apply (sys_at _ false accepter4); [at_end | |].
  2: { apply (uses_step _ 1%positive accepter4 2 incoming4); [by vm_compute | vm_compute; reflexivity |]. apply op_read. }
  apply (sys_at _ false accepter3); [at_end | |apply empties_step; by vm_compute].
  apply (sys_at _ false accepter2); [at_end | |apply (reads_step _ dialler3); [at_end | by vm_compute | vm_compute; lia]].
  apply (sys_at _ false accepter1); [at_end | |apply empties_step; by vm_compute].
  apply (sys_at _ false idle_node); [at_end | |apply (reads_step _ dialler3); [at_end | by vm_compute | vm_compute; lia]].
  apply net3_reach.
Qed.

Lemma net_true : net true = dialler3.
Proof. unfold net, net3. by rewrite ?fn_lookup_insert_ne, fn_lookup_insert by done. Qed.

Lemma net_false : net false = accepter5.
Proof. apply fn_lookup_insert. Qed.

Lemma one_conn n p c : (map_to_list (heap (mux n))).*1 = [1%positive] -> heap (mux n) !! p = Some c -> p = 1%positive /\ c = get_conn 1%positive n.
Proof.
  intros Hl Hp. assert (Hin : p ∈ (map_to_list (heap (mux n))).*1).
  { apply list_elem_of_fmap. exists (p, c). split; [done | by apply elem_of_map_to_list]. }
  rewrite Hl in Hin. apply list_elem_of_singleton in Hin as ->. split; [done|].
  exact (eq_sym (f_equal (default run_new) Hp)).
Qed.

(** Its two connections. *)
Lemma net_conns k c : conn_of net k = Some c ->
  (k = (true, 1%positive) /\ c = get_conn 1%positive dialler3) \/ (k = (false, 1%positive) /\ c = get_conn 1%positive accepter5).
Proof.
  destruct k as [x p]. unfold conn_of. cbn [fst snd]. destruct x; [rewrite net_true | rewrite net_false];
    intros [-> ->]%one_conn; auto; by vm_compute.
Qed.

Definition net_ids (x : bool) : ConnectionID := if x then sample_cid x01 else sample_cid x02.

Lemma net_cids : localCID (get_conn 1%positive dialler3) = net_ids true /\ remoteCID (get_conn 1%positive dialler3) = net_ids false /\
  localCID (get_conn 1%positive accepter5) = net_ids false /\ remoteCID (get_conn 1%positive accepter5) = net_ids true.
Proof. split_and!; by vm_compute. Qed.

Lemma net_sole x : sole net (net_ids x) (net_ids (negb x)).
Proof.
  assert (Hne : net_ids true <> net_ids false) by done. destruct net_cids as (E1 & E2 & E3 & E4).
  intros k k' c c' [[-> ->]|[-> ->]]%net_conns [[-> ->]|[-> ->]]%net_conns; rewrite ?E1, ?E2, ?E3, ?E4; clear E1 E2 E3 E4;
    destruct x; cbn [negb]; intros [|] [|]; congruence.
Qed.

Lemma uses_wrote p id s' calls out n i : i <> id ->
  u_wrote (usage (uses_stream p id s' calls out n) p) i = u_wrote (usage n p) i.
Proof. intros Hne. unfold uses_stream. cbn [usage]. rewrite fn_lookup_insert. by apply fn_lookup_insert_ne. Qed.

Lemma net_small x : small (end_in net (x, 1%positive) (get_conn 1%positive (net x))).
Proof.
  split; [destruct x; [rewrite net_true | rewrite net_false]; by vm_compute|]. intros i. unfold end_in, end_of. cbn [wrote fst snd].
  destruct x; [rewrite net_true | rewrite net_false].
  - destruct (decide (i = 1)) as [->|Hne]; [by vm_compute|]. unfold dialler3. by rewrite uses_wrote.
  - destruct (decide (i = 2)) as [->|Hne]; [by vm_compute|]. unfold accepter5. by rewrite uses_wrote.
Qed.

Lemma net_accepted : conn_of net (false, 1%positive) = Some (get_conn 1%positive accepter5).
Proof. unfold conn_of. cbn [fst snd]. rewrite net_false. apply has_conn. by vm_compute. Qed.

Lemma net_soles (d := get_conn 1%positive accepter5) : sole net (localCID d) (remoteCID d) /\ sole net (remoteCID d) (localCID d).
Proof. destruct net_cids as (_ & _ & E3 & E4). unfold d. rewrite E3, E4. exact (conj (net_sole false) (net_sole true)). Qed.

Lemma accepted_is_paired_witness : exists D, duo_reach true D /\ D true = end_in net (true, 1%positive) (get_conn 1%positive dialler3) /\
  D false = end_in net (false, 1%positive) (get_conn 1%positive accepter5).
Proof.
  destruct (accepted_is_paired true net (false, 1%positive) (get_conn 1%positive accepter5) net_reach net_accepted ltac:(by vm_compute)
    (proj1 net_soles) (proj2 net_soles)) as (a & c & Ha & Hi & _ & _ & HD).
  destruct (net_conns _ _ Ha) as [[-> ->]|[-> ->]]; [exact HD | vm_compute in Hi; discriminate Hi].
Defined.

Lemma net_feeds : feeds (end_in net (false, 1%positive) (get_conn 1%positive accepter5)) (end_in net (true, 1%positive) (get_conn 1%positive dialler3)) 1 2.
Proof.
  exists (default opened (streams (table (get_conn 1%positive accepter5)) !! 2)). split; [by vm_compute|]. left. split; [done | by vm_compute].
Qed.

Lemma network_integrity_witness : u_got (usage (net false) 1%positive) 2 = abc /\
  intact (end_in net (false, 1%positive) (get_conn 1%positive accepter5)) (end_in net (true, 1%positive) (get_conn 1%positive dialler3)) 1 2.
Proof.
  split; [rewrite net_false; by vm_compute|].
  destruct (network_integrity true net (false, 1%positive) (get_conn 1%positive accepter5) net_reach net_accepted ltac:(by vm_compute)
    (proj1 net_soles) (proj2 net_soles)) as (a & c & Ha & Hi & _ & _ & H).
  destruct (net_conns _ _ Ha) as [[-> ->]|[-> ->]]; [|vm_compute in Hi; discriminate Hi].
  pose proof (net_small true) as S1. pose proof (net_small false) as S2. rewrite net_true in S1. rewrite net_false in S2.
  destruct (H S1 S2 1 2) as [Hf _]. exact (Hf net_feeds).
Defined.

(** ** A datagram that comes again after the close *)

(** The accepting application closes; then the datagram with the data comes a second time. *)
Definition accepter6 : Node := at_conn 1%positive (CloseWithError (ms 70) ErrorNoError [] (get_conn 1%positive accepter5)) accepter5.
Definition accepter7 : Node := reads accepter6 (nth 1 on_network []).
Definition accepter8 : Node := empties 2%positive accepter7.
Definition incoming8 : Stream := default opened (streams (table (get_conn 2%positive accepter8)) !! 2).
Definition read8 := Read (ms 50) incoming8 10.
Definition accepter9 : Node := uses_stream 2%positive 2 read8.1.1 read8.2 (bytes_read read8.1.2) accepter8.

Definition net9 : bool -> Node := <[false := accepter9]> (<[false := accepter8]> (<[false := accepter7]> (<[false := accepter6]> net))).

Lemma net9_reach : sys_reach true net9.
Proof.
  apply (sys_at _ false accepter8); [at_end | |].
  2: { apply (uses_step _ 2%positive accepter8 2 incoming8); [by vm_compute | vm_compute; reflexivity |]. apply op_read. }
  apply (sys_at _ false accepter7); [at_end | |apply empties_step; by vm_compute].
  apply (sys_at _ false accepter6); [at_end | |].
  2: { apply (reads_step _ dialler3); [|by vm_compute | vm_compute; lia]. rewrite fn_lookup_insert_ne by done. apply net_true. }
  apply (sys_at _ false accepter5); [apply net_false | apply net_reach |].
  apply node_own; [apply has_conn; by vm_compute | by apply step_close | by vm_compute].
Qed.

(** C29. A closed connection can come back. A datagram that opens a stream and
    comes once more after the accepting end has closed and forgotten the
    connection is taken for a new connection with the same IDs, and its bytes,
    which were written once, are read a second time there. *)
Theorem late_syn_reopens : exists (S : bool -> Node) (a b b' : bool * conn_ptr) (c d d' : Connection),
  sys_reach true S /\ b <> b' /\ conn_of S a = Some c /\ conn_of S b = Some d /\ conn_of S b' = Some d' /\
  localCID d' = localCID d /\ remoteCID d' = remoteCID d /\ remoteCID d = localCID c /\
  closeReported (life d) = true /\ closeReported (life d') = false /\
  wrote (end_in S a c) 1 = abc /\ got (end_in S b d) 2 = abc /\ got (end_in S b' d') 2 = abc.
Proof.
  exists net9, (true, 1%positive), (false, 1%positive), (false, 2%positive).
  exists (get_conn 1%positive dialler3), (get_conn 1%positive accepter9), (get_conn 2%positive accepter9).
  assert (Ef : net9 false = accepter9) by apply fn_lookup_insert.
  assert (Et : net9 true = dialler3) by (unfold net9; rewrite !fn_lookup_insert_ne by done; apply net_true).
  split; [apply net9_reach|]. split; [done|]. unfold conn_of, end_in, end_of. cbn [fst snd wrote got]. rewrite Ef, Et.
  split_and!; first [apply has_conn; by vm_compute | vm_compute; reflexivity].
Qed.
End Sample.
