(* ===== verification/Interop.v ===== *)
(** * The interop server (src/cmd/interop-server/main.go)

    The packet echo server: its start, its loop over a UDP socket, whose calls
    are those of the class [Socket], and the lines it prints. *)

From stdpp Require Import strings.
From S2P Require Import Prelude Constants Cid Frame Packet Connection ConnReach Multiplexer Batch ReadLoop.

Definition echo_packet (pkt : Packet) (data : list byte) : Packet :=
  MkPacket VersionV2 (SourceCID pkt) (DestinationCID pkt) (u32 (Sequence pkt + 1))
    (SourceStreamID pkt) (DestinationStreamID pkt) [StreamF (MkStreamFrame false false 0 data)] 0 false 0.

Fixpoint echo_frames (pkt : Packet) (fs : list Frame) : list (list byte) :=
  match fs with
  | [] => []
  | StreamF sf :: fs =>
      if (length (Data sf) =? 0)%nat then echo_frames pkt fs
      else MarshalPacket (echo_packet pkt (Data sf)) :: echo_frames pkt fs
  | _ :: fs => echo_frames pkt fs
  end.

(** The datagrams written back, or the error printed. *)
Definition echo (data : list byte) : Prelude.outcome (list (list byte)) :=
  pkt ← UnmarshalPacket data; Ok (echo_frames pkt (Frames pkt)).

(** What goes to standard error. *)
Inductive line :=
  | ResolveError | ListenError | Ready (port : Z)
  | ReadError | UnmarshalError | WriteError | Echoed (n : nat) (a : option addr).

#[export] Instance line_eq_dec : EqDecision line.
Proof. solve_decision. Defined.

Definition interopBuffer : Z := 2000.

Section Server.
Context {S : Type} `{Socket S}.

(** The loop over the frames of a packet from [a]. *)
Fixpoint serve_frames (pkt : Packet) (a : option addr) (fs : list Frame) (s : S) : S * list line :=
  match fs with
  | [] => (s, [])
  | StreamF sf :: fs =>
      if (length (Data sf) =? 0)%nat then serve_frames pkt a fs s
      else
        let '(s, failed) := WriteTo (MarshalPacket (echo_packet pkt (Data sf))) a s in
        let '(s, log) := serve_frames pkt a fs s in
        (s, (if failed : bool then WriteError else Echoed (length (Data sf)) a) :: log)
  | _ :: fs => serve_frames pkt a fs s
  end.

(** One pass of the loop of [main]. *)
Definition serve_round (s : S) : S * list line :=
  let '(s, r) := ReadFrom interopBuffer s in
  match r with
  | None => (s, [ReadError])
  | Some m =>
      match UnmarshalPacket (Buffers m) with
      | Ok pkt => serve_frames pkt (msg_addr m) (Frames pkt) s
      | _ => (s, [UnmarshalError])
      end
  end.

(** [k] passes. *)
Fixpoint serve (k : nat) (s : S) : S * list line :=
  match k with
  | O => (s, [])
  | Datatypes.S k =>
      let '(s, log1) := serve_round s in
      let '(s, log2) := serve k s in (s, log1 ++ log2)
  end.

(** [main], for [k] passes of its loop: [resolved] says whether the address
    resolves, [listened] is the socket and its port, if it can be opened. The
    process exits with status 1 when one of them fails, and otherwise never. *)
Definition main (resolved : bool) (listened : option (S * Z)) (k : nat) : option S * list line :=
  if negb resolved then (None, [ResolveError])
  else match listened with
  | None => (None, [ListenError])
  | Some (s, port) => let '(s, log) := serve k s in (Some s, Ready port :: log)
  end.

End Server.

(** The data a packet carries, frame by frame. *)
Definition payloads (fs : list Frame) : list (list byte) :=
  omap (fun f => match f with StreamF sf => if (length (Data sf) =? 0)%nat then None else Some (Data sf) | _ => None end) fs.

Lemma echo_frames_payloads pkt fs :
  echo_frames pkt fs = (fun data => MarshalPacket (echo_packet pkt data)) <$> payloads fs.
Proof.
  induction fs as [|f fs IH]; [done|]. destruct f as [| | |sf| | | | | | | | | | | | |]; try done.
  cbn. destruct (length (Data sf) =? 0)%nat; [done|]. cbn. by rewrite IH.
Qed.

Lemma echo_packet_ok pkt data : Packet_ok pkt -> Z.of_nat (length data) < 2 ^ 16 -> Packet_ok (echo_packet pkt data).
Proof.
  intros [] Hl. split; try done; cbn.
  - unfold u32, is_u32. apply Z.mod_pos_bound. done.
  - apply Forall_singleton. by split.
Qed.

Lemma payloads_short pkt data : Packet_ok pkt -> data ∈ payloads (Frames pkt) -> Z.of_nat (length data) < 2 ^ 16.
Proof.
  intros [_ _ _ _ _ _ Hf _] (f & Hin & E)%list_elem_of_omap. rewrite Forall_forall in Hf. specialize (Hf f Hin).
  destruct f; try done. destruct (length (Data _) =? 0)%nat; [done|]. injection E as <-. apply Hf.
Qed.

(** The server answers every datagram that decodes with one packet for each
    STREAM frame with data, in order, addressed back to the sender. *)
Theorem echo_answers (bytes : list byte) (pkt : Packet) : UnmarshalPacket bytes = Ok pkt -> exists answers,
  echo bytes = Ok answers /\
  Forall2 (fun data answer => exists p, UnmarshalPacket answer = Ok p /\
    DestinationCID p = SourceCID pkt /\ SourceCID p = DestinationCID pkt /\
    DestinationStreamID p = SourceStreamID pkt /\ SourceStreamID p = DestinationStreamID pkt /\
    payloads (Frames p) = [data]) (payloads (Frames pkt)) answers.
Proof.
  intros E. pose proof (unmarshal_safe bytes) as Hs. rewrite E in Hs. destruct Hs as [Hok _].
  eexists. unfold echo. rewrite E. split; [done|]. rewrite echo_frames_payloads. apply Forall2_fmap_r, Forall_Forall2_diag.
  apply Forall_forall. intros data Hd. apply (payloads_short pkt) in Hd as Hl; [|done].
  assert (0 < length data)%nat.
  { apply list_elem_of_omap in Hd as (f & _ & Ef). destruct f; try done. case_match; [done|].
    injection Ef as <-. apply Nat.eqb_neq in H. lia. }
  unfold compose. rewrite unmarshal_marshal by (by apply echo_packet_ok). eexists. split_and!; [done..|]. cbn.
  rewrite (proj2 (Nat.eqb_neq _ _)); [done | lia].
Qed.

(** The answers carry the version before the current one, so a multiplexer of
    this library drops every one of them. *)
Theorem echo_dropped (bytes : list byte) (answers : list (list byte)) (answer : list byte) (now : Z)
    (random : option (list byte)) (a : option addr) (m : Multiplexer) :
  echo bytes = Ok answers -> answer ∈ answers -> handleDatagram now random answer a m = (m, None).
Proof.
  unfold echo. pose proof (unmarshal_safe bytes) as Hs. destruct (UnmarshalPacket bytes) as [pkt| | |]; try done.
  intros [= <-]. rewrite echo_frames_payloads. intros (data & -> & Hd)%list_elem_of_fmap. destruct Hs as [Hok _].
  unfold handleDatagram. rewrite unmarshal_marshal; [done|].
  by apply echo_packet_ok; [|apply (payloads_short pkt)].
Qed.

(** ** The loop *)

(** The answers to a datagram, to its sender. *)
Definition answers (x : datagram) : list datagram :=
  match echo x.1 with Ok l => (fun b => (b, x.2)) <$> l | _ => [] end.

Section Serving.
Context {S : Type} `{Socket S} {pending sent : S -> list datagram} `{!ReadLaws S pending} `{!SocketLaws S sent}.
(** Sending and receiving do not get in each other's way. *)
Context (WriteTo_pending : forall b a s, pending (WriteTo b a s).1 = pending s)
  (ReadFrom_sent : forall n s, sent (ReadFrom n s).1 = sent s).

(** [out] was to be sent and was, but for what a line reports as refused. *)
Definition sends (out : list datagram) (log : list line) (s s' : S) : Prop := exists went,
  sent s' = sent s ++ went /\ went `sublist_of` out /\ (WriteError ∉ log -> went = out).

Lemma sends_app out1 out2 log1 log2 s s1 s2 : sends out1 log1 s s1 -> sends out2 log2 s1 s2 ->
  sends (out1 ++ out2) (log1 ++ log2) s s2.
Proof using Type.
  intros (w1 & E1 & S1 & H1) (w2 & E2 & S2 & H2). exists (w1 ++ w2). split_and!.
  - by rewrite E2, E1, app_assoc.
  - by apply sublist_app.
  - intros [? ?]%not_elem_of_app. by rewrite H1, H2.
Qed.

Lemma sends_none log s s' : sent s' = sent s -> sends [] log s s'.
Proof using Type. intros E. exists []. by rewrite E, app_nil_r. Qed.

Lemma write_sends b a s (r := WriteTo b a s) n : sends [(b, a)] [if r.2 then WriteError else Echoed n a] s r.1.
Proof using SocketLaws0.
  pose proof (WriteTo_sent b a s) as Hw. fold r in Hw. destruct r as [s1 [|]]; cbn [fst snd].
  - exists []. rewrite Hw, app_nil_r. split_and!; [done | apply sublist_nil_l | intros Hn; exfalso; apply Hn, list_elem_of_here].
  - by exists [(b, a)].
Qed.

Lemma serve_frames_sends pkt a fs s : let '(s', log) := serve_frames pkt a fs s in
  pending s' = pending s /\ ReadError ∉ log /\ sends ((fun b => (b, a)) <$> echo_frames pkt fs) log s s'.
Proof using All.
  revert s. induction fs as [|f fs IH]; intros s; cbn [serve_frames echo_frames].
  { split_and!; [done | apply not_elem_of_nil | by apply sends_none]. }
  destruct f as [| | |sf| | | | | | | | | | | | |]; try apply IH. destruct (length (Data sf) =? 0)%nat; [apply IH|].
  set (b := MarshalPacket _). pose proof (write_sends b a s (length (Data sf))) as Hw. pose proof (WriteTo_pending b a s) as Hp.
  destruct (WriteTo b a s) as [s1 failed]. specialize (IH s1). destruct (serve_frames pkt a fs s1) as [s2 log].
  destruct IH as (I1 & I2 & I3). cbn [fst snd] in *. split_and!; [congruence | |by apply (sends_app [(b, a)] _ [_] _ s s1)].
  intros [E|?]%elem_of_cons; [by destruct failed | done].
Qed.

(** A pass answers the next datagram, or none when the read failed. *)
Lemma serve_round_sends s : Forall (fun x => Z.of_nat (length x.1) <= interopBuffer) (pending s) ->
  let '(s', log) := serve_round s in
  (exists x, pending s = x :: pending s' /\ ReadError ∉ log /\ sends (answers x) log s s') \/
  (pending s' = pending s /\ log = [ReadError] /\ sends [] log s s').
Proof using All.
  intros Hf. unfold serve_round. pose proof (ReadFrom_first interopBuffer s) as Hr. pose proof (ReadFrom_sent interopBuffer s) as Hs.
  destruct (ReadFrom interopBuffer s) as [s1 [m|]]; cbn [fst] in Hs; [|right; split_and!; [done | done | by apply sends_none]].
  destruct Hr as (x & Hp & ->). rewrite Hp in Hf. apply Forall_cons in Hf as [Hx _].
  destruct (cut interopBuffer x) as [data a] eqn:Ec. pose proof (cut_fits interopBuffer x Hx) as E. rewrite Ec in E. unfold as_datagram in E. cbn in E.
  cbn [Buffers msg_addr]. assert (Ea : answers x = match echo data with Ok l => (fun b => (b, a)) <$> l | _ => [] end) by (unfold answers; by rewrite <- E).
  unfold echo in Ea.
  assert (Hl : forall out log s2, sends out log s1 s2 -> sends out log s s2) by (intros ??? (w & Ew & ?); exists w; by rewrite Ew, Hs).
  destruct (UnmarshalPacket data) as [pkt| | |].
  2-4: left; exists x; rewrite Ea; split_and!; [done | by intros ?%list_elem_of_singleton | by apply sends_none].
  pose proof (serve_frames_sends pkt a (Frames pkt) s1) as Hsf. destruct (serve_frames pkt a (Frames pkt) s1) as [s2 log].
  destruct Hsf as (F1 & F2 & F3). left. exists x. rewrite Hp, F1, Ea. split_and!; [done | done | by apply Hl].
Qed.

(** The server answers, one after another, a beginning of the datagrams that have
    arrived, one a pass unless a read fails, each with one packet per STREAM frame
    with data, to its sender; what is not sent is what a line reports as failed. *)
Theorem server_answers (k : nat) (s : S) : Forall (fun x => Z.of_nat (length x.1) <= interopBuffer) (pending s) ->
  let '(s', log) := serve k s in exists xs, pending s = xs ++ pending s' /\
    k = (length xs + length (filter (ReadError =.) log))%nat /\ sends (mjoin (answers <$> xs)) log s s'.
Proof using All.
  revert s. induction k as [|k IH]; intros s Hf; cbn [serve]; [by exists []; split_and!; [..|apply sends_none]|].
  pose proof (serve_round_sends s Hf) as Hr. destruct (serve_round s) as [s1 log1].
  assert (Hf1 : Forall (fun x => Z.of_nat (length x.1) <= interopBuffer) (pending s1)).
  { destruct Hr as [(x & E & _)|[E _]]; rewrite E in *; [by apply Forall_cons in Hf as [_ ?]|done]. }
  specialize (IH s1 Hf1). destruct (serve k s1) as [s2 log2]. destruct IH as (xs & E2 & Ek & Hs2).
  rewrite filter_app, length_app. destruct Hr as [(x & E1 & Hn & Hs1)|(E1 & -> & Hs1)].
  - exists (x :: xs). rewrite E1, E2. split_and!; [done | | by eapply (sends_app (answers x))].
    assert (filter (ReadError =.) log1 = []) as ->; [|cbn; lia]. apply elem_of_nil_inv. by intros y [<- Hy]%list_elem_of_filter.
  - exists xs. rewrite <- E1, E2. change (filter (ReadError =.) [ReadError]) with [ReadError].
    split_and!; [done | cbn; lia | by apply (sends_app [] _ [ReadError] _ s s1)].
Qed.
End Serving.

(** ** Witness: a socket that keeps what it is given; the second write fails. *)

Record wire_socket := MkWire { w_in : list datagram; w_out : list datagram; w_tries : nat }.

#[export] Instance wire_socket_calls : Socket wire_socket := {
  WriteTo b a s :=
    let failed := (w_tries s =? 1)%nat in
    (MkWire (w_in s) (w_out s ++ (if failed then [] else [(b, a)])) (S (w_tries s)), failed);
  WriteBatch _ s := (s, None);
  ReadFrom size s := match w_in s with [] => (s, None) | x :: xs => (MkWire xs (w_out s) (w_tries s), Some (cut size x)) end;
  ReadBatch _ _ s := (s, None)
}.

#[export] Instance wire_reads : ReadLaws wire_socket w_in.
Proof. split; [|done]. intros size [[|x xs] out n]; cbn; [done | by exists x]. Qed.

#[export] Instance wire_writes : SocketLaws wire_socket w_out.
Proof. split; [|done]. intros b a s. cbn. done. Qed.

Definition said (data : list byte) : datagram := (MarshalPacket (dialled 1 false data), Some "peer"%string).

(** Three datagrams arrive, one of them malformed. *)
Definition wire3 : wire_socket := MkWire [said [x61]; ([x00], Some "peer"%string); said [x62; x63]] [] 0.

Lemma server_answers_witness : let '(s', log) := serve 4 wire3 in
  log = [Echoed 1 (Some "peer"%string); UnmarshalError; WriteError; ReadError] /\
  exists xs, w_in wire3 = xs ++ w_in s' /\ length xs = 3%nat /\ w_out s' `sublist_of` mjoin (answers <$> xs).
Proof.
  pose proof (server_answers (pending := w_in) (sent := w_out) (fun _ _ _ => eq_refl)
    (fun n s => ltac:(by destruct s as [[|] ? ?])) 4 wire3) as P.
  assert (El : (serve 4 wire3).2 = [Echoed 1 (Some "peer"%string); UnmarshalError; WriteError; ReadError]) by (by vm_compute).
  destruct (serve 4 wire3) as [s' log]. cbn [snd] in El. subst log. split; [done|].
  destruct P as (xs & P1 & P2 & (went & P3 & P4 & _)); [repeat constructor; by vm_compute|].
  exists xs. split_and!; [done | | by rewrite P3].
  change (filter _ _) with [ReadError] in P2. cbn in P2. lia.
Defined.
