(* ===== verification/Entry.v ===== *)
(** * Entry points (src/udx.go)

    [Listen] and [Dial] of the package, over parameters for
    [net.ResolveUDPAddr] and [net.ListenUDP]. The options ([Clock]) only choose the
    clock. *)

From stdpp Require Import strings.
From S2P Require Import Prelude Constants Cid Frame Packet Stream Connection ConnReach Dispatch Multiplexer.

Inductive entry_error := ErrResolving | ErrListening | ErrBinding.

Section Entry.
(** The address a name stands for, and the local address of a socket bound to
    an address, or to any port without one. *)
Context (ResolveUDPAddr : string -> option addr) (ListenUDP : option addr -> option addr).

Definition Listen (name : string) : Multiplexer + entry_error :=
  match ResolveUDPAddr name with
  | None => inr ErrResolving
  | Some udpAddr =>
      match ListenUDP (Some udpAddr) with
      | None => inr ErrListening
      | Some laddr => inl (NewMultiplexer (Some laddr))
      end
  end.

(** The package's [Dial]: the connection, in the multiplexer made for it, which
    the caller does not get. *)
Definition DialName (now : Z) (random1 random2 : nat -> option (list byte)) (name : string)
    : Prelude.outcome (Multiplexer * conn_ptr) + entry_error :=
  match ResolveUDPAddr name with
  | None => inr ErrResolving
  | Some udpAddr =>
      match ListenUDP None with
      | None => inr ErrBinding
      | Some laddr => inl (Multiplexer.Dial now random1 random2 (Some udpAddr) (NewMultiplexer (Some laddr)))
      end
  end.

(** Closing the only connection of a multiplexer. *)
Lemma close_reports now c : closeOnce (life c) = false ->
  closeReported (life (CloseConn now c)) = closeReported (life c) || onClose c /\
  localCID (CloseConn now c) = localCID c.
Proof.
  intros Ho. unfold CloseConn, CloseWithError, closeInternal. rewrite Ho.
  pose proof (sendFrames_same now [ConnectionCloseFrame ErrorNoError 0 []] (close_begin c)) as Hs.
  set (c1 := sendFrames now _ _) in *. clearbody c1. pose proof (same_life Hs) as El.
  injection Hs as E1 _ _ _ _ _ E2. cbn [close_end life closeReported localCID]. by rewrite E1, E2, El.
Qed.

Lemma close_last now m p c : closeOnce (life c) = false -> closeReported (life c) = false -> onClose c = true ->
  connections m = {[CIDString (localCID c) := p]} -> mux_closed m = false ->
  let m' := conn_changed p c (CloseConn now c) m in ConnectionCount m' = O /\ mux_closed m' = false.
Proof.
  intros Ho Hr Hc Hm Hx. cbv zeta. destruct (close_reports now c Ho) as [Er Ei]. unfold conn_changed.
  rewrite Er, Hr, Hc, Ei. cbn [orb andb negb]. unfold removeConnection, set_conn, ConnectionCount.
  cbn [connections mux_closed]. rewrite Hm, delete_singleton_eq. done.
Qed.

(** Closing a dialled connection takes it out of its multiplexer, and leaves
    the multiplexer with its socket and goroutines open: nobody can close
    it. *)
Theorem dialled_mux_stays_open (now now' : Z) (random1 random2 : nat -> option (list byte)) (name : string)
    (m : Multiplexer) (p : conn_ptr) : DialName now random1 random2 name = inl (Ok (m, p)) ->
  ConnectionCount m = 1%nat /\ exists c, heap m !! p = Some c /\ ConnState c = ConnStateEstablished /\
  let m' := conn_changed p c (CloseConn now' c) m in ConnectionCount m' = O /\ mux_closed m' = false.
Proof.
  unfold DialName, Multiplexer.Dial. destruct (ResolveUDPAddr name) as [a|]; [|done]. destruct (ListenUDP None) as [l|]; [|done].
  destruct (RandomConnectionID random1 _) as [local| | |]; cbn [mbind outcome_bind]; try done.
  destruct (RandomConnectionID random2 _) as [remote| | |]; cbn [mbind outcome_bind]; try done. cbv zeta.
  set (c0 := establish _).
  assert (Ho : closeOnce (life c0) = false) by done. assert (Hr : closeReported (life c0) = false) by done.
  assert (Hst : connState (life c0) = ConnStateEstablished) by done.
  pose proof (sendFrames_same now [StreamF (MkStreamFrame false true 0 [])] c0) as Hs.
  set (c := sendFrames now _ c0) in *. intros [= <- <-]. split; [exact (map_size_insert_None ∅ _ _ (lookup_empty _))|].
  assert (El0 : localCID c0 = local) by done. assert (Eo0 : onClose c0 = true) by done.
  clearbody c c0. exists c. assert (El : life c = life c0) by (exact (same_life Hs)).
  assert (Eo : onClose c = true) by (rewrite <- Eo0; by injection Hs).
  assert (Ec : localCID c = local) by (rewrite <- El0; by injection Hs).
  split; [apply lookup_insert_eq|]. split; [unfold ConnState; by rewrite El, Hst|].
  apply close_last; [by rewrite El | by rewrite El | done | by rewrite Ec | done].
Qed.
End Entry.
